(** * Flick: soft takeover, tap tempo, mode controller and effect kernels

    A shallow embedding of the Flick pedal firmware (flick.cpp and the effect
    classes next to it) together with the properties its specification states.

    Numbers.  A C++ [float] is a rational ([Q]).  Where single-precision
    rounding decides what the program does (the difference that a soft
    takeover compares with its threshold, the conversion and quotient of the
    tap-tempo estimate, the delay smoother, the Hadamard butterflies) the
    operation is followed by [Binary32.round], round-to-nearest-even onto the
    binary32 grid with its subnormal numbers; its exponent range is not
    bounded above, so a result beyond the largest float stands for an
    overflow.  Elsewhere products, sums and quotients by non-zero constants
    are exact, so that every controller function below computes.  The two
    kernels whose statements need irrational numbers (the Hadamard
    normalisation [1/sqrt 8] and the oscillator's [sinf]/[atanf]) are modelled
    over [R].  Infinities and NaN inputs are outside these models; the one
    place where the source divides by a quantity that can be zero (the
    oscillator's soft square) returns [option] so that the quotient does not
    silently become a number.  [uint32_t] clock values are [Z] with the
    wrap-around modulo [2^32] written out; [int] values are [Z]. *)

From Stdlib Require Import ZArith QArith Qabs Qround Qreals List Bool Lia Psatz.
From Stdlib Require Import Reals.
Import ListNotations.

(** ** Single precision

    [round q] is the binary32 number nearest to [q], ties to the even
    significand.  [tiny] is the smallest positive subnormal number, [2^-149];
    a magnitude of [X] steps of [tiny] is rounded to a whole number of steps
    of [2^spacing], which leaves a significand of 24 bits. *)

Module Binary32.

(** The integer nearest to [q], ties to even. *)
Definition rne (q : Q) : Z :=
  let f := Qfloor q in
  match Qcompare (q - inject_Z f) (1 # 2) with
  | Lt => f
  | Gt => (f + 1)%Z
  | Eq => if Z.even f then f else (f + 1)%Z
  end.

Definition tiny : Q := 1 # (2 ^ 149).

Definition spacing (x : Q) : Z := Z.max 0 (Z.log2 (Qfloor (x / tiny)) - 23).

Definition round_pos (x : Q) : Q :=
  let s := inject_Z (2 ^ spacing x) in
  inject_Z (rne (x / tiny / s)) * s * tiny.

Definition round (q : Q) : Q :=
  Qred (if (Qnum q <? 0)%Z then - round_pos (- q) else round_pos q).

(** The numbers single precision holds. *)
Definition representable (q : Q) : Prop := round q == q.

End Binary32.

(** ** Rational model of [float] *)

Module Float.

Definition float := Q.

(** A literal with the suffix [f]. *)
Definition f32 (q : Q) : float := Binary32.round q.
(** [a + b], [a - b], [a * b] and [a / b] in single precision. *)
Definition fadd (a b : float) : float := Binary32.round (a + b).
Definition fsub (a b : float) : float := Binary32.round (a - b).
Definition fmul (a b : float) : float := Binary32.round (a * b).
Definition fdiv (a b : float) : float := Binary32.round (a / b).

(** [a >= b] *)
Definition geb (a b : float) : bool := Qle_bool b a.
(** [a > b] *)
Definition gtb (a b : float) : bool := negb (Qle_bool a b).
(** [a < b] *)
Definition ltb (a b : float) : bool := negb (Qle_bool b a).
(** [a == b] *)
Definition eqb (a b : float) : bool := Qeq_bool a b.
(** [std::fabs] *)
Definition fabs (a : float) : float := Qabs a.

End Float.

Import Float.

(** ** parameter_capture.cpp: soft takeover

    [daisy::Parameter::Process()] belongs to libDaisy; each call of a capture
    method receives the reading it returns as the argument [knob]. *)

Module KnobCapture.

Record t := mk {
  captured_knob_value_ : float;
  frozen_value_ : float;
  is_frozen_ : bool;
  threshold_ : float
}.

(** The constructor: pass-through, nothing captured. *)
Definition make (threshold : float) : t :=
  mk 0 0 false threshold.

(** The header's default threshold argument, [0.05f]. *)
Definition default_threshold : float := Eval vm_compute in f32 0.05.

Definition Capture (kc : t) (knob : float) (frozen_value : float) : t :=
  mk knob frozen_value true (threshold_ kc).

Definition Process (kc : t) (knob : float) : float * t :=
  let current_knob_value := knob in
  if negb (is_frozen_ kc) then (current_knob_value, kc)
  else if geb (fabs (fsub current_knob_value (captured_knob_value_ kc))) (threshold_ kc)
  then (current_knob_value,
        mk (captured_knob_value_ kc) (frozen_value_ kc) false (threshold_ kc))
  else (frozen_value_ kc, kc).

Definition Reset (kc : t) : t :=
  mk (captured_knob_value_ kc) (frozen_value_ kc) false (threshold_ kc).

(** Modelled from the spec: [IsFrozen()] is used by flick.cpp but the header
    that declares it is not among the sources; the spec's CaptureState has an
    "armed/disarmed flag", which is [is_frozen_]. *)
Definition IsFrozen (kc : t) : bool := is_frozen_ kc.

(** Successive [Process()] calls, one per reading; the values returned, in
    order, and the final object. *)
Fixpoint ProcessAll (kc : t) (readings : list float) : list float * t :=
  match readings with
  | [] => ([], kc)
  | r :: rest =>
      let (v, kc1) := Process kc r in
      let (vs, kc2) := ProcessAll kc1 rest in
      (v :: vs, kc2)
  end.

End KnobCapture.

Module SwitchCapture.

Record t := mk {
  captured_switch_value_ : Z;
  is_frozen_ : bool;
  frozen_value_ : Z
}.

Definition make : t := mk 0 false 0.

(** [position] is what [hw_.GetToggleswitchPosition(switch_idx_)] returns. *)
Definition Capture (sc : t) (position : Z) (frozen_value : Z) : t :=
  mk position true frozen_value.

Definition Process (sc : t) (position : Z) : Z * t :=
  let current_value := position in
  if negb (is_frozen_ sc) then (current_value, sc)
  else if negb (current_value =? captured_switch_value_ sc)%Z
  then (current_value, mk (captured_switch_value_ sc) false (frozen_value_ sc))
  else (frozen_value_ sc, sc).

Definition Reset (sc : t) : t :=
  mk (captured_switch_value_ sc) false (frozen_value_ sc).

(** Successive [Process()] calls, one per switch position read. *)
Fixpoint ProcessAll (sc : t) (positions : list Z) : list Z * t :=
  match positions with
  | [] => ([], sc)
  | p :: rest =>
      let (v, sc1) := Process sc p in
      let (vs, sc2) := ProcessAll sc1 rest in
      (v :: vs, sc2)
  end.

End SwitchCapture.

(** ** DaisySP primitives used by the effect classes

    [daisysp::DelayLine] and [daisysp::fonepole] belong to DaisySP, not to
    this repository.  [fonepole] is its one-line one-pole smoother,
    [out += coeff * (in - out)], three single-precision operations.  The delay
    line is the library's ring buffer: [Write] stores at the write pointer
    and steps it backwards (the unsigned [write_ptr_ - 1 + max_size] is
    [write_ptr_ + max_size - 1]), [Read] interpolates between the two cells
    [delay_] and [delay_ + 1] ahead of it, [Reset] zeroes every cell. *)

Definition fonepole (out in_ coeff : float) : float :=
  fadd out (fmul coeff (fsub in_ out)).

Module DelayLine.

Record t := mk {
  max_size : nat;
  line_ : list float;
  write_ptr_ : nat;
  frac_ : float;
  delay_ : nat
}.

Definition cell (d : t) (i : nat) : float := nth (i mod max_size d) (line_ d) 0.

Fixpoint store (l : list float) (i : nat) (v : float) : list float :=
  match l, i with
  | [], _ => []
  | _ :: tl, O => v :: tl
  | x :: tl, S j => x :: store tl j v
  end.

Definition Reset (d : t) : t :=
  mk (max_size d) (repeat 0 (max_size d)) 0 (frac_ d) 1.

Definition Init (d : t) : t := Reset d.

(** [static_cast<int32_t>(delay)]: the integer part, rounding toward zero. *)
Definition trunc (x : float) : Z := Z.quot (Qnum x) (Zpos (Qden x)).

(** [SetDelay(float)]; a negative integer part becomes a huge [size_t] and
    takes the [max_size - 1] branch. *)
Definition SetDelay (d : t) (delay : float) : t :=
  let int_delay := trunc delay in
  mk (max_size d) (line_ d) (write_ptr_ d)
     (delay - inject_Z int_delay)
     (if ((0 <=? int_delay)%Z && (int_delay <? Z.of_nat (max_size d))%Z)%bool
      then Z.to_nat int_delay else (max_size d - 1)%nat).

Definition Write (d : t) (sample : float) : t :=
  mk (max_size d) (store (line_ d) (write_ptr_ d) sample)
     ((write_ptr_ d + max_size d - 1) mod max_size d)%nat
     (frac_ d) (delay_ d).

Definition Read (d : t) : float :=
  let a := cell d (write_ptr_ d + delay_ d) in
  let b := cell d (write_ptr_ d + delay_ d + 1) in
  a + (b - a) * frac_ d.

(** Every cell holds silence. *)
Definition silent (d : t) : Prop := line_ d = repeat 0 (max_size d).

End DelayLine.

(** ** delay_effect.cpp *)

Module DelayEffect.

Record t := mk {
  del_L_ : DelayLine.t;
  del_R_ : DelayLine.t;
  current_delay_L_ : float;
  current_delay_R_ : float;
  delay_target_ : float;
  feedback_ : float;
  sample_rate_ : float
}.

(** delay_effect.h *)
Definition DELAY_MAX_SIZE : Z := 96000.

(** The smoothing coefficient written in [ProcessSample], [0.0002f]. *)
Definition smoothing_coeff : float := Eval vm_compute in f32 0.0002.

Definition Init (sample_rate : float) (mem_L mem_R : DelayLine.t) : t :=
  mk (DelayLine.Init mem_L) (DelayLine.Init mem_R) 0 0 0 0 sample_rate.

Definition ProcessSample (de : t) (in_L in_R : float) : (float * float) * t :=
  let current_delay_L := fonepole (current_delay_L_ de) (delay_target_ de) smoothing_coeff in
  let current_delay_R := fonepole (current_delay_R_ de) (delay_target_ de) smoothing_coeff in
  let del_L := DelayLine.SetDelay (del_L_ de) current_delay_L in
  let del_R := DelayLine.SetDelay (del_R_ de) current_delay_R in
  let read_L := DelayLine.Read del_L in
  let read_R := DelayLine.Read del_R in
  let del_L := DelayLine.Write del_L (feedback_ de * read_L + in_L) in
  let del_R := DelayLine.Write del_R (feedback_ de * read_R + in_R) in
  ((read_L, read_R),
   mk del_L del_R current_delay_L current_delay_R
      (delay_target_ de) (feedback_ de) (sample_rate_ de)).

Definition SetDelayTime (de : t) (samples : float) : t :=
  mk (del_L_ de) (del_R_ de) (current_delay_L_ de) (current_delay_R_ de)
     samples (feedback_ de) (sample_rate_ de).

Definition SetFeedback (de : t) (feedback : float) : t :=
  mk (del_L_ de) (del_R_ de) (current_delay_L_ de) (current_delay_R_ de)
     (delay_target_ de) feedback (sample_rate_ de).

Definition Clear (de : t) : t :=
  mk (del_L_ de) (del_R_ de) 0 0 0 (feedback_ de) (sample_rate_ de).

(** The object after one [ProcessSample] call per input pair. *)
Definition ProcessAll (de : t) (inputs : list (float * float)) : t :=
  fold_left (fun d io => snd (ProcessSample d (fst io) (snd io))) inputs de.

(** [fonepole] toward [target], [n] times over. *)
Fixpoint smoothed (n : nat) (c target : float) : float :=
  match n with
  | O => c
  | S k => fonepole (smoothed k c target) target smoothing_coeff
  end.

(** What the specification asks of a read position after
    [SetDelayTime(target)]: [pos ins] is the position once the input pairs
    [ins] have been processed, [start] the position before the first call.
    Each call moves the position toward the target and never past it, and
    the position tends to the target. *)
Definition converges (target : float)
  (pos : list (float * float) -> float) : Prop :=
  forall eps : float, 0 < eps ->
    exists N : nat, forall ins : list (float * float),
      (N <= length ins)%nat -> Qabs (pos ins - target) < eps.

(** The most one call can move a position [c]: the coefficient times the
    remaining distance, and the rounding of the three operations. *)
Definition step_limit (c target : float) : float :=
  0.0002 * Qabs (target - c) + (Qabs c + Qabs target) * (1 # 2 ^ 23)
  + 2 * Binary32.tiny.

(** How far from the target a position can come to rest: where the
    coefficient times the distance is lost in the rounding of the sum. *)
Definition rest_limit (c : float) : float :=
  Qabs c * (1 # 3000) + 6000 * Binary32.tiny.

(** What single precision leaves of it: each call leaves the position
    between where it was and the target, no call moves it by more than
    [step_limit], and after finitely many calls the position is at rest, not
    farther from the target than [rest_limit]. *)
Definition settles (start target : float)
  (pos : list (float * float) -> float) : Prop :=
  pos [] = start /\
  (forall (ins : list (float * float)) (x : float * float),
     (pos ins <= target -> pos ins <= pos (ins ++ [x]) <= target) /\
     (target <= pos ins -> target <= pos (ins ++ [x]) <= pos ins) /\
     Qabs (pos (ins ++ [x]) - pos ins) <= step_limit (pos ins) target) /\
  (exists (N : nat) (rest : float),
     (forall ins : list (float * float), (N <= length ins)%nat -> pos ins == rest) /\
     Qabs (target - rest) <= rest_limit rest).

(** No call moves the position by more than 19.25 samples. *)
Definition bounded_step (pos : list (float * float) -> float) : Prop :=
  forall (ins : list (float * float)) (x : float * float),
    Qabs (pos (ins ++ [x]) - pos ins) <= 19.25.

End DelayEffect.

(** ** hall_reverb.cpp: the feedback delay network *)

(** The butterfly network of [HallReverb::hadamardTransform], written once
    for any scalar type so that the same text is run on rationals (the
    program's constant) and reasoned about on reals (the exact [1/sqrt 8]).
    [x] is the in-place array [float x[8]]. *)
Section Butterflies.

Variable T : Type.
Variable zero : T.
Variables add sub mul : T -> T -> T.
Variable norm : T.

Definition at_ (x : list T) (i : nat) : T := nth i x zero.

Fixpoint put (x : list T) (i : nat) (v : T) : list T :=
  match x, i with
  | [], _ => []
  | _ :: tl, O => v :: tl
  | h :: tl, S j => h :: put tl j v
  end.

(** [a = x[i]; b = x[j]; x[i] = a + b; x[j] = a - b;] *)
Definition butterfly (i j : nat) (x : list T) : list T :=
  let a := at_ x i in
  let b := at_ x j in
  put (put x i (add a b)) j (sub a b).

Definition butterflies (x : list T) : list T :=
  (* for (i = 0; i < 8; i += 2) *)
  let x := fold_left (fun x i => butterfly i (i + 1) x) [0; 2; 4; 6]%nat x in
  (* for (i = 0; i < 8; i += 4) *)
  let x := fold_left (fun x i => butterfly (i + 1) (i + 3) (butterfly i (i + 2) x))
                     [0; 4]%nat x in
  (* for (i = 0; i < 4; ++i) *)
  let x := fold_left (fun x i => butterfly i (i + 4) x) [0; 1; 2; 3]%nat x in
  (* for (i = 0; i < 8; ++i) x[i] *= kHadamardNorm *)
  fold_left (fun x i => put x i (mul (at_ x i) norm)) (seq 0 8) x.

End Butterflies.

Arguments at_ {T} zero x i.
Arguments put {T} x i v.
Arguments butterfly {T} zero add sub i j x.
Arguments butterflies {T} zero add sub mul norm x.

Module HallReverb.

Definition kNumLines : nat := 8.
Definition kNumInputAP : nat := 2.
Definition kMaxLineDelay : nat := 4800.
Definition kMaxAPDelay : nat := 512.
Definition kHadamardNorm : float := Eval vm_compute in f32 0.35355339.
Definition kLineDelays : list Z := [1087; 1283; 1601; 1949; 2311; 2801; 3371; 4409]%Z.
Definition kInputAPDelays : list Z := [142; 379]%Z.

Record AllPassFilter := mkAP {
  delay : DelayLine.t;
  coeff : float
}.

Definition AllPassFilter_Process (ap : AllPassFilter) (in_ : float)
  : float * AllPassFilter :=
  let read := DelayLine.Read (delay ap) in
  let d := DelayLine.Write (delay ap) (in_ + read * coeff ap) in
  (- in_ * coeff ap + read, mkAP d (coeff ap)).

(** The members the methods below read or write; the filters of type
    [daisysp::OnePole] are DaisySP objects and stay outside. *)
Record t := mk {
  fdn_delay : list DelayLine.t;
  input_ap_ : list AllPassFilter;
  pre_delay_line_ : DelayLine.t;
  lfo_phase_inc_ : float;
  mod_depth_ : float;
  decay_ : float;
  diffusion_coeff_ : float;
  sample_rate_ : float
}.

(** A default-constructed object over the given (static) delay memories. *)
Definition make (lines : list DelayLine.t) (aps : list DelayLine.t)
  (pre : DelayLine.t) : t :=
  mk lines (map (fun d => mkAP d 0.5) aps) pre 0 1.5 0.85 0.5 48000.

Definition Clear (hr : t) : t :=
  mk (map DelayLine.Reset (fdn_delay hr))
     (map (fun ap => mkAP (DelayLine.Reset (delay ap)) (coeff ap)) (input_ap_ hr))
     (DelayLine.Reset (pre_delay_line_ hr))
     (lfo_phase_inc_ hr) (mod_depth_ hr) (decay_ hr) (diffusion_coeff_ hr)
     (sample_rate_ hr).

Definition SetDecay (hr : t) (decay : float) : t :=
  mk (fdn_delay hr) (input_ap_ hr) (pre_delay_line_ hr) (lfo_phase_inc_ hr)
     (mod_depth_ hr)
     (if gtb decay 0.999 then 0.999 else if ltb decay 0 then 0 else decay)
     (diffusion_coeff_ hr) (sample_rate_ hr).

Definition SetDiffusion (hr : t) (diffusion : float) : t :=
  let c := diffusion * 0.7 in
  mk (fdn_delay hr) (map (fun ap => mkAP (delay ap) c) (input_ap_ hr))
     (pre_delay_line_ hr) (lfo_phase_inc_ hr) (mod_depth_ hr) (decay_ hr)
     c (sample_rate_ hr).

Definition SetTankModDepth (hr : t) (depth : float) : t :=
  let depth := if ltb depth 0 then 0 else depth in
  let depth := if gtb depth 20 then 20 else depth in
  mk (fdn_delay hr) (input_ap_ hr) (pre_delay_line_ hr) (lfo_phase_inc_ hr)
     (depth * 0.2) (decay_ hr) (diffusion_coeff_ hr) (sample_rate_ hr).

(** [hadamardTransform] on the program's constant, every sum, difference
    and product exact. *)
Definition hadamardTransform (x : list float) : list float :=
  butterflies 0 Qplus Qminus Qmult kHadamardNorm x.

(** [hadamardTransform] as the processor computes it, every sum, difference
    and product rounded to single precision. *)
Definition hadamardTransformF (x : list float) : list float :=
  butterflies 0 fadd fsub fmul kHadamardNorm x.

(** The computed value [v] is within [e] of the exact value [w], whose
    magnitude is at most [b]. *)
Definition within (e b v w : float) : Prop :=
  Qabs (v - w) <= e /\ Qabs w <= b.

(** The sample that the loop under "Damp, decay, write" of [ProcessSample]
    hands to [fdn_delay[i]->Write]: [damped] is what
    [damping_[i].Process(mx[i])] returned and [in_scaled] the diffused input
    times [kHadamardNorm]. *)
Definition feedback_sample (hr : t) (damped in_scaled : float) : float :=
  damped * decay_ hr + in_scaled.

(** That loop: line [i] receives [feedback_sample] of its damped mix. *)
Definition DampDecayWrite (hr : t) (damped : list float) (in_scaled : float) : t :=
  mk (map (fun ld => DelayLine.Write (fst ld) (feedback_sample hr (snd ld) in_scaled))
          (combine (fdn_delay hr) damped))
     (input_ap_ hr) (pre_delay_line_ hr) (lfo_phase_inc_ hr) (mod_depth_ hr)
     (decay_ hr) (diffusion_coeff_ hr) (sample_rate_ hr).

(** All delay memory of the reverb is silent. *)
Definition silent (hr : t) : Prop :=
  Forall DelayLine.silent (fdn_delay hr) /\
  Forall (fun ap => DelayLine.silent (delay ap)) (input_ap_ hr) /\
  DelayLine.silent (pre_delay_line_ hr).

(** [Init]: the delay lines, the all-pass filters and the LFO rate.  The
    member [pre_delay_samples_] is passed as an argument; the [OnePole]
    filters are DaisySP objects and the LFO phases are kept apart (see
    [initial_lfo_phase]). *)
Definition Init (hr : t) (pre_delay_samples_ : float) (sample_rate : float) : t :=
  mk (map (fun dk => DelayLine.SetDelay (DelayLine.Init (fst dk)) (inject_Z (snd dk)))
          (combine (fdn_delay hr) kLineDelays))
     (map (fun ak => mkAP (DelayLine.SetDelay (DelayLine.Init (delay (fst ak)))
                              (inject_Z (snd ak)))
                          (diffusion_coeff_ hr))
          (combine (input_ap_ hr) kInputAPDelays))
     (DelayLine.SetDelay (DelayLine.Init (pre_delay_line_ hr)) pre_delay_samples_)
     (3.14159265 / sample_rate)
     (mod_depth_ hr) (decay_ hr) (diffusion_coeff_ hr) sample_rate.

(** The four LFO phases as [Init] leaves them. *)
Definition initial_lfo_phase : list float := [0; 1.57079632; 3.14159265; 4.71238898].

Definition SetTankModSpeed (hr : t) (speed : float) : t :=
  let speed := if ltb speed 0.01 then 0.01 else speed in
  let speed := if gtb speed 10 then 10 else speed in
  mk (fdn_delay hr) (input_ap_ hr) (pre_delay_line_ hr)
     (6.28318530 * speed / sample_rate_ hr)
     (mod_depth_ hr) (decay_ hr) (diffusion_coeff_ hr) (sample_rate_ hr).

(** The normalised frequency that [SetInputHighCut] and [SetTankHighCut]
    hand to [OnePole::SetFrequency]. *)
Definition high_cut_frequency (hr : t) (freq : float) : float :=
  let nf := freq / sample_rate_ hr in
  let nf := if gtb nf 0.497 then 0.497 else nf in
  if ltb nf 0.001 then 0.001 else nf.

(** Bitmask: lines 0, 2, 5, 7 get LFO modulation. *)
Definition kModMask : Z := 165.
Definition kModPhaseIdx : list Z := [0; -1; 1; -1; -1; 2; -1; 3]%Z.

(** "LFO advance" of [ProcessSample], for one phase and for the four. *)
Definition lfo_advance_phase (hr : t) (phase : float) : float :=
  let phase := phase + lfo_phase_inc_ hr in
  if geb phase 6.28318530 then phase - 6.28318530 else phase.

Definition lfo_advance (hr : t) (lfo_phase_ : list float) : list float :=
  map (lfo_advance_phase hr) lfo_phase_.

(** The triangle wave of [ProcessSample]: phase 0..2pi to -1..1. *)
Definition triangle (phase : float) : float :=
  let p := phase * (1 / 3.14159265) in
  if ltb p 1 then 2 * p - 1 else 3 - 2 * p.

(** The position [md] at which [ProcessSample] reads line [i] when the line
    is modulated; [None] stands for the plain [Read()]. *)
Definition read_position (hr : t) (lfo_phase_ : list float) (i : nat) : option float :=
  if (Z.testbit kModMask (Z.of_nat i) && gtb (mod_depth_ hr) 0)%bool then
    let tri := triangle (nth (Z.to_nat (nth i kModPhaseIdx 0%Z)) lfo_phase_ 0) in
    let md := inject_Z (nth i kLineDelays 0%Z) + tri * mod_depth_ hr in
    Some (if ltb md 1 then 1 else md)
  else None.

End HallReverb.


(** The same butterflies over the reals, with the normalisation as a
    parameter. *)
Definition hadamardTransformR (norm : R) (x : list R) : list R :=
  butterflies 0%R Rplus Rminus Rmult norm x.

(** ** flick_oscillator.cpp and tremolo_effect.cpp, over the reals

    A value that may fail to be a number is an [option R]: [None] stands for
    the NaN that IEEE arithmetic gives for [0/0] and that every later
    operation propagates. *)

Module RealFloat.

Local Open Scope R_scope.

Definition gtb (a b : R) : bool := if Rgt_dec a b then true else false.
Definition ltb (a b : R) : bool := if Rlt_dec a b then true else false.
Definition geb (a b : R) : bool := if Rge_dec a b then true else false.

(** [a / b] where the source gives no reason for [b] to differ from zero. *)
Definition checked_div (a b : R) : option R :=
  if Req_dec_T b 0 then None else Some (a / b).

(** The smallest normal single-precision number, [2^-126].  A result of
    smaller magnitude underflows: single precision holds it with fewer
    digits, and as zero when it is [2^-150] or less. *)
Definition min_normal : R := / 2 ^ 126.

(** A magnitude that single precision holds as a normal number. *)
Definition normal (x : R) : Prop := min_normal <= Rabs x.

End RealFloat.

Module FlickOscillator.

Local Open Scope R_scope.

Definition PI_F : R := 3.1415927410125732421875.
Definition TWOPI_F : R := 2 * PI_F.

(** Modelled from the spec: the waveform enumeration is declared in
    flick_oscillator.h, which is not among the sources.  [Process] names the
    sine and the rounded square ("band-limited square and sine outputs") and
    sends every other value to its [default] case. *)
Inductive Waveform := WAVE_SIN | WAVE_SQUARE_ROUNDED | WAVE_LAST.

Record t := mk {
  waveform_ : Waveform;
  amp_ : R;
  freq_ : R;
  sr_recip_ : R;
  phase_ : R;
  phase_inc_ : R;
  eoc_ : bool;
  eor_ : bool
}.

Definition CalcPhaseInc (o : t) (f : R) : R := f * sr_recip_ o.

(** Modelled from the spec: the setters are defined in flick_oscillator.h,
    which is not among the sources; for the "phase-accumulator oscillator" of
    the specification each stores its argument, the frequency as a phase
    increment through [CalcPhaseInc]. *)
Definition SetFreq (o : t) (f : R) : t :=
  mk (waveform_ o) (amp_ o) f (sr_recip_ o) (phase_ o) (CalcPhaseInc o f)
     (eoc_ o) (eor_ o).

Definition SetAmp (o : t) (a : R) : t :=
  mk (waveform_ o) a (freq_ o) (sr_recip_ o) (phase_ o) (phase_inc_ o)
     (eoc_ o) (eor_ o).

Definition SetWaveform (o : t) (wf : Waveform) : t :=
  mk wf (amp_ o) (freq_ o) (sr_recip_ o) (phase_ o) (phase_inc_ o)
     (eoc_ o) (eor_ o).

(** Modelled from the spec: [Init] is defined in the same missing header; it
    records the reciprocal of the sample rate and starts the phase
    accumulator at zero. *)
Definition Init (o : t) (sample_rate : R) : t :=
  mk (waveform_ o) (amp_ o) (freq_ o) (1 / sample_rate) 0
     (freq_ o * (1 / sample_rate)) true true.

(** The sample before the final [* amp_]. *)
Definition waveform_sample (o : t) : option R :=
  match waveform_ o with
  | WAVE_SIN => Some (sin (phase_ o * TWOPI_F))
  | WAVE_SQUARE_ROUNDED =>
      let delta := 0.04 in
      let scale := amp_ o * atan (1 / delta) in
      option_map (fun q => q * atan (sin (TWOPI_F * phase_ o) / delta))
                 (RealFloat.checked_div (amp_ o) scale)
  | WAVE_LAST => Some 0
  end.

Definition Process (o : t) : option R * t :=
  let out := waveform_sample o in
  let phase := phase_ o + phase_inc_ o in
  let wrapped := RealFloat.gtb phase 1 in
  let phase := if wrapped then phase - 1 else phase in
  let eor := (RealFloat.ltb (phase - phase_inc_ o) 0.5 && RealFloat.geb phase 0.5)%bool in
  (option_map (fun v => v * amp_ o) out,
   mk (waveform_ o) (amp_ o) (freq_ o) (sr_recip_ o) phase (phase_inc_ o)
      wrapped eor).

End FlickOscillator.

(** [TremoloEffect] with the members of its sine and square subclasses. *)
Module Tremolo.

Local Open Scope R_scope.

Record t := mk {
  speed_ : R;
  depth_ : R;
  last_lfo_value_ : option R;
  sample_rate_ : R;
  osc_ : FlickOscillator.t;
  dc_offset_ : R
}.

Definition SetSpeed (tr : t) (hz : R) : t :=
  mk hz (depth_ tr) (last_lfo_value_ tr) (sample_rate_ tr) (osc_ tr) (dc_offset_ tr).

Definition SetDepth (tr : t) (depth : R) : t :=
  mk (speed_ tr) depth (last_lfo_value_ tr) (sample_rate_ tr) (osc_ tr) (dc_offset_ tr).

Definition GetLastLFOValue (tr : t) : option R := last_lfo_value_ tr.

(** The body shared, word for word, by [SineTremolo::ProcessSample] and
    [SquareTremolo::ProcessSample]. *)
Definition modulate (tr : t) (in_L in_R : R) : (option R * option R) * t :=
  let osc := FlickOscillator.SetFreq (osc_ tr) (speed_ tr) in
  let scaled_depth := depth_ tr * 0.5 in
  let osc := FlickOscillator.SetAmp osc scaled_depth in
  let dc_offset := 1 - scaled_depth in
  let (lfo_sample, osc) := FlickOscillator.Process osc in
  let last_lfo_value := option_map (fun l => dc_offset + l) lfo_sample in
  ((option_map (fun g => in_L * g) last_lfo_value,
    option_map (fun g => in_R * g) last_lfo_value),
   mk (speed_ tr) (depth_ tr) last_lfo_value (sample_rate_ tr) osc dc_offset).

End Tremolo.

Module SineTremolo.

Definition Init (tr : Tremolo.t) (sample_rate : R) : Tremolo.t :=
  Tremolo.mk (Tremolo.speed_ tr) (Tremolo.depth_ tr) (Tremolo.last_lfo_value_ tr)
    sample_rate
    (FlickOscillator.SetWaveform
       (FlickOscillator.Init (Tremolo.osc_ tr) sample_rate)
       FlickOscillator.WAVE_SIN)
    1%R.

Definition ProcessSample := Tremolo.modulate.

End SineTremolo.

Module SquareTremolo.

Definition Init (tr : Tremolo.t) (sample_rate : R) : Tremolo.t :=
  Tremolo.mk (Tremolo.speed_ tr) (Tremolo.depth_ tr) (Tremolo.last_lfo_value_ tr)
    sample_rate
    (FlickOscillator.SetWaveform
       (FlickOscillator.Init (Tremolo.osc_ tr) sample_rate)
       FlickOscillator.WAVE_SQUARE_ROUNDED)
    1%R.

Definition ProcessSample := Tremolo.modulate.

End SquareTremolo.

(** A default-constructed tremolo (speed 4 Hz, depth 0.5) over an
    oscillator at rest, as [Init(48000)] leaves the square tremolo. *)
Definition example_square_tremolo : Tremolo.t :=
  SquareTremolo.Init
    (Tremolo.mk 4 0.5 (Some 0%R) 48000
       (FlickOscillator.mk FlickOscillator.WAVE_SIN 0 0 0 0 0 false false) 0)
    48000.

Definition example_sine_tremolo : Tremolo.t :=
  SineTremolo.Init
    (Tremolo.mk 4 0.5 (Some 0%R) 48000
       (FlickOscillator.mk FlickOscillator.WAVE_SIN 0 0 0 0 0 false false) 0)
    48000.

(** The gain the specification gives for both tremolos. *)
Definition tremolo_gain (depth lfo : R) : R :=
  ((1 - depth / 2) + lfo * (depth / 2))%R.

(** The unit-amplitude waveforms at phase [p]: the sine, and the sine
    soft-clipped by an arctangent and normalised. *)
Definition sine_lfo (p : R) : R := sin (p * FlickOscillator.TWOPI_F).

Definition soft_square_lfo (p : R) : R :=
  (atan (sin (FlickOscillator.TWOPI_F * p) / 0.04) / atan (1 / 0.04))%R.


(** ** flick_filters.hpp: the filter structs, over the reals

    [Init] takes its coefficients from [expf], [sinf], [cosf], [powf] and
    [sqrtf], so the structs are modelled over [R] with the real functions;
    [M_PI] is the real number pi.  [Init] keeps the state it finds (the
    structs start with a zero state). *)

Module RealFilters.

Local Open Scope R_scope.

Module LowPassFilter.

Record t := mk {
  alpha : R;
  prev_y : R
}.

Definition make : t := mk 0 0.

Definition Init (f : t) (fc fs : R) : t :=
  mk (exp (-2 * PI * fc / fs)) (prev_y f).

Definition Process (f : t) (x : R) : R * t :=
  let y := (1 - alpha f) * x + alpha f * prev_y f in
  (y, mk (alpha f) y).

(** Successive [Process] calls, one per sample; the outputs in order and the
    final filter. *)
Fixpoint ProcessAll (f : t) (xs : list R) : list R * t :=
  match xs with
  | [] => ([], f)
  | x :: rest =>
      let (y, f1) := Process f x in
      let (ys, f2) := ProcessAll f1 rest in
      (y :: ys, f2)
  end.

End LowPassFilter.

Module HighPassFilter.

Record t := mk {
  alpha : R;
  prev_x : R;
  prev_y : R
}.

Definition make : t := mk 0 0 0.

Definition Init (f : t) (fc fs : R) : t :=
  mk (exp (-2 * PI * fc / fs)) (prev_x f) (prev_y f).

Definition Process (f : t) (x : R) : R * t :=
  let y := (1 + alpha f) * 0.5 * (x - prev_x f) + alpha f * prev_y f in
  (y, mk (alpha f) x y).

Fixpoint ProcessAll (f : t) (xs : list R) : list R * t :=
  match xs with
  | [] => ([], f)
  | x :: rest =>
      let (y, f1) := Process f x in
      let (ys, f2) := ProcessAll f1 rest in
      (y :: ys, f2)
  end.

End HighPassFilter.

Module PeakingEQ.

Record t := mk {
  b0 : R;
  b1 : R;
  b2 : R;
  a1 : R;
  a2 : R;
  x1 : R;
  x2 : R;
  y1 : R;
  y2 : R
}.

Definition make : t := mk 0 0 0 0 0 0 0 0 0.

Definition Init (f : t) (f0 gain_db Q fs : R) : t :=
  let A := Rpower 10 (gain_db / 40) in
  let omega := 2 * PI * f0 / fs in
  let alpha := sin omega / (2 * Q) in
  let cos_omega := cos omega in
  let b0 := 1 + alpha * A in
  let b1 := -2 * cos_omega in
  let b2 := 1 - alpha * A in
  let a0 := 1 + alpha / A in
  let a1 := -2 * cos_omega in
  let a2 := 1 - alpha / A in
  (* Normalize by a0 *)
  mk (b0 / a0) (b1 / a0) (b2 / a0) (a1 / a0) (a2 / a0) (x1 f) (x2 f) (y1 f) (y2 f).

Definition Process (f : t) (x : R) : R * t :=
  let y := b0 f * x + b1 f * x1 f + b2 f * x2 f - a1 f * y1 f - a2 f * y2 f in
  (y, mk (b0 f) (b1 f) (b2 f) (a1 f) (a2 f) x (x1 f) y (y1 f)).

Fixpoint ProcessAll (f : t) (xs : list R) : list R * t :=
  match xs with
  | [] => ([], f)
  | x :: rest =>
      let (y, f1) := Process f x in
      let (ys, f2) := ProcessAll f1 rest in
      (y :: ys, f2)
  end.

(** The filter is at rest on the constant input [x] with the constant
    output [y]. *)
Definition settled (f : t) (x y : R) : Prop :=
  x1 f = x /\ x2 f = x /\ y1 f = y /\ y2 f = y.

End PeakingEQ.

Module LowShelf.

Record t := mk {
  b0 : R;
  b1 : R;
  b2 : R;
  a1 : R;
  a2 : R;
  x1 : R;
  x2 : R;
  y1 : R;
  y2 : R
}.

Definition make : t := mk 0 0 0 0 0 0 0 0 0.

Definition Init (f : t) (f0 gain_db Q fs : R) : t :=
  let A := Rpower 10 (gain_db / 40) in
  let omega := 2 * PI * f0 / fs in
  let alpha := sin omega / (2 * Q) in
  let cos_omega := cos omega in
  let sqrt_A := sqrt A in
  let b0 := A * ((A + 1) - (A - 1) * cos_omega + 2 * sqrt_A * alpha) in
  let b1 := 2 * A * ((A - 1) - (A + 1) * cos_omega) in
  let b2 := A * ((A + 1) - (A - 1) * cos_omega - 2 * sqrt_A * alpha) in
  let a0 := (A + 1) + (A - 1) * cos_omega + 2 * sqrt_A * alpha in
  let a1 := -2 * ((A - 1) + (A + 1) * cos_omega) in
  let a2 := (A + 1) + (A - 1) * cos_omega - 2 * sqrt_A * alpha in
  (* Normalize by a0 *)
  mk (b0 / a0) (b1 / a0) (b2 / a0) (a1 / a0) (a2 / a0) (x1 f) (x2 f) (y1 f) (y2 f).

Definition Process (f : t) (x : R) : R * t :=
  let y := b0 f * x + b1 f * x1 f + b2 f * x2 f - a1 f * y1 f - a2 f * y2 f in
  (y, mk (b0 f) (b1 f) (b2 f) (a1 f) (a2 f) x (x1 f) y (y1 f)).

Fixpoint ProcessAll (f : t) (xs : list R) : list R * t :=
  match xs with
  | [] => ([], f)
  | x :: rest =>
      let (y, f1) := Process f x in
      let (ys, f2) := ProcessAll f1 rest in
      (y :: ys, f2)
  end.

(** The filter is at rest on the constant input [x] with the constant
    output [y]. *)
Definition settled (f : t) (x y : R) : Prop :=
  x1 f = x /\ x2 f = x /\ y1 f = y /\ y2 f = y.

End LowShelf.

(** The frequency lies strictly between 0 and half the sample rate and the
    quality factor is positive. *)
Definition audible (f0 Q fs : R) : Prop := 0 < f0 /\ 2 * f0 < fs /\ 0 < Q.

End RealFilters.
(** ** flick.cpp: settings record and its storage *)

Module Settings.

Record t := mk {
  version : Z;
  decay : float;
  diffusion : float;
  input_cutoff_freq : float;
  tank_cutoff_freq : float;
  tank_mod_speed_pos : Z;
  tank_mod_depth_pos : Z;
  tank_mod_shape_pos : Z;
  pre_delay : float;
  mono_stereo_mode : Z;
  polarity_mode : Z;
  reverb_knob_mode : Z;
  bypass_reverb : bool;
  bypass_tremolo : bool;
  bypass_delay : bool;
  tapped_delay_samples : float
}.

Definition set_version (v : Z) (r : t) : t :=
  mk v (decay r) (diffusion r) (input_cutoff_freq r) (tank_cutoff_freq r)
    (tank_mod_speed_pos r) (tank_mod_depth_pos r) (tank_mod_shape_pos r)
    (pre_delay r) (mono_stereo_mode r) (polarity_mode r) (reverb_knob_mode
    r) (bypass_reverb r) (bypass_tremolo r) (bypass_delay r)
    (tapped_delay_samples r).

Definition set_decay (v : float) (r : t) : t :=
  mk (version r) v (diffusion r) (input_cutoff_freq r) (tank_cutoff_freq r)
    (tank_mod_speed_pos r) (tank_mod_depth_pos r) (tank_mod_shape_pos r)
    (pre_delay r) (mono_stereo_mode r) (polarity_mode r) (reverb_knob_mode
    r) (bypass_reverb r) (bypass_tremolo r) (bypass_delay r)
    (tapped_delay_samples r).

Definition set_diffusion (v : float) (r : t) : t :=
  mk (version r) (decay r) v (input_cutoff_freq r) (tank_cutoff_freq r)
    (tank_mod_speed_pos r) (tank_mod_depth_pos r) (tank_mod_shape_pos r)
    (pre_delay r) (mono_stereo_mode r) (polarity_mode r) (reverb_knob_mode
    r) (bypass_reverb r) (bypass_tremolo r) (bypass_delay r)
    (tapped_delay_samples r).

Definition set_input_cutoff_freq (v : float) (r : t) : t :=
  mk (version r) (decay r) (diffusion r) v (tank_cutoff_freq r)
    (tank_mod_speed_pos r) (tank_mod_depth_pos r) (tank_mod_shape_pos r)
    (pre_delay r) (mono_stereo_mode r) (polarity_mode r) (reverb_knob_mode
    r) (bypass_reverb r) (bypass_tremolo r) (bypass_delay r)
    (tapped_delay_samples r).

Definition set_tank_cutoff_freq (v : float) (r : t) : t :=
  mk (version r) (decay r) (diffusion r) (input_cutoff_freq r) v
    (tank_mod_speed_pos r) (tank_mod_depth_pos r) (tank_mod_shape_pos r)
    (pre_delay r) (mono_stereo_mode r) (polarity_mode r) (reverb_knob_mode
    r) (bypass_reverb r) (bypass_tremolo r) (bypass_delay r)
    (tapped_delay_samples r).

Definition set_tank_mod_speed_pos (v : Z) (r : t) : t :=
  mk (version r) (decay r) (diffusion r) (input_cutoff_freq r)
    (tank_cutoff_freq r) v (tank_mod_depth_pos r) (tank_mod_shape_pos r)
    (pre_delay r) (mono_stereo_mode r) (polarity_mode r) (reverb_knob_mode
    r) (bypass_reverb r) (bypass_tremolo r) (bypass_delay r)
    (tapped_delay_samples r).

Definition set_tank_mod_depth_pos (v : Z) (r : t) : t :=
  mk (version r) (decay r) (diffusion r) (input_cutoff_freq r)
    (tank_cutoff_freq r) (tank_mod_speed_pos r) v (tank_mod_shape_pos r)
    (pre_delay r) (mono_stereo_mode r) (polarity_mode r) (reverb_knob_mode
    r) (bypass_reverb r) (bypass_tremolo r) (bypass_delay r)
    (tapped_delay_samples r).

Definition set_tank_mod_shape_pos (v : Z) (r : t) : t :=
  mk (version r) (decay r) (diffusion r) (input_cutoff_freq r)
    (tank_cutoff_freq r) (tank_mod_speed_pos r) (tank_mod_depth_pos r) v
    (pre_delay r) (mono_stereo_mode r) (polarity_mode r) (reverb_knob_mode
    r) (bypass_reverb r) (bypass_tremolo r) (bypass_delay r)
    (tapped_delay_samples r).

Definition set_pre_delay (v : float) (r : t) : t :=
  mk (version r) (decay r) (diffusion r) (input_cutoff_freq r)
    (tank_cutoff_freq r) (tank_mod_speed_pos r) (tank_mod_depth_pos r)
    (tank_mod_shape_pos r) v (mono_stereo_mode r) (polarity_mode r)
    (reverb_knob_mode r) (bypass_reverb r) (bypass_tremolo r)
    (bypass_delay r) (tapped_delay_samples r).

Definition set_mono_stereo_mode (v : Z) (r : t) : t :=
  mk (version r) (decay r) (diffusion r) (input_cutoff_freq r)
    (tank_cutoff_freq r) (tank_mod_speed_pos r) (tank_mod_depth_pos r)
    (tank_mod_shape_pos r) (pre_delay r) v (polarity_mode r)
    (reverb_knob_mode r) (bypass_reverb r) (bypass_tremolo r)
    (bypass_delay r) (tapped_delay_samples r).

Definition set_polarity_mode (v : Z) (r : t) : t :=
  mk (version r) (decay r) (diffusion r) (input_cutoff_freq r)
    (tank_cutoff_freq r) (tank_mod_speed_pos r) (tank_mod_depth_pos r)
    (tank_mod_shape_pos r) (pre_delay r) (mono_stereo_mode r) v
    (reverb_knob_mode r) (bypass_reverb r) (bypass_tremolo r)
    (bypass_delay r) (tapped_delay_samples r).

Definition set_reverb_knob_mode (v : Z) (r : t) : t :=
  mk (version r) (decay r) (diffusion r) (input_cutoff_freq r)
    (tank_cutoff_freq r) (tank_mod_speed_pos r) (tank_mod_depth_pos r)
    (tank_mod_shape_pos r) (pre_delay r) (mono_stereo_mode r)
    (polarity_mode r) v (bypass_reverb r) (bypass_tremolo r) (bypass_delay
    r) (tapped_delay_samples r).

Definition set_bypass_reverb (v : bool) (r : t) : t :=
  mk (version r) (decay r) (diffusion r) (input_cutoff_freq r)
    (tank_cutoff_freq r) (tank_mod_speed_pos r) (tank_mod_depth_pos r)
    (tank_mod_shape_pos r) (pre_delay r) (mono_stereo_mode r)
    (polarity_mode r) (reverb_knob_mode r) v (bypass_tremolo r)
    (bypass_delay r) (tapped_delay_samples r).

Definition set_bypass_tremolo (v : bool) (r : t) : t :=
  mk (version r) (decay r) (diffusion r) (input_cutoff_freq r)
    (tank_cutoff_freq r) (tank_mod_speed_pos r) (tank_mod_depth_pos r)
    (tank_mod_shape_pos r) (pre_delay r) (mono_stereo_mode r)
    (polarity_mode r) (reverb_knob_mode r) (bypass_reverb r) v
    (bypass_delay r) (tapped_delay_samples r).

Definition set_bypass_delay (v : bool) (r : t) : t :=
  mk (version r) (decay r) (diffusion r) (input_cutoff_freq r)
    (tank_cutoff_freq r) (tank_mod_speed_pos r) (tank_mod_depth_pos r)
    (tank_mod_shape_pos r) (pre_delay r) (mono_stereo_mode r)
    (polarity_mode r) (reverb_knob_mode r) (bypass_reverb r)
    (bypass_tremolo r) v (tapped_delay_samples r).

Definition set_tapped_delay_samples (v : float) (r : t) : t :=
  mk (version r) (decay r) (diffusion r) (input_cutoff_freq r)
    (tank_cutoff_freq r) (tank_mod_speed_pos r) (tank_mod_depth_pos r)
    (tank_mod_shape_pos r) (pre_delay r) (mono_stereo_mode r)
    (polarity_mode r) (reverb_knob_mode r) (bypass_reverb r)
    (bypass_tremolo r) (bypass_delay r) v.

(** [operator!=] *)
Definition neq (a b : t) : bool :=
  negb ((version a =? version b)%Z &&
        eqb (decay a) (decay b) &&
        eqb (diffusion a) (diffusion b) &&
        eqb (input_cutoff_freq a) (input_cutoff_freq b) &&
        eqb (tank_cutoff_freq a) (tank_cutoff_freq b) &&
        (tank_mod_speed_pos a =? tank_mod_speed_pos b)%Z &&
        (tank_mod_depth_pos a =? tank_mod_depth_pos b)%Z &&
        (tank_mod_shape_pos a =? tank_mod_shape_pos b)%Z &&
        eqb (pre_delay a) (pre_delay b) &&
        (mono_stereo_mode a =? mono_stereo_mode b)%Z &&
        (polarity_mode a =? polarity_mode b)%Z &&
        (reverb_knob_mode a =? reverb_knob_mode b)%Z &&
        Bool.eqb (bypass_reverb a) (bypass_reverb b) &&
        Bool.eqb (bypass_tremolo a) (bypass_tremolo b) &&
        Bool.eqb (bypass_delay a) (bypass_delay b) &&
        eqb (tapped_delay_samples a) (tapped_delay_samples b))%bool.

(** A record of a zero-initialised static object. *)
Definition zero : t := mk 0 0 0 0 0 0 0 0 0 0 0 0 false false false 0.

End Settings.

(** [daisy::PersistentStorage<Settings>] belongs to libDaisy.  Its contract:
    [Init] keeps the defaults and takes the stored record when the flash page
    holds one, else stores the defaults; [GetSettings] is a reference to the
    working copy; [Save] and [RestoreDefaults] write the working copy,
    respectively the defaults, to the page. *)
Module PersistentStorage.

Record t := mk {
  flash : option Settings.t;
  settings_ : Settings.t;
  default_settings_ : Settings.t
}.

Definition set_flash (v : option Settings.t) (r : t) : t :=
  mk v (settings_ r) (default_settings_ r).

Definition set_settings_ (v : Settings.t) (r : t) : t :=
  mk (flash r) v (default_settings_ r).

Definition set_default_settings_ (v : Settings.t) (r : t) : t :=
  mk (flash r) (settings_ r) v.

Definition StoreSettingsIfChanged (st : t) : t :=
  set_flash (Some (settings_ st)) st.

Definition Init (st : t) (defaults : Settings.t) : t :=
  match flash st with
  | Some stored => mk (flash st) stored defaults
  | None => StoreSettingsIfChanged (mk (flash st) defaults defaults)
  end.

Definition GetSettings (st : t) : Settings.t := settings_ st.

Definition Save (st : t) : t := StoreSettingsIfChanged st.

Definition RestoreDefaults (st : t) : t :=
  StoreSettingsIfChanged (set_settings_ (default_settings_ st) st).

End PersistentStorage.

Module BypassState.

Record t := mk {
  reverb : bool;
  tremolo : bool;
  delay : bool
}.

Definition set_reverb (v : bool) (r : t) : t :=
  mk v (tremolo r) (delay r).

Definition set_tremolo (v : bool) (r : t) : t :=
  mk (reverb r) v (delay r).

Definition set_delay (v : bool) (r : t) : t :=
  mk (reverb r) (tremolo r) v.

Definition initial : t := mk true true true.

End BypassState.

(** ** Reverb objects behind [ReverbEffect*] *)

(** The Dattorro tank of PlateauNEVersio is a third-party class; what the
    wrapper hands to it is recorded, and [clear] silences its memory. *)
Module Dattorro.

Record t := mk {
  decay : float;
  tankDiffusion : float;
  preDelay : float;
  inputFilterHighCutoffPitch : float;
  tankFilterHighCutFrequency : float;
  tankModSpeed : float;
  tankModDepth : float;
  tankModShape : float;
  memory : list float
}.

Definition set_decay (v : float) (r : t) : t :=
  mk v (tankDiffusion r) (preDelay r) (inputFilterHighCutoffPitch r)
    (tankFilterHighCutFrequency r) (tankModSpeed r) (tankModDepth r)
    (tankModShape r) (memory r).

Definition set_tankDiffusion (v : float) (r : t) : t :=
  mk (decay r) v (preDelay r) (inputFilterHighCutoffPitch r)
    (tankFilterHighCutFrequency r) (tankModSpeed r) (tankModDepth r)
    (tankModShape r) (memory r).

Definition set_preDelay (v : float) (r : t) : t :=
  mk (decay r) (tankDiffusion r) v (inputFilterHighCutoffPitch r)
    (tankFilterHighCutFrequency r) (tankModSpeed r) (tankModDepth r)
    (tankModShape r) (memory r).

Definition set_inputFilterHighCutoffPitch (v : float) (r : t) : t :=
  mk (decay r) (tankDiffusion r) (preDelay r) v (tankFilterHighCutFrequency
    r) (tankModSpeed r) (tankModDepth r) (tankModShape r) (memory r).

Definition set_tankFilterHighCutFrequency (v : float) (r : t) : t :=
  mk (decay r) (tankDiffusion r) (preDelay r) (inputFilterHighCutoffPitch
    r) v (tankModSpeed r) (tankModDepth r) (tankModShape r) (memory r).

Definition set_tankModSpeed (v : float) (r : t) : t :=
  mk (decay r) (tankDiffusion r) (preDelay r) (inputFilterHighCutoffPitch
    r) (tankFilterHighCutFrequency r) v (tankModDepth r) (tankModShape r)
    (memory r).

Definition set_tankModDepth (v : float) (r : t) : t :=
  mk (decay r) (tankDiffusion r) (preDelay r) (inputFilterHighCutoffPitch
    r) (tankFilterHighCutFrequency r) (tankModSpeed r) v (tankModShape r)
    (memory r).

Definition set_tankModShape (v : float) (r : t) : t :=
  mk (decay r) (tankDiffusion r) (preDelay r) (inputFilterHighCutoffPitch
    r) (tankFilterHighCutFrequency r) (tankModSpeed r) (tankModDepth r) v
    (memory r).

Definition set_memory (v : list float) (r : t) : t :=
  mk (decay r) (tankDiffusion r) (preDelay r) (inputFilterHighCutoffPitch
    r) (tankFilterHighCutFrequency r) (tankModSpeed r) (tankModDepth r)
    (tankModShape r) v.

Definition clear (d : t) : t := set_memory (repeat 0 (length (memory d))) d.

Definition silent (d : t) : Prop := memory d = repeat 0 (length (memory d)).

End Dattorro.

(** plate_reverb.cpp *)
Module PlateReverb.

Definition PLATE_PRE_DELAY_SCALE : float := 0.25.
Definition PLATE_DAMP_SCALE : float := 10.
Definition PLATE_TANK_MOD_SPEED_SCALE : float := 8.
Definition PLATE_TANK_MOD_DEPTH_SCALE : float := 15.
Definition PLATE_TANK_MOD_SPEED_VALUES : list float := [0.5; 0.25; 0.1].
Definition PLATE_TANK_MOD_DEPTH_VALUES : list float := [0.5; 0.25; 0.1].
Definition PLATE_TANK_MOD_SHAPE_VALUES : list float := [0.5; 0.25; 0.1].

Record Params := mkParams {
  decay : float;
  diffusion : float;
  pre_delay : float;
  input_cutoff_freq : float;
  tank_cutoff_freq : float;
  tank_mod_speed_pos : Z;
  tank_mod_depth_pos : Z;
  tank_mod_shape_pos : Z
}.

Definition set_p_decay (v : float) (r : Params) : Params :=
  mkParams v (diffusion r) (pre_delay r) (input_cutoff_freq r) (tank_cutoff_freq
    r) (tank_mod_speed_pos r) (tank_mod_depth_pos r) (tank_mod_shape_pos
    r).

Definition set_p_diffusion (v : float) (r : Params) : Params :=
  mkParams (decay r) v (pre_delay r) (input_cutoff_freq r) (tank_cutoff_freq r)
    (tank_mod_speed_pos r) (tank_mod_depth_pos r) (tank_mod_shape_pos r).

Definition set_p_pre_delay (v : float) (r : Params) : Params :=
  mkParams (decay r) (diffusion r) v (input_cutoff_freq r) (tank_cutoff_freq r)
    (tank_mod_speed_pos r) (tank_mod_depth_pos r) (tank_mod_shape_pos r).

Definition set_p_input_cutoff_freq (v : float) (r : Params) : Params :=
  mkParams (decay r) (diffusion r) (pre_delay r) v (tank_cutoff_freq r)
    (tank_mod_speed_pos r) (tank_mod_depth_pos r) (tank_mod_shape_pos r).

Definition set_p_tank_cutoff_freq (v : float) (r : Params) : Params :=
  mkParams (decay r) (diffusion r) (pre_delay r) (input_cutoff_freq r) v
    (tank_mod_speed_pos r) (tank_mod_depth_pos r) (tank_mod_shape_pos r).

Definition set_p_tank_mod_speed_pos (v : Z) (r : Params) : Params :=
  mkParams (decay r) (diffusion r) (pre_delay r) (input_cutoff_freq r)
    (tank_cutoff_freq r) v (tank_mod_depth_pos r) (tank_mod_shape_pos r).

Definition set_p_tank_mod_depth_pos (v : Z) (r : Params) : Params :=
  mkParams (decay r) (diffusion r) (pre_delay r) (input_cutoff_freq r)
    (tank_cutoff_freq r) (tank_mod_speed_pos r) v (tank_mod_shape_pos r).

Definition set_p_tank_mod_shape_pos (v : Z) (r : Params) : Params :=
  mkParams (decay r) (diffusion r) (pre_delay r) (input_cutoff_freq r)
    (tank_cutoff_freq r) (tank_mod_speed_pos r) (tank_mod_depth_pos r) v.

Record t := mk {
  verb_ : Dattorro.t;
  params_ : Params
}.

Definition set_verb_ (v : Dattorro.t) (r : t) : t :=
  mk v (params_ r).

Definition set_params_ (v : Params) (r : t) : t :=
  mk (verb_ r) v.

Definition upd_verb (f : Dattorro.t -> Dattorro.t) (p : t) : t := set_verb_ (f (verb_ p)) p.
Definition upd_params (f : Params -> Params) (p : t) : t := set_params_ (f (params_ p)) p.

Definition Clear (p : t) : t := upd_verb Dattorro.clear p.

Definition SetDecay (p : t) (decay : float) : t :=
  upd_verb (Dattorro.set_decay decay) (upd_params (set_p_decay decay) p).

Definition SetDiffusion (p : t) (diffusion : float) : t :=
  upd_verb (Dattorro.set_tankDiffusion diffusion)
    (upd_params (set_p_diffusion diffusion) p).

Definition SetPreDelay (p : t) (pre_delay : float) : t :=
  upd_verb (Dattorro.set_preDelay (pre_delay * PLATE_PRE_DELAY_SCALE))
    (upd_params (set_p_pre_delay pre_delay) p).

Definition SetInputHighCut (p : t) (freq : float) : t :=
  upd_verb (Dattorro.set_inputFilterHighCutoffPitch (freq * PLATE_DAMP_SCALE))
    (upd_params (set_p_input_cutoff_freq freq) p).

Definition SetTankHighCut (p : t) (freq : float) : t :=
  upd_verb (Dattorro.set_tankFilterHighCutFrequency (freq * PLATE_DAMP_SCALE))
    (upd_params (set_p_tank_cutoff_freq freq) p).

(** The position (0, 1 or 2) that a switch value stands for. *)
Definition position_of (value : float) : Z :=
  if geb 0.15 value then 2 else if geb 0.375 value then 1 else 0.

Definition value_at (values : list float) (pos : Z) : float :=
  nth (Z.to_nat pos) values 0.

Definition SetTankModSpeed (p : t) (speed : float) : t :=
  let pos := position_of speed in
  upd_verb (Dattorro.set_tankModSpeed
              (value_at PLATE_TANK_MOD_SPEED_VALUES pos * PLATE_TANK_MOD_SPEED_SCALE))
    (upd_params (set_p_tank_mod_speed_pos pos) p).

Definition SetTankModDepth (p : t) (depth : float) : t :=
  let pos := position_of depth in
  upd_verb (Dattorro.set_tankModDepth
              (value_at PLATE_TANK_MOD_DEPTH_VALUES pos * PLATE_TANK_MOD_DEPTH_SCALE))
    (upd_params (set_p_tank_mod_depth_pos pos) p).

Definition SetTankModShape (p : t) (shape : float) : t :=
  let pos := position_of shape in
  upd_verb (Dattorro.set_tankModShape (value_at PLATE_TANK_MOD_SHAPE_VALUES pos))
    (upd_params (set_p_tank_mod_shape_pos pos) p).

Definition silent (p : t) : Prop := Dattorro.silent (verb_ p).

(** "Apply all stored parameters to Dattorro".  An index outside the three
    positions has no meaning in the source; [value_at] then answers 0. *)
Definition updateDattorroParameters (p : t) : t :=
  let q := params_ p in
  let p := upd_verb (Dattorro.set_decay (decay q)) p in
  let p := upd_verb (Dattorro.set_tankDiffusion (diffusion q)) p in
  let p := upd_verb (Dattorro.set_preDelay (pre_delay q * PLATE_PRE_DELAY_SCALE)) p in
  let p := upd_verb (Dattorro.set_inputFilterHighCutoffPitch
                       (input_cutoff_freq q * PLATE_DAMP_SCALE)) p in
  let p := upd_verb (Dattorro.set_tankFilterHighCutFrequency
                       (tank_cutoff_freq q * PLATE_DAMP_SCALE)) p in
  let p := upd_verb (Dattorro.set_tankModSpeed
                       (value_at PLATE_TANK_MOD_SPEED_VALUES (tank_mod_speed_pos q)
                        * PLATE_TANK_MOD_SPEED_SCALE)) p in
  let p := upd_verb (Dattorro.set_tankModDepth
                       (value_at PLATE_TANK_MOD_DEPTH_VALUES (tank_mod_depth_pos q)
                        * PLATE_TANK_MOD_DEPTH_SCALE)) p in
  upd_verb (Dattorro.set_tankModShape
              (value_at PLATE_TANK_MOD_SHAPE_VALUES (tank_mod_shape_pos q))) p.

Definition GetParams (p : t) : Params := params_ p.

Definition SetParams (p : t) (params : Params) : t :=
  updateDattorroParameters (set_params_ params p).

(** The tank holds what [params_] says: each value the wrapper hands to the
    Dattorro object is the one [updateDattorroParameters] derives from the
    stored parameters. *)
Definition mirrors (p : t) : Prop :=
  verb_ (updateDattorroParameters p) = verb_ p.

End PlateReverb.

(** spring_reverb.h and spring_reverb.cpp *)
Module SpringReverb.

Record AllPassFilter := mkAP {
  delay : DelayLine.t;
  feedback : float
}.

Record t := mk {
  main_delay_ : DelayLine.t;
  tap_delay_1_ : DelayLine.t;
  tap_delay_2_ : DelayLine.t;
  pre_delay_ : DelayLine.t;
  allpass_filters_ : list AllPassFilter;
  decay_ : float;
  mix_ : float;
  drive_ : float;
  sample_rate_ : float
}.

Definition set_main_delay_ (v : DelayLine.t) (r : t) : t :=
  mk v (tap_delay_1_ r) (tap_delay_2_ r) (pre_delay_ r) (allpass_filters_
    r) (decay_ r) (mix_ r) (drive_ r) (sample_rate_ r).

Definition set_tap_delay_1_ (v : DelayLine.t) (r : t) : t :=
  mk (main_delay_ r) v (tap_delay_2_ r) (pre_delay_ r) (allpass_filters_ r)
    (decay_ r) (mix_ r) (drive_ r) (sample_rate_ r).

Definition set_tap_delay_2_ (v : DelayLine.t) (r : t) : t :=
  mk (main_delay_ r) (tap_delay_1_ r) v (pre_delay_ r) (allpass_filters_ r)
    (decay_ r) (mix_ r) (drive_ r) (sample_rate_ r).

Definition set_pre_delay_ (v : DelayLine.t) (r : t) : t :=
  mk (main_delay_ r) (tap_delay_1_ r) (tap_delay_2_ r) v (allpass_filters_
    r) (decay_ r) (mix_ r) (drive_ r) (sample_rate_ r).

Definition set_allpass_filters_ (v : list AllPassFilter) (r : t) : t :=
  mk (main_delay_ r) (tap_delay_1_ r) (tap_delay_2_ r) (pre_delay_ r) v
    (decay_ r) (mix_ r) (drive_ r) (sample_rate_ r).

Definition set_decay_ (v : float) (r : t) : t :=
  mk (main_delay_ r) (tap_delay_1_ r) (tap_delay_2_ r) (pre_delay_ r)
    (allpass_filters_ r) v (mix_ r) (drive_ r) (sample_rate_ r).

Definition set_mix_ (v : float) (r : t) : t :=
  mk (main_delay_ r) (tap_delay_1_ r) (tap_delay_2_ r) (pre_delay_ r)
    (allpass_filters_ r) (decay_ r) v (drive_ r) (sample_rate_ r).

Definition set_drive_ (v : float) (r : t) : t :=
  mk (main_delay_ r) (tap_delay_1_ r) (tap_delay_2_ r) (pre_delay_ r)
    (allpass_filters_ r) (decay_ r) (mix_ r) v (sample_rate_ r).

Definition set_sample_rate_ (v : float) (r : t) : t :=
  mk (main_delay_ r) (tap_delay_1_ r) (tap_delay_2_ r) (pre_delay_ r)
    (allpass_filters_ r) (decay_ r) (mix_ r) (drive_ r) v.

Definition Clear (sp : t) : t :=
  mk (DelayLine.Reset (main_delay_ sp))
     (DelayLine.Reset (tap_delay_1_ sp))
     (DelayLine.Reset (tap_delay_2_ sp))
     (DelayLine.Reset (pre_delay_ sp))
     (map (fun ap => mkAP (DelayLine.Reset (delay ap)) (feedback ap))
          (allpass_filters_ sp))
     (decay_ sp) (mix_ sp) (drive_ sp) (sample_rate_ sp).

Definition SetDecay (sp : t) (decay : float) : t := set_decay_ decay sp.

Definition SetMix (sp : t) (mix : float) : t := set_mix_ mix sp.

Definition SetPreDelay (sp : t) (pre_delay : float) : t :=
  let samples := pre_delay * sample_rate_ sp in
  set_pre_delay_ (DelayLine.SetDelay (pre_delay_ sp) samples) sp.

Definition silent (sp : t) : Prop :=
  DelayLine.silent (main_delay_ sp) /\
  DelayLine.silent (tap_delay_1_ sp) /\
  DelayLine.silent (tap_delay_2_ sp) /\
  DelayLine.silent (pre_delay_ sp) /\
  Forall (fun ap => DelayLine.silent (delay ap)) (allpass_filters_ sp).

End SpringReverb.

(** ** flick_filters.hpp: the notch filter *)

Module PeakingEQ.

Record t := mk {
  b0 : float;
  b1 : float;
  b2 : float;
  a1 : float;
  a2 : float;
  x1 : float;
  x2 : float;
  y1 : float;
  y2 : float
}.

Definition Process (f : t) (x : float) : float * t :=
  let y := b0 f * x + b1 f * x1 f + b2 f * x2 f - a1 f * y1 f - a2 f * y2 f in
  (y, mk (b0 f) (b1 f) (b2 f) (a1 f) (a2 f) x (x1 f) y (y1 f)).

End PeakingEQ.

(** ** flick.cpp: the orchestrator *)

Module ReverbOrchestrator.

Record t := mk {
  current_type : Z;
  knob_mode : Z;
  dry : float;
  wet : float;
  plate_pre_delay : float;
  plate_decay : float;
  plate_diffusion : float;
  plate_input_damp_high : float;
  plate_tank_damp_high : float;
  plate_mod_speed_pos : Z;
  plate_mod_depth_pos : Z;
  plate_mod_shape_pos : Z
}.

Definition set_current_type (v : Z) (r : t) : t :=
  mk v (knob_mode r) (dry r) (wet r) (plate_pre_delay r) (plate_decay r)
    (plate_diffusion r) (plate_input_damp_high r) (plate_tank_damp_high r)
    (plate_mod_speed_pos r) (plate_mod_depth_pos r) (plate_mod_shape_pos
    r).

Definition set_knob_mode (v : Z) (r : t) : t :=
  mk (current_type r) v (dry r) (wet r) (plate_pre_delay r) (plate_decay r)
    (plate_diffusion r) (plate_input_damp_high r) (plate_tank_damp_high r)
    (plate_mod_speed_pos r) (plate_mod_depth_pos r) (plate_mod_shape_pos
    r).

Definition set_dry (v : float) (r : t) : t :=
  mk (current_type r) (knob_mode r) v (wet r) (plate_pre_delay r)
    (plate_decay r) (plate_diffusion r) (plate_input_damp_high r)
    (plate_tank_damp_high r) (plate_mod_speed_pos r) (plate_mod_depth_pos
    r) (plate_mod_shape_pos r).

Definition set_wet (v : float) (r : t) : t :=
  mk (current_type r) (knob_mode r) (dry r) v (plate_pre_delay r)
    (plate_decay r) (plate_diffusion r) (plate_input_damp_high r)
    (plate_tank_damp_high r) (plate_mod_speed_pos r) (plate_mod_depth_pos
    r) (plate_mod_shape_pos r).

Definition set_plate_pre_delay (v : float) (r : t) : t :=
  mk (current_type r) (knob_mode r) (dry r) (wet r) v (plate_decay r)
    (plate_diffusion r) (plate_input_damp_high r) (plate_tank_damp_high r)
    (plate_mod_speed_pos r) (plate_mod_depth_pos r) (plate_mod_shape_pos
    r).

Definition set_plate_decay (v : float) (r : t) : t :=
  mk (current_type r) (knob_mode r) (dry r) (wet r) (plate_pre_delay r) v
    (plate_diffusion r) (plate_input_damp_high r) (plate_tank_damp_high r)
    (plate_mod_speed_pos r) (plate_mod_depth_pos r) (plate_mod_shape_pos
    r).

Definition set_plate_diffusion (v : float) (r : t) : t :=
  mk (current_type r) (knob_mode r) (dry r) (wet r) (plate_pre_delay r)
    (plate_decay r) v (plate_input_damp_high r) (plate_tank_damp_high r)
    (plate_mod_speed_pos r) (plate_mod_depth_pos r) (plate_mod_shape_pos
    r).

Definition set_plate_input_damp_high (v : float) (r : t) : t :=
  mk (current_type r) (knob_mode r) (dry r) (wet r) (plate_pre_delay r)
    (plate_decay r) (plate_diffusion r) v (plate_tank_damp_high r)
    (plate_mod_speed_pos r) (plate_mod_depth_pos r) (plate_mod_shape_pos
    r).

Definition set_plate_tank_damp_high (v : float) (r : t) : t :=
  mk (current_type r) (knob_mode r) (dry r) (wet r) (plate_pre_delay r)
    (plate_decay r) (plate_diffusion r) (plate_input_damp_high r) v
    (plate_mod_speed_pos r) (plate_mod_depth_pos r) (plate_mod_shape_pos
    r).

Definition set_plate_mod_speed_pos (v : Z) (r : t) : t :=
  mk (current_type r) (knob_mode r) (dry r) (wet r) (plate_pre_delay r)
    (plate_decay r) (plate_diffusion r) (plate_input_damp_high r)
    (plate_tank_damp_high r) v (plate_mod_depth_pos r)
    (plate_mod_shape_pos r).

Definition set_plate_mod_depth_pos (v : Z) (r : t) : t :=
  mk (current_type r) (knob_mode r) (dry r) (wet r) (plate_pre_delay r)
    (plate_decay r) (plate_diffusion r) (plate_input_damp_high r)
    (plate_tank_damp_high r) (plate_mod_speed_pos r) v
    (plate_mod_shape_pos r).

Definition set_plate_mod_shape_pos (v : Z) (r : t) : t :=
  mk (current_type r) (knob_mode r) (dry r) (wet r) (plate_pre_delay r)
    (plate_decay r) (plate_diffusion r) (plate_input_damp_high r)
    (plate_tank_damp_high r) (plate_mod_speed_pos r) (plate_mod_depth_pos
    r) v.

End ReverbOrchestrator.

Module TapTempoState.

Record t := mk {
  tap_timestamps : list Z;
  tap_count : Z;
  tapped_delay_samples : float;
  tapped_tempo_ms : float;
  last_tap_time : Z;
  tap_flash_counter : Z;
  just_exited_tap_tempo : bool;
  knob_baseline : float;
  delay_knob_capture : KnobCapture.t
}.

Definition set_tap_timestamps (v : list Z) (r : t) : t :=
  mk v (tap_count r) (tapped_delay_samples r) (tapped_tempo_ms r)
    (last_tap_time r) (tap_flash_counter r) (just_exited_tap_tempo r)
    (knob_baseline r) (delay_knob_capture r).

Definition set_tap_count (v : Z) (r : t) : t :=
  mk (tap_timestamps r) v (tapped_delay_samples r) (tapped_tempo_ms r)
    (last_tap_time r) (tap_flash_counter r) (just_exited_tap_tempo r)
    (knob_baseline r) (delay_knob_capture r).

Definition set_tapped_delay_samples (v : float) (r : t) : t :=
  mk (tap_timestamps r) (tap_count r) v (tapped_tempo_ms r) (last_tap_time
    r) (tap_flash_counter r) (just_exited_tap_tempo r) (knob_baseline r)
    (delay_knob_capture r).

Definition set_tapped_tempo_ms (v : float) (r : t) : t :=
  mk (tap_timestamps r) (tap_count r) (tapped_delay_samples r) v
    (last_tap_time r) (tap_flash_counter r) (just_exited_tap_tempo r)
    (knob_baseline r) (delay_knob_capture r).

Definition set_last_tap_time (v : Z) (r : t) : t :=
  mk (tap_timestamps r) (tap_count r) (tapped_delay_samples r)
    (tapped_tempo_ms r) v (tap_flash_counter r) (just_exited_tap_tempo r)
    (knob_baseline r) (delay_knob_capture r).

Definition set_tap_flash_counter (v : Z) (r : t) : t :=
  mk (tap_timestamps r) (tap_count r) (tapped_delay_samples r)
    (tapped_tempo_ms r) (last_tap_time r) v (just_exited_tap_tempo r)
    (knob_baseline r) (delay_knob_capture r).

Definition set_just_exited_tap_tempo (v : bool) (r : t) : t :=
  mk (tap_timestamps r) (tap_count r) (tapped_delay_samples r)
    (tapped_tempo_ms r) (last_tap_time r) (tap_flash_counter r) v
    (knob_baseline r) (delay_knob_capture r).

Definition set_knob_baseline (v : float) (r : t) : t :=
  mk (tap_timestamps r) (tap_count r) (tapped_delay_samples r)
    (tapped_tempo_ms r) (last_tap_time r) (tap_flash_counter r)
    (just_exited_tap_tempo r) v (delay_knob_capture r).

Definition set_delay_knob_capture (v : KnobCapture.t) (r : t) : t :=
  mk (tap_timestamps r) (tap_count r) (tapped_delay_samples r)
    (tapped_tempo_ms r) (last_tap_time r) (tap_flash_counter r)
    (just_exited_tap_tempo r) (knob_baseline r) v.

Definition initial : t :=
  mk [0; 0; 0]%Z 0 0 0 0 0 false (-1)
     (KnobCapture.make KnobCapture.default_threshold).

End TapTempoState.
Module Flick.

(** *** Constants *)

Definition SETTINGS_VERSION : Z := 8.
Definition SAMPLE_RATE : float := 48000.
(** [static_cast<size_t>(SAMPLE_RATE * 2.0f)] *)
Definition MAX_DELAY : Z := 96000.
Definition PLATE_DAMP_SCALE : float := 10.
Definition PLATE_TANK_MOD_SPEED_VALUES : list float := [0.5; 0.25; 0.1].
Definition PLATE_TANK_MOD_DEPTH_VALUES : list float := [0.5; 0.25; 0.1].
Definition PLATE_TANK_MOD_SHAPE_VALUES : list float := [0.5; 0.25; 0.1].
Definition DELAY_TIME_MIN_SECONDS : float := 0.05.
Definition TAP_TEMPO_TIMEOUT_MS : Z := 4000.
Definition TAP_FLASH_CALLBACKS : Z := 300.
Definition MINUS_18DB_GAIN : float := 0.12589254.
Definition MINUS_20DB_GAIN : float := 0.1.

(** [uint32_t] arithmetic. *)
Definition uint32 (z : Z) : Z := z mod 2 ^ 32.

(** *** Enumerations

    The three modes that [loadSettings] casts from the stored [int] are kept
    as their integer values, and so are the enumerations used as array
    indices. *)

Inductive PedalMode :=
  | PEDAL_MODE_NORMAL
  | PEDAL_MODE_EDIT_REVERB
  | PEDAL_MODE_EDIT_DEVICE_SETTINGS
  | PEDAL_MODE_TAP_TEMPO.

Definition PedalMode_eqb (a b : PedalMode) : bool :=
  match a, b with
  | PEDAL_MODE_NORMAL, PEDAL_MODE_NORMAL
  | PEDAL_MODE_EDIT_REVERB, PEDAL_MODE_EDIT_REVERB
  | PEDAL_MODE_EDIT_DEVICE_SETTINGS, PEDAL_MODE_EDIT_DEVICE_SETTINGS
  | PEDAL_MODE_TAP_TEMPO, PEDAL_MODE_TAP_TEMPO => true
  | _, _ => false
  end.

Definition MS_MODE_MIMO : Z := 0.
Definition MS_MODE_MISO : Z := 1.
Definition MS_MODE_SISO : Z := 2.
Definition kMonoStereoMap : list Z := [MS_MODE_SISO; MS_MODE_MISO; MS_MODE_MIMO].

Definition REVERB_PLATE : Z := 0.
Definition REVERB_SPRING : Z := 1.
Definition REVERB_HALL : Z := 2.
Definition kReverbTypeMap : list Z := [REVERB_SPRING; REVERB_PLATE; REVERB_HALL].

Definition REVERB_KNOB_ALL_DRY : Z := 0.
Definition REVERB_KNOB_DRY_WET_MIX : Z := 1.
Definition REVERB_KNOB_ALL_WET : Z := 2.
Definition kReverbKnobMap : list Z :=
  [REVERB_KNOB_ALL_DRY; REVERB_KNOB_DRY_WET_MIX; REVERB_KNOB_ALL_WET].

Definition DELAY_TIMING_DOTTED_EIGHTH : Z := 0.
Definition DELAY_TIMING_QUARTER : Z := 1.
Definition DELAY_TIMING_TRIPLET : Z := 2.
Definition kDelayTimingMap : list Z :=
  [DELAY_TIMING_DOTTED_EIGHTH; DELAY_TIMING_QUARTER; DELAY_TIMING_TRIPLET].
Definition kDelayTimingMultiplier : list float := [0.75; 1; 0.6666].

Definition POLARITY_INVERT_RIGHT : Z := 0.
Definition POLARITY_NORMAL : Z := 1.
Definition POLARITY_INVERT_LEFT : Z := 2.
Definition kPolarityMap : list Z :=
  [POLARITY_INVERT_RIGHT; POLARITY_NORMAL; POLARITY_INVERT_LEFT].

(** [arr[i]]; reading outside the array is undefined in the source and
    yields [undefined] here. *)
Definition at_index {A : Type} (arr : list A) (i : Z) (undefined : A) : A :=
  if ((0 <=? i)%Z && (i <? Z.of_nat (length arr))%Z)%bool
  then nth (Z.to_nat i) arr undefined else undefined.

(** daisy_hardware.h, the Funbox numbering. *)
Inductive Switches :=
  | SWITCH_1_LEFT | SWITCH_1_RIGHT | SWITCH_2_LEFT | SWITCH_2_RIGHT
  | SWITCH_3_LEFT | SWITCH_3_RIGHT | FOOTSWITCH_1 | FOOTSWITCH_2
  | DIP_SWITCH_1 | DIP_SWITCH_2 | DIP_SWITCH_3 | DIP_SWITCH_4.

Definition is_FOOTSWITCH_1 (s : Switches) : bool :=
  match s with FOOTSWITCH_1 => true | _ => false end.

Definition is_FOOTSWITCH_2 (s : Switches) : bool :=
  match s with FOOTSWITCH_2 => true | _ => false end.

(** The object the pointer [current_reverb] designates. *)
Inductive ReverbObject := plate_reverb_object | hall_reverb_object | spring_reverb_object.

(** *** What the hardware answers during one handler or callback

    [System::GetNow()], the three toggle switch positions, the raw reading of
    knob 4, the pressed state of the two footswitches and the value each
    [Parameter::Process()] returns. *)

Record Hw := mkHw {
  now : Z;
  toggleswitch_1 : Z;
  toggleswitch_2 : Z;
  toggleswitch_3 : Z;
  knob_4_value : float;
  footswitch_1_pressed : bool;
  footswitch_2_pressed : bool;
  p_knob_2 : float;
  p_knob_3 : float;
  p_knob_4 : float;
  p_knob_5 : float;
  p_knob_6 : float;
  p_delay_time : float;
  p_delay_feedback : float;
  p_delay_amt : float
}.

Definition set_now (v : Z) (hw : Hw) : Hw :=
  mkHw v (toggleswitch_1 hw) (toggleswitch_2 hw) (toggleswitch_3 hw)
    (knob_4_value hw) (footswitch_1_pressed hw) (footswitch_2_pressed hw)
    (p_knob_2 hw) (p_knob_3 hw) (p_knob_4 hw) (p_knob_5 hw) (p_knob_6 hw)
    (p_delay_time hw) (p_delay_feedback hw) (p_delay_amt hw).

(** *** The global variables *)

Record Globals := mkGlobals {
  pedal_mode : PedalMode;
  mono_stereo_mode : Z;
  polarity_mode : Z;
  bypass : BypassState.t;
  reverb : ReverbOrchestrator.t;
  delay_time_target : float;
  delay_drywet : Z;
  reverb_dry_scale_factor : float;
  reverb_reverse_scale_factor : float;
  left_input : float;
  right_input : float;
  left_output : float;
  right_output : float;
  input_amplification : float;
  trigger_settings_save : bool;
  trigger_dfu_mode : bool;
  SavedSettings : PersistentStorage.t;
  tap_tempo : TapTempoState.t;
  p_knob_2_capture : KnobCapture.t;
  p_knob_3_capture : KnobCapture.t;
  p_knob_4_capture : KnobCapture.t;
  p_knob_5_capture : KnobCapture.t;
  p_knob_6_capture : KnobCapture.t;
  p_sw1_capture : SwitchCapture.t;
  p_sw2_capture : SwitchCapture.t;
  p_sw3_capture : SwitchCapture.t;
  current_reverb : option ReverbObject;
  plate_reverb : PlateReverb.t;
  hall_reverb : HallReverb.t;
  spring_reverb : SpringReverb.t;
  delay_effect : DelayEffect.t;
  notch1_L : PeakingEQ.t;
  notch1_R : PeakingEQ.t;
  notch2_L : PeakingEQ.t;
  notch2_R : PeakingEQ.t;
  trem_val : float
}.

Definition set_pedal_mode (v : PedalMode) (g : Globals) : Globals :=
  mkGlobals v (mono_stereo_mode g) (polarity_mode g) (bypass g) (reverb g)
    (delay_time_target g) (delay_drywet g) (reverb_dry_scale_factor g)
    (reverb_reverse_scale_factor g) (left_input g) (right_input g)
    (left_output g) (right_output g) (input_amplification g)
    (trigger_settings_save g) (trigger_dfu_mode g) (SavedSettings g)
    (tap_tempo g) (p_knob_2_capture g) (p_knob_3_capture g)
    (p_knob_4_capture g) (p_knob_5_capture g) (p_knob_6_capture g)
    (p_sw1_capture g) (p_sw2_capture g) (p_sw3_capture g) (current_reverb
    g) (plate_reverb g) (hall_reverb g) (spring_reverb g) (delay_effect g)
    (notch1_L g) (notch1_R g) (notch2_L g) (notch2_R g) (trem_val g).

Definition set_mono_stereo_mode (v : Z) (g : Globals) : Globals :=
  mkGlobals (pedal_mode g) v (polarity_mode g) (bypass g) (reverb g)
    (delay_time_target g) (delay_drywet g) (reverb_dry_scale_factor g)
    (reverb_reverse_scale_factor g) (left_input g) (right_input g)
    (left_output g) (right_output g) (input_amplification g)
    (trigger_settings_save g) (trigger_dfu_mode g) (SavedSettings g)
    (tap_tempo g) (p_knob_2_capture g) (p_knob_3_capture g)
    (p_knob_4_capture g) (p_knob_5_capture g) (p_knob_6_capture g)
    (p_sw1_capture g) (p_sw2_capture g) (p_sw3_capture g) (current_reverb
    g) (plate_reverb g) (hall_reverb g) (spring_reverb g) (delay_effect g)
    (notch1_L g) (notch1_R g) (notch2_L g) (notch2_R g) (trem_val g).

Definition set_polarity_mode (v : Z) (g : Globals) : Globals :=
  mkGlobals (pedal_mode g) (mono_stereo_mode g) v (bypass g) (reverb g)
    (delay_time_target g) (delay_drywet g) (reverb_dry_scale_factor g)
    (reverb_reverse_scale_factor g) (left_input g) (right_input g)
    (left_output g) (right_output g) (input_amplification g)
    (trigger_settings_save g) (trigger_dfu_mode g) (SavedSettings g)
    (tap_tempo g) (p_knob_2_capture g) (p_knob_3_capture g)
    (p_knob_4_capture g) (p_knob_5_capture g) (p_knob_6_capture g)
    (p_sw1_capture g) (p_sw2_capture g) (p_sw3_capture g) (current_reverb
    g) (plate_reverb g) (hall_reverb g) (spring_reverb g) (delay_effect g)
    (notch1_L g) (notch1_R g) (notch2_L g) (notch2_R g) (trem_val g).

Definition set_bypass (v : BypassState.t) (g : Globals) : Globals :=
  mkGlobals (pedal_mode g) (mono_stereo_mode g) (polarity_mode g) v (reverb g)
    (delay_time_target g) (delay_drywet g) (reverb_dry_scale_factor g)
    (reverb_reverse_scale_factor g) (left_input g) (right_input g)
    (left_output g) (right_output g) (input_amplification g)
    (trigger_settings_save g) (trigger_dfu_mode g) (SavedSettings g)
    (tap_tempo g) (p_knob_2_capture g) (p_knob_3_capture g)
    (p_knob_4_capture g) (p_knob_5_capture g) (p_knob_6_capture g)
    (p_sw1_capture g) (p_sw2_capture g) (p_sw3_capture g) (current_reverb
    g) (plate_reverb g) (hall_reverb g) (spring_reverb g) (delay_effect g)
    (notch1_L g) (notch1_R g) (notch2_L g) (notch2_R g) (trem_val g).

Definition set_reverb (v : ReverbOrchestrator.t) (g : Globals) : Globals :=
  mkGlobals (pedal_mode g) (mono_stereo_mode g) (polarity_mode g) (bypass g) v
    (delay_time_target g) (delay_drywet g) (reverb_dry_scale_factor g)
    (reverb_reverse_scale_factor g) (left_input g) (right_input g)
    (left_output g) (right_output g) (input_amplification g)
    (trigger_settings_save g) (trigger_dfu_mode g) (SavedSettings g)
    (tap_tempo g) (p_knob_2_capture g) (p_knob_3_capture g)
    (p_knob_4_capture g) (p_knob_5_capture g) (p_knob_6_capture g)
    (p_sw1_capture g) (p_sw2_capture g) (p_sw3_capture g) (current_reverb
    g) (plate_reverb g) (hall_reverb g) (spring_reverb g) (delay_effect g)
    (notch1_L g) (notch1_R g) (notch2_L g) (notch2_R g) (trem_val g).

Definition set_delay_time_target (v : float) (g : Globals) : Globals :=
  mkGlobals (pedal_mode g) (mono_stereo_mode g) (polarity_mode g) (bypass g)
    (reverb g) v (delay_drywet g) (reverb_dry_scale_factor g)
    (reverb_reverse_scale_factor g) (left_input g) (right_input g)
    (left_output g) (right_output g) (input_amplification g)
    (trigger_settings_save g) (trigger_dfu_mode g) (SavedSettings g)
    (tap_tempo g) (p_knob_2_capture g) (p_knob_3_capture g)
    (p_knob_4_capture g) (p_knob_5_capture g) (p_knob_6_capture g)
    (p_sw1_capture g) (p_sw2_capture g) (p_sw3_capture g) (current_reverb
    g) (plate_reverb g) (hall_reverb g) (spring_reverb g) (delay_effect g)
    (notch1_L g) (notch1_R g) (notch2_L g) (notch2_R g) (trem_val g).

Definition set_delay_drywet (v : Z) (g : Globals) : Globals :=
  mkGlobals (pedal_mode g) (mono_stereo_mode g) (polarity_mode g) (bypass g)
    (reverb g) (delay_time_target g) v (reverb_dry_scale_factor g)
    (reverb_reverse_scale_factor g) (left_input g) (right_input g)
    (left_output g) (right_output g) (input_amplification g)
    (trigger_settings_save g) (trigger_dfu_mode g) (SavedSettings g)
    (tap_tempo g) (p_knob_2_capture g) (p_knob_3_capture g)
    (p_knob_4_capture g) (p_knob_5_capture g) (p_knob_6_capture g)
    (p_sw1_capture g) (p_sw2_capture g) (p_sw3_capture g) (current_reverb
    g) (plate_reverb g) (hall_reverb g) (spring_reverb g) (delay_effect g)
    (notch1_L g) (notch1_R g) (notch2_L g) (notch2_R g) (trem_val g).

Definition set_reverb_dry_scale_factor (v : float) (g : Globals) : Globals :=
  mkGlobals (pedal_mode g) (mono_stereo_mode g) (polarity_mode g) (bypass g)
    (reverb g) (delay_time_target g) (delay_drywet g) v
    (reverb_reverse_scale_factor g) (left_input g) (right_input g)
    (left_output g) (right_output g) (input_amplification g)
    (trigger_settings_save g) (trigger_dfu_mode g) (SavedSettings g)
    (tap_tempo g) (p_knob_2_capture g) (p_knob_3_capture g)
    (p_knob_4_capture g) (p_knob_5_capture g) (p_knob_6_capture g)
    (p_sw1_capture g) (p_sw2_capture g) (p_sw3_capture g) (current_reverb
    g) (plate_reverb g) (hall_reverb g) (spring_reverb g) (delay_effect g)
    (notch1_L g) (notch1_R g) (notch2_L g) (notch2_R g) (trem_val g).

Definition set_reverb_reverse_scale_factor (v : float) (g : Globals) : Globals :=
  mkGlobals (pedal_mode g) (mono_stereo_mode g) (polarity_mode g) (bypass g)
    (reverb g) (delay_time_target g) (delay_drywet g)
    (reverb_dry_scale_factor g) v (left_input g) (right_input g)
    (left_output g) (right_output g) (input_amplification g)
    (trigger_settings_save g) (trigger_dfu_mode g) (SavedSettings g)
    (tap_tempo g) (p_knob_2_capture g) (p_knob_3_capture g)
    (p_knob_4_capture g) (p_knob_5_capture g) (p_knob_6_capture g)
    (p_sw1_capture g) (p_sw2_capture g) (p_sw3_capture g) (current_reverb
    g) (plate_reverb g) (hall_reverb g) (spring_reverb g) (delay_effect g)
    (notch1_L g) (notch1_R g) (notch2_L g) (notch2_R g) (trem_val g).

Definition set_left_input (v : float) (g : Globals) : Globals :=
  mkGlobals (pedal_mode g) (mono_stereo_mode g) (polarity_mode g) (bypass g)
    (reverb g) (delay_time_target g) (delay_drywet g)
    (reverb_dry_scale_factor g) (reverb_reverse_scale_factor g) v
    (right_input g) (left_output g) (right_output g) (input_amplification
    g) (trigger_settings_save g) (trigger_dfu_mode g) (SavedSettings g)
    (tap_tempo g) (p_knob_2_capture g) (p_knob_3_capture g)
    (p_knob_4_capture g) (p_knob_5_capture g) (p_knob_6_capture g)
    (p_sw1_capture g) (p_sw2_capture g) (p_sw3_capture g) (current_reverb
    g) (plate_reverb g) (hall_reverb g) (spring_reverb g) (delay_effect g)
    (notch1_L g) (notch1_R g) (notch2_L g) (notch2_R g) (trem_val g).

Definition set_right_input (v : float) (g : Globals) : Globals :=
  mkGlobals (pedal_mode g) (mono_stereo_mode g) (polarity_mode g) (bypass g)
    (reverb g) (delay_time_target g) (delay_drywet g)
    (reverb_dry_scale_factor g) (reverb_reverse_scale_factor g)
    (left_input g) v (left_output g) (right_output g) (input_amplification
    g) (trigger_settings_save g) (trigger_dfu_mode g) (SavedSettings g)
    (tap_tempo g) (p_knob_2_capture g) (p_knob_3_capture g)
    (p_knob_4_capture g) (p_knob_5_capture g) (p_knob_6_capture g)
    (p_sw1_capture g) (p_sw2_capture g) (p_sw3_capture g) (current_reverb
    g) (plate_reverb g) (hall_reverb g) (spring_reverb g) (delay_effect g)
    (notch1_L g) (notch1_R g) (notch2_L g) (notch2_R g) (trem_val g).

Definition set_left_output (v : float) (g : Globals) : Globals :=
  mkGlobals (pedal_mode g) (mono_stereo_mode g) (polarity_mode g) (bypass g)
    (reverb g) (delay_time_target g) (delay_drywet g)
    (reverb_dry_scale_factor g) (reverb_reverse_scale_factor g)
    (left_input g) (right_input g) v (right_output g) (input_amplification
    g) (trigger_settings_save g) (trigger_dfu_mode g) (SavedSettings g)
    (tap_tempo g) (p_knob_2_capture g) (p_knob_3_capture g)
    (p_knob_4_capture g) (p_knob_5_capture g) (p_knob_6_capture g)
    (p_sw1_capture g) (p_sw2_capture g) (p_sw3_capture g) (current_reverb
    g) (plate_reverb g) (hall_reverb g) (spring_reverb g) (delay_effect g)
    (notch1_L g) (notch1_R g) (notch2_L g) (notch2_R g) (trem_val g).

Definition set_right_output (v : float) (g : Globals) : Globals :=
  mkGlobals (pedal_mode g) (mono_stereo_mode g) (polarity_mode g) (bypass g)
    (reverb g) (delay_time_target g) (delay_drywet g)
    (reverb_dry_scale_factor g) (reverb_reverse_scale_factor g)
    (left_input g) (right_input g) (left_output g) v (input_amplification
    g) (trigger_settings_save g) (trigger_dfu_mode g) (SavedSettings g)
    (tap_tempo g) (p_knob_2_capture g) (p_knob_3_capture g)
    (p_knob_4_capture g) (p_knob_5_capture g) (p_knob_6_capture g)
    (p_sw1_capture g) (p_sw2_capture g) (p_sw3_capture g) (current_reverb
    g) (plate_reverb g) (hall_reverb g) (spring_reverb g) (delay_effect g)
    (notch1_L g) (notch1_R g) (notch2_L g) (notch2_R g) (trem_val g).

Definition set_input_amplification (v : float) (g : Globals) : Globals :=
  mkGlobals (pedal_mode g) (mono_stereo_mode g) (polarity_mode g) (bypass g)
    (reverb g) (delay_time_target g) (delay_drywet g)
    (reverb_dry_scale_factor g) (reverb_reverse_scale_factor g)
    (left_input g) (right_input g) (left_output g) (right_output g) v
    (trigger_settings_save g) (trigger_dfu_mode g) (SavedSettings g)
    (tap_tempo g) (p_knob_2_capture g) (p_knob_3_capture g)
    (p_knob_4_capture g) (p_knob_5_capture g) (p_knob_6_capture g)
    (p_sw1_capture g) (p_sw2_capture g) (p_sw3_capture g) (current_reverb
    g) (plate_reverb g) (hall_reverb g) (spring_reverb g) (delay_effect g)
    (notch1_L g) (notch1_R g) (notch2_L g) (notch2_R g) (trem_val g).

Definition set_trigger_settings_save (v : bool) (g : Globals) : Globals :=
  mkGlobals (pedal_mode g) (mono_stereo_mode g) (polarity_mode g) (bypass g)
    (reverb g) (delay_time_target g) (delay_drywet g)
    (reverb_dry_scale_factor g) (reverb_reverse_scale_factor g)
    (left_input g) (right_input g) (left_output g) (right_output g)
    (input_amplification g) v (trigger_dfu_mode g) (SavedSettings g)
    (tap_tempo g) (p_knob_2_capture g) (p_knob_3_capture g)
    (p_knob_4_capture g) (p_knob_5_capture g) (p_knob_6_capture g)
    (p_sw1_capture g) (p_sw2_capture g) (p_sw3_capture g) (current_reverb
    g) (plate_reverb g) (hall_reverb g) (spring_reverb g) (delay_effect g)
    (notch1_L g) (notch1_R g) (notch2_L g) (notch2_R g) (trem_val g).

Definition set_trigger_dfu_mode (v : bool) (g : Globals) : Globals :=
  mkGlobals (pedal_mode g) (mono_stereo_mode g) (polarity_mode g) (bypass g)
    (reverb g) (delay_time_target g) (delay_drywet g)
    (reverb_dry_scale_factor g) (reverb_reverse_scale_factor g)
    (left_input g) (right_input g) (left_output g) (right_output g)
    (input_amplification g) (trigger_settings_save g) v (SavedSettings g)
    (tap_tempo g) (p_knob_2_capture g) (p_knob_3_capture g)
    (p_knob_4_capture g) (p_knob_5_capture g) (p_knob_6_capture g)
    (p_sw1_capture g) (p_sw2_capture g) (p_sw3_capture g) (current_reverb
    g) (plate_reverb g) (hall_reverb g) (spring_reverb g) (delay_effect g)
    (notch1_L g) (notch1_R g) (notch2_L g) (notch2_R g) (trem_val g).

Definition set_SavedSettings (v : PersistentStorage.t) (g : Globals) : Globals :=
  mkGlobals (pedal_mode g) (mono_stereo_mode g) (polarity_mode g) (bypass g)
    (reverb g) (delay_time_target g) (delay_drywet g)
    (reverb_dry_scale_factor g) (reverb_reverse_scale_factor g)
    (left_input g) (right_input g) (left_output g) (right_output g)
    (input_amplification g) (trigger_settings_save g) (trigger_dfu_mode g)
    v (tap_tempo g) (p_knob_2_capture g) (p_knob_3_capture g)
    (p_knob_4_capture g) (p_knob_5_capture g) (p_knob_6_capture g)
    (p_sw1_capture g) (p_sw2_capture g) (p_sw3_capture g) (current_reverb
    g) (plate_reverb g) (hall_reverb g) (spring_reverb g) (delay_effect g)
    (notch1_L g) (notch1_R g) (notch2_L g) (notch2_R g) (trem_val g).

Definition set_tap_tempo (v : TapTempoState.t) (g : Globals) : Globals :=
  mkGlobals (pedal_mode g) (mono_stereo_mode g) (polarity_mode g) (bypass g)
    (reverb g) (delay_time_target g) (delay_drywet g)
    (reverb_dry_scale_factor g) (reverb_reverse_scale_factor g)
    (left_input g) (right_input g) (left_output g) (right_output g)
    (input_amplification g) (trigger_settings_save g) (trigger_dfu_mode g)
    (SavedSettings g) v (p_knob_2_capture g) (p_knob_3_capture g)
    (p_knob_4_capture g) (p_knob_5_capture g) (p_knob_6_capture g)
    (p_sw1_capture g) (p_sw2_capture g) (p_sw3_capture g) (current_reverb
    g) (plate_reverb g) (hall_reverb g) (spring_reverb g) (delay_effect g)
    (notch1_L g) (notch1_R g) (notch2_L g) (notch2_R g) (trem_val g).

Definition set_p_knob_2_capture (v : KnobCapture.t) (g : Globals) : Globals :=
  mkGlobals (pedal_mode g) (mono_stereo_mode g) (polarity_mode g) (bypass g)
    (reverb g) (delay_time_target g) (delay_drywet g)
    (reverb_dry_scale_factor g) (reverb_reverse_scale_factor g)
    (left_input g) (right_input g) (left_output g) (right_output g)
    (input_amplification g) (trigger_settings_save g) (trigger_dfu_mode g)
    (SavedSettings g) (tap_tempo g) v (p_knob_3_capture g)
    (p_knob_4_capture g) (p_knob_5_capture g) (p_knob_6_capture g)
    (p_sw1_capture g) (p_sw2_capture g) (p_sw3_capture g) (current_reverb
    g) (plate_reverb g) (hall_reverb g) (spring_reverb g) (delay_effect g)
    (notch1_L g) (notch1_R g) (notch2_L g) (notch2_R g) (trem_val g).

Definition set_p_knob_3_capture (v : KnobCapture.t) (g : Globals) : Globals :=
  mkGlobals (pedal_mode g) (mono_stereo_mode g) (polarity_mode g) (bypass g)
    (reverb g) (delay_time_target g) (delay_drywet g)
    (reverb_dry_scale_factor g) (reverb_reverse_scale_factor g)
    (left_input g) (right_input g) (left_output g) (right_output g)
    (input_amplification g) (trigger_settings_save g) (trigger_dfu_mode g)
    (SavedSettings g) (tap_tempo g) (p_knob_2_capture g) v
    (p_knob_4_capture g) (p_knob_5_capture g) (p_knob_6_capture g)
    (p_sw1_capture g) (p_sw2_capture g) (p_sw3_capture g) (current_reverb
    g) (plate_reverb g) (hall_reverb g) (spring_reverb g) (delay_effect g)
    (notch1_L g) (notch1_R g) (notch2_L g) (notch2_R g) (trem_val g).

Definition set_p_knob_4_capture (v : KnobCapture.t) (g : Globals) : Globals :=
  mkGlobals (pedal_mode g) (mono_stereo_mode g) (polarity_mode g) (bypass g)
    (reverb g) (delay_time_target g) (delay_drywet g)
    (reverb_dry_scale_factor g) (reverb_reverse_scale_factor g)
    (left_input g) (right_input g) (left_output g) (right_output g)
    (input_amplification g) (trigger_settings_save g) (trigger_dfu_mode g)
    (SavedSettings g) (tap_tempo g) (p_knob_2_capture g) (p_knob_3_capture
    g) v (p_knob_5_capture g) (p_knob_6_capture g) (p_sw1_capture g)
    (p_sw2_capture g) (p_sw3_capture g) (current_reverb g) (plate_reverb
    g) (hall_reverb g) (spring_reverb g) (delay_effect g) (notch1_L g)
    (notch1_R g) (notch2_L g) (notch2_R g) (trem_val g).

Definition set_p_knob_5_capture (v : KnobCapture.t) (g : Globals) : Globals :=
  mkGlobals (pedal_mode g) (mono_stereo_mode g) (polarity_mode g) (bypass g)
    (reverb g) (delay_time_target g) (delay_drywet g)
    (reverb_dry_scale_factor g) (reverb_reverse_scale_factor g)
    (left_input g) (right_input g) (left_output g) (right_output g)
    (input_amplification g) (trigger_settings_save g) (trigger_dfu_mode g)
    (SavedSettings g) (tap_tempo g) (p_knob_2_capture g) (p_knob_3_capture
    g) (p_knob_4_capture g) v (p_knob_6_capture g) (p_sw1_capture g)
    (p_sw2_capture g) (p_sw3_capture g) (current_reverb g) (plate_reverb
    g) (hall_reverb g) (spring_reverb g) (delay_effect g) (notch1_L g)
    (notch1_R g) (notch2_L g) (notch2_R g) (trem_val g).

Definition set_p_knob_6_capture (v : KnobCapture.t) (g : Globals) : Globals :=
  mkGlobals (pedal_mode g) (mono_stereo_mode g) (polarity_mode g) (bypass g)
    (reverb g) (delay_time_target g) (delay_drywet g)
    (reverb_dry_scale_factor g) (reverb_reverse_scale_factor g)
    (left_input g) (right_input g) (left_output g) (right_output g)
    (input_amplification g) (trigger_settings_save g) (trigger_dfu_mode g)
    (SavedSettings g) (tap_tempo g) (p_knob_2_capture g) (p_knob_3_capture
    g) (p_knob_4_capture g) (p_knob_5_capture g) v (p_sw1_capture g)
    (p_sw2_capture g) (p_sw3_capture g) (current_reverb g) (plate_reverb
    g) (hall_reverb g) (spring_reverb g) (delay_effect g) (notch1_L g)
    (notch1_R g) (notch2_L g) (notch2_R g) (trem_val g).

Definition set_p_sw1_capture (v : SwitchCapture.t) (g : Globals) : Globals :=
  mkGlobals (pedal_mode g) (mono_stereo_mode g) (polarity_mode g) (bypass g)
    (reverb g) (delay_time_target g) (delay_drywet g)
    (reverb_dry_scale_factor g) (reverb_reverse_scale_factor g)
    (left_input g) (right_input g) (left_output g) (right_output g)
    (input_amplification g) (trigger_settings_save g) (trigger_dfu_mode g)
    (SavedSettings g) (tap_tempo g) (p_knob_2_capture g) (p_knob_3_capture
    g) (p_knob_4_capture g) (p_knob_5_capture g) (p_knob_6_capture g) v
    (p_sw2_capture g) (p_sw3_capture g) (current_reverb g) (plate_reverb
    g) (hall_reverb g) (spring_reverb g) (delay_effect g) (notch1_L g)
    (notch1_R g) (notch2_L g) (notch2_R g) (trem_val g).

Definition set_p_sw2_capture (v : SwitchCapture.t) (g : Globals) : Globals :=
  mkGlobals (pedal_mode g) (mono_stereo_mode g) (polarity_mode g) (bypass g)
    (reverb g) (delay_time_target g) (delay_drywet g)
    (reverb_dry_scale_factor g) (reverb_reverse_scale_factor g)
    (left_input g) (right_input g) (left_output g) (right_output g)
    (input_amplification g) (trigger_settings_save g) (trigger_dfu_mode g)
    (SavedSettings g) (tap_tempo g) (p_knob_2_capture g) (p_knob_3_capture
    g) (p_knob_4_capture g) (p_knob_5_capture g) (p_knob_6_capture g)
    (p_sw1_capture g) v (p_sw3_capture g) (current_reverb g) (plate_reverb
    g) (hall_reverb g) (spring_reverb g) (delay_effect g) (notch1_L g)
    (notch1_R g) (notch2_L g) (notch2_R g) (trem_val g).

Definition set_p_sw3_capture (v : SwitchCapture.t) (g : Globals) : Globals :=
  mkGlobals (pedal_mode g) (mono_stereo_mode g) (polarity_mode g) (bypass g)
    (reverb g) (delay_time_target g) (delay_drywet g)
    (reverb_dry_scale_factor g) (reverb_reverse_scale_factor g)
    (left_input g) (right_input g) (left_output g) (right_output g)
    (input_amplification g) (trigger_settings_save g) (trigger_dfu_mode g)
    (SavedSettings g) (tap_tempo g) (p_knob_2_capture g) (p_knob_3_capture
    g) (p_knob_4_capture g) (p_knob_5_capture g) (p_knob_6_capture g)
    (p_sw1_capture g) (p_sw2_capture g) v (current_reverb g) (plate_reverb
    g) (hall_reverb g) (spring_reverb g) (delay_effect g) (notch1_L g)
    (notch1_R g) (notch2_L g) (notch2_R g) (trem_val g).

Definition set_current_reverb (v : option ReverbObject) (g : Globals) : Globals :=
  mkGlobals (pedal_mode g) (mono_stereo_mode g) (polarity_mode g) (bypass g)
    (reverb g) (delay_time_target g) (delay_drywet g)
    (reverb_dry_scale_factor g) (reverb_reverse_scale_factor g)
    (left_input g) (right_input g) (left_output g) (right_output g)
    (input_amplification g) (trigger_settings_save g) (trigger_dfu_mode g)
    (SavedSettings g) (tap_tempo g) (p_knob_2_capture g) (p_knob_3_capture
    g) (p_knob_4_capture g) (p_knob_5_capture g) (p_knob_6_capture g)
    (p_sw1_capture g) (p_sw2_capture g) (p_sw3_capture g) v (plate_reverb
    g) (hall_reverb g) (spring_reverb g) (delay_effect g) (notch1_L g)
    (notch1_R g) (notch2_L g) (notch2_R g) (trem_val g).

Definition set_plate_reverb (v : PlateReverb.t) (g : Globals) : Globals :=
  mkGlobals (pedal_mode g) (mono_stereo_mode g) (polarity_mode g) (bypass g)
    (reverb g) (delay_time_target g) (delay_drywet g)
    (reverb_dry_scale_factor g) (reverb_reverse_scale_factor g)
    (left_input g) (right_input g) (left_output g) (right_output g)
    (input_amplification g) (trigger_settings_save g) (trigger_dfu_mode g)
    (SavedSettings g) (tap_tempo g) (p_knob_2_capture g) (p_knob_3_capture
    g) (p_knob_4_capture g) (p_knob_5_capture g) (p_knob_6_capture g)
    (p_sw1_capture g) (p_sw2_capture g) (p_sw3_capture g) (current_reverb
    g) v (hall_reverb g) (spring_reverb g) (delay_effect g) (notch1_L g)
    (notch1_R g) (notch2_L g) (notch2_R g) (trem_val g).

Definition set_hall_reverb (v : HallReverb.t) (g : Globals) : Globals :=
  mkGlobals (pedal_mode g) (mono_stereo_mode g) (polarity_mode g) (bypass g)
    (reverb g) (delay_time_target g) (delay_drywet g)
    (reverb_dry_scale_factor g) (reverb_reverse_scale_factor g)
    (left_input g) (right_input g) (left_output g) (right_output g)
    (input_amplification g) (trigger_settings_save g) (trigger_dfu_mode g)
    (SavedSettings g) (tap_tempo g) (p_knob_2_capture g) (p_knob_3_capture
    g) (p_knob_4_capture g) (p_knob_5_capture g) (p_knob_6_capture g)
    (p_sw1_capture g) (p_sw2_capture g) (p_sw3_capture g) (current_reverb
    g) (plate_reverb g) v (spring_reverb g) (delay_effect g) (notch1_L g)
    (notch1_R g) (notch2_L g) (notch2_R g) (trem_val g).

Definition set_spring_reverb (v : SpringReverb.t) (g : Globals) : Globals :=
  mkGlobals (pedal_mode g) (mono_stereo_mode g) (polarity_mode g) (bypass g)
    (reverb g) (delay_time_target g) (delay_drywet g)
    (reverb_dry_scale_factor g) (reverb_reverse_scale_factor g)
    (left_input g) (right_input g) (left_output g) (right_output g)
    (input_amplification g) (trigger_settings_save g) (trigger_dfu_mode g)
    (SavedSettings g) (tap_tempo g) (p_knob_2_capture g) (p_knob_3_capture
    g) (p_knob_4_capture g) (p_knob_5_capture g) (p_knob_6_capture g)
    (p_sw1_capture g) (p_sw2_capture g) (p_sw3_capture g) (current_reverb
    g) (plate_reverb g) (hall_reverb g) v (delay_effect g) (notch1_L g)
    (notch1_R g) (notch2_L g) (notch2_R g) (trem_val g).

Definition set_delay_effect (v : DelayEffect.t) (g : Globals) : Globals :=
  mkGlobals (pedal_mode g) (mono_stereo_mode g) (polarity_mode g) (bypass g)
    (reverb g) (delay_time_target g) (delay_drywet g)
    (reverb_dry_scale_factor g) (reverb_reverse_scale_factor g)
    (left_input g) (right_input g) (left_output g) (right_output g)
    (input_amplification g) (trigger_settings_save g) (trigger_dfu_mode g)
    (SavedSettings g) (tap_tempo g) (p_knob_2_capture g) (p_knob_3_capture
    g) (p_knob_4_capture g) (p_knob_5_capture g) (p_knob_6_capture g)
    (p_sw1_capture g) (p_sw2_capture g) (p_sw3_capture g) (current_reverb
    g) (plate_reverb g) (hall_reverb g) (spring_reverb g) v (notch1_L g)
    (notch1_R g) (notch2_L g) (notch2_R g) (trem_val g).

Definition set_notch1_L (v : PeakingEQ.t) (g : Globals) : Globals :=
  mkGlobals (pedal_mode g) (mono_stereo_mode g) (polarity_mode g) (bypass g)
    (reverb g) (delay_time_target g) (delay_drywet g)
    (reverb_dry_scale_factor g) (reverb_reverse_scale_factor g)
    (left_input g) (right_input g) (left_output g) (right_output g)
    (input_amplification g) (trigger_settings_save g) (trigger_dfu_mode g)
    (SavedSettings g) (tap_tempo g) (p_knob_2_capture g) (p_knob_3_capture
    g) (p_knob_4_capture g) (p_knob_5_capture g) (p_knob_6_capture g)
    (p_sw1_capture g) (p_sw2_capture g) (p_sw3_capture g) (current_reverb
    g) (plate_reverb g) (hall_reverb g) (spring_reverb g) (delay_effect g)
    v (notch1_R g) (notch2_L g) (notch2_R g) (trem_val g).

Definition set_notch1_R (v : PeakingEQ.t) (g : Globals) : Globals :=
  mkGlobals (pedal_mode g) (mono_stereo_mode g) (polarity_mode g) (bypass g)
    (reverb g) (delay_time_target g) (delay_drywet g)
    (reverb_dry_scale_factor g) (reverb_reverse_scale_factor g)
    (left_input g) (right_input g) (left_output g) (right_output g)
    (input_amplification g) (trigger_settings_save g) (trigger_dfu_mode g)
    (SavedSettings g) (tap_tempo g) (p_knob_2_capture g) (p_knob_3_capture
    g) (p_knob_4_capture g) (p_knob_5_capture g) (p_knob_6_capture g)
    (p_sw1_capture g) (p_sw2_capture g) (p_sw3_capture g) (current_reverb
    g) (plate_reverb g) (hall_reverb g) (spring_reverb g) (delay_effect g)
    (notch1_L g) v (notch2_L g) (notch2_R g) (trem_val g).

Definition set_notch2_L (v : PeakingEQ.t) (g : Globals) : Globals :=
  mkGlobals (pedal_mode g) (mono_stereo_mode g) (polarity_mode g) (bypass g)
    (reverb g) (delay_time_target g) (delay_drywet g)
    (reverb_dry_scale_factor g) (reverb_reverse_scale_factor g)
    (left_input g) (right_input g) (left_output g) (right_output g)
    (input_amplification g) (trigger_settings_save g) (trigger_dfu_mode g)
    (SavedSettings g) (tap_tempo g) (p_knob_2_capture g) (p_knob_3_capture
    g) (p_knob_4_capture g) (p_knob_5_capture g) (p_knob_6_capture g)
    (p_sw1_capture g) (p_sw2_capture g) (p_sw3_capture g) (current_reverb
    g) (plate_reverb g) (hall_reverb g) (spring_reverb g) (delay_effect g)
    (notch1_L g) (notch1_R g) v (notch2_R g) (trem_val g).

Definition set_notch2_R (v : PeakingEQ.t) (g : Globals) : Globals :=
  mkGlobals (pedal_mode g) (mono_stereo_mode g) (polarity_mode g) (bypass g)
    (reverb g) (delay_time_target g) (delay_drywet g)
    (reverb_dry_scale_factor g) (reverb_reverse_scale_factor g)
    (left_input g) (right_input g) (left_output g) (right_output g)
    (input_amplification g) (trigger_settings_save g) (trigger_dfu_mode g)
    (SavedSettings g) (tap_tempo g) (p_knob_2_capture g) (p_knob_3_capture
    g) (p_knob_4_capture g) (p_knob_5_capture g) (p_knob_6_capture g)
    (p_sw1_capture g) (p_sw2_capture g) (p_sw3_capture g) (current_reverb
    g) (plate_reverb g) (hall_reverb g) (spring_reverb g) (delay_effect g)
    (notch1_L g) (notch1_R g) (notch2_L g) v (trem_val g).

Definition set_trem_val (v : float) (g : Globals) : Globals :=
  mkGlobals (pedal_mode g) (mono_stereo_mode g) (polarity_mode g) (bypass g)
    (reverb g) (delay_time_target g) (delay_drywet g)
    (reverb_dry_scale_factor g) (reverb_reverse_scale_factor g)
    (left_input g) (right_input g) (left_output g) (right_output g)
    (input_amplification g) (trigger_settings_save g) (trigger_dfu_mode g)
    (SavedSettings g) (tap_tempo g) (p_knob_2_capture g) (p_knob_3_capture
    g) (p_knob_4_capture g) (p_knob_5_capture g) (p_knob_6_capture g)
    (p_sw1_capture g) (p_sw2_capture g) (p_sw3_capture g) (current_reverb
    g) (plate_reverb g) (hall_reverb g) (spring_reverb g) (delay_effect g)
    (notch1_L g) (notch1_R g) (notch2_L g) (notch2_R g) v.
(** *** Static initial values *)

Definition initial_reverb : ReverbOrchestrator.t :=
  ReverbOrchestrator.mk REVERB_PLATE REVERB_KNOB_DRY_WET_MIX 1 0.5
    0 0.8 0.85 (7.25 / PLATE_DAMP_SCALE) (7.25 / PLATE_DAMP_SCALE) 2 2 1.

(** The globals as their initialisers leave them, over the given effect and
    filter objects and flash content. *)
Definition initial_globals (flash : option Settings.t)
  (plate : PlateReverb.t) (hall : HallReverb.t) (spring : SpringReverb.t)
  (delay : DelayEffect.t) (notch1 notch2 : PeakingEQ.t) : Globals :=
  mkGlobals PEDAL_MODE_NORMAL MS_MODE_MIMO POLARITY_NORMAL
    BypassState.initial initial_reverb
    0 0 1 1 0 0 0 0 1 false false
    (PersistentStorage.mk flash Settings.zero Settings.zero)
    TapTempoState.initial
    (KnobCapture.make KnobCapture.default_threshold)
    (KnobCapture.make KnobCapture.default_threshold)
    (KnobCapture.make KnobCapture.default_threshold)
    (KnobCapture.make KnobCapture.default_threshold)
    (KnobCapture.make KnobCapture.default_threshold)
    SwitchCapture.make SwitchCapture.make SwitchCapture.make
    None plate hall spring delay notch1 notch1 notch2 notch2 0.

(** *** Nested assignments *)

Definition upd_bypass (f : BypassState.t -> BypassState.t) (g : Globals) : Globals :=
  set_bypass (f (bypass g)) g.

Definition upd_reverb (f : ReverbOrchestrator.t -> ReverbOrchestrator.t)
  (g : Globals) : Globals :=
  set_reverb (f (reverb g)) g.

Definition upd_tap_tempo (f : TapTempoState.t -> TapTempoState.t)
  (g : Globals) : Globals :=
  set_tap_tempo (f (tap_tempo g)) g.

(** [Settings &local_settings = SavedSettings.GetSettings()]: a reference,
    so an assignment to one of its fields changes the working copy. *)
Definition local_settings (g : Globals) : Settings.t :=
  PersistentStorage.GetSettings (SavedSettings g).

Definition upd_local_settings (f : Settings.t -> Settings.t) (g : Globals) : Globals :=
  set_SavedSettings
    (PersistentStorage.set_settings_ (f (local_settings g)) (SavedSettings g)) g.

(** *** Utility functions *)

Fixpoint switchPosForValue_from (i : Z) (map : list Z) (value : Z) : Z :=
  match map with
  | [] => 1
  | m :: rest => if (m =? value)%Z then i else switchPosForValue_from (i + 1) rest value
  end.

Definition switchPosForValue (map : list Z) (value : Z) : Z :=
  switchPosForValue_from 0 map value.

Definition hardLimit100_ (x : float) : float :=
  if gtb x 1 then 1 else if ltb x (-1) then -1 else x.

(** *** Reverb parameter management *)

Definition updateReverbScales (mode : Z) (g : Globals) : Globals :=
  if (mode =? MS_MODE_MIMO)%Z then
    set_reverb_reverse_scale_factor 0.2 (set_reverb_dry_scale_factor 5 g)
  else if ((mode =? MS_MODE_MISO) || (mode =? MS_MODE_SISO))%Z%bool then
    set_reverb_reverse_scale_factor 0.4 (set_reverb_dry_scale_factor 2.5 g)
  else g.

Definition updatePlateReverbParameters (g : Globals) : Globals :=
  let r := reverb g in
  let p := plate_reverb g in
  let p := PlateReverb.SetDecay p (ReverbOrchestrator.plate_decay r) in
  let p := PlateReverb.SetDiffusion p (ReverbOrchestrator.plate_diffusion r) in
  let p := PlateReverb.SetInputHighCut p (ReverbOrchestrator.plate_input_damp_high r) in
  let p := PlateReverb.SetTankHighCut p (ReverbOrchestrator.plate_tank_damp_high r) in
  let p := PlateReverb.SetTankModSpeed p
             (at_index PLATE_TANK_MOD_SPEED_VALUES
                (ReverbOrchestrator.plate_mod_speed_pos r) 0) in
  let p := PlateReverb.SetTankModDepth p
             (at_index PLATE_TANK_MOD_DEPTH_VALUES
                (ReverbOrchestrator.plate_mod_depth_pos r) 0) in
  let p := PlateReverb.SetTankModShape p
             (at_index PLATE_TANK_MOD_SHAPE_VALUES
                (ReverbOrchestrator.plate_mod_shape_pos r) 0) in
  let p := PlateReverb.SetPreDelay p (ReverbOrchestrator.plate_pre_delay r) in
  set_plate_reverb p g.

(** *** Settings management *)

(** The assignments of [loadSettings] once the version has matched. *)
Definition loadSettings_apply (g : Globals) : Globals :=
  let s := local_settings g in
  let g := upd_reverb (ReverbOrchestrator.set_plate_decay (Settings.decay s)) g in
  let g := upd_reverb (ReverbOrchestrator.set_plate_diffusion (Settings.diffusion s)) g in
  let g := upd_reverb (ReverbOrchestrator.set_plate_input_damp_high
                         (Settings.input_cutoff_freq s)) g in
  let g := upd_reverb (ReverbOrchestrator.set_plate_tank_damp_high
                         (Settings.tank_cutoff_freq s)) g in
  let g := upd_reverb (ReverbOrchestrator.set_plate_mod_speed_pos
                         (Settings.tank_mod_speed_pos s)) g in
  let g := upd_reverb (ReverbOrchestrator.set_plate_mod_depth_pos
                         (Settings.tank_mod_depth_pos s)) g in
  let g := upd_reverb (ReverbOrchestrator.set_plate_mod_shape_pos
                         (Settings.tank_mod_shape_pos s)) g in
  let g := upd_reverb (ReverbOrchestrator.set_plate_pre_delay (Settings.pre_delay s)) g in
  let g := set_mono_stereo_mode (Settings.mono_stereo_mode s) g in
  let g := set_polarity_mode (Settings.polarity_mode s) g in
  let g := upd_reverb (ReverbOrchestrator.set_knob_mode (Settings.reverb_knob_mode s)) g in
  let g := updateReverbScales (mono_stereo_mode g) g in
  let g := upd_bypass (BypassState.set_reverb (Settings.bypass_reverb s)) g in
  let g := upd_bypass (BypassState.set_tremolo (Settings.bypass_tremolo s)) g in
  let g := upd_bypass (BypassState.set_delay (Settings.bypass_delay s)) g in
  let g := upd_tap_tempo (TapTempoState.set_tapped_delay_samples
                            (Settings.tapped_delay_samples s)) g in
  updatePlateReverbParameters g.

(** [loadSettings] calls itself after [RestoreDefaults()]; [fuel] bounds the
    depth of that recursion and [None] means it was used up. *)
Fixpoint loadSettings (fuel : nat) (g : Globals) : option Globals :=
  match fuel with
  | O => None
  | S fuel' =>
      let savedVersion := Settings.version (local_settings g) in
      if negb (savedVersion =? SETTINGS_VERSION)%Z then
        loadSettings fuel'
          (set_SavedSettings (PersistentStorage.RestoreDefaults (SavedSettings g)) g)
      else Some (loadSettings_apply g)
  end.

Definition saveSettings (g : Globals) : Globals :=
  let r := reverb g in
  let g := upd_local_settings (Settings.set_version SETTINGS_VERSION) g in
  let g := upd_local_settings (Settings.set_decay (ReverbOrchestrator.plate_decay r)) g in
  let g := upd_local_settings
             (Settings.set_diffusion (ReverbOrchestrator.plate_diffusion r)) g in
  let g := upd_local_settings
             (Settings.set_input_cutoff_freq
                (ReverbOrchestrator.plate_input_damp_high r)) g in
  let g := upd_local_settings
             (Settings.set_tank_cutoff_freq
                (ReverbOrchestrator.plate_tank_damp_high r)) g in
  let g := upd_local_settings
             (Settings.set_tank_mod_speed_pos
                (ReverbOrchestrator.plate_mod_speed_pos r)) g in
  let g := upd_local_settings
             (Settings.set_tank_mod_depth_pos
                (ReverbOrchestrator.plate_mod_depth_pos r)) g in
  let g := upd_local_settings
             (Settings.set_tank_mod_shape_pos
                (ReverbOrchestrator.plate_mod_shape_pos r)) g in
  let g := upd_local_settings
             (Settings.set_pre_delay (ReverbOrchestrator.plate_pre_delay r)) g in
  set_trigger_settings_save true g.

Definition saveDeviceSettings (g : Globals) : Globals :=
  let g := upd_local_settings (Settings.set_mono_stereo_mode (mono_stereo_mode g)) g in
  let g := upd_local_settings (Settings.set_polarity_mode (polarity_mode g)) g in
  let g := upd_local_settings
             (Settings.set_reverb_knob_mode (ReverbOrchestrator.knob_mode (reverb g))) g in
  set_trigger_settings_save true g.

Definition saveBypassStates (g : Globals) : Globals :=
  let g := upd_local_settings
             (Settings.set_bypass_reverb (BypassState.reverb (bypass g))) g in
  let g := upd_local_settings
             (Settings.set_bypass_tremolo (BypassState.tremolo (bypass g))) g in
  let g := upd_local_settings
             (Settings.set_bypass_delay (BypassState.delay (bypass g))) g in
  let g := upd_local_settings
             (Settings.set_tapped_delay_samples
                (TapTempoState.tapped_delay_samples (tap_tempo g))) g in
  set_trigger_settings_save true g.

Definition restoreReverbSettings (g : Globals) : Globals :=
  let s := local_settings g in
  let g := upd_reverb (ReverbOrchestrator.set_plate_decay (Settings.decay s)) g in
  let g := upd_reverb (ReverbOrchestrator.set_plate_diffusion (Settings.diffusion s)) g in
  let g := upd_reverb (ReverbOrchestrator.set_plate_input_damp_high
                         (Settings.input_cutoff_freq s)) g in
  let g := upd_reverb (ReverbOrchestrator.set_plate_tank_damp_high
                         (Settings.tank_cutoff_freq s)) g in
  let g := upd_reverb (ReverbOrchestrator.set_plate_mod_speed_pos
                         (Settings.tank_mod_speed_pos s)) g in
  let g := upd_reverb (ReverbOrchestrator.set_plate_mod_depth_pos
                         (Settings.tank_mod_depth_pos s)) g in
  let g := upd_reverb (ReverbOrchestrator.set_plate_mod_shape_pos
                         (Settings.tank_mod_shape_pos s)) g in
  let g := upd_reverb (ReverbOrchestrator.set_plate_pre_delay (Settings.pre_delay s)) g in
  updatePlateReverbParameters g.

Definition restoreDeviceSettings (g : Globals) : Globals :=
  let s := local_settings g in
  let g := set_mono_stereo_mode (Settings.mono_stereo_mode s) g in
  let g := set_polarity_mode (Settings.polarity_mode s) g in
  let g := upd_reverb (ReverbOrchestrator.set_knob_mode (Settings.reverb_knob_mode s)) g in
  updateReverbScales (mono_stereo_mode g) g.

(** The record that [main] hands to [SavedSettings.Init]. *)
Definition defaultSettings (g : Globals) : Settings.t :=
  let r := reverb g in
  Settings.mk SETTINGS_VERSION
    (ReverbOrchestrator.plate_decay r)
    (ReverbOrchestrator.plate_diffusion r)
    (ReverbOrchestrator.plate_input_damp_high r)
    (ReverbOrchestrator.plate_tank_damp_high r)
    (ReverbOrchestrator.plate_mod_speed_pos r)
    (ReverbOrchestrator.plate_mod_depth_pos r)
    (ReverbOrchestrator.plate_mod_shape_pos r)
    (ReverbOrchestrator.plate_pre_delay r)
    MS_MODE_MIMO POLARITY_NORMAL REVERB_KNOB_DRY_WET_MIX
    true true true 0.

(** The compiled-in defaults: [defaultSettings] at the initial values of the
    reverb orchestrator. *)
Definition compiled_defaults : Settings.t :=
  Settings.mk SETTINGS_VERSION 0.8 0.85 (7.25 / PLATE_DAMP_SCALE)
    (7.25 / PLATE_DAMP_SCALE) 2 2 1 0
    MS_MODE_MIMO POLARITY_NORMAL REVERB_KNOB_DRY_WET_MIX true true true 0.

(** The part of [main] that deals with the settings: the default active
    reverb, [SavedSettings.Init(defaultSettings)] and [loadSettings()]. *)
Definition main_storage (g : Globals) : Globals :=
  let g := set_current_reverb (Some plate_reverb_object) g in
  set_SavedSettings (PersistentStorage.Init (SavedSettings g) (defaultSettings g)) g.

Definition main_settings (fuel : nat) (g : Globals) : option Globals :=
  loadSettings fuel (main_storage g).

(** *** Tap tempo *)

Definition enterTapTempo (hw : Hw) (g : Globals) : Globals :=
  (* the 32 warm-up calls of p_knob_4.Process() only settle the reading *)
  let g := upd_tap_tempo
             (fun t => TapTempoState.set_delay_knob_capture
                         (KnobCapture.Capture (TapTempoState.delay_knob_capture t)
                            (p_knob_4 hw) (p_knob_4 hw)) t) g in
  let current_timing := at_index kDelayTimingMap (toggleswitch_3 hw) 0%Z in
  let g := upd_tap_tempo
             (TapTempoState.set_tapped_delay_samples
                (delay_time_target g / at_index kDelayTimingMultiplier current_timing 0)) g in
  let g := upd_tap_tempo (TapTempoState.set_tap_count 0) g in
  let g := upd_tap_tempo (TapTempoState.set_tap_timestamps [0; 0; 0]%Z) g in
  let g := upd_tap_tempo (TapTempoState.set_tap_flash_counter 0) g in
  let g := upd_tap_tempo
             (fun t => TapTempoState.set_tapped_tempo_ms
                         (TapTempoState.tapped_delay_samples t / SAMPLE_RATE * 1000) t) g in
  let g := upd_tap_tempo (TapTempoState.set_last_tap_time (now hw)) g in
  let g := if BypassState.delay (bypass g)
           then saveBypassStates (upd_bypass (BypassState.set_delay false) g)
           else g in
  set_pedal_mode PEDAL_MODE_TAP_TEMPO g.

Definition exitTapTempo (hw : Hw) (g : Globals) : Globals :=
  let knob_was_moved :=
    negb (KnobCapture.IsFrozen (TapTempoState.delay_knob_capture (tap_tempo g))) in
  let g := upd_tap_tempo
             (fun t => TapTempoState.set_delay_knob_capture
                         (KnobCapture.Reset (TapTempoState.delay_knob_capture t)) t) g in
  let g := if (knob_was_moved ||
               eqb (TapTempoState.tapped_delay_samples (tap_tempo g)) 0)%bool
           then upd_tap_tempo (TapTempoState.set_knob_baseline (-1))
                  (upd_tap_tempo (TapTempoState.set_tapped_delay_samples 0) g)
           else upd_tap_tempo (TapTempoState.set_knob_baseline (knob_4_value hw)) g in
  let g := saveBypassStates g in
  set_pedal_mode PEDAL_MODE_NORMAL g.

(** [tap_timestamps[i]] *)
Definition timestamp (t : TapTempoState.t) (i : nat) : Z :=
  nth i (TapTempoState.tap_timestamps t) 0%Z.

(** The loop [for (i = 0; i < intervals; i++) total += ts[i] - ts[i + 1]]
    over [uint32_t]. *)
Fixpoint sum_intervals (t : TapTempoState.t) (i : nat) (count : nat) (total : Z) : Z :=
  match count with
  | O => total
  | S c =>
      sum_intervals t (S i) c
        (uint32 (total + uint32 (timestamp t i - timestamp t (S i))))
  end.

Definition registerTap (hw : Hw) (g : Globals) : Globals :=
  let now := now hw in
  let g := upd_tap_tempo
             (fun t => TapTempoState.set_tap_timestamps
                         [now; timestamp t 0; timestamp t 1] t) g in
  let g := if (TapTempoState.tap_count (tap_tempo g) <? 3)%Z
           then upd_tap_tempo
                  (fun t => TapTempoState.set_tap_count (TapTempoState.tap_count t + 1) t) g
           else g in
  let g :=
    if (TapTempoState.tap_count (tap_tempo g) >=? 2)%Z then
      let intervals := (TapTempoState.tap_count (tap_tempo g) - 1)%Z in
      let total := sum_intervals (tap_tempo g) 0 (Z.to_nat intervals) 0 in
      let avg_ms := fdiv (f32 (inject_Z total)) (inject_Z intervals) in
      let samples := fdiv (fmul avg_ms SAMPLE_RATE) 1000 in
      let min_delay := fmul SAMPLE_RATE DELAY_TIME_MIN_SECONDS in
      let samples := if ltb samples min_delay then min_delay else samples in
      let samples := if gtb samples (inject_Z MAX_DELAY)
                     then inject_Z MAX_DELAY else samples in
      let g := upd_tap_tempo (TapTempoState.set_tapped_delay_samples samples) g in
      let g := upd_tap_tempo (TapTempoState.set_tapped_tempo_ms avg_ms) g in
      saveBypassStates g
    else g in
  let g := upd_tap_tempo (TapTempoState.set_last_tap_time now) g in
  upd_tap_tempo (TapTempoState.set_tap_flash_counter TAP_FLASH_CALLBACKS) g.

(** *** Footswitch handlers *)

(** [current_reverb->Clear()] behind the null test. *)
Definition current_reverb_Clear (g : Globals) : Globals :=
  match current_reverb g with
  | None => g
  | Some plate_reverb_object => set_plate_reverb (PlateReverb.Clear (plate_reverb g)) g
  | Some hall_reverb_object => set_hall_reverb (HallReverb.Clear (hall_reverb g)) g
  | Some spring_reverb_object => set_spring_reverb (SpringReverb.Clear (spring_reverb g)) g
  end.

Definition reset_reverb_edit_captures (g : Globals) : Globals :=
  let g := set_p_knob_2_capture (KnobCapture.Reset (p_knob_2_capture g)) g in
  let g := set_p_knob_3_capture (KnobCapture.Reset (p_knob_3_capture g)) g in
  let g := set_p_knob_4_capture (KnobCapture.Reset (p_knob_4_capture g)) g in
  let g := set_p_knob_5_capture (KnobCapture.Reset (p_knob_5_capture g)) g in
  let g := set_p_knob_6_capture (KnobCapture.Reset (p_knob_6_capture g)) g in
  let g := set_p_sw1_capture (SwitchCapture.Reset (p_sw1_capture g)) g in
  let g := set_p_sw2_capture (SwitchCapture.Reset (p_sw2_capture g)) g in
  set_p_sw3_capture (SwitchCapture.Reset (p_sw3_capture g)) g.

Definition reset_switch_captures (g : Globals) : Globals :=
  let g := set_p_sw1_capture (SwitchCapture.Reset (p_sw1_capture g)) g in
  let g := set_p_sw2_capture (SwitchCapture.Reset (p_sw2_capture g)) g in
  set_p_sw3_capture (SwitchCapture.Reset (p_sw3_capture g)) g.

Definition handleNormalPress (hw : Hw) (footswitch : Switches) (g : Globals) : Globals :=
  if PedalMode_eqb (pedal_mode g) PEDAL_MODE_TAP_TEMPO then
    if is_FOOTSWITCH_1 footswitch then
      upd_tap_tempo (TapTempoState.set_just_exited_tap_tempo true) (exitTapTempo hw g)
    else registerTap hw g
  else
    (* Clear the tap tempo exit guard *)
    let g := upd_tap_tempo (TapTempoState.set_just_exited_tap_tempo false) g in
    if PedalMode_eqb (pedal_mode g) PEDAL_MODE_EDIT_REVERB then
      let g := if is_FOOTSWITCH_2 footswitch then saveSettings g
               else restoreReverbSettings g in
      let g := reset_reverb_edit_captures g in
      set_pedal_mode PEDAL_MODE_NORMAL g
    else if PedalMode_eqb (pedal_mode g) PEDAL_MODE_EDIT_DEVICE_SETTINGS then
      let g := if is_FOOTSWITCH_2 footswitch then saveDeviceSettings g
               else restoreDeviceSettings g in
      let g := reset_switch_captures g in
      set_pedal_mode PEDAL_MODE_NORMAL g
    else
      let g :=
        if is_FOOTSWITCH_1 footswitch then
          let g := upd_bypass
                     (fun b => BypassState.set_reverb (negb (BypassState.reverb b)) b) g in
          if BypassState.reverb (bypass g) then current_reverb_Clear g else g
        else
          upd_bypass (fun b => BypassState.set_tremolo (negb (BypassState.tremolo b)) b) g in
      saveBypassStates g.

Definition handleDoublePress (hw : Hw) (footswitch : Switches) (g : Globals) : Globals :=
  (* Guard: if we just exited tap tempo, consume this event silently *)
  if TapTempoState.just_exited_tap_tempo (tap_tempo g) then
    upd_tap_tempo (TapTempoState.set_just_exited_tap_tempo false) g
  else if PedalMode_eqb (pedal_mode g) PEDAL_MODE_TAP_TEMPO then
    if is_FOOTSWITCH_2 footswitch then registerTap hw g else g
  else if (PedalMode_eqb (pedal_mode g) PEDAL_MODE_EDIT_REVERB ||
           PedalMode_eqb (pedal_mode g) PEDAL_MODE_EDIT_DEVICE_SETTINGS)%bool then g
  else
    (* a normal press was already processed, so reverse that *)
    let g := handleNormalPress hw footswitch g in
    if is_FOOTSWITCH_1 footswitch then enterTapTempo hw g
    else if is_FOOTSWITCH_2 footswitch then
      saveBypassStates
        (upd_bypass (fun b => BypassState.set_delay (negb (BypassState.delay b)) b) g)
    else g.

Definition handleLongPress (hw : Hw) (footswitch : Switches) (g : Globals) : Globals :=
  (* Guard: if we just exited tap tempo, consume this event silently *)
  if TapTempoState.just_exited_tap_tempo (tap_tempo g) then
    upd_tap_tempo (TapTempoState.set_just_exited_tap_tempo false) g
  else if (PedalMode_eqb (pedal_mode g) PEDAL_MODE_EDIT_REVERB ||
           PedalMode_eqb (pedal_mode g) PEDAL_MODE_EDIT_DEVICE_SETTINGS ||
           PedalMode_eqb (pedal_mode g) PEDAL_MODE_TAP_TEMPO)%bool then g
  else
    let g := handleNormalPress hw footswitch g in
    let both_pressed := (footswitch_1_pressed hw && footswitch_2_pressed hw)%bool in
    if both_pressed then set_trigger_dfu_mode true g
    else if is_FOOTSWITCH_1 footswitch then
      let r := reverb g in
      let g := set_p_knob_2_capture
                 (KnobCapture.Capture (p_knob_2_capture g) (p_knob_2 hw)
                    (ReverbOrchestrator.plate_pre_delay r)) g in
      let g := set_p_knob_3_capture
                 (KnobCapture.Capture (p_knob_3_capture g) (p_knob_3 hw)
                    (ReverbOrchestrator.plate_decay r)) g in
      let g := set_p_knob_4_capture
                 (KnobCapture.Capture (p_knob_4_capture g) (p_knob_4 hw)
                    (ReverbOrchestrator.plate_diffusion r)) g in
      let g := set_p_knob_5_capture
                 (KnobCapture.Capture (p_knob_5_capture g) (p_knob_5 hw)
                    (ReverbOrchestrator.plate_input_damp_high r)) g in
      let g := set_p_knob_6_capture
                 (KnobCapture.Capture (p_knob_6_capture g) (p_knob_6 hw)
                    (ReverbOrchestrator.plate_tank_damp_high r)) g in
      let g := set_p_sw1_capture
                 (SwitchCapture.Capture (p_sw1_capture g) (toggleswitch_1 hw)
                    (ReverbOrchestrator.plate_mod_speed_pos r)) g in
      let g := set_p_sw2_capture
                 (SwitchCapture.Capture (p_sw2_capture g) (toggleswitch_2 hw)
                    (ReverbOrchestrator.plate_mod_depth_pos r)) g in
      let g := set_p_sw3_capture
                 (SwitchCapture.Capture (p_sw3_capture g) (toggleswitch_3 hw)
                    (ReverbOrchestrator.plate_mod_shape_pos r)) g in
      let g := upd_bypass (BypassState.set_reverb false) g in
      set_pedal_mode PEDAL_MODE_EDIT_REVERB g
    else if is_FOOTSWITCH_2 footswitch then
      let g := set_p_sw1_capture
                 (SwitchCapture.Capture (p_sw1_capture g) (toggleswitch_1 hw)
                    (switchPosForValue kReverbKnobMap
                       (ReverbOrchestrator.knob_mode (reverb g)))) g in
      let g := set_p_sw2_capture
                 (SwitchCapture.Capture (p_sw2_capture g) (toggleswitch_2 hw)
                    (switchPosForValue kPolarityMap (polarity_mode g))) g in
      let g := set_p_sw3_capture
                 (SwitchCapture.Capture (p_sw3_capture g) (toggleswitch_3 hw)
                    (switchPosForValue kMonoStereoMap (mono_stereo_mode g))) g in
      set_pedal_mode PEDAL_MODE_EDIT_DEVICE_SETTINGS g
    else g.

(** The three callbacks the hardware layer invokes. *)
Inductive Gesture := NormalPress | DoublePress | LongPress.

Definition handle (hw : Hw) (e : Gesture) (footswitch : Switches) (g : Globals) : Globals :=
  match e with
  | NormalPress => handleNormalPress hw footswitch g
  | DoublePress => handleDoublePress hw footswitch g
  | LongPress => handleLongPress hw footswitch g
  end.

(** *** AudioCallback *)

(** [(int)x]: conversion toward zero. *)
Definition to_int (x : float) : Z := DelayLine.trunc x.

(** The delay section of the Normal/TapTempo branch of [AudioCallback]: from
    the choice of [delay_timing] down to the assignment of [delay_drywet].
    It holds the automatic exit from tap tempo. *)
Definition AudioCallback_delay (hw : Hw) (g : Globals) : Globals :=
  let delay_timing := at_index kDelayTimingMap (toggleswitch_3 hw) 0%Z in
  let '(base_delay_time, g) :=
    if PedalMode_eqb (pedal_mode g) PEDAL_MODE_TAP_TEMPO then
      (* Process knob capture to detect movement *)
      let g := upd_tap_tempo
                 (fun t => TapTempoState.set_delay_knob_capture
                             (snd (KnobCapture.Process
                                     (TapTempoState.delay_knob_capture t) (p_knob_4 hw))) t) g in
      let base :=
        if negb (KnobCapture.IsFrozen (TapTempoState.delay_knob_capture (tap_tempo g)))
        then p_delay_time hw
        else if gtb (TapTempoState.tapped_delay_samples (tap_tempo g)) 0
        then TapTempoState.tapped_delay_samples (tap_tempo g)
        else p_delay_time hw in
      (* Auto-exit after 4 seconds of no taps *)
      let g := if (uint32 (now hw - TapTempoState.last_tap_time (tap_tempo g))
                   >? TAP_TEMPO_TIMEOUT_MS)%Z
               then exitTapTempo hw g else g in
      (base, g)
    else
      let g :=
        if gtb (TapTempoState.tapped_delay_samples (tap_tempo g)) 0 then
          let current_knob := knob_4_value hw in
          let g := if ltb (TapTempoState.knob_baseline (tap_tempo g)) 0
                   then upd_tap_tempo (TapTempoState.set_knob_baseline current_knob) g
                   else g in
          if gtb (fabs (fsub current_knob (TapTempoState.knob_baseline (tap_tempo g))))
                 (f32 0.05)
          then saveBypassStates
                 (upd_tap_tempo (TapTempoState.set_knob_baseline (-1))
                    (upd_tap_tempo (TapTempoState.set_tapped_delay_samples 0) g))
          else g
        else g in
      let base :=
        if gtb (TapTempoState.tapped_delay_samples (tap_tempo g)) 0
        then TapTempoState.tapped_delay_samples (tap_tempo g)
        else p_delay_time hw in
      (base, g) in
  let g := set_delay_time_target
             (base_delay_time * at_index kDelayTimingMultiplier delay_timing 0) g in
  let g := set_delay_effect
             (DelayEffect.SetDelayTime (delay_effect g) (delay_time_target g)) g in
  let g := set_delay_effect
             (DelayEffect.SetFeedback (delay_effect g) (p_delay_feedback hw)) g in
  set_delay_drywet (to_int (p_delay_amt hw)) g.

(** What the effect objects answer for one sample.  The delay, tremolo and
    reverb objects keep their own state; the loop only sees the pair each
    [ProcessSample] returns for the pair it is given (the reverb chosen by
    [reverb.current_type]) and the tremolo's [GetLastLFOValue()]. *)
Record Effects := mkEffects {
  delay_ProcessSample : float -> float -> float * float;
  tremolo_ProcessSample : float -> float -> float * float;
  tremolo_GetLastLFOValue : float;
  reverb_ProcessSample : Z -> float -> float -> float * float
}.

(** The per-sample loop, one definition per commented step of its body;
    each step takes the two internal channels [(s_L, s_R)] and returns them
    with the globals it assigned. *)

(** [TremDelMakeUpGain makeup_gain] is [MAKEUP_GAIN_NORMAL]. *)
Definition makeup_gain_normal (g : Globals) : bool :=
  (negb (BypassState.delay (bypass g)) || negb (BypassState.tremolo (bypass g)))%bool.

(** Input routing: the mono signal (L) for both channels in the mono-in
    modes, both inputs in SISO. *)
Definition route_input (g : Globals) (in0 in1 : float) : float * float :=
  let dry_L := in0 in
  let dry_R := in1 in
  let s_L := dry_L in
  let s_R := if ((mono_stereo_mode g =? MS_MODE_MIMO) ||
                 (mono_stereo_mode g =? MS_MODE_MISO))%Z%bool
             then dry_L else dry_R in
  (s_L, s_R).

(** "Apply notch filters for resonant frequencies" *)
Definition apply_notch_filters (g : Globals) (s : float * float)
  : (float * float) * Globals :=
  let '(s_L, n1L) := PeakingEQ.Process (notch1_L g) (fst s) in
  let '(s_R, n1R) := PeakingEQ.Process (notch1_R g) (snd s) in
  let '(s_L, n2L) := PeakingEQ.Process (notch2_L g) s_L in
  let '(s_R, n2R) := PeakingEQ.Process (notch2_R g) s_R in
  ((s_L, s_R),
   set_notch2_R n2R (set_notch2_L n2L (set_notch1_R n1R (set_notch1_L n1L g)))).

(** [if (!bypass.delay) { ... }] *)
Definition apply_delay (fx : Effects) (g : Globals) (s : float * float)
  : float * float :=
  if negb (BypassState.delay (bypass g)) then
    let fdrywet := inject_Z (delay_drywet g) / 100 in
    let delay_make_up_gain := if makeup_gain_normal g then 1.66 else 1 in
    let '(wet_L, wet_R) := delay_ProcessSample fx (fst s) (snd s) in
    (fdrywet * wet_L * 0.333 + (1 - fdrywet) * fst s * delay_make_up_gain,
     fdrywet * wet_R * 0.333 + (1 - fdrywet) * snd s * delay_make_up_gain)
  else s.

(** [if (!bypass.tremolo) { ... }] *)
Definition apply_tremolo (fx : Effects) (g : Globals) (s : float * float)
  : (float * float) * Globals :=
  if negb (BypassState.tremolo (bypass g)) then
    let trem_make_up_gain := if makeup_gain_normal g then 1.2 else 1 in
    let '(trem_out_L, trem_out_R) := tremolo_ProcessSample fx (fst s) (snd s) in
    ((trem_out_L * trem_make_up_gain, trem_out_R * trem_make_up_gain),
     set_trem_val (tremolo_GetLastLFOValue fx) g)
  else (s, g).

(** "Switch active reverb algorithm based on toggle switch" *)
Definition select_reverb (g : Globals) : Globals :=
  let current_type := ReverbOrchestrator.current_type (reverb g) in
  if (current_type =? REVERB_PLATE)%Z then
    updatePlateReverbParameters (set_current_reverb (Some plate_reverb_object) g)
  else if (current_type =? REVERB_SPRING)%Z then
    set_current_reverb (Some spring_reverb_object) g
  else if (current_type =? REVERB_HALL)%Z then
    set_current_reverb (Some hall_reverb_object) g
  else g.

(** From the assignment of [left_input] to the reverb mix.
    [clearPopCancelValue] is a variable of the Dattorro sources. *)
Definition apply_reverb (fx : Effects) (clearPopCancelValue : float)
  (g : Globals) (s : float * float) : (float * float) * Globals :=
  let g := set_left_input (hardLimit100_ (fst s) * reverb_dry_scale_factor g) g in
  let g := set_right_input (hardLimit100_ (snd s) * reverb_dry_scale_factor g) g in
  let gain := MINUS_18DB_GAIN * MINUS_20DB_GAIN * (1 + input_amplification g * 7)
              * clearPopCancelValue in
  let g := select_reverb g in
  let current_type := ReverbOrchestrator.current_type (reverb g) in
  let '(rev_l, rev_r) :=
    reverb_ProcessSample fx current_type (left_input g * gain) (right_input g * gain) in
  let '(rev_l, rev_r) :=
    if (current_type =? REVERB_HALL)%Z then (rev_l * 4, rev_r * 4) else (rev_l, rev_r) in
  if negb (BypassState.reverb (bypass g)) then
    let r := reverb g in
    let g := set_left_output
               (left_input g * ReverbOrchestrator.dry r * reverb_reverse_scale_factor g
                + rev_l * ReverbOrchestrator.wet r * clearPopCancelValue) g in
    let g := set_right_output
               (right_input g * ReverbOrchestrator.dry r * reverb_reverse_scale_factor g
                + rev_r * ReverbOrchestrator.wet r * clearPopCancelValue) g in
    ((left_output g, right_output g), g)
  else (s, g).

(** The loop body down to the reverb mix: the internal channels just before
    they are routed to the outputs. *)
Definition AudioCallback_chain (fx : Effects) (clearPopCancelValue : float)
  (g : Globals) (in0 in1 : float) : (float * float) * Globals :=
  let s := route_input g in0 in1 in
  let '(s, g) := apply_notch_filters g s in
  let s := apply_delay fx g s in
  let '(s, g) := apply_tremolo fx g s in
  apply_reverb fx clearPopCancelValue g s.

(** Output routing: [(out[0][i], out[1][i])]. *)
Definition route_output (g : Globals) (s : float * float) : float * float :=
  let polarity_L := if (polarity_mode g =? POLARITY_INVERT_LEFT)%Z then -1 else 1 in
  let polarity_R := if (polarity_mode g =? POLARITY_INVERT_RIGHT)%Z then -1 else 1 in
  if (mono_stereo_mode g =? MS_MODE_MIMO)%Z then
    (((fst s * 0.5) + (snd s * 0.5)) * polarity_L, 0)
  else
    (fst s * polarity_L, snd s * polarity_R).

(** One iteration of the per-sample loop. *)
Definition AudioCallback_sample (fx : Effects) (clearPopCancelValue : float)
  (g : Globals) (in0 in1 : float) : (float * float) * Globals :=
  let '(s, g) := AudioCallback_chain fx clearPopCancelValue g in0 in1 in
  (route_output g s, g).

(** *** AudioCallback: the control section of the two edit modes *)

(** [switch (reverb.knob_mode)]: the dry level that goes with the knob mode. *)
Definition reverb_dry_mode (g : Globals) : Globals :=
  let knob_mode := ReverbOrchestrator.knob_mode (reverb g) in
  if (knob_mode =? REVERB_KNOB_ALL_DRY)%Z then
    upd_reverb (ReverbOrchestrator.set_dry 1) g
  else if (knob_mode =? REVERB_KNOB_DRY_WET_MIX)%Z then
    upd_reverb (fun r => ReverbOrchestrator.set_dry (1 - ReverbOrchestrator.wet r) r) g
  else if (knob_mode =? REVERB_KNOB_ALL_WET)%Z then
    upd_reverb (ReverbOrchestrator.set_dry 0) g
  else g.

(** The branch [pedal_mode == PEDAL_MODE_EDIT_REVERB]: "Edit mode with
    parameter capture". *)
Definition AudioCallback_edit_reverb (hw : Hw) (g : Globals) : Globals :=
  let g := upd_reverb (ReverbOrchestrator.set_dry 1) g in
  let '(v, c) := KnobCapture.Process (p_knob_2_capture g) (p_knob_2 hw) in
  let g := upd_reverb (ReverbOrchestrator.set_plate_pre_delay v)
             (set_p_knob_2_capture c g) in
  let '(v, c) := KnobCapture.Process (p_knob_3_capture g) (p_knob_3 hw) in
  let g := upd_reverb (ReverbOrchestrator.set_plate_decay v)
             (set_p_knob_3_capture c g) in
  let '(v, c) := KnobCapture.Process (p_knob_4_capture g) (p_knob_4 hw) in
  let g := upd_reverb (ReverbOrchestrator.set_plate_diffusion v)
             (set_p_knob_4_capture c g) in
  let '(v, c) := KnobCapture.Process (p_knob_5_capture g) (p_knob_5 hw) in
  let g := upd_reverb (ReverbOrchestrator.set_plate_input_damp_high v)
             (set_p_knob_5_capture c g) in
  let '(v, c) := KnobCapture.Process (p_knob_6_capture g) (p_knob_6 hw) in
  let g := upd_reverb (ReverbOrchestrator.set_plate_tank_damp_high v)
             (set_p_knob_6_capture c g) in
  let '(v, c) := SwitchCapture.Process (p_sw1_capture g) (toggleswitch_1 hw) in
  let g := upd_reverb (ReverbOrchestrator.set_plate_mod_speed_pos v)
             (set_p_sw1_capture c g) in
  let '(v, c) := SwitchCapture.Process (p_sw2_capture g) (toggleswitch_2 hw) in
  let g := upd_reverb (ReverbOrchestrator.set_plate_mod_depth_pos v)
             (set_p_sw2_capture c g) in
  let '(v, c) := SwitchCapture.Process (p_sw3_capture g) (toggleswitch_3 hw) in
  let g := upd_reverb (ReverbOrchestrator.set_plate_mod_shape_pos v)
             (set_p_sw3_capture c g) in
  updatePlateReverbParameters g.

(** The branch [pedal_mode == PEDAL_MODE_EDIT_DEVICE_SETTINGS]: "Device
    settings mode with switch capture (soft takeover)". *)
Definition AudioCallback_device_settings (hw : Hw) (g : Globals) : Globals :=
  let '(v, c) := SwitchCapture.Process (p_sw1_capture g) (toggleswitch_1 hw) in
  let g := upd_reverb (ReverbOrchestrator.set_knob_mode (at_index kReverbKnobMap v 0%Z))
             (set_p_sw1_capture c g) in
  let g := reverb_dry_mode g in
  let '(v, c) := SwitchCapture.Process (p_sw2_capture g) (toggleswitch_2 hw) in
  let g := set_polarity_mode (at_index kPolarityMap v 0%Z) (set_p_sw2_capture c g) in
  let '(v, c) := SwitchCapture.Process (p_sw3_capture g) (toggleswitch_3 hw) in
  let g := set_mono_stereo_mode (at_index kMonoStereoMap v 0%Z) (set_p_sw3_capture c g) in
  updateReverbScales (mono_stereo_mode g) g.

(** *** Factory reset and the main loop *)

(** The variables that only [main] and [runFactoryResetLoop] use:
    [is_factory_reset_mode], [factory_reset_stage] and the statics of the
    blinking; [audio_started] records [hw.StartAudio(AudioCallback)]. *)
Record FactoryReset := mkFactoryReset {
  is_factory_reset_mode : bool;
  factory_reset_stage : Z;
  last_led_toggle_time : Z;
  led_toggle : bool;
  blink_interval : Z;
  audio_started : bool
}.


(** [runFactoryResetLoop], from the blinking on (what the footswitch
    callbacks may do inside [hw.ProcessAllControls()] is a separate event);
    [knob_1_value] is what [p_knob_1.Process()] returns, [fuel] bounds the
    recursion of [loadSettings].  The LED writes and [quickLedFlash] only
    drive the hardware. *)
Definition runFactoryResetLoop (fuel : nat) (hw : Hw) (knob_1_value : float)
  (f : FactoryReset) (g : Globals) : option (FactoryReset * Globals) :=
  let elapsed_time := uint32 (now hw - last_led_toggle_time f) in
  let f := if (elapsed_time >=? blink_interval f)%Z
           then mkFactoryReset (is_factory_reset_mode f) (factory_reset_stage f)
                  (now hw) (negb (led_toggle f)) (blink_interval f) (audio_started f)
           else f in
  let low_knob_threshold := 0.05 in
  let high_knob_threshold := 0.95 in
  let blink_faster_amount := 300%Z in
  let advance f :=
    mkFactoryReset (is_factory_reset_mode f) (factory_reset_stage f + 1)
      (last_led_toggle_time f) (led_toggle f)
      (blink_interval f - blink_faster_amount) (audio_started f) in
  if ((factory_reset_stage f =? 0)%Z && geb knob_1_value high_knob_threshold)%bool then
    Some (advance f, g)
  else if ((factory_reset_stage f =? 1)%Z && geb low_knob_threshold knob_1_value)%bool then
    Some (advance f, g)
  else if ((factory_reset_stage f =? 2)%Z && geb knob_1_value high_knob_threshold)%bool then
    Some (advance f, g)
  else if ((factory_reset_stage f =? 3)%Z && geb low_knob_threshold knob_1_value)%bool then
    match loadSettings fuel
            (set_SavedSettings (PersistentStorage.RestoreDefaults (SavedSettings g)) g) with
    | Some g =>
        let g := upd_bypass (BypassState.set_delay true) g in
        let g := upd_bypass (BypassState.set_tremolo true) g in
        let g := set_pedal_mode PEDAL_MODE_NORMAL g in
        Some (mkFactoryReset false 0 (last_led_toggle_time f) (led_toggle f)
                (blink_interval f) true, g)
    | None => None
    end
  else Some (f, g).

(** One turn of the [while (true)] loop of [main]. *)
Inductive MainLoop :=
| Running (f : FactoryReset) (g : Globals)
| ResetToBootloader.

Definition main_loop_turn (fuel : nat) (hw : Hw) (knob_1_value : float)
  (f : FactoryReset) (g : Globals) : option MainLoop :=
  if trigger_settings_save g then
    Some (Running f
            (set_trigger_settings_save false
               (set_SavedSettings (PersistentStorage.Save (SavedSettings g)) g)))
  else if trigger_dfu_mode g then Some ResetToBootloader
  else if is_factory_reset_mode f then
    match runFactoryResetLoop fuel hw knob_1_value f g with
    | Some (f, g) => Some (Running f g)
    | None => None
    end
  else Some (Running f g).


(** *** Statements about the controller *)

(** The three device settings as they are in use, and as the working copy
    of the stored settings has them. *)
Definition device_modes (g : Globals) : Z * Z * Z :=
  (ReverbOrchestrator.knob_mode (reverb g), polarity_mode g, mono_stereo_mode g).

Definition saved_device_modes (g : Globals) : Z * Z * Z :=
  (Settings.reverb_knob_mode (local_settings g),
   Settings.polarity_mode (local_settings g),
   Settings.mono_stereo_mode (local_settings g)).

(** The plate parameters of the orchestrator as a [Params] record. *)
Definition orchestrator_params (g : Globals) : PlateReverb.Params :=
  let r := reverb g in
  PlateReverb.mkParams (ReverbOrchestrator.plate_decay r)
    (ReverbOrchestrator.plate_diffusion r) (ReverbOrchestrator.plate_pre_delay r)
    (ReverbOrchestrator.plate_input_damp_high r)
    (ReverbOrchestrator.plate_tank_damp_high r)
    (ReverbOrchestrator.plate_mod_speed_pos r)
    (ReverbOrchestrator.plate_mod_depth_pos r)
    (ReverbOrchestrator.plate_mod_shape_pos r).

(** The three modulation switch positions of the orchestrator are switch
    positions. *)
Definition mod_positions_valid (g : Globals) : Prop :=
  let r := reverb g in
  (0 <= ReverbOrchestrator.plate_mod_speed_pos r <= 2)%Z /\
  (0 <= ReverbOrchestrator.plate_mod_depth_pos r <= 2)%Z /\
  (0 <= ReverbOrchestrator.plate_mod_shape_pos r <= 2)%Z.

(** The positions of the three toggle switches. *)
Definition toggleswitches (hw : Hw) : Z * Z * Z :=
  (toggleswitch_1 hw, toggleswitch_2 hw, toggleswitch_3 hw).

(** The device-settings branch of successive audio callbacks, one per
    reading of the controls. *)
Definition device_settings_callbacks (hws : list Hw) (g : Globals) : Globals :=
  fold_left (fun g hw => AudioCallback_device_settings hw g) hws g.

(** The eight plate parameters that the reverb edit mode sets, as they are
    in use and as the working copy of the stored settings has them. *)
Definition plate_settings (g : Globals)
  : float * float * float * float * float * Z * Z * Z :=
  let r := reverb g in
  (ReverbOrchestrator.plate_pre_delay r, ReverbOrchestrator.plate_decay r,
   ReverbOrchestrator.plate_diffusion r, ReverbOrchestrator.plate_input_damp_high r,
   ReverbOrchestrator.plate_tank_damp_high r, ReverbOrchestrator.plate_mod_speed_pos r,
   ReverbOrchestrator.plate_mod_depth_pos r, ReverbOrchestrator.plate_mod_shape_pos r).

Definition saved_plate_settings (g : Globals)
  : float * float * float * float * float * Z * Z * Z :=
  let s := local_settings g in
  (Settings.pre_delay s, Settings.decay s, Settings.diffusion s,
   Settings.input_cutoff_freq s, Settings.tank_cutoff_freq s,
   Settings.tank_mod_speed_pos s, Settings.tank_mod_depth_pos s,
   Settings.tank_mod_shape_pos s).

(** The edit-reverb branch of successive audio callbacks, one per reading
    of the controls. *)
Definition edit_reverb_callbacks (hws : list Hw) (g : Globals) : Globals :=
  fold_left (fun g hw => AudioCallback_edit_reverb hw g) hws g.

(** Between the readings [hw] and [later] no toggle switch has moved and
    knobs 2 to 6 have each moved by less than the threshold of their capture
    object in [g]; the movement is the single-precision difference that
    [KnobCapture::Process] compares with the threshold. *)
Definition controls_held (g : Globals) (hw later : Hw) : Prop :=
  toggleswitches later = toggleswitches hw /\
  Qabs (fsub (p_knob_2 later) (p_knob_2 hw)) < KnobCapture.threshold_ (p_knob_2_capture g) /\
  Qabs (fsub (p_knob_3 later) (p_knob_3 hw)) < KnobCapture.threshold_ (p_knob_3_capture g) /\
  Qabs (fsub (p_knob_4 later) (p_knob_4 hw)) < KnobCapture.threshold_ (p_knob_4_capture g) /\
  Qabs (fsub (p_knob_5 later) (p_knob_5 hw)) < KnobCapture.threshold_ (p_knob_5_capture g) /\
  Qabs (fsub (p_knob_6 later) (p_knob_6 hw)) < KnobCapture.threshold_ (p_knob_6_capture g).







(** The mode that a gesture event leads to, from the mode before it, the
    exit guard, whether both footswitches are held, the kind of event and
    the footswitch. *)
Definition next_mode (mode : PedalMode) (guard both_pressed : bool)
  (e : Gesture) (footswitch : Switches) : PedalMode :=
  match e with
  | NormalPress =>
      match mode with
      | PEDAL_MODE_TAP_TEMPO =>
          if is_FOOTSWITCH_1 footswitch then PEDAL_MODE_NORMAL else PEDAL_MODE_TAP_TEMPO
      | _ => PEDAL_MODE_NORMAL
      end
  | DoublePress =>
      if guard then mode
      else match mode with
           | PEDAL_MODE_NORMAL =>
               if is_FOOTSWITCH_1 footswitch then PEDAL_MODE_TAP_TEMPO
               else PEDAL_MODE_NORMAL
           | _ => mode
           end
  | LongPress =>
      if guard then mode
      else match mode with
           | PEDAL_MODE_NORMAL =>
               if both_pressed then PEDAL_MODE_NORMAL
               else if is_FOOTSWITCH_1 footswitch then PEDAL_MODE_EDIT_REVERB
               else if is_FOOTSWITCH_2 footswitch then PEDAL_MODE_EDIT_DEVICE_SETTINGS
               else PEDAL_MODE_NORMAL
           | _ => mode
           end
  end.

(** The two reverb scale factors undo each other. *)
Definition scales_unity (g : Globals) : Prop :=
  reverb_dry_scale_factor g * reverb_reverse_scale_factor g == 1.

Definition reverb_scales (g : Globals) : float * float :=
  (reverb_dry_scale_factor g, reverb_reverse_scale_factor g).

(** The pairs that [updateReverbScales] assigns. *)
Definition scales_assigned (before after : float * float) : Prop :=
  after = before \/ after = (5, 0.2) \/ after = (2.5, 0.4).

(** The factor by which [AudioCallback] multiplies the base delay time: the
    entry of [kDelayTimingMultiplier] for the position of toggle switch 3. *)
Definition delay_timing_multiplier (hw : Hw) : float :=
  at_index kDelayTimingMultiplier (at_index kDelayTimingMap (toggleswitch_3 hw) 0%Z) 0.

(** *** Statements of the specification *)

(** Every variable that [loadSettings] assigns holds the corresponding field
    of the record [s]. *)
Definition loaded_from (s : Settings.t) (g : Globals) : Prop :=
  ReverbOrchestrator.plate_decay (reverb g) = Settings.decay s /\
  ReverbOrchestrator.plate_diffusion (reverb g) = Settings.diffusion s /\
  ReverbOrchestrator.plate_input_damp_high (reverb g) = Settings.input_cutoff_freq s /\
  ReverbOrchestrator.plate_tank_damp_high (reverb g) = Settings.tank_cutoff_freq s /\
  ReverbOrchestrator.plate_mod_speed_pos (reverb g) = Settings.tank_mod_speed_pos s /\
  ReverbOrchestrator.plate_mod_depth_pos (reverb g) = Settings.tank_mod_depth_pos s /\
  ReverbOrchestrator.plate_mod_shape_pos (reverb g) = Settings.tank_mod_shape_pos s /\
  ReverbOrchestrator.plate_pre_delay (reverb g) = Settings.pre_delay s /\
  mono_stereo_mode g = Settings.mono_stereo_mode s /\
  polarity_mode g = Settings.polarity_mode s /\
  ReverbOrchestrator.knob_mode (reverb g) = Settings.reverb_knob_mode s /\
  BypassState.reverb (bypass g) = Settings.bypass_reverb s /\
  BypassState.tremolo (bypass g) = Settings.bypass_tremolo s /\
  BypassState.delay (bypass g) = Settings.bypass_delay s /\
  TapTempoState.tapped_delay_samples (tap_tempo g) = Settings.tapped_delay_samples s.

(** The globals with [stored] as the working copy of the settings. *)
Definition with_stored (stored : Settings.t) (g : Globals) : Globals :=
  upd_local_settings (fun _ => stored) g.

(** The intervals between consecutive taps of [ts] (newest first), each a
    [uint32_t] difference. *)
Fixpoint consecutive_intervals (ts : list Z) : list Z :=
  match ts with
  | a :: rest =>
      match rest with
      | b :: _ => uint32 (a - b) :: consecutive_intervals rest
      | [] => []
      end
  | [] => []
  end.

Definition total (l : list Z) : Z := fold_right Z.add 0%Z l.

Definition average (l : list Z) : float :=
  inject_Z (total l) / inject_Z (Z.of_nat (length l)).

(** The average as [registerTap] computes it: the sum converted to
    [float], divided in single precision. *)
Definition tapped_average (l : list Z) : float :=
  fdiv (f32 (inject_Z (total l))) (inject_Z (Z.of_nat (length l))).

(** [r] is [x] clamped to [[lo, hi]]. *)
Definition clamped (lo hi x r : float) : Prop :=
  (x < lo -> r == lo) /\ (hi < x -> r == hi) /\ (lo <= x <= hi -> r == x).

(** The taps the estimator retains: the newest [tap_count] timestamps. *)
Definition retained_taps (g : Globals) : list Z :=
  firstn (Z.to_nat (TapTempoState.tap_count (tap_tempo g)))
         (TapTempoState.tap_timestamps (tap_tempo g)).

(** [registerTap()] once per clock value of [times], in order. *)
Definition registerTaps (hw : Hw) (times : list Z) (g : Globals) : Globals :=
  fold_left (fun g t => registerTap (set_now t hw) g) times g.

(** What [registerTap] at clock value [now] makes of the estimator's state
    [t]; it is proved below to be [tap_tempo] after the call. *)
Definition tap_step (now : Z) (t : TapTempoState.t) : TapTempoState.t :=
  let ts := [now; timestamp t 0; timestamp t 1] in
  let c := if (TapTempoState.tap_count t <? 3)%Z
           then (TapTempoState.tap_count t + 1)%Z else TapTempoState.tap_count t in
  let t1 := TapTempoState.set_tap_count c (TapTempoState.set_tap_timestamps ts t) in
  let avg_ms := fdiv (f32 (inject_Z (sum_intervals t1 0 (Z.to_nat (c - 1)) 0)))
                     (inject_Z (c - 1)) in
  let s0 := fdiv (fmul avg_ms SAMPLE_RATE) 1000 in
  let s1 := if ltb s0 (fmul SAMPLE_RATE DELAY_TIME_MIN_SECONDS)
            then fmul SAMPLE_RATE DELAY_TIME_MIN_SECONDS else s0 in
  let s2 := if gtb s1 (inject_Z MAX_DELAY) then inject_Z MAX_DELAY else s1 in
  TapTempoState.mk ts c
    (if (c >=? 2)%Z then s2 else TapTempoState.tapped_delay_samples t)
    (if (c >=? 2)%Z then avg_ms else TapTempoState.tapped_tempo_ms t)
    now TAP_FLASH_CALLBACKS
    (TapTempoState.just_exited_tap_tempo t)
    (TapTempoState.knob_baseline t)
    (TapTempoState.delay_knob_capture t).

(** The clamp of [registerTap], as the program writes it. *)
Definition stored_samples (avg_ms : float) : float :=
  let s0 := fdiv (fmul avg_ms SAMPLE_RATE) 1000 in
  let s1 := if ltb s0 (fmul SAMPLE_RATE DELAY_TIME_MIN_SECONDS)
            then fmul SAMPLE_RATE DELAY_TIME_MIN_SECONDS else s0 in
  if gtb s1 (inject_Z MAX_DELAY) then inject_Z MAX_DELAY else s1.

(** The two routing modes after a step are those before it. *)
Definition same_modes (g g' : Globals) : Prop :=
  mono_stereo_mode g' = mono_stereo_mode g /\ polarity_mode g' = polarity_mode g.

(** The guard flag cleared, everything else as it is. *)
Definition guard_cleared (g : Globals) : Globals :=
  upd_tap_tempo (TapTempoState.set_just_exited_tap_tempo false) g.

(** The delay memory of the reverb object [o] is silent. *)
Definition reverb_silent (o : ReverbObject) (g : Globals) : Prop :=
  match o with
  | plate_reverb_object => PlateReverb.silent (plate_reverb g)
  | hall_reverb_object => HallReverb.silent (hall_reverb g)
  | spring_reverb_object => SpringReverb.silent (spring_reverb g)
  end.

(** The three reverb objects. *)
Definition reverb_objects (g : Globals) : PlateReverb.t * HallReverb.t * SpringReverb.t :=
  (plate_reverb g, hall_reverb g, spring_reverb g).

(** *** An example pedal

    Delay memories of eight cells, one cell of each reverb still ringing; the
    notch coefficients are those of the 6020 Hz and 12278 Hz notches rounded
    to six places. *)

Definition example_line (first : float) : DelayLine.t :=
  DelayLine.mk 8 (first :: repeat 0 7) 0 0 1.

Definition example_plate : PlateReverb.t :=
  PlateReverb.mk
    (Dattorro.mk 0.8 0.85 0 72.5 72.5 0.8 1.5 0.25 [0.25; 0; 0; 0; 0; 0; 0; 0])
    (PlateReverb.mkParams 0.8 0.85 0 7.25 7.25 2 2 1).

Definition example_hall : HallReverb.t :=
  HallReverb.SetDecay
    (HallReverb.make (repeat (example_line 0.25) 8) (repeat (example_line 0) 2)
       (example_line 0))
    0.95.

Definition example_spring : SpringReverb.t :=
  SpringReverb.mk (example_line 0.25) (example_line 0) (example_line 0)
    (example_line 0)
    (repeat (SpringReverb.mkAP (example_line 0) 0.5) 4)
    0.7 1 1.4 48000.

Definition example_delay : DelayEffect.t :=
  DelayEffect.Init 48000 (example_line 0) (example_line 0).

Definition example_notch1 : PeakingEQ.t :=
  PeakingEQ.mk 0.954032 (-1.343551) 0.95103 (-1.343551) 0.905062 0 0 0 0.

Definition example_notch2 : PeakingEQ.t :=
  PeakingEQ.mk 0.93644 0.067988 0.932289 0.067988 0.868729 0 0 0 0.

(** Clock at one second, switches in the middle, knobs at half way, the
    delay time knob asking for 24000 samples, no footswitch held. *)
Definition example_hw : Hw :=
  mkHw 1000 1 1 1 0.5 false false 0.5 0.5 0.5 0.5 0.5 24000 0.3 50.

(** The globals before [main] runs, over the example objects. *)
Definition example_initial (flash : option Settings.t) : Globals :=
  initial_globals flash example_plate example_hall example_spring
    example_delay example_notch1 example_notch2.

(** The pedal after [main] has loaded its settings from [flash]. *)
Definition power_on (flash : option Settings.t) : Globals :=
  match main_settings 2 (example_initial flash) with
  | Some g' => g'
  | None => example_initial flash
  end.

(** A record written by an older firmware, and one written by this one. *)
Definition example_stale : Settings.t :=
  Settings.mk 7 0.3 0.4 0.5 0.6 0 1 2 0.1 MS_MODE_SISO POLARITY_INVERT_LEFT
    REVERB_KNOB_ALL_WET false false false 12000.

Definition example_saved : Settings.t :=
  Settings.mk 8 0.3 0.4 0.5 0.6 0 1 2 0.1 MS_MODE_SISO POLARITY_INVERT_LEFT
    REVERB_KNOB_ALL_WET false false false 12000.

(** Effect objects that answer silence (their memories are empty). *)
Definition silent_effects : Effects :=
  mkEffects (fun _ _ => (0, 0)) (fun _ _ => (0, 0)) 0 (fun _ _ _ => (0, 0)).

End Flick.

(* ------------------------------------------------------------------ *)
(** * Properties *)
(* ------------------------------------------------------------------ *)

(** ** Single-precision rounding *)

Section Binary32Facts.

Import Binary32.

Lemma rne_cases (q : Q) : rne q = Qfloor q \/ rne q = (Qfloor q + 1)%Z.
Proof.
  unfold rne. destruct (Qcompare (q - inject_Z (Qfloor q)) (1 # 2)); auto.
  destruct (Z.even (Qfloor q)); auto.
Qed.

Lemma Qfloor_frac (q : Q) : 0 <= q - inject_Z (Qfloor q) < 1.
Proof.
  pose proof (Qfloor_le q) as H1. pose proof (Qlt_floor q) as H2.
  rewrite inject_Z_plus in H2. change (inject_Z 1) with 1 in H2. split; lra.
Qed.

Lemma rne_near (q : Q) : Qabs (inject_Z (rne q) - q) <= 1 # 2.
Proof.
  pose proof (Qfloor_frac q) as [F1 F2]. unfold rne.
  destruct (Qcompare_spec (q - inject_Z (Qfloor q)) (1 # 2)) as [E|E|E].
  - destruct (Z.even (Qfloor q)); apply Qabs_Qle_condition;
      rewrite ?inject_Z_plus; change (inject_Z 1) with 1; split; lra.
  - apply Qabs_Qle_condition. split; lra.
  - apply Qabs_Qle_condition. rewrite inject_Z_plus. change (inject_Z 1) with 1.
    split; lra.
Qed.

Lemma rne_Z (z : Z) : rne (inject_Z z) = z.
Proof.
  unfold rne. rewrite Qfloor_Z.
  destruct (Qcompare_spec (inject_Z z - inject_Z z) (1 # 2)) as [E|E|E];
    [lra|reflexivity|lra].
Qed.

Lemma rne_mono (x y : Q) : x <= y -> (rne x <= rne y)%Z.
Proof.
  intros H. pose proof (Qfloor_resp_le _ _ H) as Hf.
  destruct (Z.eq_dec (Qfloor x) (Qfloor y)) as [E|E].
  - unfold rne. rewrite <- E.
    destruct (Qcompare_spec (x - inject_Z (Qfloor x)) (1 # 2)) as [Ex|Ex|Ex];
      destruct (Qcompare_spec (y - inject_Z (Qfloor x)) (1 # 2)) as [Ey|Ey|Ey];
      try lra; try lia; destruct (Z.even (Qfloor x)); lia.
  - destruct (rne_cases x) as [-> | ->], (rne_cases y) as [-> | ->]; lia.
Qed.

Lemma rne_comp (x y : Q) : x == y -> rne x = rne y.
Proof.
  intros H. apply Z.le_antisymm; apply rne_mono; rewrite H; apply Qle_refl.
Qed.

Lemma tiny_pos : 0 < tiny.
Proof. reflexivity. Qed.

Lemma tiny_inv (x : Q) : x / tiny == x * inject_Z (2 ^ 149).
Proof. unfold Qdiv. apply Qmult_comp; [reflexivity|]. reflexivity. Qed.

Lemma tiny_cancel (x : Q) : x / tiny * tiny == x.
Proof. field. discriminate. Qed.

Lemma pow2_pos (e : Z) : (0 <= e)%Z -> 0 < inject_Z (2 ^ e).
Proof.
  intros H. rewrite <- (Zlt_Qlt 0). now apply Z.pow_pos_nonneg.
Qed.

Lemma pow2_add (a b : Z) :
  (0 <= a)%Z -> (0 <= b)%Z ->
  inject_Z (2 ^ (a + b)) == inject_Z (2 ^ a) * inject_Z (2 ^ b).
Proof. intros Ha Hb. rewrite Z.pow_add_r by assumption. now rewrite inject_Z_mult. Qed.

Lemma spacing_nonneg (x : Q) : (0 <= spacing x)%Z.
Proof. unfold spacing. apply Z.le_max_l. Qed.

Lemma spacing_pos (x : Q) : 0 < inject_Z (2 ^ spacing x).
Proof. apply pow2_pos, spacing_nonneg. Qed.

Lemma scaled_le (x y : Q) : x <= y -> x / tiny <= y / tiny.
Proof. intros H. rewrite !tiny_inv. apply Qmult_le_compat_r; [exact H|discriminate]. Qed.

Lemma scaled_nonneg (x : Q) : 0 <= x -> 0 <= x / tiny.
Proof. intros H. rewrite tiny_inv. apply Qmult_le_0_compat; [exact H|discriminate]. Qed.

Lemma spacing_mono (x y : Q) : x <= y -> (spacing x <= spacing y)%Z.
Proof.
  intros H. unfold spacing. apply Z.max_le_compat_l.
  apply Z.sub_le_mono_r, Z.log2_le_mono, Qfloor_resp_le. now apply scaled_le.
Qed.

Lemma scaled_lt (x : Q) : x / tiny < inject_Z (2 ^ (spacing x + 24)).
Proof.
  set (X := x / tiny). pose proof (Qlt_floor X) as HX.
  apply Qlt_le_trans with (inject_Z (Qfloor X + 1)); [exact HX|].
  rewrite <- Zle_Qle. fold X. unfold spacing. fold X.
  set (N := Qfloor X).
  destruct (Z.le_gt_cases N 0) as [H0|H0].
  - assert (0 < 2 ^ (Z.max 0 (Z.log2 N - 23) + 24))%Z by (apply Z.pow_pos_nonneg; lia).
    lia.
  - destruct (Z.log2_spec N H0) as [_ Hu].
    assert (2 ^ Z.succ (Z.log2 N) <= 2 ^ (Z.max 0 (Z.log2 N - 23) + 24))%Z
      by (apply Z.pow_le_mono_r; lia).
    lia.
Qed.

Lemma scaled_ge (x : Q) :
  (1 <= spacing x)%Z -> inject_Z (2 ^ (spacing x + 23)) <= x / tiny.
Proof.
  intros He. set (X := x / tiny). unfold spacing in *. fold X in He |- *.
  set (N := Qfloor X) in *.
  apply Qle_trans with (inject_Z N); [|apply Qfloor_le].
  rewrite <- Zle_Qle.
  assert (HN : (0 < N)%Z).
  { destruct (Z.le_gt_cases N 0) as [H0|H0]; [|exact H0].
    rewrite (Z.log2_nonpos N H0) in He. lia. }
  destruct (Z.log2_spec N HN) as [Hl _].
  replace (Z.max 0 (Z.log2 N - 23) + 23)%Z with (Z.log2 N) by lia. exact Hl.
Qed.

(** [round_pos x], in units of [tiny]. *)
Lemma round_pos_unfold (x : Q) :
  round_pos x ==
  inject_Z (rne (x / tiny / inject_Z (2 ^ spacing x))) * inject_Z (2 ^ spacing x) * tiny.
Proof. reflexivity. Qed.

Lemma round_pos_upper (x : Q) :
  round_pos x <= inject_Z (2 ^ (spacing x + 24)) * tiny.
Proof.
  rewrite round_pos_unfold.
  apply Qmult_le_compat_r; [|discriminate].
  rewrite pow2_add by (lia || apply spacing_nonneg).
  rewrite (Qmult_comm (inject_Z (2 ^ spacing x))).
  apply Qmult_le_compat_r; [|apply Qlt_le_weak, spacing_pos].
  rewrite <- Zle_Qle. rewrite <- (rne_Z (2 ^ 24)). apply rne_mono.
  apply Qlt_le_weak, Qlt_shift_div_r; [apply spacing_pos|].
  rewrite Qmult_comm, <- pow2_add by (lia || apply spacing_nonneg).
  apply scaled_lt.
Qed.

Lemma round_pos_lower (x : Q) :
  (1 <= spacing x)%Z -> inject_Z (2 ^ (spacing x + 23)) * tiny <= round_pos x.
Proof.
  intros He. rewrite round_pos_unfold.
  apply Qmult_le_compat_r; [|discriminate].
  rewrite pow2_add by (lia || apply spacing_nonneg).
  rewrite (Qmult_comm (inject_Z (2 ^ spacing x))).
  apply Qmult_le_compat_r; [|apply Qlt_le_weak, spacing_pos].
  rewrite <- Zle_Qle. rewrite <- (rne_Z (2 ^ 23)). apply rne_mono.
  apply Qle_shift_div_l; [apply spacing_pos|].
  rewrite Qmult_comm, <- pow2_add by (lia || apply spacing_nonneg).
  now apply scaled_ge.
Qed.

Lemma round_pos_mono (x y : Q) : x <= y -> round_pos x <= round_pos y.
Proof.
  intros H. pose proof (spacing_mono x y H) as He.
  destruct (Z.eq_dec (spacing x) (spacing y)) as [E|E].
  - rewrite !round_pos_unfold, E.
    apply Qmult_le_compat_r; [|discriminate].
    apply Qmult_le_compat_r; [|apply Qlt_le_weak, spacing_pos].
    rewrite <- Zle_Qle. apply rne_mono.
    apply Qmult_le_compat_r; [now apply scaled_le|].
    apply Qlt_le_weak, Qinv_lt_0_compat, spacing_pos.
  - apply Qle_trans with (inject_Z (2 ^ (spacing x + 24)) * tiny);
      [apply round_pos_upper|].
    apply Qle_trans with (inject_Z (2 ^ (spacing y + 23)) * tiny);
      [|apply round_pos_lower; pose proof (spacing_nonneg x); lia].
    apply Qmult_le_compat_r; [|discriminate].
    rewrite <- Zle_Qle. apply Z.pow_le_mono_r; lia.
Qed.

Lemma round_pos_nonneg (x : Q) : 0 <= x -> 0 <= round_pos x.
Proof.
  intros H. rewrite round_pos_unfold.
  apply Qmult_le_0_compat; [|discriminate].
  apply Qmult_le_0_compat; [|apply Qlt_le_weak, spacing_pos].
  rewrite <- (Zle_Qle 0). rewrite <- (rne_Z 0). apply rne_mono.
  apply Qle_shift_div_l; [apply spacing_pos|]. rewrite Qmult_0_l.
  now apply scaled_nonneg.
Qed.

Lemma round_pos_comp (x y : Q) : x == y -> round_pos x == round_pos y.
Proof.
  intros H. apply Qle_antisym; apply round_pos_mono; rewrite H; apply Qle_refl.
Qed.

Lemma tiny_unit : tiny * inject_Z (2 ^ 149) == 1.
Proof. reflexivity. Qed.

Lemma spacing_width (x : Q) :
  0 <= x -> inject_Z (2 ^ spacing x) * tiny <= x * (1 # 8388608) + tiny.
Proof.
  intros Hx. pose proof tiny_pos as HT.
  destruct (Z.eq_dec (spacing x) 0) as [E|E].
  - rewrite E. change (inject_Z (2 ^ 0)) with 1.
    generalize dependent tiny. intros t Ht. lra.
  - pose proof (spacing_nonneg x).
    assert (He : (1 <= spacing x)%Z) by lia.
    pose proof (scaled_ge x He) as Hg.
    rewrite Z.add_comm, pow2_add in Hg by lia.
    rewrite tiny_inv in Hg.
    pose proof tiny_unit as HU.
    change (inject_Z (2 ^ 23)) with (8388608 # 1) in Hg.
    revert Hg HU HT.
    generalize (inject_Z (2 ^ spacing x)).
    generalize (inject_Z (2 ^ 149)).
    generalize tiny. intros t u s Hg HU HT.
    assert (H1 : 8388608 * s * t <= x * u * t)
      by (apply Qmult_le_compat_r; lra).
    assert (H2 : x * u * t == x)
      by (setoid_replace (x * u * t) with (x * (t * u)) by ring; rewrite HU; ring).
    rewrite H2 in H1. lra.
Qed.

Lemma round_pos_err (x : Q) :
  0 <= x -> Qabs (round_pos x - x) <= x * (1 # 16777216) + tiny * (1 # 2).
Proof.
  intros Hx. rewrite round_pos_unfold.
  pose proof (rne_near (x / tiny / inject_Z (2 ^ spacing x))) as Hn.
  apply Qabs_Qle_condition in Hn.
  pose proof (spacing_pos x) as HS. pose proof tiny_pos as HT.
  pose proof (spacing_width x Hx) as HW.
  assert (Hx' : x == x / tiny / inject_Z (2 ^ spacing x) * (inject_Z (2 ^ spacing x) * tiny)).
  { field. split; [discriminate|]. intros E. rewrite E in HS. discriminate. }
  revert Hn HW Hx'.
  generalize (rne (x / tiny / inject_Z (2 ^ spacing x))).
  generalize (x / tiny / inject_Z (2 ^ spacing x)).
  revert HS HT.
  generalize (inject_Z (2 ^ spacing x)).
  generalize tiny. intros t s HS HT d r Hn HW Hx'.
  assert (HSt : 0 < s * t) by nra.
  setoid_replace (inject_Z r * s * t - x) with ((inject_Z r - d) * (s * t))
    by (rewrite Hx' at 1; ring).
  revert Hn HW HSt. generalize (s * t). generalize (inject_Z r - d).
  intros e w Hn HW Hw. unfold Qminus in Hn.
  apply Qabs_Qle_condition. split; nra.
Qed.

Lemma round_pos_exact (z J : Z) :
  (0 <= z < 2 ^ 24)%Z -> (0 <= J)%Z ->
  round_pos (inject_Z (z * 2 ^ J) * tiny) == inject_Z (z * 2 ^ J) * tiny.
Proof.
  intros Hz HJ. rewrite round_pos_unfold.
  set (x := inject_Z (z * 2 ^ J) * tiny).
  assert (HX : x / tiny == inject_Z (z * 2 ^ J)) by (unfold x; field; discriminate).
  assert (He : (spacing x <= J)%Z).
  { unfold spacing. rewrite (Qfloor_comp _ _ HX), Qfloor_Z.
    destruct (Z.eq_dec z 0) as [->|Hn].
    - rewrite Z.mul_0_l. change (Z.log2 0) with 0%Z. lia.
    - rewrite Z.log2_mul_pow2 by lia.
      assert (Z.log2 z < 24)%Z by (apply Z.log2_lt_pow2; lia). lia. }
  pose proof (spacing_nonneg x) as H0. pose proof (spacing_pos x) as HS.
  assert (HJe : inject_Z (z * 2 ^ J)
                == inject_Z (z * 2 ^ (J - spacing x)) * inject_Z (2 ^ spacing x)).
  { rewrite <- inject_Z_mult. rewrite <- Z.mul_assoc, <- Z.pow_add_r by lia.
    replace (J - spacing x + spacing x)%Z with J by lia. reflexivity. }
  assert (Hd : x / tiny / inject_Z (2 ^ spacing x)
               == inject_Z (z * 2 ^ (J - spacing x))).
  { rewrite HX, HJe. field. intros E. rewrite E in HS. discriminate. }
  rewrite (rne_comp _ _ Hd), rne_Z.
  transitivity (inject_Z (z * 2 ^ J) * tiny); [rewrite HJe|]; reflexivity.
Qed.

Lemma round_nonneg (q : Q) : 0 <= q -> round q == round_pos q.
Proof.
  intros H. unfold round. rewrite Qred_correct.
  replace (Qnum q <? 0)%Z with false; [reflexivity|].
  symmetry. apply Z.ltb_ge. unfold Qle in H. simpl in H. lia.
Qed.

Lemma round_neg (q : Q) : q < 0 -> round q == - round_pos (- q).
Proof.
  intros H. unfold round. rewrite Qred_correct.
  replace (Qnum q <? 0)%Z with true; [reflexivity|].
  symmetry. apply Z.ltb_lt. unfold Qlt in H. simpl in H. lia.
Qed.

Lemma round_pos_0 (x : Q) : x == 0 -> round_pos x == 0.
Proof. intros H. rewrite (round_pos_comp _ _ H). reflexivity. Qed.

Lemma round_0 (x : Q) : x == 0 -> round x == 0.
Proof.
  intros H. rewrite round_nonneg by (rewrite H; apply Qle_refl).
  now apply round_pos_0.
Qed.

Lemma round_ge_0 (x : Q) : 0 <= x -> 0 <= round x.
Proof. intros H. rewrite round_nonneg by assumption. now apply round_pos_nonneg. Qed.

Lemma round_le_0 (x : Q) : x <= 0 -> round x <= 0.
Proof.
  intros H. destruct (Qlt_le_dec x 0) as [Hn|Hp].
  - rewrite round_neg by assumption.
    assert (0 <= round_pos (- x)) by (apply round_pos_nonneg; lra). lra.
  - rewrite round_0 by lra. apply Qle_refl.
Qed.

Lemma round_mono (x y : Q) : x <= y -> round x <= round y.
Proof.
  intros H. destruct (Qlt_le_dec x 0) as [Hx|Hx].
  - destruct (Qlt_le_dec y 0) as [Hy|Hy].
    + rewrite !round_neg by assumption.
      assert (round_pos (- y) <= round_pos (- x)) by (apply round_pos_mono; lra).
      lra.
    + apply Qle_trans with 0; [apply round_le_0; lra|now apply round_ge_0].
  - rewrite !round_nonneg by lra. apply round_pos_mono; lra.
Qed.

Lemma round_comp (x y : Q) : x == y -> round x == round y.
Proof.
  intros H. apply Qle_antisym; apply round_mono; rewrite H; apply Qle_refl.
Qed.

Lemma round_opp (x : Q) : round (- x) == - round x.
Proof.
  destruct (Qlt_le_dec x 0) as [Hx|Hx].
  - rewrite (round_neg x Hx), round_nonneg by lra. ring.
  - destruct (Qlt_le_dec 0 x) as [Hp|Hz].
    + rewrite (round_nonneg x Hx), round_neg by lra.
      rewrite (round_pos_comp (- - x) x) by ring. reflexivity.
    + rewrite (round_0 x), (round_0 (- x)) by lra. reflexivity.
Qed.

Lemma round_abs (x : Q) : Qabs (round x) == round (Qabs x).
Proof.
  destruct (Qlt_le_dec x 0) as [Hx|Hx].
  - rewrite (round_comp (Qabs x) (- x)) by (apply Qabs_neg; lra).
    rewrite (Qabs_neg (round x)) by (apply round_le_0; lra).
    now rewrite round_opp.
  - rewrite (round_comp (Qabs x) x) by (now apply Qabs_pos).
    apply Qabs_pos. now apply round_ge_0.
Qed.

Lemma round_err (x : Q) :
  Qabs (round x - x) <= Qabs x * (1 # 16777216) + tiny * (1 # 2).
Proof.
  destruct (Qlt_le_dec x 0) as [Hx|Hx].
  - rewrite (Qabs_neg x) by lra.
    assert (E : round x - x == - (round_pos (- x) - - x))
      by (rewrite round_neg by assumption; ring).
    rewrite E, Qabs_opp. apply round_pos_err. lra.
  - rewrite (Qabs_pos x) by lra.
    rewrite round_nonneg by assumption. now apply round_pos_err.
Qed.

Lemma round_exact (z J : Z) :
  (Z.abs z < 2 ^ 24)%Z -> (0 <= J)%Z ->
  round (inject_Z (z * 2 ^ J) * tiny) == inject_Z (z * 2 ^ J) * tiny.
Proof.
  intros Hz HJ. destruct (Z_lt_le_dec z 0) as [Hn|Hp].
  - assert (E : inject_Z (z * 2 ^ J) * tiny
                == - (inject_Z (- z * 2 ^ J) * tiny)).
    { rewrite Z.mul_opp_l, inject_Z_opp. ring. }
    rewrite (round_comp _ _ E), round_opp, E.
    apply Qopp_comp.
    rewrite round_nonneg.
    + apply round_pos_exact; lia.
    + pose proof tiny_pos. 
      assert (0 <= inject_Z (- z * 2 ^ J)).
      { change 0 with (inject_Z 0). rewrite <- Zle_Qle.
        apply Z.mul_nonneg_nonneg; [lia|apply Z.pow_nonneg; lia]. }
      nra.
  - rewrite round_nonneg.
    + apply round_pos_exact; lia.
    + pose proof tiny_pos.
      assert (0 <= inject_Z (z * 2 ^ J)).
      { change 0 with (inject_Z 0). rewrite <- Zle_Qle.
        apply Z.mul_nonneg_nonneg; [lia|apply Z.pow_nonneg; lia]. }
      nra.
Qed.

Lemma rne_nonneg (q : Q) : 0 <= q -> (0 <= rne q)%Z.
Proof. intros H. change 0%Z with (rne 0). now apply rne_mono. Qed.

(** A rounded magnitude is a whole number below [2^24] of steps of the
    spacing, or the next power of two. *)
Lemma round_pos_shape (x : Q) :
  0 <= x ->
  exists z J : Z, (0 <= z < 2 ^ 24)%Z /\ (0 <= J)%Z /\
    round_pos x == inject_Z (z * 2 ^ J) * tiny.
Proof.
  intros Hx. pose proof (round_pos_unfold x) as U.
  pose proof (spacing_nonneg x) as He. pose proof (spacing_pos x) as HS.
  set (m := rne (x / tiny / inject_Z (2 ^ spacing x))) in *.
  assert (Hm0 : (0 <= m)%Z).
  { apply rne_nonneg. apply Qle_shift_div_l; [assumption|].
    rewrite Qmult_0_l. now apply scaled_nonneg. }
  assert (Hm1 : (m <= 2 ^ 24)%Z).
  { rewrite <- (rne_Z (2 ^ 24)). apply rne_mono.
    apply Qle_shift_div_r; [assumption|].
    rewrite <- inject_Z_mult, <- Z.pow_add_r by lia.
    apply Qlt_le_weak. rewrite Z.add_comm. apply scaled_lt. }
  destruct (Z.eq_dec m (2 ^ 24)) as [E|E].
  - exists (2 ^ 23)%Z, (spacing x + 1)%Z. split; [lia|]. split; [lia|].
    rewrite U, E. rewrite <- inject_Z_mult.
    replace (2 ^ 24 * 2 ^ spacing x)%Z with (2 ^ 23 * 2 ^ (spacing x + 1))%Z;
      [reflexivity|].
    rewrite Z.pow_add_r by lia. lia.
  - exists m, (spacing x). split; [lia|]. split; [lia|].
    rewrite U, <- inject_Z_mult. reflexivity.
Qed.

Lemma round_pos_idem (x : Q) : 0 <= x -> round_pos (round_pos x) == round_pos x.
Proof.
  intros Hx. destruct (round_pos_shape x Hx) as (z & J & Hz & HJ & E).
  rewrite (round_pos_comp _ _ E), E. now apply round_pos_exact.
Qed.

Lemma round_idem (x : Q) : round (round x) == round x.
Proof.
  destruct (Qlt_le_dec x 0) as [Hx|Hx].
  - rewrite (round_comp _ _ (round_neg x Hx)), round_opp, (round_neg x Hx).
    apply Qopp_comp.
    rewrite round_nonneg by (apply round_pos_nonneg; lra).
    apply round_pos_idem. lra.
  - rewrite (round_comp _ _ (round_nonneg x Hx)), (round_nonneg x Hx).
    rewrite round_nonneg by (now apply round_pos_nonneg).
    now apply round_pos_idem.
Qed.

(** Every single-precision number is a whole number of [tiny]. *)
Lemma round_multiple (x : Q) : exists z : Z, round x == inject_Z z * tiny.
Proof.
  destruct (Qlt_le_dec x 0) as [Hx|Hx].
  - destruct (round_pos_shape (- x)) as (z & J & _ & _ & E); [lra|].
    exists (- (z * 2 ^ J))%Z. rewrite (round_neg x Hx), E, inject_Z_opp. ring.
  - destruct (round_pos_shape x Hx) as (z & J & _ & _ & E).
    exists (z * 2 ^ J)%Z. now rewrite (round_nonneg x Hx).
Qed.

Lemma representable_round (x : Q) : representable (round x).
Proof. apply round_idem. Qed.

Lemma representable_multiple (x : Q) :
  representable x -> exists z : Z, x == inject_Z z * tiny.
Proof.
  intros H. destruct (round_multiple x) as [z Hz]. exists z.
  unfold representable in H. now rewrite <- Hz, H.
Qed.

Lemma representable_opp (x : Q) : representable x -> representable (- x).
Proof. unfold representable. intros H. now rewrite round_opp, H. Qed.

Lemma representable_comp (x y : Q) : x == y -> representable x -> representable y.
Proof.
  unfold representable. intros E H.
  now rewrite <- (round_comp _ _ E), H.
Qed.

(** Rounding does not cross a single-precision number. *)
Lemma round_le_representable (x y : Q) : representable y -> x <= y -> round x <= y.
Proof. unfold representable. intros Hy H. rewrite <- Hy. now apply round_mono. Qed.

Lemma round_ge_representable (x y : Q) : representable y -> y <= x -> y <= round x.
Proof. unfold representable. intros Hy H. rewrite <- Hy. now apply round_mono. Qed.

(** Two different single-precision numbers are at least [tiny] apart. *)
Lemma representable_gap (x y : Q) :
  representable x -> representable y -> x < y -> x + tiny <= y.
Proof.
  intros Hx Hy H.
  destruct (representable_multiple x Hx) as [a Ha].
  destruct (representable_multiple y Hy) as [b Hb].
  pose proof tiny_pos as HT.
  assert (Hab : (a < b)%Z).
  { destruct (Z_lt_le_dec a b) as [L|L]; [assumption|exfalso].
    rewrite Zle_Qle in L. rewrite Ha, Hb in H. nra. }
  assert (L : inject_Z (a + 1) <= inject_Z b) by (rewrite <- Zle_Qle; lia).
  rewrite inject_Z_plus in L. rewrite Ha, Hb.
  change (inject_Z 1) with 1 in L. nra.
Qed.

(** Whole numbers and halves of fewer than 24 bits are held exactly. *)
Lemma round_int_pow2 (z J : Z) :
  (Z.abs z < 2 ^ 24)%Z -> (0 <= J)%Z ->
  round (inject_Z (z * 2 ^ J)) == inject_Z (z * 2 ^ J).
Proof.
  intros Hz HJ.
  assert (E : inject_Z (z * 2 ^ J) == inject_Z (z * 2 ^ (J + 149)) * tiny).
  { rewrite Z.pow_add_r, Z.mul_assoc, (inject_Z_mult _ (2 ^ 149)) by lia.
    rewrite <- Qmult_assoc. rewrite (Qmult_comm (inject_Z (2 ^ 149))), tiny_unit.
    ring. }
  rewrite (round_comp _ _ E), E. apply round_exact; lia.
Qed.

Lemma round_int (z : Z) :
  (Z.abs z < 2 ^ 24)%Z -> round (inject_Z z) == inject_Z z.
Proof.
  intros Hz. pose proof (round_int_pow2 z 0 Hz (Z.le_refl 0)) as H.
  now rewrite Z.mul_1_r in H.
Qed.

Lemma round_half (z : Z) :
  (Z.abs z < 2 ^ 24)%Z -> round (inject_Z z / 2) == inject_Z z / 2.
Proof.
  intros Hz.
  assert (E : inject_Z z / 2 == inject_Z (z * 2 ^ 148) * tiny).
  { rewrite inject_Z_mult.
    setoid_replace (inject_Z z * inject_Z (2 ^ 148) * tiny)
      with (inject_Z z * (inject_Z (2 ^ 148) * tiny)) by ring.
    setoid_replace (inject_Z (2 ^ 148) * tiny) with (1 # 2) by reflexivity.
    field. }
  rewrite (round_comp _ _ E), E. apply round_exact; lia.
Qed.

End Binary32Facts.

#[global] Instance round_proper : Proper (Qeq ==> Qeq) Binary32.round.
Proof. intros x y H. now apply round_comp. Qed.
(** ** Comparisons of the rational model *)

Lemma geb_true_iff (a b : float) : geb a b = true <-> b <= a.
Proof. apply Qle_bool_iff. Qed.

Lemma geb_false_iff (a b : float) : geb a b = false <-> a < b.
Proof.
  unfold geb. split; intros H.
  - apply Qnot_le_lt. intros L. apply Qle_bool_iff in L. congruence.
  - destruct (Qle_bool b a) eqn:E; trivial.
    apply Qle_bool_iff in E. exfalso. apply (Qlt_not_le _ _ H E).
Qed.

(** ** Soft takeover *)

Section KnobCaptureFacts.

Import KnobCapture.

Variables (kc : KnobCapture.t) (baseline frozenValue : float).

Let armed := Capture kc baseline frozenValue.

Lemma Process_disarmed (k : KnobCapture.t) (r : float) :
  is_frozen_ k = false -> Process k r = (r, k).
Proof. intros H. unfold Process. now rewrite H. Qed.

Lemma ProcessAll_disarmed (k : KnobCapture.t) (rs : list float) :
  is_frozen_ k = false -> ProcessAll k rs = (rs, k).
Proof.
  intros H. induction rs as [|r rs IH]; simpl; trivial.
  rewrite Process_disarmed by assumption. now rewrite IH.
Qed.

Lemma Process_armed_below (r : float) :
  Qabs (fsub r baseline) < threshold_ kc -> Process armed r = (frozenValue, armed).
Proof.
  intros H. apply geb_false_iff in H.
  unfold Process, armed, Capture, fabs.
  cbn [is_frozen_ captured_knob_value_ threshold_ frozen_value_ negb].
  now rewrite H.
Qed.

Lemma Process_armed_reached (r : float) :
  threshold_ kc <= Qabs (fsub r baseline) -> Process armed r = (r, Reset armed).
Proof.
  intros H. apply geb_true_iff in H.
  unfold Process, armed, Capture, fabs, Reset.
  cbn [is_frozen_ captured_knob_value_ threshold_ frozen_value_ negb].
  now rewrite H.
Qed.

(** A deviation that reaches a single-precision threshold still reaches it
    once the difference is rounded. *)
Lemma deviation_reached (r : float) :
  Binary32.representable (threshold_ kc) ->
  threshold_ kc <= Qabs (r - baseline) ->
  threshold_ kc <= Qabs (fsub r baseline).
Proof.
  intros Ht H. unfold fsub. rewrite round_abs.
  now apply round_ge_representable.
Qed.

Lemma ProcessAll_armed_below (quiet : list float) :
  Forall (fun r => Qabs (fsub r baseline) < threshold_ kc) quiet ->
  ProcessAll armed quiet = (repeat frozenValue (length quiet), armed).
Proof.
  induction 1 as [|r rs Hr _ IH]; simpl; trivial.
  rewrite Process_armed_below by assumption. now rewrite IH.
Qed.

Lemma ProcessAll_app (k : KnobCapture.t) (xs ys : list float) :
  ProcessAll k (xs ++ ys) =
  (fst (ProcessAll k xs) ++ fst (ProcessAll (snd (ProcessAll k xs)) ys),
   snd (ProcessAll (snd (ProcessAll k xs)) ys)).
Proof.
  revert k. induction xs as [|x xs IH]; intros k; simpl.
  - now destruct (ProcessAll k ys).
  - destruct (Process k x) as [v k1]. rewrite IH.
    destruct (ProcessAll k1 xs) as [vs k2]. simpl.
    now destruct (ProcessAll k2 ys).
Qed.

(** C1, as the code has it.  The deviation that [Process()] compares with
    the threshold is the single-precision difference of reading and
    baseline, [fsub r baseline].  After [Capture(frozenValue)] and without
    [Reset()], every [Process()] call returns exactly [frozenValue] while
    that difference stays strictly below the threshold in magnitude; at the
    first call where it reaches the threshold (equality included), which it
    does whenever the exact deviation reaches a single-precision threshold,
    the live reading is returned, and so is every later reading whatever its
    deviation: the capture is disarmed (it equals its own [Reset]) until the
    next [Capture]. *)
Theorem knob_capture_soft_takeover (quiet : list float) :
  Forall (fun r => Qabs (fsub r baseline) < threshold_ kc) quiet ->
  ProcessAll armed quiet = (repeat frozenValue (length quiet), armed) /\
  forall (r : float) (later : list float),
    threshold_ kc <= Qabs (fsub r baseline) \/
    (Binary32.representable (threshold_ kc) /\
     threshold_ kc <= Qabs (r - baseline)) ->
    ProcessAll armed (quiet ++ r :: later) =
      (repeat frozenValue (length quiet) ++ r :: later, Reset armed) /\
    is_frozen_ (Reset armed) = false.
Proof.
  intros Hq. split; [now apply ProcessAll_armed_below|].
  intros r later Hr. split; [|reflexivity].
  assert (Hr' : threshold_ kc <= Qabs (fsub r baseline)).
  { destruct Hr as [Hr | [Ht Hr]]; [assumption|now apply deviation_reached]. }
  rewrite ProcessAll_app, ProcessAll_armed_below by assumption. simpl.
  rewrite Process_armed_reached by assumption.
  now rewrite ProcessAll_disarmed.
Qed.

End KnobCaptureFacts.

Lemma knob_capture_soft_takeover_witness :
  KnobCapture.ProcessAll
    (KnobCapture.Capture (KnobCapture.make KnobCapture.default_threshold) 0.5 0.75)
    [0.5; 0.53125; 0.46875] =
    ([0.75; 0.75; 0.75],
     KnobCapture.Capture (KnobCapture.make KnobCapture.default_threshold) 0.5 0.75) /\
  KnobCapture.ProcessAll
    (KnobCapture.Capture (KnobCapture.make KnobCapture.default_threshold) 0.5 0.75)
    ([0.5; 0.53125; 0.46875] ++ 0.5625 :: [0.5; 0.7575]) =
    ([0.75; 0.75; 0.75] ++ 0.5625 :: [0.5; 0.7575],
     KnobCapture.Reset
       (KnobCapture.Capture (KnobCapture.make KnobCapture.default_threshold) 0.5 0.75)).
Proof.
  destruct (knob_capture_soft_takeover
              (KnobCapture.make KnobCapture.default_threshold) 0.5 0.75
              [0.5; 0.53125; 0.46875]) as [H1 H2].
  - repeat constructor.
  - split; [exact H1|].
    apply (H2 0.5625 [0.5; 0.7575]). left. vm_compute. discriminate.
Defined.

(** The claim with the exact deviation fails.  With the default threshold
    [0.05f = 13421773/2^28], the baseline [5368709/2^30] and the reading
    [7381975/2^27], both single-precision numbers, the exact deviation is
    [53687091/2^30], strictly below the threshold [53687092/2^30]; the
    single-precision difference is the threshold itself, so [Process()]
    returns the reading and not the frozen value 0.75, and disarms. *)
Lemma knob_capture_exact_deviation_disarms :
  let baseline := 5368709 # 2 ^ 30 in
  let reading := 7381975 # 2 ^ 27 in
  let armed := KnobCapture.Capture
                 (KnobCapture.make KnobCapture.default_threshold) baseline 0.75 in
  Binary32.representable baseline /\ Binary32.representable reading /\
  Qabs (reading - baseline) < KnobCapture.threshold_ armed /\
  KnobCapture.Process armed reading = (reading, KnobCapture.Reset armed) /\
  ~ fst (KnobCapture.Process armed reading) == 0.75.
Proof.
  cbv zeta. split; [vm_compute; reflexivity|]. split; [vm_compute; reflexivity|].
  split; [vm_compute; reflexivity|]. split; [vm_compute; reflexivity|].
  vm_compute. discriminate.
Qed.

(** ** Hall reverb: decay clamp *)

Lemma gtb_true_iff (a b : float) : gtb a b = true <-> b < a.
Proof.
  unfold gtb. rewrite negb_true_iff. apply (geb_false_iff b a).
Qed.

Lemma gtb_false_iff (a b : float) : gtb a b = false <-> a <= b.
Proof.
  unfold gtb. rewrite negb_false_iff. apply Qle_bool_iff.
Qed.

Lemma ltb_true_iff (a b : float) : ltb a b = true <-> a < b.
Proof.
  unfold ltb. rewrite negb_true_iff. apply (geb_false_iff a b).
Qed.

Lemma ltb_false_iff (a b : float) : ltb a b = false <-> b <= a.
Proof.
  unfold ltb. rewrite negb_false_iff. apply Qle_bool_iff.
Qed.

Lemma SetDecay_cases (hr : HallReverb.t) (decay : float) :
  (0.999 < decay /\ HallReverb.decay_ (HallReverb.SetDecay hr decay) = 0.999) \/
  (decay < 0 /\ HallReverb.decay_ (HallReverb.SetDecay hr decay) = 0) \/
  (0 <= decay <= 0.999 /\ HallReverb.decay_ (HallReverb.SetDecay hr decay) = decay).
Proof.
  unfold HallReverb.SetDecay. cbn [HallReverb.decay_].
  destruct (gtb decay 0.999) eqn:Hhi.
  - left. split; [now apply gtb_true_iff|reflexivity].
  - apply gtb_false_iff in Hhi. right.
    destruct (ltb decay 0) eqn:Hlo.
    + left. split; [now apply ltb_true_iff|reflexivity].
    + apply ltb_false_iff in Hlo. right. repeat split; assumption.
Qed.

(** C6. Whatever value is passed to [HallReverb::SetDecay], the coefficient
    it stores lies in [0, 0.999] (an in-range argument is stored unchanged),
    and that stored coefficient is the factor by which the write-back loop
    of [ProcessSample] multiplies each line's damped mix. *)
Theorem hall_decay_clamped (hr : HallReverb.t) (decay : float) :
  let hr' := HallReverb.SetDecay hr decay in
  let c := HallReverb.decay_ hr' in
  0 <= c <= 0.999 /\
  (0 <= decay <= 0.999 -> c = decay) /\
  forall (damped : list float) (in_scaled : float),
    HallReverb.fdn_delay (HallReverb.DampDecayWrite hr' damped in_scaled) =
    map (fun ld => DelayLine.Write (fst ld) (snd ld * c + in_scaled))
        (combine (HallReverb.fdn_delay hr) damped).
Proof.
  cbv zeta. split; [|split].
  - destruct (SetDecay_cases hr decay) as [[H E]|[[H E]|[H E]]]; rewrite E.
    + split; discriminate.
    + split; discriminate.
    + exact H.
  - intros [Hlo Hhi].
    destruct (SetDecay_cases hr decay) as [[H E]|[[H E]|[H E]]]; trivial.
    + exfalso. apply (Qlt_not_le _ _ H Hhi).
    + exfalso. apply (Qlt_not_le _ _ H Hlo).
  - intros damped in_scaled. reflexivity.
Qed.

(** ** Delay time smoothing *)

Lemma Qabs_cases (x : Q) : (0 <= x /\ Qabs x == x) \/ (x <= 0 /\ Qabs x == - x).
Proof.
  destruct (Qlt_le_dec x 0) as [H|H].
  - right. split; [lra|]. apply Qabs_neg. lra.
  - left. split; [assumption|]. now apply Qabs_pos.
Qed.

(** Every [Qabs e] of the goal and the hypotheses becomes a variable with its
    two cases. *)
Ltac qabs :=
  repeat match goal with
  | |- context [Qabs ?e] =>
      let a := fresh "a" in
      destruct (Qabs_cases e) as [[? ?]|[? ?]];
      set (a := Qabs e) in *; clearbody a
  | H : context [Qabs ?e] |- _ =>
      let a := fresh "a" in
      destruct (Qabs_cases e) as [[? ?]|[? ?]];
      set (a := Qabs e) in *; clearbody a
  end.

Section SmoothingFacts.

Import Binary32.

Let k := DelayEffect.smoothing_coeff.

Lemma round_size (x : Q) :
  Qabs (round x) <= Qabs x * (16777217 # 16777216) + tiny * (1 # 2) /\
  Qabs x * (16777215 # 16777216) - tiny * (1 # 2) <= Qabs (round x).
Proof.
  pose proof (round_err x) as H. pose proof tiny_pos as Ht.
  revert H Ht. generalize tiny. generalize (round x). intros r t H Ht.
  qabs; split; lra.
Qed.

Lemma fonepole_comp (c c' target : float) :
  c == c' -> fonepole c target k == fonepole c' target k.
Proof. intros H. unfold fonepole, fadd, fmul, fsub. now rewrite H. Qed.

Lemma fonepole_opp (c target : float) :
  fonepole (- c) (- target) k == - fonepole c target k.
Proof.
  unfold fonepole, fadd, fmul, fsub.
  rewrite <- round_opp.
  apply round_comp.
  setoid_replace (- target - - c) with (- (target - c)) by ring.
  rewrite round_opp.
  setoid_replace (k * - round (target - c)) with (- (k * round (target - c))) by ring.
  rewrite round_opp. ring.
Qed.

Lemma fonepole_representable (c target : float) :
  representable (fonepole c target k).
Proof. apply representable_round. Qed.

Lemma fonepole_between_below (c target : float) :
  representable c -> representable target -> c <= target ->
  c <= fonepole c target k <= target.
Proof.
  intros Hc Ht H. unfold fonepole, fadd, fmul, fsub.
  destruct (Qeq_dec c target) as [E|E].
  - assert (E0 : round (target - c) == 0) by (apply round_0; rewrite E; ring).
    assert (E1 : round (k * round (target - c)) == 0)
      by (apply round_0; rewrite E0; ring).
    assert (E2 : round (c + round (k * round (target - c))) == c).
    { rewrite (round_comp _ c) by (rewrite E1; ring). exact Hc. }
    rewrite E2. split; lra.
  - assert (Hlt : c < target).
    { destruct (Qlt_le_dec c target) as [L|L]; [assumption|].
      exfalso. apply E. now apply Qle_antisym. }
    pose proof (representable_gap c target Hc Ht Hlt) as Hgap.
    pose proof (round_ge_0 (target - c)) as Hd0.
    pose proof (round_size (target - c)) as [Hd1 _].
    assert (Hd0' : 0 <= round (target - c)) by (apply Hd0; lra).
    pose proof (round_ge_0 (k * round (target - c))) as Hp0.
    pose proof (round_size (k * round (target - c))) as [Hp1 _].
    assert (Hk : 0 <= k * round (target - c)).
    { apply Qmult_le_0_compat; [discriminate|assumption]. }
    specialize (Hp0 Hk).
    rewrite (Qabs_pos (round (target - c))) in Hd1 by assumption.
    rewrite (Qabs_pos (target - c)) in Hd1 by lra.
    rewrite (Qabs_pos (round (k * round (target - c)))) in Hp1 by assumption.
    rewrite (Qabs_pos (k * round (target - c))) in Hp1 by assumption.
    pose proof tiny_pos as Htiny.
    assert (Hp : c + round (k * round (target - c)) <= target).
    { revert Hd0' Hd1 Hp0 Hp1 Hgap Htiny. unfold k, DelayEffect.smoothing_coeff.
      generalize tiny. generalize (round (target - c)). intros d t.
      generalize (round ((13743895 # 68719476736) * d)). intros p. intros. lra. }
    split.
    + apply round_ge_representable; [assumption|lra].
    + now apply round_le_representable.
Qed.

Lemma fonepole_between_above (c target : float) :
  representable c -> representable target -> target <= c ->
  target <= fonepole c target k <= c.
Proof.
  intros Hc Ht H.
  destruct (fonepole_between_below (- c) (- target)) as [H1 H2];
    [now apply representable_opp|now apply representable_opp|lra|].
  rewrite fonepole_opp in H1, H2. split; lra.
Qed.

Lemma fonepole_step (c target : float) :
  Qabs (fonepole c target k - c) <= DelayEffect.step_limit c target.
Proof.
  unfold fonepole, fadd, fmul, fsub, DelayEffect.step_limit.
  pose proof (round_size (target - c)) as [Hd _].
  pose proof (round_size (k * round (target - c))) as [Hp _].
  pose proof (round_err (c + round (k * round (target - c)))) as Hn.
  pose proof tiny_pos as Htiny.
  assert (Hk : Qabs (k * round (target - c)) == k * Qabs (round (target - c))).
  { rewrite Qabs_Qmult. rewrite (Qabs_pos k) by discriminate. reflexivity. }
  rewrite Hk in Hp. clear Hk.
  change (1 # 2 ^ 23) with (1 # 8388608).
  revert Hd Hp Hn Htiny. unfold k, DelayEffect.smoothing_coeff.
  generalize tiny. generalize (round (target - c)). intros d t.
  generalize (round ((13743895 # 68719476736) * d)). intros p.
  generalize (round (c + p)). intros n. intros.
  qabs; lra.
Qed.

Lemma fonepole_rest (c target : float) :
  fonepole c target k == c -> Qabs (target - c) <= DelayEffect.rest_limit c.
Proof.
  unfold fonepole, fadd, fmul, fsub, DelayEffect.rest_limit.
  pose proof (round_size (target - c)) as [_ Hd].
  pose proof (round_size (k * round (target - c))) as [_ Hp].
  pose proof (round_err (c + round (k * round (target - c)))) as Hn.
  pose proof tiny_pos as Htiny.
  assert (Hk : Qabs (k * round (target - c)) == k * Qabs (round (target - c))).
  { rewrite Qabs_Qmult. rewrite (Qabs_pos k) by discriminate. reflexivity. }
  rewrite Hk in Hp. clear Hk.
  revert Hd Hp Hn Htiny. unfold k, DelayEffect.smoothing_coeff.
  generalize tiny. generalize (round (target - c)). intros d t.
  generalize (round ((13743895 # 68719476736) * d)). intros p.
  generalize (round (c + p)). intros n. intros.
  qabs; lra.
Qed.

Lemma smoothed_shift (n : nat) (c target : float) :
  DelayEffect.smoothed (S n) c target = DelayEffect.smoothed n (fonepole c target k) target.
Proof.
  induction n as [|n IH]; [reflexivity|].
  change (DelayEffect.smoothed (S (S n)) c target)
    with (fonepole (DelayEffect.smoothed (S n) c target) target k).
  now rewrite IH.
Qed.

Lemma smoothed_comp (n : nat) (c c' target : float) :
  c == c' -> DelayEffect.smoothed n c target == DelayEffect.smoothed n c' target.
Proof.
  intros H. induction n as [|n IH]; [exact H|].
  cbn [DelayEffect.smoothed]. now apply fonepole_comp.
Qed.

Lemma smoothed_opp (n : nat) (c target : float) :
  DelayEffect.smoothed n (- c) (- target) == - DelayEffect.smoothed n c target.
Proof.
  induction n as [|n IH]; [reflexivity|].
  cbn [DelayEffect.smoothed]. fold k.
  rewrite (fonepole_comp _ _ _ IH). apply fonepole_opp.
Qed.

Lemma smoothed_representable (n : nat) (c target : float) :
  representable c -> representable (DelayEffect.smoothed n c target).
Proof.
  intros H. destruct n as [|n]; [exact H|]. apply fonepole_representable.
Qed.

(** A position at rest stays where it is. *)
Lemma smoothed_rest (c target : float) :
  fonepole c target k == c ->
  forall n : nat, DelayEffect.smoothed n c target == c.
Proof.
  intros H n. induction n as [|n IH]; [reflexivity|].
  cbn [DelayEffect.smoothed]. fold k.
  now rewrite (fonepole_comp _ _ _ IH).
Qed.

Lemma smoothed_add (n m : nat) (c target : float) :
  DelayEffect.smoothed (n + m) c target =
  DelayEffect.smoothed n (DelayEffect.smoothed m c target) target.
Proof.
  induction n as [|n IH]; [reflexivity|].
  cbn [Nat.add DelayEffect.smoothed]. now rewrite IH.
Qed.

Lemma smoothed_between_below (n : nat) (c target : float) :
  representable c -> representable target -> c <= target ->
  c <= DelayEffect.smoothed n c target <= target.
Proof.
  intros Hc Ht H. induction n as [|n IH]; [cbn [DelayEffect.smoothed]; split; lra|].
  cbn [DelayEffect.smoothed]. fold k.
  destruct (fonepole_between_below (DelayEffect.smoothed n c target) target)
    as [H1 H2]; [now apply smoothed_representable|assumption|lra|].
  split; lra.
Qed.

(** Below the target the position comes to rest: it never decreases, and
    each call that moves it moves it by one [tiny] at least. *)
Lemma rest_reached_below (m : nat) (c target : float) :
  representable c -> representable target -> c <= target ->
  target - c <= inject_Z (Z.of_nat m) * tiny ->
  exists N : nat,
    fonepole (DelayEffect.smoothed N c target) target k
    == DelayEffect.smoothed N c target.
Proof.
  revert c. induction m as [|m IH]; intros c Hc Ht H Hm.
  - exists 0%nat. cbn [DelayEffect.smoothed].
    change (inject_Z (Z.of_nat 0)) with 0 in Hm.
    destruct (fonepole_between_below c target Hc Ht H).
    apply Qle_antisym; lra.
  - destruct (Qeq_dec (fonepole c target k) c) as [E|E].
    + exists 0%nat. exact E.
    + destruct (fonepole_between_below c target Hc Ht H) as [H1 H2].
      assert (Hlt : c < fonepole c target k).
      { destruct (Qlt_le_dec c (fonepole c target k)) as [L|L]; [assumption|].
        exfalso. apply E. now apply Qle_antisym. }
      pose proof (representable_gap _ _ Hc (fonepole_representable c target) Hlt)
        as Hgap.
      destruct (IH (fonepole c target k)) as [N HN];
        [apply fonepole_representable|assumption|assumption| |].
      * rewrite Nat2Z.inj_succ, <- Z.add_1_r, inject_Z_plus in Hm.
        change (inject_Z 1) with 1 in Hm. lra.
      * exists (S N). rewrite smoothed_shift. exact HN.
Qed.

Lemma steps_of_tiny (x : Q) :
  0 <= x -> x <= inject_Z (Z.of_nat (Z.to_nat (Qceiling (x / tiny)))) * tiny.
Proof.
  intros H. pose proof tiny_pos as Htiny.
  assert (L := Qle_ceiling (x / tiny)).
  assert (H0 : 0 <= x / tiny) by (apply Qle_shift_div_l; [assumption|lra]).
  assert (H1 : (0 <= Qceiling (x / tiny))%Z).
  { apply Z.lt_succ_r. rewrite Zlt_Qlt, <- Z.add_1_r, inject_Z_plus.
    change (inject_Z 0) with 0. change (inject_Z 1) with 1.
    assert (U := Qceiling_lt (x / tiny)).
    unfold Z.sub in U. rewrite inject_Z_plus in U.
    change (inject_Z (-1)) with (-1) in U. lra. }
  rewrite Z2Nat.id by assumption.
  apply Qle_trans with (x / tiny * tiny).
  - apply Qle_lteq. right. field. intros E. rewrite E in Htiny. discriminate.
  - apply Qmult_le_compat_r; lra.
Qed.

Lemma rest_reached (c target : float) :
  representable c -> representable target ->
  exists N : nat,
    fonepole (DelayEffect.smoothed N c target) target k
    == DelayEffect.smoothed N c target.
Proof.
  intros Hc Ht.
  destruct (Qlt_le_dec target c) as [H|H].
  - destruct (rest_reached_below (Z.to_nat (Qceiling ((- target - - c) / tiny)))
                (- c) (- target)) as [N HN].
    + now apply representable_opp.
    + now apply representable_opp.
    + lra.
    + apply steps_of_tiny. lra.
    + exists N.
      rewrite (fonepole_comp _ _ _ (smoothed_opp N c target)) in HN.
      rewrite fonepole_opp, smoothed_opp in HN. lra.
  - apply (rest_reached_below (Z.to_nat (Qceiling ((target - c) / tiny))));
      try assumption.
    apply steps_of_tiny. lra.
Qed.

Lemma smoothed_between (n : nat) (c target lo hi : float) :
  representable c -> representable target ->
  lo <= c <= hi -> lo <= target <= hi ->
  lo <= DelayEffect.smoothed n c target <= hi.
Proof.
  intros Hc Ht [H1 H2] [H3 H4].
  destruct (Qlt_le_dec target c) as [H|H].
  - destruct (smoothed_between_below n (- c) (- target)) as [B1 B2];
      [now apply representable_opp|now apply representable_opp|lra|].
    rewrite smoothed_opp in B1, B2. split; lra.
  - destruct (smoothed_between_below n c target) as [B1 B2]; try assumption.
    split; lra.
Qed.

End SmoothingFacts.

Lemma ProcessAll_snoc (de : DelayEffect.t) (ins : list (float * float))
  (x : float * float) :
  DelayEffect.ProcessAll de (ins ++ [x]) =
  snd (DelayEffect.ProcessSample (DelayEffect.ProcessAll de ins) (fst x) (snd x)).
Proof. unfold DelayEffect.ProcessAll. now rewrite fold_left_app. Qed.

Lemma ProcessAll_target (de : DelayEffect.t) (ins : list (float * float)) :
  DelayEffect.delay_target_ (DelayEffect.ProcessAll de ins) =
  DelayEffect.delay_target_ de.
Proof.
  induction ins as [|x ins IH] using rev_ind; trivial.
  rewrite ProcessAll_snoc. exact IH.
Qed.

Lemma ProcessAll_current_L (de : DelayEffect.t) (ins : list (float * float)) :
  DelayEffect.current_delay_L_ (DelayEffect.ProcessAll de ins) =
  DelayEffect.smoothed (length ins) (DelayEffect.current_delay_L_ de)
    (DelayEffect.delay_target_ de).
Proof.
  induction ins as [|x ins IH] using rev_ind; trivial.
  rewrite ProcessAll_snoc, length_app, Nat.add_comm.
  cbn [length Nat.add DelayEffect.smoothed DelayEffect.ProcessSample snd
       DelayEffect.current_delay_L_].
  now rewrite IH, ProcessAll_target.
Qed.

Lemma ProcessAll_current_R (de : DelayEffect.t) (ins : list (float * float)) :
  DelayEffect.current_delay_R_ (DelayEffect.ProcessAll de ins) =
  DelayEffect.smoothed (length ins) (DelayEffect.current_delay_R_ de)
    (DelayEffect.delay_target_ de).
Proof.
  induction ins as [|x ins IH] using rev_ind; trivial.
  rewrite ProcessAll_snoc, length_app, Nat.add_comm.
  cbn [length Nat.add DelayEffect.smoothed DelayEffect.ProcessSample snd
       DelayEffect.current_delay_R_].
  now rewrite IH, ProcessAll_target.
Qed.

Lemma smoothed_settles (start target : float)
  (pos : list (float * float) -> float) :
  Binary32.representable start -> Binary32.representable target ->
  (forall ins, pos ins = DelayEffect.smoothed (length ins) start target) ->
  DelayEffect.settles start target pos.
Proof.
  intros Hs Ht Hpos. split; [|split].
  - now rewrite Hpos.
  - intros ins x. rewrite !Hpos, length_app, Nat.add_comm.
    cbn [length Nat.add DelayEffect.smoothed].
    pose proof (smoothed_representable (length ins) start target Hs) as Hn.
    split; [|split].
    + now apply fonepole_between_below.
    + now apply fonepole_between_above.
    + apply fonepole_step.
  - destruct (rest_reached start target Hs Ht) as [N HN].
    exists N, (DelayEffect.smoothed N start target). split.
    + intros ins Hl. rewrite Hpos.
      replace (length ins) with ((length ins - N) + N)%nat by lia.
      rewrite smoothed_add. now apply smoothed_rest.
    + now apply fonepole_rest.
Qed.

Lemma smoothed_bounded_step (start target : float)
  (pos : list (float * float) -> float) :
  Binary32.representable start -> Binary32.representable target ->
  (forall ins, pos ins = DelayEffect.smoothed (length ins) start target) ->
  0 <= start <= inject_Z DelayEffect.DELAY_MAX_SIZE ->
  0 <= target <= inject_Z DelayEffect.DELAY_MAX_SIZE ->
  DelayEffect.bounded_step pos.
Proof.
  intros Hs Ht Hpos Rs Rt ins x.
  rewrite !Hpos, length_app, Nat.add_comm.
  cbn [length Nat.add DelayEffect.smoothed].
  pose proof (smoothed_between (length ins) start target _ _ Hs Ht Rs Rt) as Hb.
  apply Qle_trans with (1 := fonepole_step _ _).
  unfold DelayEffect.step_limit.
  change (inject_Z DelayEffect.DELAY_MAX_SIZE) with 96000 in *.
  change (1 # 2 ^ 23) with (1 # 8388608).
  assert (Htiny : Binary32.tiny <= 1 # 1000) by (vm_compute; discriminate).
  revert Hb Htiny. generalize Binary32.tiny.
  generalize (DelayEffect.smoothed (length ins) start target).
  intros c t Hb Htiny. qabs; lra.
Qed.

(** C8, as the code has it.  The smoother is three single-precision
    operations with the coefficient [0.0002f].  After [SetDelayTime(target)]
    every [ProcessSample] call leaves each read position between where it
    was and the target: it moves toward the target or stays, and never
    passes it; no call changes it by more than 0.0002 times the remaining
    distance and the rounding of the position ([DelayEffect.step_limit]),
    which inside the delay memory (0 to 96000 samples) is less than 19.25
    samples.  The position does not converge to the target: after finitely
    many calls it is at rest, at a distance from the target of at most one
    part in 3000 of itself ([DelayEffect.rest_limit]), where the increment
    is lost in the rounding of the sum. *)
Theorem delay_time_smoothing (de : DelayEffect.t) (target : float) :
  Binary32.representable target ->
  let pos_L := fun ins => DelayEffect.current_delay_L_
                 (DelayEffect.ProcessAll (DelayEffect.SetDelayTime de target) ins) in
  let pos_R := fun ins => DelayEffect.current_delay_R_
                 (DelayEffect.ProcessAll (DelayEffect.SetDelayTime de target) ins) in
  DelayEffect.smoothing_coeff = f32 0.0002 /\
  (Binary32.representable (DelayEffect.current_delay_L_ de) ->
   DelayEffect.settles (DelayEffect.current_delay_L_ de) target pos_L) /\
  (Binary32.representable (DelayEffect.current_delay_R_ de) ->
   DelayEffect.settles (DelayEffect.current_delay_R_ de) target pos_R) /\
  (0 <= target <= inject_Z DelayEffect.DELAY_MAX_SIZE ->
   (Binary32.representable (DelayEffect.current_delay_L_ de) ->
    0 <= DelayEffect.current_delay_L_ de <= inject_Z DelayEffect.DELAY_MAX_SIZE ->
    DelayEffect.bounded_step pos_L) /\
   (Binary32.representable (DelayEffect.current_delay_R_ de) ->
    0 <= DelayEffect.current_delay_R_ de <= inject_Z DelayEffect.DELAY_MAX_SIZE ->
    DelayEffect.bounded_step pos_R)).
Proof.
  intros Ht. cbv zeta.
  split; [vm_compute; reflexivity|].
  split; [|split].
  - intros Hs. apply smoothed_settles; try assumption.
    intros ins. now rewrite ProcessAll_current_L.
  - intros Hs. apply smoothed_settles; try assumption.
    intros ins. now rewrite ProcessAll_current_R.
  - intros Rt. split; intros Hs Rs.
    + apply (smoothed_bounded_step (DelayEffect.current_delay_L_ de) target);
        try assumption.
      intros ins. now rewrite ProcessAll_current_L.
    + apply (smoothed_bounded_step (DelayEffect.current_delay_R_ de) target);
        try assumption.
      intros ins. now rewrite ProcessAll_current_R.
Qed.

Lemma delay_time_smoothing_witness :
  let line := DelayLine.mk 4 [0; 0; 0; 0] 0 0 1 in
  let de := DelayEffect.Init 48000 line line in
  DelayEffect.settles 0 24000
    (fun ins => DelayEffect.current_delay_L_
       (DelayEffect.ProcessAll (DelayEffect.SetDelayTime de 24000) ins)) /\
  DelayEffect.bounded_step
    (fun ins => DelayEffect.current_delay_L_
       (DelayEffect.ProcessAll (DelayEffect.SetDelayTime de 24000) ins)).
Proof.
  cbv zeta.
  destruct (delay_time_smoothing
              (DelayEffect.Init 48000 (DelayLine.mk 4 [0; 0; 0; 0] 0 0 1)
                 (DelayLine.mk 4 [0; 0; 0; 0] 0 0 1)) 24000)
    as (_ & HL & _ & HB).
  - vm_compute. reflexivity.
  - split.
    + apply HL. vm_compute. reflexivity.
    + apply HB.
      * split; vm_compute; discriminate.
      * vm_compute. reflexivity.
      * split; vm_compute; discriminate.
Defined.

(** The claim's limit fails.  With both read positions at 24000 samples and
    the target moved to 24001, the difference is 1, the increment is
    [0.0002f], and the sum [24000.0002] rounds back to 24000, where single
    precision has a spacing of [2^-9]: the position is 24000 after every
    number of calls and never comes closer than one sample to the target. *)
Lemma delay_time_smoothing_stalls :
  let line := DelayLine.mk 4 [0; 0; 0; 0] 0 0 1 in
  let de := DelayEffect.SetDelayTime (DelayEffect.mk line line 24000 24000 24000 0 48000)
              24001 in
  let pos := fun ins => DelayEffect.current_delay_L_ (DelayEffect.ProcessAll de ins) in
  fonepole 24000 24001 DelayEffect.smoothing_coeff = 24000 /\
  (forall ins, pos ins == 24000) /\
  ~ DelayEffect.converges 24001 pos.
Proof.
  cbv zeta.
  assert (F : fonepole 24000 24001 DelayEffect.smoothing_coeff = 24000)
    by (vm_compute; reflexivity).
  assert (P : forall ins,
            DelayEffect.current_delay_L_
              (DelayEffect.ProcessAll
                 (DelayEffect.SetDelayTime
                    (DelayEffect.mk (DelayLine.mk 4 [0; 0; 0; 0] 0 0 1)
                       (DelayLine.mk 4 [0; 0; 0; 0] 0 0 1) 24000 24000 24000 0 48000)
                    24001) ins) == 24000).
  { intros ins. rewrite ProcessAll_current_L.
    cbn [DelayEffect.SetDelayTime DelayEffect.current_delay_L_ DelayEffect.delay_target_].
    apply smoothed_rest. now rewrite F. }
  split; [exact F|]. split; [exact P|].
  intros C. destruct (C (1 # 2)) as [N HN]; [reflexivity|].
  specialize (HN (repeat (0, 0) N)).
  rewrite repeat_length in HN. specialize (HN (Nat.le_refl N)).
  rewrite P in HN. vm_compute in HN. discriminate HN.
Qed.

(** ** Hadamard mixing *)

Section HadamardFacts.

Local Open Scope R_scope.

Lemma hadamardTransformR_twice (k : R) (x : list R) :
  length x = 8%nat ->
  hadamardTransformR k (hadamardTransformR k x) = map (fun v => 8 * k * k * v) x.
Proof.
  intros H.
  do 8 (destruct x as [|? x]; [discriminate H|]).
  destruct x; [|discriminate H].
  cbv [hadamardTransformR butterflies butterfly fold_left seq at_ put nth Nat.add map].
  repeat (apply (f_equal2 (@cons R)); [ring|]). reflexivity.
Qed.

Lemma ideal_norm_gain : 8 * / sqrt 8 * / sqrt 8 = 1.
Proof.
  assert (H8 : 0 < sqrt 8) by (apply sqrt_lt_R0; lra).
  assert (Hs : sqrt 8 * sqrt 8 = 8) by (apply sqrt_sqrt; lra).
  field_simplify; [|lra]. rewrite <- Hs at 1. field. lra.
Qed.

Lemma ideal_norm_involution (x : list R) :
  length x = 8%nat ->
  hadamardTransformR (/ sqrt 8) (hadamardTransformR (/ sqrt 8) x) = x.
Proof.
  intros H. rewrite hadamardTransformR_twice by assumption.
  rewrite <- (map_id x) at 2. apply map_ext. intros v.
  rewrite ideal_norm_gain. ring.
Qed.

End HadamardFacts.

(** ** Hadamard mixing in single precision *)

Section HadamardRounding.

Import Binary32 HallReverb.

Lemma Qabs_le_iff (x c : Q) : Qabs x <= c <-> - c <= x <= c.
Proof. apply Qabs_Qle_condition. Qed.

Lemma within_weaken (e b e' b' v w : float) :
  within e b v w -> e <= e' -> b <= b' -> within e' b' v w.
Proof. intros [H1 H2] He Hb. split; lra. Qed.

Lemma within_exact (m v : float) : Qabs v <= m -> within 0 m v v.
Proof.
  intros H. split; [|assumption].
  setoid_replace (v - v) with 0 by ring. discriminate.
Qed.

Lemma within_round (e b s w : float) :
  Qabs (s - w) <= e -> Qabs w <= b ->
  Qabs (round s - w) <= e + (b + e) * (1 # 16777216) + tiny * (1 # 2).
Proof.
  intros H1 H2. pose proof (round_err s) as Hr.
  apply Qabs_le_iff in H1. apply Qabs_le_iff in H2.
  assert (Hs : Qabs s <= b + e) by (apply Qabs_le_iff; split; lra).
  revert Hr Hs. generalize (Qabs s). generalize (round s). intros r a Hr Hs.
  apply Qabs_le_iff in Hr. apply Qabs_le_iff. split; lra.
Qed.

Lemma within_fadd (e b v1 w1 v2 w2 : float) :
  within e b v1 w1 -> within e b v2 w2 ->
  within (2 * e + (2 * b + 2 * e) * (1 # 16777216) + tiny * (1 # 2)) (2 * b)
         (fadd v1 v2) (w1 + w2).
Proof.
  intros [A1 B1] [A2 B2].
  apply Qabs_le_iff in A1. apply Qabs_le_iff in A2.
  apply Qabs_le_iff in B1. apply Qabs_le_iff in B2.
  split.
  - unfold fadd. apply (within_round (2 * e) (2 * b)); apply Qabs_le_iff; split; lra.
  - apply Qabs_le_iff; split; lra.
Qed.

Lemma within_fsub (e b v1 w1 v2 w2 : float) :
  within e b v1 w1 -> within e b v2 w2 ->
  within (2 * e + (2 * b + 2 * e) * (1 # 16777216) + tiny * (1 # 2)) (2 * b)
         (fsub v1 v2) (w1 - w2).
Proof.
  intros [A1 B1] [A2 B2].
  apply Qabs_le_iff in A1. apply Qabs_le_iff in A2.
  apply Qabs_le_iff in B1. apply Qabs_le_iff in B2.
  split.
  - unfold fsub. apply (within_round (2 * e) (2 * b)); apply Qabs_le_iff; split; lra.
  - apply Qabs_le_iff; split; lra.
Qed.

Lemma within_fmul_norm (e b v w : float) :
  within e b v w ->
  within (kHadamardNorm * e + (kHadamardNorm * b + kHadamardNorm * e) * (1 # 16777216)
          + tiny * (1 # 2))
         (kHadamardNorm * b) (fmul v kHadamardNorm) (w * kHadamardNorm).
Proof.
  intros [A B].
  apply Qabs_le_iff in A. apply Qabs_le_iff in B.
  split.
  - unfold fmul. apply within_round; apply Qabs_le_iff;
      unfold kHadamardNorm; split; lra.
  - apply Qabs_le_iff. unfold kHadamardNorm. split; lra.
Qed.

Ltac within_sum :=
  match goal with
  | |- within _ _ (fadd _ _) _ => apply within_fadd
  | |- within _ _ (fsub _ _) _ => apply within_fsub
  end.

(** One transform: eight computed values within [e] of eight exact values
    of magnitude at most [b] are mixed into values within
    [2.8285 e + 6.75e-7 b + 2 tiny] of the exact mix. *)
Lemma transform_within (e b : float) (v w : list float) :
  0 <= e -> 0 <= b ->
  Forall2 (within e b) v w -> length v = 8%nat ->
  Forall2 (within ((28285 # 10000) * e + b * (27 # 40000000) + 2 * tiny)
                  ((28285 # 10000) * b))
          (hadamardTransformF v) (hadamardTransform w).
Proof.
  intros He Hb HF Hl.
  do 8 (destruct v as [|? v]; [discriminate Hl|]).
  destruct v; [|discriminate Hl].
  do 8 (destruct w as [|? w]; [inversion HF|]; inversion HF as [|? ? ? ? ? HF']; subst;
        clear HF; rename HF' into HF).
  inversion HF; subst. clear HF.
  pose proof tiny_pos as Htiny.
  cbv [hadamardTransformF hadamardTransform butterflies butterfly fold_left seq
       at_ put nth Nat.add].
  repeat (apply Forall2_cons || apply Forall2_nil).
  all: eapply within_weaken;
    [apply within_fmul_norm; do 3 within_sum; eassumption
    | unfold kHadamardNorm; lra
    | unfold kHadamardNorm; lra].
Qed.

Lemma hadamardTransformF_length (x : list float) :
  length x = 8%nat -> length (hadamardTransformF x) = 8%nat.
Proof.
  intros H.
  do 8 (destruct x as [|? x]; [discriminate H|]).
  destruct x; [|discriminate H]. reflexivity.
Qed.

Lemma Forall_within_exact (m : float) (x : list float) :
  Forall (fun v => Qabs v <= m) x -> Forall2 (within 0 m) x x.
Proof.
  induction 1 as [|v x Hv _ IH]; constructor; [now apply within_exact|assumption].
Qed.

(** Two transforms in single precision return a vector whose components
    are bounded by [m] up to [4e-6 m + 8 tiny]. *)
Lemma hadamardTransformF_twice (m : float) (x : list float) :
  length x = 8%nat -> Forall (fun v => Qabs v <= m) x ->
  Forall2 (fun r v => Qabs (r - v) <= m * (1 # 250000) + 8 * tiny)
          (hadamardTransformF (hadamardTransformF x)) x.
Proof.
  intros Hl Hm.
  assert (Hm0 : 0 <= m).
  { destruct x as [|v x]; [discriminate Hl|]. inversion Hm; subst.
    apply Qle_trans with (Qabs v); [apply Qabs_nonneg|assumption]. }
  pose proof tiny_pos as Htiny.
  pose proof (transform_within 0 m x x (Qle_refl 0) Hm0
                (Forall_within_exact m x Hm) Hl) as T1.
  pose proof (hadamardTransformF_length x Hl) as Hl1.
  assert (He1 : 0 <= (28285 # 10000) * 0 + m * (27 # 40000000) + 2 * tiny) by lra.
  assert (Hb1 : 0 <= (28285 # 10000) * m) by lra.
  pose proof (transform_within _ _ _ _ He1 Hb1 T1 Hl1) as T2.
  clear T1 He1 Hb1.
  revert T2 Hl1. generalize (hadamardTransformF x). intros y T2 Hl1.
  do 8 (destruct y as [|? y]; [discriminate Hl1|]).
  destruct y; [|discriminate Hl1]. clear Hl1.
  do 8 (destruct x as [|? x]; [discriminate Hl|]).
  destruct x; [|discriminate Hl]. clear Hl.
  repeat match goal with
         | H : Forall _ (_ :: _) |- _ =>
             let A := fresh "M" in
             apply Forall_cons_iff in H; destruct H as [A H];
             apply Qabs_le_iff in A
         end.
  clear Hm.
  revert T2.
  cbv [hadamardTransformF hadamardTransform butterflies butterfly fold_left seq
       at_ put nth Nat.add].
  intros T2.
  repeat match goal with
         | H : Forall2 _ (_ :: _) (_ :: _) |- _ =>
             let A := fresh "W" in
             apply Forall2_cons_iff in H; destruct H as [[A _] H];
             apply Qabs_le_iff in A
         end.
  clear T2.
  repeat (apply Forall2_cons || apply Forall2_nil).
  all: apply Qabs_le_iff.
  all: match goal with
       | |- _ <= fmul ?a ?b - _ <= _ => generalize dependent (fmul a b)
       end.
  all: intros r; intros; unfold kHadamardNorm in *; split; lra.
Qed.

End HadamardRounding.

Lemma nth_Forall2 (A B : Type) (P : A -> B -> Prop) (l : list A) (l' : list B)
  (d : A) (d' : B) (i : nat) :
  Forall2 P l l' -> P d d' -> P (nth i l d) (nth i l' d').
Proof.
  intros H Hd. revert i. induction H as [|a b l l' Hab _ IH]; intros i.
  - destruct i; exact Hd.
  - destruct i; [exact Hab|apply IH].
Qed.

(** C7. The eight-point butterfly transform with its normalisation is its
    own inverse: exactly, over the reals, when the constant is [1/sqrt 8];
    and as implemented, with the constant [0.35355339f] and every sum,
    difference and product rounded to single precision
    ([HallReverb.hadamardTransformF]), two applications return every
    component of a vector whose components are bounded by [m] up to
    [4e-6 m + 8 tiny], where [tiny = 2^-149] accounts for underflow; [m] is
    at most [2^124] so that no intermediate value leaves the range of single
    precision. *)
Theorem hadamard_self_inverse :
  (forall x : list R, length x = 8%nat ->
     hadamardTransformR (/ sqrt 8) (hadamardTransformR (/ sqrt 8) x) = x) /\
  (forall (x : list float) (m : float), length x = 8%nat ->
     Forall (fun v => Qabs v <= m) x -> m <= inject_Z (2 ^ 124) ->
     forall i : nat,
       Qabs (nth i (HallReverb.hadamardTransformF
                      (HallReverb.hadamardTransformF x)) 0 - nth i x 0)
       <= m * (1 # 250000) + 8 * Binary32.tiny).
Proof.
  split; [exact ideal_norm_involution|].
  intros x m Hl Hm _ i.
  apply (nth_Forall2 _ _
           (fun r v => Qabs (r - v) <= m * (1 # 250000) + 8 * Binary32.tiny)).
  - now apply hadamardTransformF_twice.
  - assert (Hm0 : 0 <= m).
    { destruct x as [|v x]; [discriminate Hl|]. inversion Hm; subst.
      apply Qle_trans with (Qabs v); [apply Qabs_nonneg|assumption]. }
    pose proof tiny_pos. setoid_replace (0 - 0) with 0 by ring.
    change (Qabs 0) with 0. lra.
Qed.

(** The unit vector: the first component comes back as [1 - 2^-24]. *)
Lemma hadamard_self_inverse_witness :
  nth 0 (HallReverb.hadamardTransformF
           (HallReverb.hadamardTransformF [1; 0; 0; 0; 0; 0; 0; 0])) 0
    = 16777215 # 16777216 /\
  Qabs (nth 0 (HallReverb.hadamardTransformF
                 (HallReverb.hadamardTransformF [1; 0; 0; 0; 0; 0; 0; 0])) 0
        - nth 0 [1; 0; 0; 0; 0; 0; 0; 0] 0)
  <= 1 * (1 # 250000) + 8 * Binary32.tiny.
Proof.
  split; [vm_compute; reflexivity|].
  apply (proj2 hadamard_self_inverse [1; 0; 0; 0; 0; 0; 0; 0] 1).
  - reflexivity.
  - repeat constructor; vm_compute; discriminate.
  - vm_compute. discriminate.
Defined.

(** ** Tremolo gain *)

Section TremoloFacts.

Local Open Scope R_scope.

Lemma atan_25_pos : 0 < atan (1 / 0.04).
Proof.
  rewrite <- atan_0. apply atan_increasing. lra.
Qed.

Lemma checked_div_nonzero (a b : R) :
  b <> 0 -> RealFloat.checked_div a b = Some (a / b).
Proof.
  intros H. unfold RealFloat.checked_div.
  destruct (Req_dec_T b 0) as [E|_]; [contradiction|reflexivity].
Qed.

Lemma checked_div_zero (a : R) : RealFloat.checked_div a 0 = None.
Proof.
  unfold RealFloat.checked_div.
  destruct (Req_dec_T 0 0) as [_|N]; [reflexivity|now contradiction N].
Qed.

Lemma soft_square_lfo_unit (p : R) : -1 <= soft_square_lfo p <= 1.
Proof.
  unfold soft_square_lfo.
  pose proof atan_25_pos as HA.
  pose proof (SIN_bound (FlickOscillator.TWOPI_F * p)) as [Hlo Hhi].
  set (s := sin (FlickOscillator.TWOPI_F * p)) in *.
  assert (Hup : atan (s / 0.04) <= atan (1 / 0.04)).
  { destruct (Req_dec s 1) as [->|Hne]; [lra|].
    left. apply atan_increasing. lra. }
  assert (Hdn : - atan (1 / 0.04) <= atan (s / 0.04)).
  { rewrite <- atan_opp.
    destruct (Req_dec s (-1)) as [->|Hne].
    - right. f_equal. lra.
    - left. apply atan_increasing. lra. }
  set (A := atan (1 / 0.04)) in *.
  set (x := atan (s / 0.04)) in *.
  assert (E : x / A * A = x) by (field; lra).
  split; apply Rmult_le_reg_r with A; try assumption; rewrite E; lra.
Qed.

Lemma sine_lfo_unit (p : R) : -1 <= sine_lfo p <= 1.
Proof. apply SIN_bound. Qed.

(** For the sine tremolo and every depth, one [ProcessSample] call
    multiplies both inputs by [(1 - depth/2) + lfo * (depth/2)], [lfo] being
    the unit-amplitude sine at the current phase, and [GetLastLFOValue]
    returns that gain. *)
Theorem sine_tremolo_gain (tr : Tremolo.t) (depth in_L in_R : R) :
  FlickOscillator.waveform_ (Tremolo.osc_ tr) = FlickOscillator.WAVE_SIN ->
  let g := tremolo_gain depth (sine_lfo (FlickOscillator.phase_ (Tremolo.osc_ tr))) in
  let r := SineTremolo.ProcessSample (Tremolo.SetDepth tr depth) in_L in_R in
  fst r = (Some (in_L * g), Some (in_R * g)) /\
  Tremolo.GetLastLFOValue (snd r) = Some g /\
  -1 <= sine_lfo (FlickOscillator.phase_ (Tremolo.osc_ tr)) <= 1.
Proof.
  intros Hw. cbv zeta.
  unfold SineTremolo.ProcessSample, Tremolo.modulate, FlickOscillator.Process,
    FlickOscillator.waveform_sample.
  cbn [Tremolo.SetDepth Tremolo.osc_ Tremolo.depth_ Tremolo.speed_
       FlickOscillator.SetAmp FlickOscillator.SetFreq FlickOscillator.waveform_
       FlickOscillator.amp_ FlickOscillator.phase_ FlickOscillator.phase_inc_
       fst snd].
  rewrite Hw.
  cbn [option_map fst snd Tremolo.GetLastLFOValue Tremolo.last_lfo_value_].
  assert (E : 1 - depth * 0.5 +
              sin (FlickOscillator.phase_ (Tremolo.osc_ tr) * FlickOscillator.TWOPI_F)
              * (depth * 0.5) =
              tremolo_gain depth (sine_lfo (FlickOscillator.phase_ (Tremolo.osc_ tr)))).
  { unfold tremolo_gain, sine_lfo. lra. }
  rewrite E. repeat split; try reflexivity; apply sine_lfo_unit.
Qed.

Lemma min_normal_pos : 0 < RealFloat.min_normal.
Proof. apply Rinv_0_lt_compat, pow_lt. lra. Qed.

Lemma min_normal_small : RealFloat.min_normal <= / 2.
Proof.
  unfold RealFloat.min_normal.
  apply Rinv_le_contravar; [lra|].
  change 126%nat with (S 125). cbn [pow].
  assert (1 <= 2 ^ 125) by (apply pow_R1_Rle; lra). lra.
Qed.

(** For the square tremolo and every depth whose half, the oscillator's
    amplitude, is a normal single-precision number (a smaller one underflows,
    to zero in the end, and zero gives the quotient [0/0] of C9), one
    [ProcessSample] call multiplies both inputs by
    [(1 - depth/2) + lfo * (depth/2)], [lfo] being the arctangent-clipped
    sine normalised to unit amplitude, and [GetLastLFOValue] returns that
    gain. *)
Theorem square_tremolo_gain (tr : Tremolo.t) (depth in_L in_R : R) :
  FlickOscillator.waveform_ (Tremolo.osc_ tr) = FlickOscillator.WAVE_SQUARE_ROUNDED ->
  RealFloat.normal (depth * 0.5) ->
  let g := tremolo_gain depth
             (soft_square_lfo (FlickOscillator.phase_ (Tremolo.osc_ tr))) in
  let r := SquareTremolo.ProcessSample (Tremolo.SetDepth tr depth) in_L in_R in
  fst r = (Some (in_L * g), Some (in_R * g)) /\
  Tremolo.GetLastLFOValue (snd r) = Some g /\
  -1 <= soft_square_lfo (FlickOscillator.phase_ (Tremolo.osc_ tr)) <= 1.
Proof.
  intros Hw Hn. cbv zeta.
  assert (Hd : depth <> 0).
  { intros ->. unfold RealFloat.normal in Hn.
    replace (0 * 0.5) with 0 in Hn by ring. rewrite Rabs_R0 in Hn.
    pose proof min_normal_pos. lra. }
  pose proof atan_25_pos as HA.
  unfold SquareTremolo.ProcessSample, Tremolo.modulate, FlickOscillator.Process,
    FlickOscillator.waveform_sample.
  cbn [Tremolo.SetDepth Tremolo.osc_ Tremolo.depth_ Tremolo.speed_
       FlickOscillator.SetAmp FlickOscillator.SetFreq FlickOscillator.waveform_
       FlickOscillator.amp_ FlickOscillator.phase_ FlickOscillator.phase_inc_
       fst snd].
  rewrite Hw.
  rewrite checked_div_nonzero.
  2:{ apply Rmult_integral_contrapositive_currified; lra. }
  cbn [option_map fst snd Tremolo.GetLastLFOValue Tremolo.last_lfo_value_].
  assert (E : 1 - depth * 0.5 +
              depth * 0.5 / (depth * 0.5 * atan (1 / 0.04)) *
              atan (sin (FlickOscillator.TWOPI_F *
                         FlickOscillator.phase_ (Tremolo.osc_ tr)) / 0.04) *
              (depth * 0.5) =
              tremolo_gain depth
                (soft_square_lfo (FlickOscillator.phase_ (Tremolo.osc_ tr)))).
  { unfold tremolo_gain, soft_square_lfo.
    set (A := atan (1 / 0.04)) in *.
    set (x := atan (_ / 0.04)).
    replace 0.5 with (/ 2) by lra.
    field. split; lra. }
  rewrite E. repeat split; try reflexivity; apply soft_square_lfo_unit.
Qed.

(** C9, at depth zero. The square tremolo's oscillator normalises by
    [amp_ / scale] with [scale = amp_ * atan(1/delta)]; [SetDepth(0)] makes
    both zero, so the quotient is not a number and neither are the two
    outputs nor the value [GetLastLFOValue] returns, where the
    specification's formula gives the gain 1. *)
Theorem square_tremolo_zero_depth (tr : Tremolo.t) (in_L in_R : R) :
  FlickOscillator.waveform_ (Tremolo.osc_ tr) = FlickOscillator.WAVE_SQUARE_ROUNDED ->
  let r := SquareTremolo.ProcessSample (Tremolo.SetDepth tr 0) in_L in_R in
  fst r = (None, None) /\
  Tremolo.GetLastLFOValue (snd r) = None /\
  tremolo_gain 0 (soft_square_lfo (FlickOscillator.phase_ (Tremolo.osc_ tr))) = 1.
Proof.
  intros Hw. cbv zeta.
  unfold SquareTremolo.ProcessSample, Tremolo.modulate, FlickOscillator.Process,
    FlickOscillator.waveform_sample.
  cbn [Tremolo.SetDepth Tremolo.osc_ Tremolo.depth_ Tremolo.speed_
       FlickOscillator.SetAmp FlickOscillator.SetFreq FlickOscillator.waveform_
       FlickOscillator.amp_ FlickOscillator.phase_ FlickOscillator.phase_inc_
       fst snd].
  rewrite Hw.
  replace (0 * 0.5 * atan (1 / 0.04)) with 0 by ring.
  rewrite checked_div_zero.
  repeat split. unfold tremolo_gain. lra.
Qed.

End TremoloFacts.

Lemma sine_tremolo_gain_witness :
  fst (SineTremolo.ProcessSample (Tremolo.SetDepth example_sine_tremolo 1) 1 1) =
  (Some (1 * tremolo_gain 1 (sine_lfo 0)), Some (1 * tremolo_gain 1 (sine_lfo 0)))%R.
Proof.
  apply (sine_tremolo_gain example_sine_tremolo 1 1 1 eq_refl).
Defined.

Lemma square_tremolo_gain_witness :
  fst (SquareTremolo.ProcessSample (Tremolo.SetDepth example_square_tremolo 1) 1 1) =
  (Some (1 * tremolo_gain 1 (soft_square_lfo 0)),
   Some (1 * tremolo_gain 1 (soft_square_lfo 0)))%R.
Proof.
  apply (square_tremolo_gain example_square_tremolo 1 1 1 eq_refl).
  unfold RealFloat.normal. replace (1 * 0.5)%R with (/ 2)%R by lra.
  rewrite Rabs_pos_eq by lra. apply min_normal_small.
Defined.

Lemma square_tremolo_zero_depth_witness :
  fst (SquareTremolo.ProcessSample (Tremolo.SetDepth example_square_tremolo 0) 1 1) =
  (None, None).
Proof.
  apply (square_tremolo_zero_depth example_square_tremolo 1 1 eq_refl).
Defined.

(** ** Settings: the version gate *)

Section SettingsFacts.

Import Flick.

Lemma loadSettings_apply_loaded (g : Globals) :
  loaded_from (local_settings g) (loadSettings_apply g) /\
  local_settings (loadSettings_apply g) = local_settings g.
Proof.
  destruct g. unfold loadSettings_apply, loaded_from, updateReverbScales.
  cbn.
  repeat match goal with
         | |- context [if ?c then _ else _] => destruct c
         end; cbn; repeat split; reflexivity.
Qed.

Lemma loadSettings_apply_SavedSettings (g : Globals) :
  SavedSettings (loadSettings_apply g) = SavedSettings g.
Proof.
  destruct g. unfold loadSettings_apply, updateReverbScales.
  cbn.
  repeat match goal with
         | |- context [if ?c then _ else _] => destruct c
         end; reflexivity.
Qed.

Lemma RestoreDefaults_settings (st : PersistentStorage.t) :
  PersistentStorage.settings_ (PersistentStorage.RestoreDefaults st) =
  PersistentStorage.default_settings_ st /\
  PersistentStorage.flash (PersistentStorage.RestoreDefaults st) =
  Some (PersistentStorage.default_settings_ st).
Proof. destruct st. split; reflexivity. Qed.

Lemma SavedSettings_set_SavedSettings (st : PersistentStorage.t) (g : Globals) :
  SavedSettings (set_SavedSettings st g) = st.
Proof. destruct g. reflexivity. Qed.

Lemma loadSettings_match (n : nat) (g : Globals) :
  Settings.version (local_settings g) = SETTINGS_VERSION ->
  loadSettings (S n) g = Some (loadSettings_apply g).
Proof.
  intros H. cbn [loadSettings]. rewrite H. reflexivity.
Qed.

Lemma loadSettings_mismatch (n : nat) (g : Globals) :
  Settings.version (local_settings g) <> SETTINGS_VERSION ->
  loadSettings (S n) g =
  loadSettings n
    (set_SavedSettings (PersistentStorage.RestoreDefaults (SavedSettings g)) g).
Proof.
  intros H. cbn [loadSettings].
  destruct (Z.eqb_spec (Settings.version (local_settings g)) SETTINGS_VERSION);
    [contradiction|reflexivity].
Qed.

Lemma RestoreDefaults_with_stored (other : Settings.t) (g : Globals) :
  set_SavedSettings
    (PersistentStorage.RestoreDefaults (SavedSettings (with_stored other g)))
    (with_stored other g) =
  set_SavedSettings (PersistentStorage.RestoreDefaults (SavedSettings g)) g.
Proof. destruct g. reflexivity. Qed.

(** C3. With the compiled-in record as the storage's defaults (what
    [SavedSettings.Init(defaultSettings)] in [main] establishes): when the
    stored version differs from [SETTINGS_VERSION], [loadSettings] returns,
    the working copy is the compiled-in default record, every loaded
    variable holds the default field, and the outcome is the same whatever
    the mismatched record contained; when the version matches, the record
    is left as stored and every variable holds the stored field. *)
Theorem load_settings_version_gate (g : Globals) (n : nat) :
  PersistentStorage.default_settings_ (SavedSettings g) = compiled_defaults ->
  (Settings.version (local_settings g) <> SETTINGS_VERSION ->
   exists g' : Globals,
     loadSettings (S (S n)) g = Some g' /\
     local_settings g' = compiled_defaults /\
     PersistentStorage.flash (SavedSettings g') = Some compiled_defaults /\
     loaded_from compiled_defaults g' /\
     forall other : Settings.t,
       Settings.version other <> SETTINGS_VERSION ->
       loadSettings (S (S n)) (with_stored other g) = Some g') /\
  (Settings.version (local_settings g) = SETTINGS_VERSION ->
   exists g' : Globals,
     loadSettings (S n) g = Some g' /\
     local_settings g' = local_settings g /\
     loaded_from (local_settings g) g').
Proof.
  intros Hd. split.
  - intros Hv.
    set (g1 := set_SavedSettings
                 (PersistentStorage.RestoreDefaults (SavedSettings g)) g).
    destruct (RestoreDefaults_settings (SavedSettings g)) as [R1 R2].
    assert (H1 : local_settings g1 = compiled_defaults).
    { unfold g1, local_settings, PersistentStorage.GetSettings.
      rewrite SavedSettings_set_SavedSettings. now rewrite R1. }
    assert (Hf : PersistentStorage.flash (SavedSettings g1) = Some compiled_defaults).
    { unfold g1. rewrite SavedSettings_set_SavedSettings. now rewrite R2, Hd. }
    exists (loadSettings_apply g1).
    destruct (loadSettings_apply_loaded g1) as [HL HS].
    rewrite H1 in HL, HS.
    assert (E : loadSettings (S (S n)) g = Some (loadSettings_apply g1)).
    { rewrite loadSettings_mismatch by assumption.
      apply loadSettings_match. now rewrite H1. }
    split; [exact E|]. split; [exact HS|]. split; [|split; [exact HL|]].
    + now rewrite loadSettings_apply_SavedSettings.
    + intros other Ho.
      rewrite loadSettings_mismatch.
      * rewrite RestoreDefaults_with_stored. fold g1.
        apply loadSettings_match. now rewrite H1.
      * unfold with_stored, upd_local_settings, local_settings,
          PersistentStorage.GetSettings.
        rewrite SavedSettings_set_SavedSettings. destruct (SavedSettings g).
        exact Ho.
  - intros Hv. exists (loadSettings_apply g).
    destruct (loadSettings_apply_loaded g) as [HL HS].
    split; [now apply loadSettings_match|]. split; assumption.
Qed.

End SettingsFacts.

Lemma load_settings_version_gate_witness :
  (exists g' : Flick.Globals,
     Flick.loadSettings 2
       (Flick.main_storage (Flick.example_initial (Some Flick.example_stale))) = Some g' /\
     Flick.local_settings g' = Flick.compiled_defaults /\
     Flick.loaded_from Flick.compiled_defaults g') /\
  (exists g' : Flick.Globals,
     Flick.loadSettings 1
       (Flick.main_storage (Flick.example_initial (Some Flick.example_saved))) = Some g' /\
     Flick.local_settings g' = Flick.example_saved /\
     Flick.loaded_from Flick.example_saved g').
Proof.
  split.
  - destruct (load_settings_version_gate
                (Flick.main_storage (Flick.example_initial (Some Flick.example_stale)))
                0 eq_refl) as [H _].
    destruct H as [g' (H1 & H2 & _ & H3 & _)]; [discriminate|].
    exists g'. split; [exact H1|split; [exact H2|exact H3]].
  - destruct (load_settings_version_gate
                (Flick.main_storage (Flick.example_initial (Some Flick.example_saved)))
                0 eq_refl) as [_ H].
    destruct H as [g' (H1 & H2 & H3)]; [reflexivity|].
    exists g'. split; [exact H1|split; [exact H2|exact H3]].
Defined.

(** ** Tap tempo *)

Section TapTempoFacts.

Import Flick.

Lemma registerTap_tap_tempo (hw : Hw) (g : Globals) :
  tap_tempo (registerTap hw g) = tap_step (now hw) (tap_tempo g).
Proof.
  destruct g as [? ? ? ? ? ? ? ? ? ? ? ? ? ? ? ? ? t ? ? ? ? ? ? ? ? ? ? ? ? ? ? ? ? ? ?].
  destruct t as [ts c ds ms lt fc je kb kc].
  unfold registerTap, tap_step.
  cbn [tap_tempo upd_tap_tempo set_tap_tempo TapTempoState.tap_count
       TapTempoState.set_tap_timestamps TapTempoState.set_tap_count
       TapTempoState.tap_timestamps TapTempoState.tapped_delay_samples
       TapTempoState.tapped_tempo_ms TapTempoState.last_tap_time
       TapTempoState.tap_flash_counter TapTempoState.just_exited_tap_tempo
       TapTempoState.knob_baseline TapTempoState.delay_knob_capture].
  destruct (c <? 3)%Z;
  cbn [tap_tempo upd_tap_tempo set_tap_tempo TapTempoState.tap_count
       TapTempoState.set_tap_timestamps TapTempoState.set_tap_count
       TapTempoState.tap_timestamps TapTempoState.tapped_delay_samples
       TapTempoState.tapped_tempo_ms TapTempoState.last_tap_time
       TapTempoState.tap_flash_counter TapTempoState.just_exited_tap_tempo
       TapTempoState.knob_baseline TapTempoState.delay_knob_capture].
  - destruct (c + 1 >=? 2)%Z; reflexivity.
  - destruct (c >=? 2)%Z; reflexivity.
Qed.

Lemma registerTaps_tap_tempo (hw : Hw) (times : list Z) (g : Globals) :
  tap_tempo (registerTaps hw times g) =
  fold_left (fun t now => tap_step now t) times (tap_tempo g).
Proof.
  revert g. induction times as [|t times IH]; intros g; trivial.
  cbn [registerTaps fold_left]. unfold registerTaps in IH. rewrite IH.
  now rewrite registerTap_tap_tempo.
Qed.

Lemma uint32_small (a : Z) : (0 <= a < 2 ^ 32)%Z -> uint32 a = a.
Proof. intros H. unfold uint32. now apply Z.mod_small. Qed.

Lemma uint32_idem (a : Z) : uint32 (uint32 a) = uint32 a.
Proof. unfold uint32. apply Z.mod_mod. discriminate. Qed.

Lemma uint32_sub (a b : Z) : uint32 (uint32 a - uint32 b) = uint32 (a - b).
Proof. unfold uint32. symmetry. apply Zminus_mod. Qed.

Lemma uint32_sub_r (a b : Z) : uint32 (uint32 a - b) = uint32 (a - b).
Proof. unfold uint32. apply Zminus_mod_idemp_l. Qed.

Lemma uint32_range (a : Z) : (0 <= uint32 a < 2 ^ 32)%Z.
Proof. unfold uint32. apply Z.mod_pos_bound. reflexivity. Qed.

Lemma tap_step_first (now : Z) (t : TapTempoState.t) :
  TapTempoState.tap_count t = 0%Z ->
  tap_step now t =
  TapTempoState.mk [now; timestamp t 0; timestamp t 1] 1
    (TapTempoState.tapped_delay_samples t) (TapTempoState.tapped_tempo_ms t)
    now TAP_FLASH_CALLBACKS (TapTempoState.just_exited_tap_tempo t)
    (TapTempoState.knob_baseline t) (TapTempoState.delay_knob_capture t).
Proof.
  destruct t as [ts c ds ms lt fc je kb kc]. cbn [TapTempoState.tap_count].
  intros ->. reflexivity.
Qed.

Lemma tap_step_second (now : Z) (t : TapTempoState.t) :
  TapTempoState.tap_count t = 1%Z ->
  let avg_ms := fdiv (f32 (inject_Z (uint32 (0 + uint32 (now - timestamp t 0)))))
                     (inject_Z 1) in
  tap_step now t =
  TapTempoState.mk [now; timestamp t 0; timestamp t 1] 2
    (stored_samples avg_ms) avg_ms
    now TAP_FLASH_CALLBACKS (TapTempoState.just_exited_tap_tempo t)
    (TapTempoState.knob_baseline t) (TapTempoState.delay_knob_capture t).
Proof.
  destruct t as [ts c ds ms lt fc je kb kc]. cbn [TapTempoState.tap_count].
  intros ->. reflexivity.
Qed.

Lemma tap_step_third (now : Z) (t : TapTempoState.t) :
  TapTempoState.tap_count t = 2%Z \/ TapTempoState.tap_count t = 3%Z ->
  let avg_ms :=
    fdiv (f32 (inject_Z (uint32 (uint32 (0 + uint32 (now - timestamp t 0))
                                 + uint32 (timestamp t 0 - timestamp t 1)))))
         (inject_Z 2) in
  tap_step now t =
  TapTempoState.mk [now; timestamp t 0; timestamp t 1] 3
    (stored_samples avg_ms) avg_ms
    now TAP_FLASH_CALLBACKS (TapTempoState.just_exited_tap_tempo t)
    (TapTempoState.knob_baseline t) (TapTempoState.delay_knob_capture t).
Proof.
  destruct t as [ts c ds ms lt fc je kb kc]. cbn [TapTempoState.tap_count].
  intros [-> | ->]; reflexivity.
Qed.

Lemma tap_step_count_range (now : Z) (t : TapTempoState.t) (k : Z) :
  (k <= TapTempoState.tap_count t <= 3)%Z -> (k < 3)%Z ->
  (k + 1 <= TapTempoState.tap_count (tap_step now t) <= 3)%Z.
Proof.
  destruct t as [ts c ds ms lt fc je kb kc].
  unfold tap_step. cbn [TapTempoState.tap_count].
  intros H Hk. destruct (Z.ltb_spec c 3); lia.
Qed.

Lemma tap_step_timestamp0 (now : Z) (t : TapTempoState.t) :
  timestamp (tap_step now t) 0 = now /\
  timestamp (tap_step now t) 1 = timestamp t 0.
Proof. split; reflexivity. Qed.

Lemma three_taps_state (t0 : Z) (t : TapTempoState.t) :
  (0 <= TapTempoState.tap_count t <= 3)%Z ->
  let t3 := tap_step (uint32 (t0 + 1000)) (tap_step (uint32 (t0 + 500)) (tap_step t0 t)) in
  TapTempoState.tapped_tempo_ms t3 == 500 /\
  TapTempoState.tapped_delay_samples t3 == 24000.
Proof.
  intros Hc. cbv zeta.
  assert (H1 : (0 + 1 <= TapTempoState.tap_count (tap_step t0 t) <= 3)%Z)
    by (apply tap_step_count_range; lia).
  assert (H2 : (1 + 1 <= TapTempoState.tap_count
                           (tap_step (uint32 (t0 + 500)) (tap_step t0 t)) <= 3)%Z)
    by (apply tap_step_count_range; lia).
  rewrite tap_step_third by lia.
  destruct (tap_step_timestamp0 (uint32 (t0 + 500)) (tap_step t0 t)) as [E0 E1].
  rewrite E0, E1.
  destruct (tap_step_timestamp0 t0 t) as [E2 _]. rewrite E2.
  assert (Hd1 : uint32 (uint32 (t0 + 1000) - uint32 (t0 + 500)) = 500%Z).
  { rewrite uint32_sub. replace (t0 + 1000 - (t0 + 500))%Z with 500%Z by lia.
    reflexivity. }
  assert (Hd2 : uint32 (uint32 (t0 + 500) - t0) = 500%Z).
  { rewrite uint32_sub_r. replace (t0 + 500 - t0)%Z with 500%Z by lia.
    reflexivity. }
  rewrite Hd1, Hd2.
  cbn [TapTempoState.tapped_tempo_ms TapTempoState.tapped_delay_samples].
  split; vm_compute; reflexivity.
Qed.

(** The sum of one or two 32-bit intervals. *)
Lemma tapped_average_exact (l : list Z) :
  (length l = 1 \/ length l = 2)%nat -> (0 <= total l < 2 ^ 24)%Z ->
  tapped_average l == average l.
Proof.
  intros Hn HT. unfold tapped_average, average, fdiv, f32.
  assert (Hr : Binary32.round (inject_Z (total l)) == inject_Z (total l))
    by (apply round_int; lia).
  destruct Hn as [-> | ->].
  - change (inject_Z (Z.of_nat 1)) with 1.
    rewrite (round_comp _ (inject_Z (total l))) by (rewrite Hr; field).
    rewrite Hr. field.
  - change (inject_Z (Z.of_nat 2)) with 2.
    rewrite (round_comp _ (inject_Z (total l) / 2)) by (rewrite Hr; reflexivity).
    apply round_half. lia.
Qed.

Lemma tapped_average_mono (n : nat) (l l' : list Z) :
  length l = n -> length l' = n -> (0 < n)%nat -> (total l <= total l')%Z ->
  tapped_average l <= tapped_average l'.
Proof.
  intros Hl Hl' Hn H. unfold tapped_average, fdiv, f32. rewrite Hl, Hl'.
  apply round_mono.
  assert (Hp : 0 < inject_Z (Z.of_nat n)).
  { change 0 with (inject_Z 0). rewrite <- Zlt_Qlt. lia. }
  apply Qmult_le_compat_r.
  - apply round_mono. rewrite <- Zle_Qle. exact H.
  - apply Qlt_le_weak, Qinv_lt_0_compat. exact Hp.
Qed.

Lemma min_delay_value : fmul SAMPLE_RATE DELAY_TIME_MIN_SECONDS = 2400.
Proof. vm_compute. reflexivity. Qed.

(** The clamp, for a conversion that comes out as [x]. *)
Lemma stored_samples_spec (a x : float) :
  fdiv (fmul a SAMPLE_RATE) 1000 == x ->
  clamped (DELAY_TIME_MIN_SECONDS * SAMPLE_RATE) (2 * SAMPLE_RATE) x (stored_samples a).
Proof.
  intros Hx. unfold clamped, stored_samples. cbv zeta.
  rewrite min_delay_value.
  set (s0 := fdiv (fmul a SAMPLE_RATE) 1000) in *.
  assert (Elo' : DELAY_TIME_MIN_SECONDS * SAMPLE_RATE == 2400) by reflexivity.
  assert (Ehi : inject_Z MAX_DELAY == 96000) by reflexivity.
  assert (Ehi' : 2 * SAMPLE_RATE == 96000) by reflexivity.
  destruct (ltb s0 2400) eqn:Hlo.
  - apply ltb_true_iff in Hlo.
    replace (gtb 2400 (inject_Z MAX_DELAY)) with false by reflexivity.
    repeat split; intros; lra.
  - apply ltb_false_iff in Hlo.
    destruct (gtb s0 (inject_Z MAX_DELAY)) eqn:Hhi.
    + apply gtb_true_iff in Hhi. repeat split; intros; lra.
    + apply gtb_false_iff in Hhi. repeat split; intros; lra.
Qed.

(** An average of 2000 ms or more is converted to 96000 samples or more. *)
Lemma conversion_large (a : float) :
  2000 <= a -> 96000 <= fdiv (fmul a SAMPLE_RATE) 1000.
Proof.
  intros H. unfold fdiv, fmul.
  apply round_ge_representable; [vm_compute; reflexivity|].
  assert (H1 : 96000000 <= Binary32.round (a * SAMPLE_RATE)).
  { apply round_ge_representable; [vm_compute; reflexivity|].
    unfold SAMPLE_RATE. lra. }
  apply Qle_shift_div_l; [reflexivity|]. lra.
Qed.

(** The conversion of an average below 2000 ms is exact. *)
Lemma conversion_exact (l : list Z) :
  (length l = 1 \/ length l = 2)%nat ->
  (0 <= total l < 2000 * Z.of_nat (length l))%Z ->
  fdiv (fmul (tapped_average l) SAMPLE_RATE) 1000 == average l * SAMPLE_RATE / 1000.
Proof.
  intros Hn HT.
  assert (Ha : tapped_average l == average l)
    by (apply tapped_average_exact; [assumption|destruct Hn as [E|E]; rewrite E in HT; lia]).
  unfold fdiv, fmul.
  rewrite Ha.
  unfold average, SAMPLE_RATE. set (T := total l) in *.
  destruct Hn as [E | E]; rewrite E in *.
  - change (inject_Z (Z.of_nat 1)) with 1.
    assert (E1 : inject_Z T / 1 * 48000 == inject_Z (T * 375 * 2 ^ 7)).
    { replace (T * 375 * 2 ^ 7)%Z with (T * 48000)%Z by lia.
      rewrite inject_Z_mult. change (inject_Z 48000) with 48000. field. }
    assert (R1 : Binary32.round (inject_Z T / 1 * 48000) == inject_Z (T * 375 * 2 ^ 7)).
    { rewrite (round_comp _ _ E1). apply round_int_pow2; lia. }
    assert (E2 : inject_Z (T * 375 * 2 ^ 7) / 1000 == inject_Z (T * 48)).
    { replace (T * 375 * 2 ^ 7)%Z with (T * 48000)%Z by lia.
      rewrite !inject_Z_mult. change (inject_Z 48000) with 48000.
      change (inject_Z 48) with 48. field. }
    rewrite (round_comp _ (inject_Z (T * 48))) by (rewrite R1; exact E2).
    rewrite round_int by lia. rewrite inject_Z_mult.
    change (inject_Z 48) with 48. field.
  - change (inject_Z (Z.of_nat 2)) with 2.
    assert (E1 : inject_Z T / 2 * 48000 == inject_Z (T * 375 * 2 ^ 6)).
    { replace (T * 375 * 2 ^ 6)%Z with (T * 24000)%Z by lia.
      rewrite inject_Z_mult. change (inject_Z 24000) with 24000. field. }
    assert (R1 : Binary32.round (inject_Z T / 2 * 48000) == inject_Z (T * 375 * 2 ^ 6)).
    { rewrite (round_comp _ _ E1). apply round_int_pow2; lia. }
    assert (E2 : inject_Z (T * 375 * 2 ^ 6) / 1000 == inject_Z (T * 24)).
    { replace (T * 375 * 2 ^ 6)%Z with (T * 24000)%Z by lia.
      rewrite !inject_Z_mult. change (inject_Z 24000) with 24000.
      change (inject_Z 24) with 24. field. }
    rewrite (round_comp _ (inject_Z (T * 24))) by (rewrite R1; exact E2).
    rewrite round_int by lia. rewrite inject_Z_mult.
    change (inject_Z 24) with 24. field.
Qed.

Lemma tapped_samples_clamped (l : list Z) :
  (length l = 1 \/ length l = 2)%nat -> (0 <= total l)%Z ->
  clamped (DELAY_TIME_MIN_SECONDS * SAMPLE_RATE) (2 * SAMPLE_RATE)
    (average l * SAMPLE_RATE / 1000) (stored_samples (tapped_average l)).
Proof.
  intros Hn HT.
  destruct (Z_lt_le_dec (total l) (2000 * Z.of_nat (length l))) as [Hs|Hs].
  - apply stored_samples_spec. apply conversion_exact; [assumption|lia].
  - assert (Ha : 2000 <= tapped_average l).
    { destruct Hn as [E|E]; rewrite E in Hs.
      - apply Qle_trans with (tapped_average [2000%Z]); [vm_compute; discriminate|].
        apply (tapped_average_mono 1); [reflexivity|exact E|lia|].
        change (total [2000%Z]) with 2000%Z. lia.
      - apply Qle_trans with (tapped_average [2000%Z; 2000%Z]); [vm_compute; discriminate|].
        apply (tapped_average_mono 2); [reflexivity|exact E|lia|].
        change (total [2000%Z; 2000%Z]) with 4000%Z. lia. }
    pose proof (conversion_large _ Ha) as Hc.
    assert (Hx : 96000 <= average l * SAMPLE_RATE / 1000).
    { unfold average, SAMPLE_RATE.
      assert (Hq : inject_Z (2000 * Z.of_nat (length l)) <= inject_Z (total l))
        by (rewrite <- Zle_Qle; exact Hs).
      rewrite inject_Z_mult in Hq.
      assert (Hp : 0 < inject_Z (Z.of_nat (length l))).
      { change 0 with (inject_Z 0). rewrite <- Zlt_Qlt. destruct Hn as [E|E]; rewrite E; lia. }
      change (inject_Z 2000) with 2000 in Hq.
      revert Hq Hp. generalize (inject_Z (total l)) (inject_Z (Z.of_nat (length l))).
      intros T n Hq Hp.
      assert (Hd : 2000 <= T / n) by (apply Qle_shift_div_l; [assumption|lra]).
      apply Qle_shift_div_l; [reflexivity|]. lra. }
    unfold clamped, stored_samples. cbv zeta. rewrite min_delay_value.
    set (s0 := fdiv (fmul (tapped_average l) SAMPLE_RATE) 1000) in *.
    assert (Ehi : inject_Z MAX_DELAY == 96000) by reflexivity.
    assert (Ehi' : 2 * SAMPLE_RATE == 96000) by reflexivity.
    assert (Elo' : DELAY_TIME_MIN_SECONDS * SAMPLE_RATE == 2400) by reflexivity.
    replace (ltb s0 2400) with false
      by (symmetry; apply ltb_false_iff; lra).
    destruct (gtb s0 (inject_Z MAX_DELAY)) eqn:Hhi.
    + apply gtb_true_iff in Hhi. repeat split; intros; lra.
    + apply gtb_false_iff in Hhi. repeat split; intros; lra.
Qed.

Lemma tap_step_estimate (now : Z) (t : TapTempoState.t) :
  (0 <= TapTempoState.tap_count t <= 3)%Z ->
  let t' := tap_step now t in
  (2 <= TapTempoState.tap_count t')%Z ->
  let ivs := consecutive_intervals
               (firstn (Z.to_nat (TapTempoState.tap_count t'))
                       (TapTempoState.tap_timestamps t')) in
  (total ivs < 2 ^ 32)%Z ->
  (length ivs = 1 \/ length ivs = 2)%nat /\ (0 <= total ivs)%Z /\
  TapTempoState.tapped_tempo_ms t' = tapped_average ivs /\
  TapTempoState.tapped_delay_samples t' = stored_samples (tapped_average ivs).
Proof.
  intros Hc. cbv zeta.
  assert (Hcases : TapTempoState.tap_count t = 0%Z \/ TapTempoState.tap_count t = 1%Z \/
                   (TapTempoState.tap_count t = 2%Z \/ TapTempoState.tap_count t = 3%Z))
    by lia.
  destruct Hcases as [H0 | [H1 | H23]].
  - rewrite (tap_step_first now t H0). cbn [TapTempoState.tap_count]. lia.
  - rewrite (tap_step_second now t H1).
    cbn [TapTempoState.tap_count TapTempoState.tap_timestamps
         TapTempoState.tapped_tempo_ms TapTempoState.tapped_delay_samples].
    intros _ _.
    change (consecutive_intervals (firstn (Z.to_nat 2) [now; timestamp t 0; timestamp t 1]))
      with [uint32 (now - timestamp t 0)].
    pose proof (uint32_range (now - timestamp t 0)) as R0.
    unfold tapped_average, total. cbn [fold_right length Z.of_nat Pos.of_succ_nat].
    rewrite Z.add_0_l, Z.add_0_r, uint32_idem.
    split; [left; reflexivity|]. split; [lia|]. split; reflexivity.
  - rewrite (tap_step_third now t H23).
    cbn [TapTempoState.tap_count TapTempoState.tap_timestamps
         TapTempoState.tapped_tempo_ms TapTempoState.tapped_delay_samples].
    intros _.
    change (consecutive_intervals (firstn (Z.to_nat 3) [now; timestamp t 0; timestamp t 1]))
      with [uint32 (now - timestamp t 0); uint32 (timestamp t 0 - timestamp t 1)].
    unfold tapped_average, total. cbn [fold_right length Z.of_nat Pos.of_succ_nat Pos.succ].
    rewrite Z.add_0_l, Z.add_0_r, uint32_idem.
    intros Hsum.
    pose proof (uint32_range (now - timestamp t 0)) as R0.
    pose proof (uint32_range (timestamp t 0 - timestamp t 1)) as R1.
    rewrite (uint32_small (uint32 (now - timestamp t 0)
                           + uint32 (timestamp t 0 - timestamp t 1))) by lia.
    split; [right; reflexivity|]. split; [lia|]. split; reflexivity.
Qed.

(** C5. For a tap count within its range 0..3 (the estimator's invariant):
    three taps whose clock values are 500 ms apart leave a tempo of 500 ms
    and a delay length of 24000 samples, which is half the sample rate of
    48000; a first tap (count 0 before) changes neither; and whenever a tap
    leaves at least two retained taps and the intervals between them add up
    to less than [2^32] ms (the accumulator is a [uint32_t]), the stored
    delay length is the average of those intervals converted to samples and
    clamped to [[0.05 s, 2 s]] times the sample rate, exactly, although the
    program computes it in single precision.  The stored tempo is the
    average as single precision computes it ([tapped_average]), which is the
    average itself as long as the sum is below [2^24] ms, where the
    conversion of the sum to [float] is exact. *)
Theorem tap_tempo_estimate (hw : Hw) (g : Globals) :
  (0 <= TapTempoState.tap_count (tap_tempo g) <= 3)%Z ->
  (forall t0 : Z,
     let g3 := registerTaps hw [t0; uint32 (t0 + 500); uint32 (t0 + 1000)] g in
     TapTempoState.tapped_tempo_ms (tap_tempo g3) == 500 /\
     TapTempoState.tapped_delay_samples (tap_tempo g3) == 24000 /\
     SAMPLE_RATE == 48000 /\ 24000 == 0.5 * SAMPLE_RATE) /\
  (TapTempoState.tap_count (tap_tempo g) = 0%Z ->
   TapTempoState.tapped_delay_samples (tap_tempo (registerTap hw g)) =
     TapTempoState.tapped_delay_samples (tap_tempo g) /\
   TapTempoState.tapped_tempo_ms (tap_tempo (registerTap hw g)) =
     TapTempoState.tapped_tempo_ms (tap_tempo g)) /\
  (let g' := registerTap hw g in
   (2 <= TapTempoState.tap_count (tap_tempo g'))%Z ->
   let ivs := consecutive_intervals (retained_taps g') in
   (total ivs < 2 ^ 32)%Z ->
   TapTempoState.tapped_tempo_ms (tap_tempo g') = tapped_average ivs /\
   ((total ivs < 2 ^ 24)%Z ->
    TapTempoState.tapped_tempo_ms (tap_tempo g') == average ivs) /\
   clamped (DELAY_TIME_MIN_SECONDS * SAMPLE_RATE) (2 * SAMPLE_RATE)
     (average ivs * SAMPLE_RATE / 1000)
     (TapTempoState.tapped_delay_samples (tap_tempo g'))).
Proof.
  intros Hc. split; [|split].
  - intros t0. cbv zeta. rewrite registerTaps_tap_tempo. cbn [fold_left].
    destruct (three_taps_state t0 (tap_tempo g) Hc) as [H1 H2].
    repeat split; try assumption; reflexivity.
  - intros H0. rewrite registerTap_tap_tempo, (tap_step_first _ _ H0).
    split; reflexivity.
  - cbv zeta. unfold retained_taps. rewrite registerTap_tap_tempo.
    intros H2 Hsum.
    destruct (tap_step_estimate (now hw) (tap_tempo g) Hc H2 Hsum)
      as (Hn & H0 & E1 & E2).
    split; [exact E1|]. split.
    + intros H24. rewrite E1. apply tapped_average_exact; [assumption|lia].
    + rewrite E2. now apply tapped_samples_clamped.
Qed.

End TapTempoFacts.

(** ** The tap-tempo exit guard *)

Section ExitGuardFacts.

Import Flick.

Ltac split_ifs :=
  repeat match goal with
         | |- context [if ?c then _ else _] => destruct c
         end.

Lemma exitTapTempo_mode_and_guard (hw : Hw) (g : Globals) :
  pedal_mode (exitTapTempo hw g) = PEDAL_MODE_NORMAL /\
  TapTempoState.just_exited_tap_tempo (tap_tempo (exitTapTempo hw g)) =
  TapTempoState.just_exited_tap_tempo (tap_tempo g).
Proof.
  destruct g as [? ? ? ? ? ? ? ? ? ? ? ? ? ? ? ? ? t ? ? ? ? ? ? ? ? ? ? ? ? ? ? ? ? ? ?].
  destruct t as [ts c ds ms lt fc je kb kc].
  unfold exitTapTempo. cbv zeta.
  match goal with
  | |- context [if ?c then _ else _] => destruct c
  end; split; reflexivity.
Qed.

Lemma guard_consumes_double_and_long (hw : Hw) (footswitch : Switches) (g : Globals) :
  TapTempoState.just_exited_tap_tempo (tap_tempo g) = true ->
  handleDoublePress hw footswitch g = guard_cleared g /\
  handleLongPress hw footswitch g = guard_cleared g.
Proof.
  intros H. unfold handleDoublePress, handleLongPress. rewrite H.
  split; reflexivity.
Qed.

Lemma guard_cleared_twice (g : Globals) : guard_cleared (guard_cleared g) = guard_cleared g.
Proof.
  destruct g as [? ? ? ? ? ? ? ? ? ? ? ? ? ? ? ? ? t ? ? ? ? ? ? ? ? ? ? ? ? ? ? ? ? ? ?].
  destruct t. reflexivity.
Qed.

Lemma guard_cleared_mode (g : Globals) : pedal_mode (guard_cleared g) = pedal_mode g.
Proof. destruct g. reflexivity. Qed.

Lemma normal_press_ignores_guard (hw : Hw) (footswitch : Switches) (g : Globals) :
  pedal_mode g <> PEDAL_MODE_TAP_TEMPO ->
  handleNormalPress hw footswitch g = handleNormalPress hw footswitch (guard_cleared g).
Proof.
  destruct g as [pm ? ? ? ? ? ? ? ? ? ? ? ? ? ? ? ? t ? ? ? ? ? ? ? ? ? ? ? ? ? ? ? ? ? ?].
  destruct t as [ts c ds ms lt fc je kb kc].
  cbn [pedal_mode]. intros Hm.
  destruct pm; try (exfalso; apply Hm; reflexivity); reflexivity.
Qed.

Lemma normal_press_clears_guard (hw : Hw) (footswitch : Switches) (g : Globals) :
  pedal_mode g <> PEDAL_MODE_TAP_TEMPO ->
  TapTempoState.just_exited_tap_tempo
    (tap_tempo (handleNormalPress hw footswitch g)) = false.
Proof.
  destruct g as [pm ? ? b ? ? ? ? ? ? ? ? ? ? ? ? ? t ? ? ? ? ? ? ? ? cr ? ? ? ? ? ? ? ? ?].
  destruct t as [ts c ds ms lt fc je kb kc].
  cbn [pedal_mode]. intros Hm.
  destruct pm; try (exfalso; apply Hm; reflexivity).
  - destruct footswitch; try reflexivity;
      destruct b as [[|] ? ?]; try reflexivity;
      destruct cr as [[| |]|]; reflexivity.
  - destruct footswitch; reflexivity.
  - destruct footswitch; try reflexivity;
      unfold handleNormalPress, restoreDeviceSettings, updateReverbScales;
      cbn [PedalMode_eqb pedal_mode upd_tap_tempo set_tap_tempo tap_tempo
           is_FOOTSWITCH_2 local_settings set_mono_stereo_mode mono_stereo_mode];
      split_ifs; reflexivity.
Qed.

Lemma normal_press_toggles_reverb (hw : Hw) (g : Globals) :
  pedal_mode g = PEDAL_MODE_NORMAL ->
  BypassState.reverb (bypass (handleNormalPress hw FOOTSWITCH_1 g)) =
  negb (BypassState.reverb (bypass g)) /\
  pedal_mode (handleNormalPress hw FOOTSWITCH_1 g) = PEDAL_MODE_NORMAL.
Proof.
  destruct g as [pm ? ? b ? ? ? ? ? ? ? ? ? ? ? ? ? t ? ? ? ? ? ? ? ? cr ? ? ? ? ? ? ? ? ?].
  cbn [pedal_mode]. intros ->.
  destruct b as [[|] ? ?]; destruct cr as [[| |]|]; split; reflexivity.
Qed.

Lemma normal_press_exits_tap_tempo (hw : Hw) (g : Globals) :
  pedal_mode g = PEDAL_MODE_TAP_TEMPO ->
  pedal_mode (handleNormalPress hw FOOTSWITCH_1 g) = PEDAL_MODE_NORMAL /\
  TapTempoState.just_exited_tap_tempo
    (tap_tempo (handleNormalPress hw FOOTSWITCH_1 g)) = true.
Proof.
  intros Hm. unfold handleNormalPress. rewrite Hm. cbn [PedalMode_eqb is_FOOTSWITCH_1].
  destruct (exitTapTempo_mode_and_guard hw g) as [E _].
  destruct (exitTapTempo hw g) as [pm ? ? ? ? ? ? ? ? ? ? ? ? ? ? ? ? t ? ? ? ? ? ? ? ? ? ? ? ? ? ? ? ? ? ?].
  destruct t. cbn in *. split; [exact E|reflexivity].
Qed.

Lemma auto_exit_leaves_guard (hw : Hw) (g : Globals) :
  pedal_mode g = PEDAL_MODE_TAP_TEMPO ->
  (uint32 (now hw - TapTempoState.last_tap_time (tap_tempo g)) > TAP_TEMPO_TIMEOUT_MS)%Z ->
  pedal_mode (AudioCallback_delay hw g) = PEDAL_MODE_NORMAL /\
  TapTempoState.just_exited_tap_tempo (tap_tempo (AudioCallback_delay hw g)) =
  TapTempoState.just_exited_tap_tempo (tap_tempo g).
Proof.
  intros Hm Ht.
  destruct g as [pm ? ? ? ? ? ? ? ? ? ? ? ? ? ? ? ? t ? ? ? ? ? ? ? ? ? ? ? ? ? ? ? ? ? ?].
  destruct t as [ts c ds ms lt fc je kb kc].
  cbn [pedal_mode tap_tempo TapTempoState.last_tap_time] in Hm, Ht. subst pm.
  unfold AudioCallback_delay.
  cbn [pedal_mode PedalMode_eqb tap_tempo upd_tap_tempo set_tap_tempo
       TapTempoState.last_tap_time TapTempoState.set_delay_knob_capture].
  apply Z.gt_lt in Ht. apply Z.gtb_lt in Ht. rewrite Ht.
  unfold exitTapTempo. cbv zeta.
  split_ifs; split; reflexivity.
Qed.

(** C2, as the program has it. Leaving TapTempo through the normal press of
    footswitch A sets the guard; the next double-press or long-press event,
    of either footswitch, is consumed: it changes nothing but the guard,
    which it clears.  A normal-press event is not suppressed: it clears the
    guard and is handled exactly as without it (in Normal mode, on
    footswitch A, it toggles the reverb bypass).  The automatic exit after
    the time-out leaves the guard as it was. *)
Theorem tap_tempo_exit_guard (hw : Hw) (g : Globals) :
  (pedal_mode g = PEDAL_MODE_TAP_TEMPO ->
   pedal_mode (handleNormalPress hw FOOTSWITCH_1 g) = PEDAL_MODE_NORMAL /\
   TapTempoState.just_exited_tap_tempo
     (tap_tempo (handleNormalPress hw FOOTSWITCH_1 g)) = true) /\
  (TapTempoState.just_exited_tap_tempo (tap_tempo g) = true ->
   forall footswitch : Switches,
     handleDoublePress hw footswitch g = guard_cleared g /\
     handleLongPress hw footswitch g = guard_cleared g) /\
  (pedal_mode g <> PEDAL_MODE_TAP_TEMPO ->
   forall footswitch : Switches,
     handleNormalPress hw footswitch g =
       handleNormalPress hw footswitch (guard_cleared g) /\
     TapTempoState.just_exited_tap_tempo
       (tap_tempo (handleNormalPress hw footswitch g)) = false) /\
  (pedal_mode g = PEDAL_MODE_NORMAL ->
   BypassState.reverb (bypass (handleNormalPress hw FOOTSWITCH_1 g)) =
     negb (BypassState.reverb (bypass g))) /\
  (pedal_mode g = PEDAL_MODE_TAP_TEMPO ->
   (uint32 (now hw - TapTempoState.last_tap_time (tap_tempo g))
    > TAP_TEMPO_TIMEOUT_MS)%Z ->
   pedal_mode (AudioCallback_delay hw g) = PEDAL_MODE_NORMAL /\
   TapTempoState.just_exited_tap_tempo (tap_tempo (AudioCallback_delay hw g)) =
     TapTempoState.just_exited_tap_tempo (tap_tempo g)).
Proof.
  split; [|split; [|split; [|split]]].
  - apply normal_press_exits_tap_tempo.
  - intros H footswitch. now apply guard_consumes_double_and_long.
  - intros H footswitch. split.
    + now apply normal_press_ignores_guard.
    + now apply normal_press_clears_guard.
  - intros H. now apply normal_press_toggles_reverb.
  - apply auto_exit_leaves_guard.
Qed.

End ExitGuardFacts.

(** The claim of C2 fails twice on the example pedal.  Tap tempo is entered
    by the double-press gesture and left by the normal press of footswitch
    A, which sets the guard; the next event on footswitch A, a normal
    press, toggles the reverb bypass.  And when tap tempo is left by the
    time-out the guard is not set: the next normal press toggles the bypass
    and the double press that follows enters tap tempo again. *)
Lemma exit_guard_counterexample :
  let hw := Flick.example_hw in
  let g0 := Flick.handleDoublePress hw Flick.FOOTSWITCH_1
              (Flick.handleNormalPress hw Flick.FOOTSWITCH_1 (Flick.power_on None)) in
  let g1 := Flick.handleNormalPress hw Flick.FOOTSWITCH_1 g0 in
  let g2 := Flick.handleNormalPress hw Flick.FOOTSWITCH_1 g1 in
  let late := Flick.set_now 6000 hw in
  let a1 := Flick.AudioCallback_delay late g0 in
  let a2 := Flick.handleNormalPress late Flick.FOOTSWITCH_1 a1 in
  let a3 := Flick.handleDoublePress late Flick.FOOTSWITCH_1 a2 in
  (Flick.pedal_mode g0 = Flick.PEDAL_MODE_TAP_TEMPO /\
   Flick.pedal_mode g1 = Flick.PEDAL_MODE_NORMAL /\
   TapTempoState.just_exited_tap_tempo (Flick.tap_tempo g1) = true /\
   BypassState.reverb (Flick.bypass g1) = true /\
   BypassState.reverb (Flick.bypass g2) = false /\
   g2 <> Flick.guard_cleared g1) /\
  (Flick.pedal_mode a1 = Flick.PEDAL_MODE_NORMAL /\
   TapTempoState.just_exited_tap_tempo (Flick.tap_tempo a1) = false /\
   BypassState.reverb (Flick.bypass a1) = true /\
   BypassState.reverb (Flick.bypass a2) = false /\
   Flick.pedal_mode a3 = Flick.PEDAL_MODE_TAP_TEMPO).
Proof.
  cbv zeta. split.
  - repeat split; try (vm_compute; reflexivity).
    intros E. apply (f_equal (fun g => BypassState.reverb (Flick.bypass g))) in E.
    vm_compute in E. discriminate E.
  - repeat split; vm_compute; reflexivity.
Qed.

Lemma tap_tempo_estimate_witness :
  TapTempoState.tapped_tempo_ms
    (Flick.tap_tempo
       (Flick.registerTaps Flick.example_hw [1000; 1500; 2000]%Z (Flick.power_on None)))
    == 500 /\
  TapTempoState.tapped_delay_samples
    (Flick.tap_tempo
       (Flick.registerTaps Flick.example_hw [1000; 1500; 2000]%Z (Flick.power_on None)))
    == 24000.
Proof.
  destruct (tap_tempo_estimate Flick.example_hw (Flick.power_on None)) as [H _].
  - vm_compute. split; discriminate.
  - destruct (H 1000%Z) as (H1 & H2 & _). split; [exact H1|exact H2].
Defined.


(** ** Double press: bypass restored, tail gone *)

Section DoublePressFacts.

Import Flick.

Lemma DelayLine_Reset_silent (d : DelayLine.t) : DelayLine.silent (DelayLine.Reset d).
Proof. reflexivity. Qed.

Lemma HallReverb_Clear_silent (h : HallReverb.t) : HallReverb.silent (HallReverb.Clear h).
Proof.
  unfold HallReverb.silent, HallReverb.Clear.
  cbn [HallReverb.fdn_delay HallReverb.input_ap_ HallReverb.pre_delay_line_].
  repeat split.
  - apply Forall_map, Forall_forall. intros d _. apply DelayLine_Reset_silent.
  - apply Forall_map, Forall_forall. intros ap _. apply DelayLine_Reset_silent.
Qed.

Lemma SpringReverb_Clear_silent (s : SpringReverb.t) :
  SpringReverb.silent (SpringReverb.Clear s).
Proof.
  unfold SpringReverb.silent, SpringReverb.Clear.
  cbn [SpringReverb.main_delay_ SpringReverb.tap_delay_1_ SpringReverb.tap_delay_2_
       SpringReverb.pre_delay_ SpringReverb.allpass_filters_].
  repeat split.
  apply Forall_map, Forall_forall. intros ap _. apply DelayLine_Reset_silent.
Qed.

Lemma PlateReverb_Clear_silent (p : PlateReverb.t) :
  PlateReverb.silent (PlateReverb.Clear p).
Proof.
  destruct p as [[? ? ? ? ? ? ? ? m] ?].
  unfold PlateReverb.silent, PlateReverb.Clear, Dattorro.silent, Dattorro.clear.
  cbn. now rewrite repeat_length.
Qed.

Lemma current_reverb_Clear_silent (o : ReverbObject) (g : Globals) :
  current_reverb g = Some o -> reverb_silent o (current_reverb_Clear g).
Proof.
  intros H. unfold current_reverb_Clear. rewrite H.
  destruct g; destruct o; cbn [reverb_silent plate_reverb hall_reverb spring_reverb
    set_plate_reverb set_hall_reverb set_spring_reverb].
  - apply PlateReverb_Clear_silent.
  - apply HallReverb_Clear_silent.
  - apply SpringReverb_Clear_silent.
Qed.

Ltac split_ifs :=
  repeat match goal with
         | |- context [if ?c then _ else _] => destruct c
         end.

Lemma enterTapTempo_frame (hw : Hw) (g : Globals) :
  pedal_mode (enterTapTempo hw g) = PEDAL_MODE_TAP_TEMPO /\
  BypassState.reverb (bypass (enterTapTempo hw g)) = BypassState.reverb (bypass g) /\
  reverb_objects (enterTapTempo hw g) = reverb_objects g.
Proof.
  destruct g as [pm ? ? b ? ? ? ? ? ? ? ? ? ? ? ? ? t ? ? ? ? ? ? ? ? cr ? ? ? ? ? ? ? ? ?].
  destruct t as [ts c ds ms lt fc je kb kc]. destruct b as [rv tr dl].
  destruct dl; repeat split; reflexivity.
Qed.

Lemma normal_press_reverb_objects (hw : Hw) (g : Globals) :
  pedal_mode g = PEDAL_MODE_NORMAL ->
  reverb_objects (handleNormalPress hw FOOTSWITCH_1 g) =
  if BypassState.reverb (bypass g) then reverb_objects g
  else reverb_objects (current_reverb_Clear g).
Proof.
  destruct g as [pm ? ? b ? ? ? ? ? ? ? ? ? ? ? ? ? t ? ? ? ? ? ? ? ? cr ? ? ? ? ? ? ? ? ?].
  destruct b as [rv tr dl].
  cbn [pedal_mode]. intros ->.
  destruct rv; destruct cr as [[| |]|]; reflexivity.
Qed.

Lemma current_reverb_Clear_frame (g : Globals) :
  current_reverb (current_reverb_Clear g) = current_reverb g.
Proof. destruct g as [pm ? ? b ? ? ? ? ? ? ? ? ? ? ? ? ? t ? ? ? ? ? ? ? ? cr ? ? ? ? ? ? ? ? ?].
  destruct cr as [[| |]|]; reflexivity.
Qed.

Lemma reverb_silent_objects (o : ReverbObject) (g g' : Globals) :
  reverb_objects g' = reverb_objects g -> reverb_silent o g -> reverb_silent o g'.
Proof.
  unfold reverb_objects. intros E. injection E as E1 E2 E3.
  destruct o; unfold reverb_silent; congruence.
Qed.

(** C10. In Normal mode, let the normal press of
    footswitch A be processed and then the double press of the same gesture.
    The double-press handler invokes the normal-press handler again, which
    puts the reverb bypass flag back to its value before the gesture, and
    then enters tap tempo.  If the reverb was active before the gesture, its
    objects are left as the [Clear()] of the first press made them: the
    memory of the reverb that [current_reverb] designates is silent. *)
Theorem double_press_restores_bypass_not_tail (hw : Hw) (g : Globals) :
  pedal_mode g = PEDAL_MODE_NORMAL ->
  let g1 := handleNormalPress hw FOOTSWITCH_1 g in
  let g2 := handleDoublePress hw FOOTSWITCH_1 g1 in
  BypassState.reverb (bypass g1) = negb (BypassState.reverb (bypass g)) /\
  g2 = enterTapTempo hw (handleNormalPress hw FOOTSWITCH_1 g1) /\
  BypassState.reverb (bypass (handleNormalPress hw FOOTSWITCH_1 g1)) =
    BypassState.reverb (bypass g) /\
  pedal_mode g2 = PEDAL_MODE_TAP_TEMPO /\
  BypassState.reverb (bypass g2) = BypassState.reverb (bypass g) /\
  (BypassState.reverb (bypass g) = false ->
   reverb_objects g2 = reverb_objects (current_reverb_Clear g) /\
   forall o : ReverbObject, current_reverb g = Some o -> reverb_silent o g2).
Proof.
  intros Hm. cbv zeta.
  set (g1 := handleNormalPress hw FOOTSWITCH_1 g).
  assert (Hn : pedal_mode g <> PEDAL_MODE_TAP_TEMPO) by (rewrite Hm; discriminate).
  pose proof (normal_press_clears_guard hw FOOTSWITCH_1 g Hn) as Hflag. fold g1 in Hflag.
  destruct (normal_press_toggles_reverb hw g Hm) as [Hb1 Hm1]. fold g1 in Hb1, Hm1.
  destruct (normal_press_toggles_reverb hw g1 Hm1) as [Hb2 Hm2].
  assert (E2 : handleDoublePress hw FOOTSWITCH_1 g1 =
               enterTapTempo hw (handleNormalPress hw FOOTSWITCH_1 g1)).
  { unfold handleDoublePress. rewrite Hflag, Hm1. reflexivity. }
  destruct (enterTapTempo_frame hw (handleNormalPress hw FOOTSWITCH_1 g1))
    as (Fm & Fb & Fo).
  rewrite E2.
  split; [exact Hb1|]. split; [reflexivity|].
  split; [now rewrite Hb2, Hb1, negb_involutive|].
  split; [exact Fm|].
  split; [now rewrite Fb, Hb2, Hb1, negb_involutive|].
  intros Hact.
  assert (Eo : reverb_objects (enterTapTempo hw (handleNormalPress hw FOOTSWITCH_1 g1)) =
               reverb_objects (current_reverb_Clear g)).
  { rewrite Fo, (normal_press_reverb_objects hw g1 Hm1), Hb1, Hact.
    cbn [negb]. unfold g1.
    now rewrite (normal_press_reverb_objects hw g Hm), Hact. }
  split; [exact Eo|].
  intros o Ho. apply (reverb_silent_objects o _ _ Eo).
  now apply current_reverb_Clear_silent.
Qed.

End DoublePressFacts.

Lemma double_press_restores_bypass_not_tail_witness :
  let hw := Flick.example_hw in
  let g := Flick.power_on (Some Flick.example_saved) in
  let g2 := Flick.handleDoublePress hw Flick.FOOTSWITCH_1
              (Flick.handleNormalPress hw Flick.FOOTSWITCH_1 g) in
  BypassState.reverb (Flick.bypass g) = false /\
  ~ Flick.reverb_silent Flick.plate_reverb_object g /\
  Flick.pedal_mode g2 = Flick.PEDAL_MODE_TAP_TEMPO /\
  BypassState.reverb (Flick.bypass g2) = false /\
  Flick.reverb_silent Flick.plate_reverb_object g2.
Proof.
  cbv zeta.
  destruct (double_press_restores_bypass_not_tail Flick.example_hw
              (Flick.power_on (Some Flick.example_saved)) eq_refl)
    as (_ & _ & _ & Hm & Hb & Ht).
  split; [reflexivity|]. split; [intros H; vm_compute in H; discriminate H|].
  split; [exact Hm|]. split; [exact Hb|].
  destruct (Ht eq_refl) as [_ Hs]. apply Hs. reflexivity.
Defined.

(** ** Input and output routing *)

Section RoutingFacts.

Import Flick.

Variables (fx : Effects) (clearPopCancelValue : float).

Ltac split_ifs :=
  repeat match goal with
         | |- context [if ?c then _ else _] => destruct c
         end.

Lemma apply_notch_filters_modes (g : Globals) (s : float * float) :
  same_modes g (snd (apply_notch_filters g s)).
Proof. destruct g. split; reflexivity. Qed.

Lemma apply_tremolo_modes (g : Globals) (s : float * float) :
  same_modes g (snd (apply_tremolo fx g s)).
Proof.
  unfold apply_tremolo.
  destruct (negb (BypassState.tremolo (bypass g))); [|split; reflexivity].
  destruct (tremolo_ProcessSample fx (fst s) (snd s)).
  destruct g. split; reflexivity.
Qed.

Lemma select_reverb_modes (g : Globals) : same_modes g (select_reverb g).
Proof.
  unfold select_reverb. split_ifs; destruct g; split; reflexivity.
Qed.

Lemma set_inputs_modes (a b : float) (g : Globals) :
  same_modes g (set_right_input b (set_left_input a g)).
Proof. destruct g. split; reflexivity. Qed.

Lemma set_outputs_modes (a b : float) (g : Globals) :
  same_modes g (set_right_output b (set_left_output a g)).
Proof. destruct g. split; reflexivity. Qed.

Lemma apply_reverb_modes (g : Globals) (s : float * float) :
  same_modes g (snd (apply_reverb fx clearPopCancelValue g s)).
Proof.
  unfold apply_reverb. cbv zeta.
  match goal with
  | |- context [select_reverb ?x] =>
      destruct (select_reverb_modes x) as [Ha Hb];
      match x with
      | set_right_input ?b (set_left_input ?a g) =>
          destruct (set_inputs_modes a b g) as [H1a H1b]
      end;
      set (g2 := select_reverb x) in *
  end.
  destruct (reverb_ProcessSample fx _ _ _) as [rl rr].
  destruct (ReverbOrchestrator.current_type (reverb g2) =? REVERB_HALL)%Z;
    destruct (negb (BypassState.reverb (bypass g2)));
    cbn [snd]; try (split; congruence);
    match goal with
    | |- same_modes _ (set_right_output ?b (set_left_output ?a g2)) =>
        destruct (set_outputs_modes a b g2) as [Hc Hd]; split; congruence
    end.
Qed.

Lemma chain_modes (g : Globals) (in0 in1 : float) :
  same_modes g (snd (AudioCallback_chain fx clearPopCancelValue g in0 in1)).
Proof.
  unfold AudioCallback_chain.
  pose proof (apply_notch_filters_modes g (route_input g in0 in1)) as [A1 A2].
  destruct (apply_notch_filters g (route_input g in0 in1)) as [s1 g1].
  cbn [snd] in A1, A2.
  pose proof (apply_tremolo_modes g1 (apply_delay fx g1 s1)) as [B1 B2].
  destruct (apply_tremolo fx g1 (apply_delay fx g1 s1)) as [s2 g2].
  cbn [snd] in B1, B2.
  pose proof (apply_reverb_modes g2 s2) as [C1 C2].
  split; congruence.
Qed.

Lemma route_input_mono_in (g : Globals) (in0 in1 : float) :
  mono_stereo_mode g = MS_MODE_MIMO \/ mono_stereo_mode g = MS_MODE_MISO ->
  route_input g in0 in1 = (in0, in0).
Proof. intros [H | H]; unfold route_input; rewrite H; reflexivity. Qed.

Lemma route_input_stereo_in (g : Globals) (in0 in1 : float) :
  mono_stereo_mode g = MS_MODE_SISO -> route_input g in0 in1 = (in0, in1).
Proof. intros H; unfold route_input; rewrite H; reflexivity. Qed.

(** C4, as the program has it.  In the mono-in modes (MIMO and MISO) the
    loop body uses input channel 1 for both internal channels, so that its
    outputs and the globals it leaves do not depend on input channel 2.  In
    the mono-out mode (MIMO) output channel 1 is the mean of the two
    internal channels times the left polarity and output channel 2 is
    silent; in the stereo-out modes each output channel is its own internal
    channel times its polarity. *)
Theorem audio_routing (g : Globals) (in0 in1 : float) :
  let r := AudioCallback_sample fx clearPopCancelValue g in0 in1 in
  let s := fst (AudioCallback_chain fx clearPopCancelValue g in0 in1) in
  let polarity_L := if (polarity_mode g =? POLARITY_INVERT_LEFT)%Z then -1 else 1 in
  let polarity_R := if (polarity_mode g =? POLARITY_INVERT_RIGHT)%Z then -1 else 1 in
  (mono_stereo_mode g = MS_MODE_MIMO \/ mono_stereo_mode g = MS_MODE_MISO ->
   route_input g in0 in1 = (in0, in0) /\
   forall in1' : float,
     AudioCallback_sample fx clearPopCancelValue g in0 in1' = r) /\
  (mono_stereo_mode g = MS_MODE_MIMO ->
   fst r = ((fst s * 0.5 + snd s * 0.5) * polarity_L, 0)) /\
  (mono_stereo_mode g = MS_MODE_MISO \/ mono_stereo_mode g = MS_MODE_SISO ->
   fst r = (fst s * polarity_L, snd s * polarity_R)) /\
  (mono_stereo_mode g = MS_MODE_SISO -> route_input g in0 in1 = (in0, in1)).
Proof.
  cbv zeta. unfold AudioCallback_sample.
  destruct (chain_modes g in0 in1) as [Hm Hp].
  split; [|split; [|split]].
  - intros H. split; [now apply route_input_mono_in|].
    intros in1'. unfold AudioCallback_chain.
    now rewrite !(route_input_mono_in g _ _ H).
  - intros H.
    destruct (AudioCallback_chain fx clearPopCancelValue g in0 in1) as [s g'].
    cbn [fst snd] in *. unfold route_output. now rewrite Hm, Hp, H.
  - intros H.
    destruct (AudioCallback_chain fx clearPopCancelValue g in0 in1) as [s g'].
    cbn [fst snd] in *. unfold route_output. rewrite Hm, Hp.
    destruct H as [-> | ->]; reflexivity.
  - apply route_input_stereo_in.
Qed.

End RoutingFacts.

(** The claim of C4 fails in the mono-out mode: on the example pedal as it
    powers on (MIMO, every effect bypassed) the samples 0.5 and 0.25 give a
    non-zero output channel 1 while output channel 2 is silent. *)
Lemma mono_out_counterexample :
  let g := Flick.power_on None in
  let out := fst (Flick.AudioCallback_sample Flick.silent_effects 1 g 0.5 0.25) in
  Flick.mono_stereo_mode g = Flick.MS_MODE_MIMO /\
  snd out = 0 /\
  ~ fst out == snd out.
Proof.
  cbv zeta. repeat split; try (vm_compute; reflexivity).
  vm_compute. discriminate.
Qed.

(* ------------------------------------------------------------------ *)
(** * Further properties of the effect classes and the controller *)
(* ------------------------------------------------------------------ *)

(** ** Soft takeover of the toggle switches *)

Section SwitchCaptureFacts.

Import SwitchCapture.

Lemma SwitchProcessAll_disarmed (sc : SwitchCapture.t) (ps : list Z) :
  is_frozen_ sc = false -> ProcessAll sc ps = (ps, sc).
Proof.
  intros H. induction ps as [|p ps IH]; simpl; trivial.
  unfold Process. rewrite H. cbn [negb]. now rewrite IH.
Qed.

Lemma SwitchProcessAll_still (sc : SwitchCapture.t) (position frozen : Z) (n : nat) :
  ProcessAll (Capture sc position frozen) (repeat position n) =
  (repeat frozen n, Capture sc position frozen).
Proof.
  induction n as [|n IH]; simpl; trivial.
  unfold Process at 1, Capture at 1 2 3.
  cbn [is_frozen_ captured_switch_value_ frozen_value_ negb].
  rewrite Z.eqb_refl. cbn [negb].
  fold (Capture sc position frozen). now rewrite IH.
Qed.

Lemma SwitchProcessAll_app (sc : SwitchCapture.t) (xs ys : list Z) :
  ProcessAll sc (xs ++ ys) =
  (fst (ProcessAll sc xs) ++ fst (ProcessAll (snd (ProcessAll sc xs)) ys),
   snd (ProcessAll (snd (ProcessAll sc xs)) ys)).
Proof.
  revert sc. induction xs as [|x xs IH]; intros sc; simpl.
  - now destruct (ProcessAll sc ys).
  - destruct (Process sc x) as [v sc1]. rewrite IH.
    destruct (ProcessAll sc1 xs) as [vs sc2]. simpl.
    now destruct (ProcessAll sc2 ys).
Qed.

Lemma SwitchProcess_moved (sc : SwitchCapture.t) (position frozen p : Z) :
  p <> position ->
  Process (Capture sc position frozen) p = (p, Reset (Capture sc position frozen)).
Proof.
  intros Hp. apply Z.eqb_neq in Hp. unfold Process, Capture, Reset.
  cbn [is_frozen_ captured_switch_value_ frozen_value_ negb].
  now rewrite Hp.
Qed.

(** After [SwitchCapture::Capture(frozen)] every [Process()] call returns
    the frozen value while the toggle switch is read at the position it had
    at capture time; the first call that reads any other position returns
    that position and disarms the capture, so that all later calls return the
    position read, also when the switch is back where it was. *)
Theorem switch_capture_soft_takeover
  (sc : SwitchCapture.t) (position frozen : Z) (n : nat) :
  let armed := Capture sc position frozen in
  ProcessAll armed (repeat position n) = (repeat frozen n, armed) /\
  forall (p : Z) (later : list Z),
    p <> position ->
    ProcessAll armed (repeat position n ++ p :: later) =
      (repeat frozen n ++ p :: later, Reset armed) /\
    is_frozen_ (Reset armed) = false.
Proof.
  cbv zeta. split; [apply SwitchProcessAll_still|].
  intros p later Hp. split; [|reflexivity].
  rewrite SwitchProcessAll_app, SwitchProcessAll_still. cbn [fst snd ProcessAll].
  rewrite SwitchProcess_moved by assumption.
  rewrite SwitchProcessAll_disarmed by reflexivity.
  reflexivity.
Qed.

End SwitchCaptureFacts.

Lemma switch_capture_soft_takeover_witness :
  SwitchCapture.ProcessAll (SwitchCapture.Capture SwitchCapture.make 1 2)
    (repeat 1%Z 3 ++ 0%Z :: [1; 1; 2]%Z) =
  (repeat 2%Z 3 ++ 0%Z :: [1; 1; 2]%Z,
   SwitchCapture.Reset (SwitchCapture.Capture SwitchCapture.make 1 2)).
Proof.
  apply (switch_capture_soft_takeover SwitchCapture.make 1 2 3).
  discriminate.
Defined.

(** ** Hall reverb: modulation, clamps and the mixing matrix *)

Section HallReverbFacts.

Import HallReverb.

Lemma SetTankModDepth_cases (hr : HallReverb.t) (depth : float) :
  (depth < 0 /\ mod_depth_ (SetTankModDepth hr depth) = 0 * 0.2) \/
  (20 < depth /\ mod_depth_ (SetTankModDepth hr depth) = 20 * 0.2) \/
  (0 <= depth <= 20 /\ mod_depth_ (SetTankModDepth hr depth) = depth * 0.2).
Proof.
  unfold SetTankModDepth. cbn [mod_depth_].
  destruct (ltb depth 0) eqn:Hlo.
  - left. apply ltb_true_iff in Hlo. split; [assumption|].
    destruct (gtb 0 20) eqn:E; [|reflexivity]. discriminate E.
  - apply ltb_false_iff in Hlo. right.
    destruct (gtb depth 20) eqn:Hhi.
    + left. split; [now apply gtb_true_iff|reflexivity].
    + right. apply gtb_false_iff in Hhi. repeat split; assumption.
Qed.

Lemma SetTankModDepth_range_aux (hr : HallReverb.t) (depth : float) :
  0 <= mod_depth_ (SetTankModDepth hr depth) <= 4.
Proof.
  destruct (SetTankModDepth_cases hr depth) as [[H E]|[[H E]|[H E]]]; rewrite E.
  - split; discriminate.
  - split; discriminate.
  - destruct H as [H0 H1]. split; lra.
Qed.

(** Whatever value is passed to [HallReverb::SetTankModDepth], the stored
    modulation depth lies between 0 and 4 samples; an argument within
    [0, 20] is stored as one fifth of itself. *)
Theorem hall_mod_depth_range (hr : HallReverb.t) (depth : float) :
  let m := mod_depth_ (SetTankModDepth hr depth) in
  0 <= m <= 4 /\ (0 <= depth <= 20 -> m = depth * 0.2).
Proof.
  cbv zeta.
  destruct (SetTankModDepth_cases hr depth) as [[H E]|[[H E]|[H E]]]; rewrite E.
  - split; [split; discriminate|]. intros [H0 _]. exfalso. apply (Qlt_not_le _ _ H H0).
  - split; [split; discriminate|]. intros [_ H0]. exfalso. apply (Qlt_not_le _ _ H H0).
  - split; [|reflexivity]. destruct H as [H0 H1]. split; lra.
Qed.

(** For a sample rate that is not zero, the normalised frequency that
    [SetInputHighCut] and [SetTankHighCut] hand to the one-pole filters lies
    in [0.001, 0.497] whatever cutoff is asked for, and is [freq /
    sample_rate_] when that quotient is in the interval. *)
Theorem hall_high_cut_range (hr : HallReverb.t) (freq : float) :
  ~ sample_rate_ hr == 0 ->
  let nf := high_cut_frequency hr freq in
  0.001 <= nf <= 0.497 /\
  (0.001 <= freq / sample_rate_ hr <= 0.497 -> nf = freq / sample_rate_ hr).
Proof.
  intros _. cbv zeta. unfold high_cut_frequency.
  destruct (gtb (freq / sample_rate_ hr) 0.497) eqn:Hhi.
  - apply gtb_true_iff in Hhi.
    destruct (ltb 0.497 0.001) eqn:E; [discriminate E|].
    split; [split; discriminate|].
    intros [_ H]. exfalso. apply (Qlt_not_le _ _ Hhi H).
  - apply gtb_false_iff in Hhi.
    destruct (ltb (freq / sample_rate_ hr) 0.001) eqn:Hlo.
    + apply ltb_true_iff in Hlo. split; [split; discriminate|].
      intros [H _]. exfalso. apply (Qlt_not_le _ _ Hlo H).
    + apply ltb_false_iff in Hlo. split; [split; assumption|reflexivity].
Qed.

Lemma SetTankModSpeed_inc (hr : HallReverb.t) (speed : float) :
  10 <= sample_rate_ hr ->
  0 <= lfo_phase_inc_ (SetTankModSpeed hr speed) <= 6.28318530.
Proof.
  intros Hsr. unfold SetTankModSpeed. cbn [lfo_phase_inc_].
  set (s1 := if ltb speed 0.01 then 0.01 else speed).
  set (s2 := if gtb s1 10 then 10 else s1).
  assert (H1 : 0.01 <= s1).
  { unfold s1. destruct (ltb speed 0.01) eqn:E; [discriminate|].
    now apply ltb_false_iff in E. }
  assert (H2 : 0.01 <= s2 <= 10).
  { unfold s2. destruct (gtb s1 10) eqn:E.
    - split; discriminate.
    - apply gtb_false_iff in E. split; assumption. }
  assert (Hpos : 0 < sample_rate_ hr) by lra.
  destruct H2 as [H2 H3].
  split.
  - apply Qle_shift_div_l; [assumption|]. nra.
  - apply Qle_shift_div_r; [assumption|]. nra.
Qed.

Lemma lfo_advance_phase_range (hr : HallReverb.t) (phase : float) :
  0 <= lfo_phase_inc_ hr <= 6.28318530 ->
  0 <= phase < 6.28318530 ->
  0 <= lfo_advance_phase hr phase < 6.28318530.
Proof.
  intros [Hi0 Hi1] [Hp0 Hp1]. unfold lfo_advance_phase.
  destruct (geb (phase + lfo_phase_inc_ hr) 6.28318530) eqn:E.
  - apply geb_true_iff in E. split; lra.
  - apply geb_false_iff in E. split; lra.
Qed.

Lemma lfo_phases_range (hr : HallReverb.t) (n : nat) :
  0 <= lfo_phase_inc_ hr <= 6.28318530 ->
  Forall (fun ph => 0 <= ph < 6.28318530)
         (Nat.iter n (lfo_advance hr) initial_lfo_phase).
Proof.
  intros Hi. induction n as [|n IH].
  - repeat constructor; try discriminate; reflexivity.
  - cbn [Nat.iter]. unfold lfo_advance at 1.
    apply Forall_map. eapply Forall_impl; [|exact IH].
    intros ph Hph. now apply lfo_advance_phase_range.
Qed.

Lemma triangle_range (phase : float) :
  0 <= phase < 6.28318530 -> -1 <= triangle phase <= 1.
Proof.
  intros [H0 H1]. unfold triangle.
  set (p := phase * (1 / 3.14159265)).
  assert (Hp : 0 <= p < 2).
  { unfold p. split.
    - apply Qmult_le_0_compat; [assumption|discriminate].
    - setoid_replace 2 with (6.28318530 * (1 / 3.14159265)) by reflexivity.
      apply Qmult_lt_compat_r; [reflexivity|assumption]. }
  destruct (ltb p 1) eqn:E.
  - apply ltb_true_iff in E. split; lra.
  - apply ltb_false_iff in E. split; lra.
Qed.

Lemma nth_Forall_default {A : Type} (P : A -> Prop) (l : list A) (i : nat) (d : A) :
  Forall P l -> P d -> P (nth i l d).
Proof.
  intros Hl Hd. revert i. induction Hl as [|x l Hx Hl IH]; intros [|i]; simpl; auto.
Qed.

Lemma kModMask_lines (i : nat) :
  Z.testbit kModMask (Z.of_nat i) = true -> (i < 8)%nat.
Proof.
  intros Hbit.
  destruct (Nat.lt_ge_cases i 8) as [H|H]; [assumption|exfalso].
  assert (Hsmall : Z.testbit kModMask (Z.of_nat i) = false).
  { apply Z.bits_above_log2; [discriminate|].
    change (Z.log2 kModMask) with 7%Z. lia. }
  congruence.
Qed.

(** With an LFO increment of at most one turn per sample and a modulation
    depth of at most four samples (what [SetTankModSpeed], for a sample rate
    of 10 Hz or more, and [SetTankModDepth] guarantee), the four LFO phases
    stay in [0, 2 pi) for ever, and every modulated read position of
    [ProcessSample] lies within four samples of its line's nominal delay:
    never below 1083 and never above 4413, inside the 4800-sample memory;
    the floor at one sample never acts. *)
Theorem hall_modulated_read_in_bounds (hr : HallReverb.t) (n i : nat) :
  0 <= lfo_phase_inc_ hr <= 6.28318530 ->
  0 <= mod_depth_ hr <= 4 ->
  let lfo_phase_ := Nat.iter n (lfo_advance hr) initial_lfo_phase in
  Forall (fun ph => 0 <= ph < 6.28318530) lfo_phase_ /\
  (forall md : float,
     read_position hr lfo_phase_ i = Some md ->
     md == inject_Z (nth i kLineDelays 0%Z)
           + triangle (nth (Z.to_nat (nth i kModPhaseIdx 0%Z)) lfo_phase_ 0)
             * mod_depth_ hr /\
     inject_Z (nth i kLineDelays 0%Z) - 4 <= md <= inject_Z (nth i kLineDelays 0%Z) + 4 /\
     1083 <= md <= 4413 /\
     md < inject_Z (Z.of_nat kMaxLineDelay) - 1) /\
  (forall speed depth : float,
     10 <= sample_rate_ hr ->
     0 <= lfo_phase_inc_ (SetTankModSpeed hr speed) <= 6.28318530 /\
     0 <= mod_depth_ (SetTankModDepth hr depth) <= 4).
Proof.
  intros Hinc Hdepth. cbv zeta.
  pose proof (lfo_phases_range hr n Hinc) as Hph.
  split; [exact Hph|]. split.
  - intros md. unfold read_position.
    destruct (Z.testbit kModMask (Z.of_nat i) && gtb (mod_depth_ hr) 0)%bool eqn:Hmask;
      [|discriminate].
    apply andb_prop in Hmask. destruct Hmask as [Hbit _].
    set (tri := triangle _).
    assert (Htri : -1 <= tri <= 1).
    { unfold tri. apply triangle_range.
      apply nth_Forall_default; [exact Hph|]. split; [discriminate|reflexivity]. }
    assert (Hprod : -4 <= tri * mod_depth_ hr <= 4).
    { destruct Htri, Hdepth. split; nra. }
    assert (Hline : 1087 <= inject_Z (nth i kLineDelays 0%Z) <= 4409).
    { apply kModMask_lines in Hbit.
      do 8 (destruct i as [|i]; [cbn; split; discriminate|]). lia. }
    set (line := inject_Z (nth i kLineDelays 0%Z)) in *.
    set (swing := tri * mod_depth_ hr) in *.
    destruct Hprod, Hline.
    destruct (ltb _ 1) eqn:Hfloor.
    + apply ltb_true_iff in Hfloor. exfalso. lra.
    + intros E. assert (Hmd : md = line + swing) by congruence. subst md.
      split; [reflexivity|].
      change (inject_Z (Z.of_nat kMaxLineDelay)) with (4800 # 1).
      split; [split; lra|]. split; [split; lra|lra].
  - intros speed depth Hsr. split.
    + now apply SetTankModSpeed_inc.
    + apply SetTankModDepth_range_aux.
Qed.


End HallReverbFacts.

Lemma hall_high_cut_range_witness :
  0.001 <= HallReverb.high_cut_frequency Flick.example_hall 30000 <= 0.497.
Proof.
  apply (hall_high_cut_range Flick.example_hall 30000). discriminate.
Defined.

Lemma hall_modulated_read_in_bounds_witness :
  Forall (fun ph => 0 <= ph < 6.28318530)
    (Nat.iter 3 (HallReverb.lfo_advance
                   (HallReverb.SetTankModSpeed Flick.example_hall 0.5))
       HallReverb.initial_lfo_phase).
Proof.
  apply (hall_modulated_read_in_bounds
           (HallReverb.SetTankModSpeed Flick.example_hall 0.5) 3 0).
  - split; discriminate.
  - split; discriminate.
Defined.

(** ** Plate reverb: the wrapper around the tank *)

Ltac case_ifs :=
  repeat match goal with
         | |- context [if ?c then _ else _] => destruct c
         end.

Section PlateReverbFacts.

Import PlateReverb.

Lemma position_of_cases (value : float) :
  (value <= 0.15 /\ position_of value = 2%Z) \/
  (0.15 < value <= 0.375 /\ position_of value = 1%Z) \/
  (0.375 < value /\ position_of value = 0%Z).
Proof.
  unfold position_of.
  destruct (geb 0.15 value) eqn:E1.
  - left. split; [now apply geb_true_iff|reflexivity].
  - apply geb_false_iff in E1. right.
    destruct (geb 0.375 value) eqn:E2.
    + left. apply geb_true_iff in E2. repeat split; assumption.
    + right. apply geb_false_iff in E2. split; [assumption|reflexivity].
Qed.

(** The three tank-modulation setters quantise their argument: a value up to
    0.15 selects position 2, a value above 0.15 and up to 0.375 position 1,
    any larger value position 0; the position is stored and the tank
    receives the table entry of that position (times 8 for the speed, times
    15 for the depth), never the argument itself.  Each table entry selects
    its own position, so that what [updatePlateReverbParameters] passes for
    a switch position 0, 1 or 2 stores that same position. *)
Theorem plate_tank_mod_quantised (p : PlateReverb.t) (value : float) :
  let pos := position_of value in
  (value <= 0.15 /\ pos = 2%Z \/ 0.15 < value <= 0.375 /\ pos = 1%Z \/
   0.375 < value /\ pos = 0%Z) /\
  tank_mod_speed_pos (params_ (SetTankModSpeed p value)) = pos /\
  tank_mod_depth_pos (params_ (SetTankModDepth p value)) = pos /\
  tank_mod_shape_pos (params_ (SetTankModShape p value)) = pos /\
  Dattorro.tankModSpeed (verb_ (SetTankModSpeed p value)) ==
    nth (Z.to_nat pos) [4; 2; 0.8] 0 /\
  Dattorro.tankModDepth (verb_ (SetTankModDepth p value)) ==
    nth (Z.to_nat pos) [7.5; 3.75; 1.5] 0 /\
  Dattorro.tankModShape (verb_ (SetTankModShape p value)) ==
    nth (Z.to_nat pos) [0.5; 0.25; 0.1] 0 /\
  (forall i : Z, (0 <= i <= 2)%Z ->
     position_of (value_at PLATE_TANK_MOD_SPEED_VALUES i) = i /\
     position_of (value_at PLATE_TANK_MOD_DEPTH_VALUES i) = i /\
     position_of (value_at PLATE_TANK_MOD_SHAPE_VALUES i) = i).
Proof.
  cbv zeta. split; [apply position_of_cases|].
  destruct p as [v q]. destruct v, q.
  split; [reflexivity|]. split; [reflexivity|]. split; [reflexivity|].
  split; [|split; [|split]].
  - destruct (position_of_cases value) as [[_ E]|[[_ E]|[_ E]]];
      cbn; rewrite E; reflexivity.
  - destruct (position_of_cases value) as [[_ E]|[[_ E]|[_ E]]];
      cbn; rewrite E; reflexivity.
  - destruct (position_of_cases value) as [[_ E]|[[_ E]|[_ E]]];
      cbn; rewrite E; reflexivity.
  - intros i Hi.
    assert (C : i = 0%Z \/ i = 1%Z \/ i = 2%Z) by lia.
    destruct C as [ -> | [ -> | -> ] ]; repeat split; reflexivity.
Qed.

Lemma updateDattorroParameters_params (p : PlateReverb.t) :
  params_ (updateDattorroParameters p) = params_ p.
Proof. destruct p as [v q]. destruct v, q. reflexivity. Qed.

(** [SetParams] makes the tank mirror the stored parameters, every setter
    keeps it mirrored (and [Clear] too), and on a mirrored object
    [SetParams(GetParams())] changes nothing: what [GetParams] returns is
    what is in effect. *)
Theorem plate_params_mirrored (p : PlateReverb.t) (q : Params) (x : float) :
  mirrors (SetParams p q) /\
  GetParams (SetParams p q) = q /\
  (mirrors p ->
   mirrors (SetDecay p x) /\ mirrors (SetDiffusion p x) /\
   mirrors (SetPreDelay p x) /\ mirrors (SetInputHighCut p x) /\
   mirrors (SetTankHighCut p x) /\ mirrors (SetTankModSpeed p x) /\
   mirrors (SetTankModDepth p x) /\ mirrors (SetTankModShape p x) /\
   mirrors (Clear p) /\
   SetParams p (GetParams p) = p).
Proof.
  destruct p as [v r]. destruct v, r, q.
  split; [reflexivity|]. split; [reflexivity|].
  unfold mirrors. cbn. intros H. injection H as H1 H2 H3 H4 H5 H6 H7 H8.
  subst. repeat split; reflexivity.
Qed.

End PlateReverbFacts.

Lemma plate_params_mirrored_witness :
  PlateReverb.SetParams
    (PlateReverb.SetParams Flick.example_plate
       (PlateReverb.mkParams 0.5 0.6 0.1 0.7 0.8 0 1 2))
    (PlateReverb.GetParams
       (PlateReverb.SetParams Flick.example_plate
          (PlateReverb.mkParams 0.5 0.6 0.1 0.7 0.8 0 1 2))) =
  PlateReverb.SetParams Flick.example_plate
    (PlateReverb.mkParams 0.5 0.6 0.1 0.7 0.8 0 1 2).
Proof.
  apply (plate_params_mirrored
           (PlateReverb.SetParams Flick.example_plate
              (PlateReverb.mkParams 0.5 0.6 0.1 0.7 0.8 0 1 2))
           (PlateReverb.mkParams 0.5 0.6 0.1 0.7 0.8 0 1 2) 0).
  reflexivity.
Defined.

(** ** The controller: switch maps *)

Section SwitchMapFacts.

Import Flick.

Lemma switchPosForValue_from_nth (map : list Z) (i0 : Z) (i : nat) (d : Z) :
  NoDup map -> (i < length map)%nat ->
  switchPosForValue_from i0 map (nth i map d) = (i0 + Z.of_nat i)%Z.
Proof.
  intros Hnd. revert i0 i. induction Hnd as [|m rest Hm Hnd IH]; intros i0 i Hi.
  - cbn in Hi. lia.
  - destruct i as [|i]; cbn [nth switchPosForValue_from].
    + rewrite Z.eqb_refl. lia.
    + cbn [length] in Hi.
      destruct (Z.eqb_spec m (nth i rest d)) as [E|E].
      * exfalso. apply Hm. rewrite E. apply nth_In. lia.
      * rewrite IH by lia. lia.
Qed.

Lemma switchPosForValue_from_absent (map : list Z) (i0 : Z) (value : Z) :
  ~ In value map -> switchPosForValue_from i0 map value = 1%Z.
Proof.
  revert i0. induction map as [|m rest IH]; intros i0 Hn; cbn [switchPosForValue_from].
  - reflexivity.
  - destruct (Z.eqb_spec m value) as [E|E].
    + exfalso. apply Hn. now left.
    + apply IH. intros Hin. apply Hn. now right.
Qed.

Lemma switchPosForValue_from_range (map : list Z) (i0 : Z) (value : Z) :
  In value map ->
  (i0 <= switchPosForValue_from i0 map value < i0 + Z.of_nat (length map))%Z /\
  nth (Z.to_nat (switchPosForValue_from i0 map value - i0)) map 0%Z = value.
Proof.
  revert i0. induction map as [|m rest IH]; intros i0 Hin; [destruct Hin|].
  cbn [switchPosForValue_from length].
  destruct (Z.eqb_spec m value) as [E|E].
  - rewrite Z.sub_diag. cbn. split; [lia|assumption].
  - destruct Hin as [Hin|Hin]; [contradiction|].
    destruct (IH (i0 + 1)%Z Hin) as [Hr Hv]. split; [lia|].
    replace (switchPosForValue_from (i0 + 1) rest value - i0)%Z
      with (Z.succ (switchPosForValue_from (i0 + 1) rest value - (i0 + 1)))%Z by lia.
    rewrite Z2Nat.inj_succ by lia. cbn [nth]. exact Hv.
Qed.

(** [switchPosForValue] inverts a switch map whose entries are distinct (as
    those of the three maps it is used with are): the position found for the
    value at position [pos] is [pos], the map holds the value at the
    position found for it, and a value that the map does not hold is given
    the middle position 1. *)
Theorem switch_position_inverts (map : list Z) :
  NoDup map ->
  (forall (pos d : Z), (0 <= pos < Z.of_nat (length map))%Z ->
     switchPosForValue map (at_index map pos d) = pos) /\
  (forall (value d : Z), In value map ->
     at_index map (switchPosForValue map value) d = value) /\
  (forall value : Z, ~ In value map -> switchPosForValue map value = 1%Z) /\
  NoDup kReverbKnobMap /\ NoDup kPolarityMap /\ NoDup kMonoStereoMap.
Proof.
  intros Hnd. split; [|split; [|split]].
  - intros pos d Hp. unfold switchPosForValue, at_index.
    destruct (Z.leb_spec 0 pos); [|lia].
    destruct (Z.ltb_spec pos (Z.of_nat (length map))); [|lia].
    cbn [andb]. rewrite switchPosForValue_from_nth by (assumption || lia). lia.
  - intros value d Hin. unfold switchPosForValue, at_index.
    destruct (switchPosForValue_from_range map 0 value Hin) as [Hr Hv].
    rewrite Z.sub_0_r in Hv.
    destruct (Z.leb_spec 0 (switchPosForValue_from 0 map value)); [|lia].
    destruct (Z.ltb_spec (switchPosForValue_from 0 map value) (Z.of_nat (length map)));
      [|lia].
    cbn [andb]. rewrite <- Hv at 2. apply nth_indep. lia.
  - intros value Hn. now apply switchPosForValue_from_absent.
  - repeat split; repeat constructor; cbn; intuition discriminate.
Qed.

End SwitchMapFacts.

Lemma switch_position_inverts_witness :
  Flick.switchPosForValue Flick.kMonoStereoMap
    (Flick.at_index Flick.kMonoStereoMap 2 0%Z) = 2%Z.
Proof.
  refine (proj1 (switch_position_inverts Flick.kMonoStereoMap _) 2%Z 0%Z _).
  - repeat constructor; cbn; intuition discriminate.
  - cbn. lia.
Defined.

(** ** The controller: settings *)

Section SettingsMoreFacts.

Import Flick.

Lemma RestoreDefaults_defaults (st : PersistentStorage.t) :
  PersistentStorage.default_settings_ (PersistentStorage.RestoreDefaults st) =
  PersistentStorage.default_settings_ st.
Proof. destruct st. reflexivity. Qed.

Lemma loadSettings_stuck (fuel : nat) (g : Globals) :
  Settings.version (PersistentStorage.default_settings_ (SavedSettings g))
    <> SETTINGS_VERSION ->
  Settings.version (local_settings g) <> SETTINGS_VERSION ->
  loadSettings fuel g = None.
Proof.
  revert g. induction fuel as [|fuel IH]; intros g Hd Hv; [reflexivity|].
  rewrite loadSettings_mismatch by assumption.
  destruct (RestoreDefaults_settings (SavedSettings g)) as [R1 _].
  apply IH.
  - rewrite SavedSettings_set_SavedSettings, RestoreDefaults_defaults. exact Hd.
  - unfold local_settings, PersistentStorage.GetSettings.
    rewrite SavedSettings_set_SavedSettings, R1. exact Hd.
Qed.

(** [loadSettings] returns because the default record carries
    [SETTINGS_VERSION]: with such defaults it returns after at most one
    recursive call whatever the working copy holds; with a default record of
    any other version and a working copy of another version it calls itself
    for ever (no amount of fuel gives a result). *)
Theorem load_settings_termination (g : Globals) :
  (Settings.version (PersistentStorage.default_settings_ (SavedSettings g))
     = SETTINGS_VERSION ->
   exists g' : Globals, loadSettings 2 g = Some g') /\
  (Settings.version (PersistentStorage.default_settings_ (SavedSettings g))
     <> SETTINGS_VERSION ->
   Settings.version (local_settings g) <> SETTINGS_VERSION ->
   forall fuel : nat, loadSettings fuel g = None).
Proof.
  split.
  - intros Hd.
    destruct (Z.eq_dec (Settings.version (local_settings g)) SETTINGS_VERSION) as [Hv|Hv].
    + eexists. now apply loadSettings_match.
    + eexists. rewrite loadSettings_mismatch by assumption.
      apply loadSettings_match.
      destruct (RestoreDefaults_settings (SavedSettings g)) as [R1 _].
      unfold local_settings, PersistentStorage.GetSettings.
      rewrite SavedSettings_set_SavedSettings, R1. exact Hd.
  - intros Hd Hv fuel. now apply loadSettings_stuck.
Qed.

Lemma save_all_snapshot (g : Globals) :
  let g1 := saveBypassStates (saveDeviceSettings (saveSettings g)) in
  Settings.version (local_settings g1) = SETTINGS_VERSION /\
  loaded_from (local_settings g1) g /\
  trigger_settings_save g1 = true.
Proof.
  destruct g as [? ? ? b r ? ? ? ? ? ? ? ? ? ? ? st t ? ? ? ? ? ? ? ? ? ? ? ? ? ? ? ? ? ?].
  destruct b, r, t, st as [fl s d]. destruct s.
  cbv zeta. split; [vm_compute; reflexivity|]. split; [|vm_compute; reflexivity].
  unfold loaded_from. vm_compute. repeat split; reflexivity.
Qed.

Lemma flash_after_save (g : Globals) :
  PersistentStorage.flash
    (SavedSettings
       (set_trigger_settings_save false
          (set_SavedSettings (PersistentStorage.Save (SavedSettings g)) g))) =
  Some (local_settings g).
Proof.
  destruct g as [? ? ? ? ? ? ? ? ? ? ? ? ? ? ? ? st ? ? ? ? ? ? ? ? ? ? ? ? ? ? ? ? ? ? ?].
  destruct st. reflexivity.
Qed.

Lemma reload_saved (g1 g0 : Globals) (fuel : nat) :
  Settings.version (local_settings g1) = SETTINGS_VERSION ->
  PersistentStorage.flash (SavedSettings g0) = Some (local_settings g1) ->
  exists g' : Globals,
    main_settings (S fuel) g0 = Some g' /\
    local_settings g' = local_settings g1 /\
    loaded_from (local_settings g1) g'.
Proof.
  intros Hv H0.
  assert (Hs : local_settings (main_storage g0) = local_settings g1).
  { unfold main_storage, local_settings, PersistentStorage.GetSettings.
    rewrite SavedSettings_set_SavedSettings.
    unfold PersistentStorage.Init.
    replace (PersistentStorage.flash
               (SavedSettings (set_current_reverb (Some plate_reverb_object) g0)))
      with (PersistentStorage.flash (SavedSettings g0)) by (destruct g0; reflexivity).
    rewrite H0. reflexivity. }
  exists (loadSettings_apply (main_storage g0)).
  destruct (loadSettings_apply_loaded (main_storage g0)) as [HL HS].
  rewrite Hs in HL, HS.
  split; [|split; assumption].
  unfold main_settings. apply loadSettings_match. rewrite Hs. exact Hv.
Qed.

(** Save and load round trip.  [saveSettings], [saveDeviceSettings] and
    [saveBypassStates] together make the working copy of the settings a
    snapshot of the fifteen persisted variables, with the current version,
    and ask for a save; once the main loop has written it, a start from
    that flash page ([SavedSettings.Init] and [loadSettings] in [main])
    loads every persisted variable with the value it had. *)
Theorem settings_round_trip (g g0 : Globals) (fuel : nat) :
  let g1 := saveBypassStates (saveDeviceSettings (saveSettings g)) in
  let saved := set_trigger_settings_save false
                 (set_SavedSettings (PersistentStorage.Save (SavedSettings g1)) g1) in
  Settings.version (local_settings g1) = SETTINGS_VERSION /\
  loaded_from (local_settings g1) g /\
  trigger_settings_save g1 = true /\
  PersistentStorage.flash (SavedSettings saved) = Some (local_settings g1) /\
  (PersistentStorage.flash (SavedSettings g0) = Some (local_settings g1) ->
   exists g' : Globals,
     main_settings (S fuel) g0 = Some g' /\
     local_settings g' = local_settings g1 /\
     loaded_from (local_settings g1) g').
Proof.
  intros g1 saved.
  destruct (save_all_snapshot g) as (Hv & Hl & Ht).
  split; [exact Hv|]. split; [exact Hl|]. split; [exact Ht|].
  split; [apply flash_after_save|].
  apply reload_saved. exact Hv.
Qed.

End SettingsMoreFacts.

Lemma load_settings_termination_witness :
  (exists g' : Flick.Globals,
     Flick.loadSettings 2
       (Flick.main_storage (Flick.example_initial (Some Flick.example_stale))) = Some g') /\
  Flick.loadSettings 9 (Flick.example_initial (Some Flick.example_stale)) = None.
Proof.
  split.
  - apply (proj1 (load_settings_termination
                    (Flick.main_storage (Flick.example_initial (Some Flick.example_stale))))).
    reflexivity.
  - apply (proj2 (load_settings_termination
                    (Flick.example_initial (Some Flick.example_stale))));
      discriminate.
Defined.

Lemma settings_round_trip_witness :
  exists g' : Flick.Globals,
    Flick.main_settings 1
      (Flick.example_initial
         (Some (Flick.local_settings
                  (Flick.saveBypassStates
                     (Flick.saveDeviceSettings
                        (Flick.saveSettings (Flick.power_on None))))))) = Some g' /\
    Flick.loaded_from
      (Flick.local_settings
         (Flick.saveBypassStates
            (Flick.saveDeviceSettings (Flick.saveSettings (Flick.power_on None))))) g'.
Proof.
  destruct (settings_round_trip (Flick.power_on None)
              (Flick.example_initial
                 (Some (Flick.local_settings
                          (Flick.saveBypassStates
                             (Flick.saveDeviceSettings
                                (Flick.saveSettings (Flick.power_on None)))))))
              0) as (_ & _ & _ & _ & H).
  destruct H as [g' (H1 & _ & H3)].
  - reflexivity.
  - exists g'. split; assumption.
Defined.

(** ** The controller: modes and gestures *)

Section ModeFacts.

Import Flick.

Lemma pedal_mode_set_pedal_mode (m : PedalMode) (g : Globals) :
  pedal_mode (set_pedal_mode m g) = m.
Proof. destruct g. reflexivity. Qed.

Lemma pedal_mode_registerTap (hw : Hw) (g : Globals) :
  pedal_mode (registerTap hw g) = pedal_mode g.
Proof.
  destruct g as [? ? ? ? ? ? ? ? ? ? ? ? ? ? ? ? ? t ? ? ? ? ? ? ? ? ? ? ? ? ? ? ? ? ? ?].
  destruct t as [ts c ds ms lt fc je kb kc].
  unfold registerTap.
  cbn [tap_tempo upd_tap_tempo set_tap_tempo TapTempoState.tap_count
       TapTempoState.set_tap_timestamps TapTempoState.set_tap_count].
  destruct (c <? 3)%Z;
    cbn [tap_tempo upd_tap_tempo set_tap_tempo TapTempoState.tap_count
         TapTempoState.set_tap_timestamps TapTempoState.set_tap_count];
    case_ifs; reflexivity.
Qed.

Lemma pedal_mode_saveBypassStates (g : Globals) :
  pedal_mode (saveBypassStates g) = pedal_mode g.
Proof. destruct g. reflexivity. Qed.

Lemma pedal_mode_upd_bypass (f : BypassState.t -> BypassState.t) (g : Globals) :
  pedal_mode (upd_bypass f g) = pedal_mode g.
Proof. destruct g. reflexivity. Qed.

Lemma pedal_mode_handleNormalPress (hw : Hw) (footswitch : Switches) (g : Globals) :
  pedal_mode (handleNormalPress hw footswitch g) =
  next_mode (pedal_mode g) (TapTempoState.just_exited_tap_tempo (tap_tempo g))
    (footswitch_1_pressed hw && footswitch_2_pressed hw) NormalPress footswitch.
Proof.
  unfold handleNormalPress, next_mode.
  destruct (pedal_mode g) eqn:Hm; cbn [PedalMode_eqb].
  - replace (pedal_mode (upd_tap_tempo (TapTempoState.set_just_exited_tap_tempo false) g))
      with (pedal_mode g) by (destruct g; reflexivity).
    rewrite Hm. cbn [PedalMode_eqb].
    rewrite pedal_mode_saveBypassStates.
    destruct (is_FOOTSWITCH_1 footswitch).
    + case_ifs.
      * destruct g as [? ? ? ? ? ? ? ? ? ? ? ? ? ? ? ? ? ? ? ? ? ? ? ? ? ? cr ? ? ? ? ? ? ? ? ?].
        destruct cr as [[| |]|]; cbn in Hm |- *; exact Hm.
      * destruct g; cbn in Hm |- *; exact Hm.
    + destruct g; cbn in Hm |- *; exact Hm.
  - replace (pedal_mode (upd_tap_tempo (TapTempoState.set_just_exited_tap_tempo false) g))
      with (pedal_mode g) by (destruct g; reflexivity).
    rewrite Hm. cbn [PedalMode_eqb]. apply pedal_mode_set_pedal_mode.
  - replace (pedal_mode (upd_tap_tempo (TapTempoState.set_just_exited_tap_tempo false) g))
      with (pedal_mode g) by (destruct g; reflexivity).
    rewrite Hm. cbn [PedalMode_eqb]. apply pedal_mode_set_pedal_mode.
  - destruct (is_FOOTSWITCH_1 footswitch).
    + destruct (exitTapTempo_mode_and_guard hw g) as [E _].
      destruct (exitTapTempo hw g). exact E.
    + rewrite pedal_mode_registerTap. exact Hm.
Qed.

Lemma guard_handleNormalPress (hw : Hw) (footswitch : Switches) (g : Globals) :
  pedal_mode g <> PEDAL_MODE_TAP_TEMPO ->
  TapTempoState.just_exited_tap_tempo (tap_tempo (handleNormalPress hw footswitch g)) = false.
Proof. apply normal_press_clears_guard. Qed.

(** The mode transitions of the three footswitch callbacks.  A normal press
    always leads to Normal mode, except that in TapTempo a press of
    footswitch 2 is a tap.  TapTempo is entered only by a double press of
    footswitch 1 in Normal mode, reverb edit only by a long press of
    footswitch 1 in Normal mode and the device settings only by a long press
    of footswitch 2 in Normal mode, each without the exit guard and, for the
    long presses, without the other footswitch held; in the edit modes and
    in TapTempo, double and long presses never change the mode. *)
Theorem mode_transitions (hw : Hw) (e : Gesture) (footswitch : Switches) (g : Globals) :
  pedal_mode (handle hw e footswitch g) =
  next_mode (pedal_mode g) (TapTempoState.just_exited_tap_tempo (tap_tempo g))
    (footswitch_1_pressed hw && footswitch_2_pressed hw) e footswitch.
Proof.
  destruct e; cbn [handle].
  - apply pedal_mode_handleNormalPress.
  - unfold handleDoublePress. cbn [next_mode].
    destruct (TapTempoState.just_exited_tap_tempo (tap_tempo g)) eqn:Hg.
    + apply guard_cleared_mode.
    + destruct (pedal_mode g) eqn:Hm; cbn [PedalMode_eqb orb].
      * pose proof (pedal_mode_handleNormalPress hw footswitch g) as Hn.
        rewrite Hm in Hn. cbn [next_mode] in Hn.
        destruct (is_FOOTSWITCH_1 footswitch).
        -- apply enterTapTempo_frame.
        -- destruct (is_FOOTSWITCH_2 footswitch); [|exact Hn].
           now rewrite pedal_mode_saveBypassStates, pedal_mode_upd_bypass.
      * exact Hm.
      * exact Hm.
      * destruct (is_FOOTSWITCH_2 footswitch); [|exact Hm].
        now rewrite pedal_mode_registerTap.
  - unfold handleLongPress. cbn [next_mode].
    destruct (TapTempoState.just_exited_tap_tempo (tap_tempo g)) eqn:Hg.
    + apply guard_cleared_mode.
    + destruct (pedal_mode g) eqn:Hm; cbn [PedalMode_eqb orb]; try exact Hm.
      pose proof (pedal_mode_handleNormalPress hw footswitch g) as Hn.
      rewrite Hm in Hn. cbn [next_mode] in Hn.
      destruct (footswitch_1_pressed hw && footswitch_2_pressed hw)%bool.
      * destruct (handleNormalPress hw footswitch g). exact Hn.
      * destruct (is_FOOTSWITCH_1 footswitch); [apply pedal_mode_set_pedal_mode|].
        destruct (is_FOOTSWITCH_2 footswitch); [apply pedal_mode_set_pedal_mode|].
        exact Hn.
Qed.

End ModeFacts.

(** ** The controller: bypass flags *)

Section BypassFacts.

Import Flick.

Lemma bypass_saveBypassStates (g : Globals) : bypass (saveBypassStates g) = bypass g.
Proof. destruct g. reflexivity. Qed.

Lemma bypass_upd_bypass (f : BypassState.t -> BypassState.t) (g : Globals) :
  bypass (upd_bypass f g) = f (bypass g).
Proof. destruct g. reflexivity. Qed.

Lemma bypass_guard_cleared (g : Globals) : bypass (guard_cleared g) = bypass g.
Proof. destruct g. reflexivity. Qed.

Lemma saveBypassStates_saved (g : Globals) :
  Settings.bypass_reverb (local_settings (saveBypassStates g)) = BypassState.reverb (bypass g) /\
  Settings.bypass_tremolo (local_settings (saveBypassStates g)) = BypassState.tremolo (bypass g) /\
  Settings.bypass_delay (local_settings (saveBypassStates g)) = BypassState.delay (bypass g) /\
  Settings.tapped_delay_samples (local_settings (saveBypassStates g)) =
    TapTempoState.tapped_delay_samples (tap_tempo g) /\
  trigger_settings_save (saveBypassStates g) = true /\
  reverb_objects (saveBypassStates g) = reverb_objects g.
Proof.
  destruct g as [? ? ? b ? ? ? ? ? ? ? ? ? ? ? ? st t ? ? ? ? ? ? ? ? ? ? ? ? ? ? ? ? ? ?].
  destruct st as [fl s d]. destruct s. repeat split; reflexivity.
Qed.

Lemma reverb_objects_upd_bypass (f : BypassState.t -> BypassState.t) (g : Globals) :
  reverb_objects (upd_bypass f g) = reverb_objects g.
Proof. destruct g. reflexivity. Qed.

Lemma reverb_objects_guard_cleared (g : Globals) :
  reverb_objects (guard_cleared g) = reverb_objects g.
Proof. destruct g. reflexivity. Qed.

Lemma handleNormalPress_tremolo (hw : Hw) (g : Globals) :
  pedal_mode g = PEDAL_MODE_NORMAL ->
  handleNormalPress hw FOOTSWITCH_2 g =
  saveBypassStates
    (upd_bypass (fun b => BypassState.set_tremolo (negb (BypassState.tremolo b)) b)
       (guard_cleared g)).
Proof.
  intros Hm. unfold handleNormalPress. rewrite Hm. cbn [PedalMode_eqb].
  fold (guard_cleared g). rewrite guard_cleared_mode, Hm.
  reflexivity.
Qed.

Lemma handleDoublePress_delay (hw : Hw) (g : Globals) :
  pedal_mode g = PEDAL_MODE_NORMAL ->
  TapTempoState.just_exited_tap_tempo (tap_tempo g) = false ->
  handleDoublePress hw FOOTSWITCH_2 g =
  saveBypassStates
    (upd_bypass (fun b => BypassState.set_delay (negb (BypassState.delay b)) b)
       (handleNormalPress hw FOOTSWITCH_2 g)).
Proof.
  intros Hm Hg. unfold handleDoublePress. rewrite Hg, Hm. reflexivity.
Qed.

(** Footswitch 2 in Normal mode.  Its normal press inverts the tremolo
    bypass; when the same gesture is then classified as a double press, the
    handler invokes the normal press again, which puts the tremolo bypass
    back, and inverts the delay bypass.  The reverb bypass and the reverb
    objects are untouched, the mode stays Normal, and the working copy of
    the settings holds the three flags with a save requested. *)
Theorem footswitch_2_double_press (hw hw' : Hw) (g : Globals) :
  pedal_mode g = PEDAL_MODE_NORMAL ->
  let g1 := handleNormalPress hw FOOTSWITCH_2 g in
  let g2 := handleDoublePress hw' FOOTSWITCH_2 g1 in
  bypass g1 = BypassState.set_tremolo (negb (BypassState.tremolo (bypass g))) (bypass g) /\
  bypass g2 = BypassState.set_delay (negb (BypassState.delay (bypass g))) (bypass g) /\
  pedal_mode g2 = PEDAL_MODE_NORMAL /\
  trigger_settings_save g2 = true /\
  Settings.bypass_reverb (local_settings g2) = BypassState.reverb (bypass g) /\
  Settings.bypass_tremolo (local_settings g2) = BypassState.tremolo (bypass g) /\
  Settings.bypass_delay (local_settings g2) = negb (BypassState.delay (bypass g)) /\
  reverb_objects g2 = reverb_objects g.
Proof.
  intros Hm g1 g2.
  assert (Hn : pedal_mode g <> PEDAL_MODE_TAP_TEMPO) by (rewrite Hm; discriminate).
  pose proof (normal_press_clears_guard hw FOOTSWITCH_2 g Hn) as Hg1.
  assert (Hm1 : pedal_mode (handleNormalPress hw FOOTSWITCH_2 g) = PEDAL_MODE_NORMAL).
  { rewrite pedal_mode_handleNormalPress, Hm. reflexivity. }
  assert (E2 : g2 = saveBypassStates
                      (upd_bypass (fun b => BypassState.set_delay (negb (BypassState.delay b)) b)
                         (handleNormalPress hw' FOOTSWITCH_2 g1))).
  { unfold g2, g1. now apply handleDoublePress_delay. }
  rewrite E2. clear E2 g2.
  rewrite (handleNormalPress_tremolo hw' g1 Hm1).
  unfold g1. clear g1 Hg1 Hm1.
  rewrite (handleNormalPress_tremolo hw g Hm).
  set (togT := fun b => BypassState.set_tremolo (negb (BypassState.tremolo b)) b).
  set (togD := fun b => BypassState.set_delay (negb (BypassState.delay b)) b).
  split.
  { now rewrite bypass_saveBypassStates, bypass_upd_bypass, bypass_guard_cleared. }
  match goal with
  | |- bypass (saveBypassStates ?x) = _ /\ _ =>
      destruct (saveBypassStates_saved x) as (S1 & S2 & S3 & _ & S5 & S6);
      assert (B : bypass x = BypassState.set_delay (negb (BypassState.delay (bypass g))) (bypass g))
  end.
  { rewrite bypass_upd_bypass, bypass_saveBypassStates, bypass_upd_bypass,
      bypass_guard_cleared, bypass_saveBypassStates, bypass_upd_bypass,
      bypass_guard_cleared.
    destruct (bypass g) as [rv tr dl]. unfold togD, togT. cbn.
    now rewrite negb_involutive. }
  rewrite B in S1, S2, S3.
  split; [now rewrite bypass_saveBypassStates|].
  split.
  { rewrite pedal_mode_saveBypassStates, pedal_mode_upd_bypass, pedal_mode_saveBypassStates,
      pedal_mode_upd_bypass, guard_cleared_mode, pedal_mode_saveBypassStates,
      pedal_mode_upd_bypass, guard_cleared_mode. exact Hm. }
  split; [exact S5|].
  split; [rewrite S1; now destruct (bypass g)|].
  split; [rewrite S2; now destruct (bypass g)|].
  split; [rewrite S3; now destruct (bypass g)|].
  rewrite S6, reverb_objects_upd_bypass.
  match goal with
  | |- reverb_objects (saveBypassStates ?x) = _ =>
      destruct (saveBypassStates_saved x) as (_ & _ & _ & _ & _ & O)
  end.
  rewrite O, reverb_objects_upd_bypass, reverb_objects_guard_cleared.
  match goal with
  | |- reverb_objects (saveBypassStates ?x) = _ =>
      destruct (saveBypassStates_saved x) as (_ & _ & _ & _ & _ & O')
  end.
  now rewrite O', reverb_objects_upd_bypass, reverb_objects_guard_cleared.
Qed.

End BypassFacts.

Lemma footswitch_2_double_press_witness :
  Flick.bypass
    (Flick.handleDoublePress Flick.example_hw Flick.FOOTSWITCH_2
       (Flick.handleNormalPress Flick.example_hw Flick.FOOTSWITCH_2
          (Flick.power_on (Some Flick.example_saved)))) =
  BypassState.set_delay
    (negb (BypassState.delay (Flick.bypass (Flick.power_on (Some Flick.example_saved)))))
    (Flick.bypass (Flick.power_on (Some Flick.example_saved))).
Proof.
  apply (footswitch_2_double_press Flick.example_hw Flick.example_hw
           (Flick.power_on (Some Flick.example_saved))).
  reflexivity.
Defined.

(** ** The controller: reverb scale factors *)

Section ScaleFacts.

Import Flick.

Variables (fx : Effects) (clearPopCancelValue : float).

Lemma scales_assigned_unity (g g' : Globals) :
  scales_assigned (reverb_scales g) (reverb_scales g') ->
  scales_unity g -> scales_unity g'.
Proof.
  unfold scales_assigned, reverb_scales, scales_unity.
  intros [E|[E|E]] H; injection E as E1 E2; rewrite E1, E2;
    [exact H|reflexivity|reflexivity].
Qed.

Lemma scales_assigned_refl (g g' : Globals) :
  reverb_scales g' = reverb_scales g ->
  scales_assigned (reverb_scales g) (reverb_scales g').
Proof. intros E. now left. Qed.

Lemma scales_assigned_trans (a b c : float * float) :
  scales_assigned a b -> scales_assigned b c -> scales_assigned a c.
Proof.
  unfold scales_assigned. intros [ -> | [ -> | -> ] ] [ -> | [ -> | -> ] ]; auto.
Qed.

Lemma scales_updateReverbScales (mode : Z) (g : Globals) :
  scales_assigned (reverb_scales g) (reverb_scales (updateReverbScales mode g)).
Proof.
  unfold updateReverbScales, scales_assigned.
  destruct g. case_ifs; cbn; auto.
Qed.

Lemma scales_updatePlateReverbParameters (g : Globals) :
  reverb_scales (updatePlateReverbParameters g) = reverb_scales g.
Proof. destruct g. reflexivity. Qed.

Lemma scales_saveBypassStates (g : Globals) :
  reverb_scales (saveBypassStates g) = reverb_scales g.
Proof. destruct g. reflexivity. Qed.

Lemma scales_saveSettings (g : Globals) : reverb_scales (saveSettings g) = reverb_scales g.
Proof. destruct g. reflexivity. Qed.

Lemma scales_saveDeviceSettings (g : Globals) :
  reverb_scales (saveDeviceSettings g) = reverb_scales g.
Proof. destruct g. reflexivity. Qed.

Lemma scales_restoreReverbSettings (g : Globals) :
  reverb_scales (restoreReverbSettings g) = reverb_scales g.
Proof. destruct g. reflexivity. Qed.

Lemma scales_restoreDeviceSettings (g : Globals) :
  scales_assigned (reverb_scales g) (reverb_scales (restoreDeviceSettings g)).
Proof.
  unfold restoreDeviceSettings. cbv zeta.
  match goal with
  | |- scales_assigned _ (reverb_scales (updateReverbScales ?m ?x)) =>
      apply (scales_assigned_trans _ (reverb_scales x));
        [|apply scales_updateReverbScales]
  end.
  left. destruct g. reflexivity.
Qed.

Lemma scales_registerTap (hw : Hw) (g : Globals) :
  reverb_scales (registerTap hw g) = reverb_scales g.
Proof.
  destruct g as [? ? ? ? ? ? ? ? ? ? ? ? ? ? ? ? ? t ? ? ? ? ? ? ? ? ? ? ? ? ? ? ? ? ? ?].
  destruct t as [ts c ds ms lt fc je kb kc].
  unfold registerTap.
  cbn [tap_tempo upd_tap_tempo set_tap_tempo TapTempoState.tap_count
       TapTempoState.set_tap_timestamps TapTempoState.set_tap_count].
  destruct (c <? 3)%Z;
    cbn [tap_tempo upd_tap_tempo set_tap_tempo TapTempoState.tap_count
         TapTempoState.set_tap_timestamps TapTempoState.set_tap_count];
    case_ifs; reflexivity.
Qed.

Lemma scales_exitTapTempo (hw : Hw) (g : Globals) :
  reverb_scales (exitTapTempo hw g) = reverb_scales g.
Proof.
  destruct g as [? ? ? ? ? ? ? ? ? ? ? ? ? ? ? ? ? t ? ? ? ? ? ? ? ? ? ? ? ? ? ? ? ? ? ?].
  destruct t as [ts c ds ms lt fc je kb kc].
  unfold exitTapTempo. cbv zeta. case_ifs; reflexivity.
Qed.

Lemma scales_enterTapTempo (hw : Hw) (g : Globals) :
  reverb_scales (enterTapTempo hw g) = reverb_scales g.
Proof.
  destruct g as [pm ? ? b ? ? ? ? ? ? ? ? ? ? ? ? ? t ? ? ? ? ? ? ? ? cr ? ? ? ? ? ? ? ? ?].
  destruct t as [ts c ds ms lt fc je kb kc]. destruct b as [rv tr dl].
  destruct dl; reflexivity.
Qed.

Lemma scales_handleNormalPress (hw : Hw) (footswitch : Switches) (g : Globals) :
  scales_assigned (reverb_scales g) (reverb_scales (handleNormalPress hw footswitch g)).
Proof.
  unfold handleNormalPress.
  destruct (PedalMode_eqb (pedal_mode g) PEDAL_MODE_TAP_TEMPO).
  - left. destruct (is_FOOTSWITCH_1 footswitch).
    + rewrite <- (scales_exitTapTempo hw g).
      destruct (exitTapTempo hw g). reflexivity.
    + apply scales_registerTap.
  - cbv zeta. fold (guard_cleared g).
    assert (G : reverb_scales (guard_cleared g) = reverb_scales g)
      by (destruct g; reflexivity).
    rewrite <- G. generalize (guard_cleared g). clear G g. intros g.
    destruct (PedalMode_eqb (pedal_mode g) PEDAL_MODE_EDIT_REVERB).
    { left. destruct (is_FOOTSWITCH_2 footswitch).
      - rewrite <- (scales_saveSettings g). destruct (saveSettings g). reflexivity.
      - rewrite <- (scales_restoreReverbSettings g).
        destruct (restoreReverbSettings g). reflexivity. }
    destruct (PedalMode_eqb (pedal_mode g) PEDAL_MODE_EDIT_DEVICE_SETTINGS).
    { destruct (is_FOOTSWITCH_2 footswitch).
      - left. rewrite <- (scales_saveDeviceSettings g).
        destruct (saveDeviceSettings g). reflexivity.
      - apply (scales_assigned_trans _ (reverb_scales (restoreDeviceSettings g)));
          [apply scales_restoreDeviceSettings|].
        left. destruct (restoreDeviceSettings g). reflexivity. }
    left. rewrite scales_saveBypassStates.
    destruct (is_FOOTSWITCH_1 footswitch).
    + case_ifs.
      * destruct g as [? ? ? ? ? ? ? ? ? ? ? ? ? ? ? ? ? ? ? ? ? ? ? ? ? ? cr ? ? ? ? ? ? ? ? ?].
        destruct cr as [[| |]|]; reflexivity.
      * destruct g; reflexivity.
    + destruct g; reflexivity.
Qed.

Lemma scales_handle (hw : Hw) (e : Gesture) (footswitch : Switches) (g : Globals) :
  scales_assigned (reverb_scales g) (reverb_scales (handle hw e footswitch g)).
Proof.
  destruct e; cbn [handle].
  - apply scales_handleNormalPress.
  - unfold handleDoublePress.
    destruct (TapTempoState.just_exited_tap_tempo (tap_tempo g)).
    { left. destruct g; reflexivity. }
    destruct (PedalMode_eqb (pedal_mode g) PEDAL_MODE_TAP_TEMPO).
    { left. destruct (is_FOOTSWITCH_2 footswitch); [apply scales_registerTap|reflexivity]. }
    destruct (_ || _)%bool; [now left|].
    cbv zeta.
    apply (scales_assigned_trans _ (reverb_scales (handleNormalPress hw footswitch g)));
      [apply scales_handleNormalPress|].
    left. generalize (handleNormalPress hw footswitch g). intros g1.
    destruct (is_FOOTSWITCH_1 footswitch); [apply scales_enterTapTempo|].
    destruct (is_FOOTSWITCH_2 footswitch); [|reflexivity].
    rewrite scales_saveBypassStates. destruct g1; reflexivity.
  - unfold handleLongPress.
    destruct (TapTempoState.just_exited_tap_tempo (tap_tempo g)).
    { left. destruct g; reflexivity. }
    destruct (_ || _)%bool; [now left|].
    cbv zeta.
    apply (scales_assigned_trans _ (reverb_scales (handleNormalPress hw footswitch g)));
      [apply scales_handleNormalPress|].
    left. generalize (handleNormalPress hw footswitch g). intros g1.
    destruct (_ && _)%bool; [destruct g1; reflexivity|].
    destruct (is_FOOTSWITCH_1 footswitch); [destruct g1; reflexivity|].
    destruct (is_FOOTSWITCH_2 footswitch); [destruct g1; reflexivity|reflexivity].
Qed.

Lemma scales_loadSettings (fuel : nat) (g g' : Globals) :
  loadSettings fuel g = Some g' ->
  scales_assigned (reverb_scales g) (reverb_scales g').
Proof.
  revert g. induction fuel as [|fuel IH]; intros g; [discriminate|].
  cbn [loadSettings]. destruct (negb _).
  - intros H. apply IH in H.
    apply (scales_assigned_trans _ _ _ (or_introl eq_refl)) in H.
    revert H. destruct g. exact (fun H => H).
  - intros H. injection H as <-.
    unfold loadSettings_apply. cbv zeta.
    rewrite scales_updatePlateReverbParameters.
    repeat match goal with
           | |- context [reverb_scales (upd_tap_tempo ?f ?x)] =>
               replace (reverb_scales (upd_tap_tempo f x)) with (reverb_scales x)
                 by (destruct x; reflexivity)
           | |- context [reverb_scales (upd_bypass ?f ?x)] =>
               replace (reverb_scales (upd_bypass f x)) with (reverb_scales x)
                 by (destruct x; reflexivity)
           end.
    match goal with
    | |- scales_assigned _ (reverb_scales (updateReverbScales ?m ?x)) =>
        apply (scales_assigned_trans _ (reverb_scales x));
          [|apply scales_updateReverbScales]
    end.
    left. destruct g. reflexivity.
Qed.

Lemma scales_AudioCallback_delay (hw : Hw) (g : Globals) :
  reverb_scales (AudioCallback_delay hw g) = reverb_scales g.
Proof.
  destruct g as [pm ? ? ? ? ? ? ? ? ? ? ? ? ? ? ? ? t ? ? ? ? ? ? ? ? ? ? ? ? ? ? ? ? ? ?].
  destruct t as [ts c ds ms lt fc je kb kc].
  unfold AudioCallback_delay.
  destruct pm; cbn [pedal_mode PedalMode_eqb]; cbv zeta;
    unfold exitTapTempo; cbv zeta; case_ifs; reflexivity.
Qed.

Lemma scales_AudioCallback_edit_reverb (hw : Hw) (g : Globals) :
  reverb_scales (AudioCallback_edit_reverb hw g) = reverb_scales g.
Proof.
  unfold AudioCallback_edit_reverb.
  repeat match goal with
         | |- context [KnobCapture.Process ?c ?k] => destruct (KnobCapture.Process c k)
         | |- context [SwitchCapture.Process ?c ?k] => destruct (SwitchCapture.Process c k)
         end.
  rewrite scales_updatePlateReverbParameters.
  destruct g. reflexivity.
Qed.

Lemma scales_AudioCallback_device_settings (hw : Hw) (g : Globals) :
  scales_assigned (reverb_scales g) (reverb_scales (AudioCallback_device_settings hw g)).
Proof.
  unfold AudioCallback_device_settings.
  repeat match goal with
         | |- context [SwitchCapture.Process ?c ?k] => destruct (SwitchCapture.Process c k)
         end.
  match goal with
  | |- scales_assigned _ (reverb_scales (updateReverbScales ?m ?x)) =>
      apply (scales_assigned_trans _ (reverb_scales x));
        [|apply scales_updateReverbScales]
  end.
  left. unfold reverb_dry_mode. destruct g. cbn. case_ifs; reflexivity.
Qed.

End ScaleFacts.

Section ReverbStageFacts.

Import Flick.

Variables (fx : Effects) (clearPopCancelValue : float).

Lemma hardLimit100_range (x : float) :
  -1 <= hardLimit100_ x <= 1 /\ (-1 <= x <= 1 -> hardLimit100_ x = x).
Proof.
  unfold hardLimit100_.
  destruct (gtb x 1) eqn:Hhi.
  - apply gtb_true_iff in Hhi. split; [split; discriminate|].
    intros [_ H]. exfalso. apply (Qlt_not_le _ _ Hhi H).
  - apply gtb_false_iff in Hhi.
    destruct (ltb x (-1)) eqn:Hlo.
    + apply ltb_true_iff in Hlo. split; [split; discriminate|].
      intros [H _]. exfalso. apply (Qlt_not_le _ _ Hlo H).
    + apply ltb_false_iff in Hlo. split; [split; assumption|reflexivity].
Qed.

Lemma Qabs_limited (h d : float) : -1 <= h <= 1 -> Qabs (h * d) <= Qabs d.
Proof.
  intros [H0 H1]. rewrite Qabs_Qmult.
  assert (Hh : Qabs h <= 1) by (apply Qabs_Qle_condition; split; assumption).
  pose proof (Qabs_nonneg d) as Hd.
  setoid_replace (Qabs d) with (1 * Qabs d) at 2 by ring.
  apply Qmult_le_compat_r; assumption.
Qed.

(** What [select_reverb] leaves alone. *)
Lemma select_reverb_frame (g : Globals) :
  left_input (select_reverb g) = left_input g /\
  right_input (select_reverb g) = right_input g /\
  bypass (select_reverb g) = bypass g /\
  reverb (select_reverb g) = reverb g /\
  reverb_scales (select_reverb g) = reverb_scales g /\
  input_amplification (select_reverb g) = input_amplification g.
Proof.
  unfold select_reverb. case_ifs; destruct g; repeat split; reflexivity.
Qed.

Lemma set_inputs_frame (a b : float) (g : Globals) :
  left_input (set_right_input b (set_left_input a g)) = a /\
  right_input (set_right_input b (set_left_input a g)) = b /\
  bypass (set_right_input b (set_left_input a g)) = bypass g /\
  reverb (set_right_input b (set_left_input a g)) = reverb g /\
  reverb_scales (set_right_input b (set_left_input a g)) = reverb_scales g.
Proof. destruct g. repeat split; reflexivity. Qed.

Lemma set_outputs_frame (a b : float) (g : Globals) :
  left_input (set_right_output b (set_left_output a g)) = left_input g /\
  right_input (set_right_output b (set_left_output a g)) = right_input g /\
  left_output (set_right_output b (set_left_output a g)) = a /\
  right_output (set_right_output b (set_left_output a g)) = b /\
  bypass (set_right_output b (set_left_output a g)) = bypass g /\
  reverb_scales (set_right_output b (set_left_output a g)) = reverb_scales g.
Proof. destruct g. repeat split; reflexivity. Qed.

Lemma reverb_dry_scale_set_left_input (a : float) (g : Globals) :
  reverb_dry_scale_factor (set_left_input a g) = reverb_dry_scale_factor g /\
  reverb_reverse_scale_factor (set_left_input a g) = reverb_reverse_scale_factor g.
Proof. destruct g. split; reflexivity. Qed.

Lemma set_left_output_frame (a : float) (g : Globals) :
  right_input (set_left_output a g) = right_input g /\
  reverb_reverse_scale_factor (set_left_output a g) = reverb_reverse_scale_factor g.
Proof. destruct g. split; reflexivity. Qed.

(** The reverb stage of the loop, unfolded: the two inputs it stores, and
    what it returns when the reverb is engaged. *)
Lemma apply_reverb_unfold (g : Globals) (s : float * float) :
  let r := apply_reverb fx clearPopCancelValue g s in
  let li := hardLimit100_ (fst s) * reverb_dry_scale_factor g in
  let ri := hardLimit100_ (snd s) * reverb_dry_scale_factor g in
  left_input (snd r) = li /\
  right_input (snd r) = ri /\
  bypass (snd r) = bypass g /\
  reverb_scales (snd r) = reverb_scales g /\
  (BypassState.reverb (bypass g) = true -> fst r = s) /\
  (BypassState.reverb (bypass g) = false ->
   exists rev_l rev_r : float,
     fst r = (li * ReverbOrchestrator.dry (reverb g) * reverb_reverse_scale_factor g
              + rev_l * ReverbOrchestrator.wet (reverb g) * clearPopCancelValue,
              ri * ReverbOrchestrator.dry (reverb g) * reverb_reverse_scale_factor g
              + rev_r * ReverbOrchestrator.wet (reverb g) * clearPopCancelValue)).
Proof.
  cbv zeta. unfold apply_reverb. cbv zeta.
  destruct (reverb_dry_scale_set_left_input
              (hardLimit100_ (fst s) * reverb_dry_scale_factor g) g) as [D1 _].
  rewrite D1.
  set (li := hardLimit100_ (fst s) * reverb_dry_scale_factor g).
  set (ri := hardLimit100_ (snd s) * reverb_dry_scale_factor g).
  destruct (set_inputs_frame li ri g) as (I1 & I2 & I3 & I4 & I5).
  set (g1 := set_right_input ri (set_left_input li g)) in *.
  destruct (select_reverb_frame g1) as (S1 & S2 & S3 & S4 & S5 & S6).
  set (g2 := select_reverb g1) in *. clearbody g2 g1.
  rewrite S1, S2, I1, I2, S3, I3, S4, I4.
  destruct (reverb_ProcessSample fx _ _ _) as [rl rr].
  assert (R2 : reverb_reverse_scale_factor g2 = reverb_reverse_scale_factor g).
  { unfold reverb_scales in S5, I5. congruence. }
  rewrite R2.
  set (pair := if (ReverbOrchestrator.current_type (reverb g) =? REVERB_HALL)%Z
               then (rl * 4, rr * 4) else (rl, rr)).
  destruct pair as [rev_l rev_r].
  destruct (BypassState.reverb (bypass g)) eqn:Hb; cbn [negb fst snd].
  - repeat split; try congruence; discriminate.
  - match goal with
    | |- context [set_left_output ?a g2] =>
        destruct (set_left_output_frame a g2) as [L1 L2]; rewrite L1, L2
    end.
    rewrite ?S2, ?I2, ?R2.
    match goal with
    | |- context [set_right_output ?b (set_left_output ?a g2)] =>
        destruct (set_outputs_frame a b g2) as (O1 & O2 & O3 & O4 & O5 & O6)
    end.
    split; [congruence|]. split; [congruence|]. split; [congruence|].
    split; [congruence|]. split; [discriminate|].
    intros _. exists rev_l, rev_r. rewrite O3, O4. reflexivity.
Qed.

Lemma apply_notch_filters_frame (g : Globals) (s : float * float) :
  bypass (snd (apply_notch_filters g s)) = bypass g /\
  reverb_scales (snd (apply_notch_filters g s)) = reverb_scales g /\
  mono_stereo_mode (snd (apply_notch_filters g s)) = mono_stereo_mode g /\
  polarity_mode (snd (apply_notch_filters g s)) = polarity_mode g.
Proof. destruct g. repeat split; reflexivity. Qed.

Lemma apply_tremolo_frame (g : Globals) (s : float * float) :
  bypass (snd (apply_tremolo fx g s)) = bypass g /\
  reverb_scales (snd (apply_tremolo fx g s)) = reverb_scales g /\
  (BypassState.tremolo (bypass g) = true -> apply_tremolo fx g s = (s, g)).
Proof.
  unfold apply_tremolo.
  destruct (BypassState.tremolo (bypass g)); cbn [negb].
  - repeat split; reflexivity.
  - destruct (tremolo_ProcessSample fx (fst s) (snd s)).
    destruct g. repeat split; try reflexivity. discriminate.
Qed.

Lemma scales_AudioCallback_sample (g : Globals) (in0 in1 : float) :
  reverb_scales (snd (AudioCallback_sample fx clearPopCancelValue g in0 in1)) =
  reverb_scales g.
Proof.
  unfold AudioCallback_sample, AudioCallback_chain.
  pose proof (apply_notch_filters_frame g (route_input g in0 in1)) as (_ & A & _).
  destruct (apply_notch_filters g (route_input g in0 in1)) as [s1 g1].
  cbn [snd] in A.
  pose proof (apply_tremolo_frame g1 (apply_delay fx g1 s1)) as (_ & B & _).
  destruct (apply_tremolo fx g1 (apply_delay fx g1 s1)) as [s2 g2].
  cbn [snd] in B.
  pose proof (apply_reverb_unfold g2 s2) as (_ & _ & _ & C & _).
  destruct (apply_reverb fx clearPopCancelValue g2 s2) as [s3 g3].
  cbn [snd] in C |- *. congruence.
Qed.

(** The two reverb scale factors always multiply to 1.  They start at 1 and
    1; the only assignments, in [updateReverbScales], set them to 5 and 0.2
    or to 2.5 and 0.4 (or leave them, for a mode outside the enumeration);
    and no footswitch callback, settings load or part of the audio callback
    changes them otherwise. *)
Theorem reverb_scales_invariant (hw : Hw) (g : Globals) :
  scales_unity g ->
  (forall (e : Gesture) (footswitch : Switches),
     scales_unity (handle hw e footswitch g)) /\
  (forall (fuel : nat) (g' : Globals), loadSettings fuel g = Some g' -> scales_unity g') /\
  scales_unity (AudioCallback_delay hw g) /\
  scales_unity (AudioCallback_edit_reverb hw g) /\
  scales_unity (AudioCallback_device_settings hw g) /\
  (forall in0 in1 : float,
     scales_unity (snd (AudioCallback_sample fx clearPopCancelValue g in0 in1))) /\
  (forall (flash : option Settings.t) (plate : PlateReverb.t) (hall : HallReverb.t)
          (spring : SpringReverb.t) (delay : DelayEffect.t) (notch1 notch2 : PeakingEQ.t),
     scales_unity (initial_globals flash plate hall spring delay notch1 notch2)).
Proof.
  intros H. repeat split.
  - intros e footswitch. eapply scales_assigned_unity; [apply scales_handle|exact H].
  - intros fuel g' L. eapply scales_assigned_unity; [|exact H].
    eapply scales_loadSettings. exact L.
  - eapply scales_assigned_unity; [|exact H].
    left. apply scales_AudioCallback_delay.
  - eapply scales_assigned_unity; [|exact H].
    left. apply scales_AudioCallback_edit_reverb.
  - eapply scales_assigned_unity; [|exact H].
    apply scales_AudioCallback_device_settings.
  - intros in0 in1. eapply scales_assigned_unity; [|exact H].
    left. apply scales_AudioCallback_sample.
Qed.

(** The reverb stage of the per-sample loop.  The two signals it stores for
    the reverb are the incoming channels hard-limited to [-1, 1] and
    multiplied by the dry scale factor, so their magnitude never exceeds
    that factor.  With the reverb bypassed the stage returns its input
    unchanged; with the reverb engaged, the dry level at 1 and the wet level
    at 0 it returns the hard-limited channels at unity gain. *)
Theorem reverb_stage_levels (g : Globals) (s : float * float) :
  let r := apply_reverb fx clearPopCancelValue g s in
  left_input (snd r) = hardLimit100_ (fst s) * reverb_dry_scale_factor g /\
  right_input (snd r) = hardLimit100_ (snd s) * reverb_dry_scale_factor g /\
  Qabs (left_input (snd r)) <= Qabs (reverb_dry_scale_factor g) /\
  Qabs (right_input (snd r)) <= Qabs (reverb_dry_scale_factor g) /\
  (BypassState.reverb (bypass g) = true -> fst r = s) /\
  (BypassState.reverb (bypass g) = false ->
   scales_unity g ->
   ReverbOrchestrator.dry (reverb g) == 1 ->
   ReverbOrchestrator.wet (reverb g) == 0 ->
   fst (fst r) == hardLimit100_ (fst s) /\ snd (fst r) == hardLimit100_ (snd s)).
Proof.
  intros r.
  destruct (apply_reverb_unfold g s) as (L & R & _ & _ & Hb & He).
  fold r in L, R, Hb, He.
  split; [exact L|]. split; [exact R|].
  split; [rewrite L; apply Qabs_limited, hardLimit100_range|].
  split; [rewrite R; apply Qabs_limited, hardLimit100_range|].
  split; [exact Hb|].
  intros B U D W. destruct (He B) as (rev_l & rev_r & E). rewrite E. cbn [fst snd].
  unfold scales_unity in U.
  set (d := reverb_dry_scale_factor g) in *.
  set (v := reverb_reverse_scale_factor g) in *.
  rewrite D, W. split.
  - setoid_replace (hardLimit100_ (fst s) * d * 1 * v + rev_l * 0 * clearPopCancelValue)
      with (hardLimit100_ (fst s) * (d * v)) by ring.
    rewrite U. ring.
  - setoid_replace (hardLimit100_ (snd s) * d * 1 * v + rev_r * 0 * clearPopCancelValue)
      with (hardLimit100_ (snd s) * (d * v)) by ring.
    rewrite U. ring.
Qed.

End ReverbStageFacts.

Section BypassedLoopFacts.

Import Flick.

Lemma bypassed_chain (fx : Effects) (c : float) (g : Globals) (in0 in1 : float) :
  bypass g = BypassState.mk true true true ->
  fst (AudioCallback_sample fx c g in0 in1) =
  route_output g (fst (apply_notch_filters g (route_input g in0 in1))).
Proof.
  intros Hb. unfold AudioCallback_sample.
  destruct (chain_modes fx c g in0 in1) as [Hm Hp].
  revert Hm Hp. unfold AudioCallback_chain.
  pose proof (apply_notch_filters_frame g (route_input g in0 in1)) as (A & _).
  destruct (apply_notch_filters g (route_input g in0 in1)) as [s1 g1].
  cbn [fst snd] in A |- *. rewrite Hb in A.
  assert (D : apply_delay fx g1 s1 = s1).
  { unfold apply_delay. rewrite A. reflexivity. }
  rewrite D.
  destruct (apply_tremolo_frame fx g1 s1) as (_ & _ & T).
  rewrite T by (rewrite A; reflexivity).
  destruct (apply_reverb_unfold fx c g1 s1) as (_ & _ & _ & _ & R & _).
  specialize (R ltac:(rewrite A; reflexivity)).
  destruct (apply_reverb fx c g1 s1) as [s3 g3]. cbn [fst snd] in R |- *. subst s3.
  intros Hm Hp. unfold route_output. now rewrite Hm, Hp.
Qed.

(** With the three effects bypassed the per-sample loop is transparent up
    to the notch filters and the routing: its two outputs are the routed,
    notch-filtered inputs, whatever the delay, tremolo and reverb objects
    answer. *)
Theorem all_bypassed_transparent (fx : Effects) (clearPopCancelValue : float)
  (g : Globals) (in0 in1 : float) :
  bypass g = BypassState.mk true true true ->
  fst (AudioCallback_sample fx clearPopCancelValue g in0 in1) =
    route_output g (fst (apply_notch_filters g (route_input g in0 in1))) /\
  forall (fx' : Effects) (c' : float),
    fst (AudioCallback_sample fx' c' g in0 in1) =
    fst (AudioCallback_sample fx clearPopCancelValue g in0 in1).
Proof.
  intros Hb. split; [now apply bypassed_chain|].
  intros fx' c'. now rewrite !bypassed_chain.
Qed.

End BypassedLoopFacts.


Lemma reverb_scales_invariant_witness :
  Flick.scales_unity
    (Flick.handle Flick.example_hw Flick.LongPress Flick.FOOTSWITCH_2
       (Flick.power_on (Some Flick.example_saved))).
Proof.
  refine (proj1 (reverb_scales_invariant Flick.silent_effects 1 Flick.example_hw
                   (Flick.power_on (Some Flick.example_saved)) _)
            Flick.LongPress Flick.FOOTSWITCH_2).
  vm_compute. reflexivity.
Defined.

Lemma all_bypassed_transparent_witness :
  fst (Flick.AudioCallback_sample Flick.silent_effects 1 (Flick.power_on None) 0.5 0.25) =
  Flick.route_output (Flick.power_on None)
    (fst (Flick.apply_notch_filters (Flick.power_on None)
            (Flick.route_input (Flick.power_on None) 0.5 0.25))).
Proof.
  refine (proj1 (all_bypassed_transparent Flick.silent_effects 1 (Flick.power_on None)
                   0.5 0.25 _)).
  vm_compute. reflexivity.
Defined.

(** ** The controller: tap tempo and the delay time *)

Section DelayTimeFacts.

Import Flick.

Lemma gtb_true (a b : float) : b < a -> gtb a b = true.
Proof. apply gtb_true_iff. Qed.

Lemma gtb_false (a b : float) : a <= b -> gtb a b = false.
Proof. apply gtb_false_iff. Qed.

Lemma ltb_true (a b : float) : a < b -> ltb a b = true.
Proof. apply ltb_true_iff. Qed.

Lemma ltb_false (a b : float) : b <= a -> ltb a b = false.
Proof. apply ltb_false_iff. Qed.

(** A knob within 0.05 of the baseline is within [0.05f] of it as the
    program computes the difference. *)
Lemma knob_unmoved (k b : float) :
  Qabs (k - b) <= 0.05 -> Qabs (fsub k b) <= f32 0.05.
Proof.
  intros H. unfold fsub, f32. rewrite round_abs. now apply round_mono.
Qed.

(** The threshold itself: a knob at [0.05f] over a baseline of 0 is more
    than 0.05 away and still counts as unmoved. *)
Lemma knob_at_threshold :
  0.05 < Qabs ((13421773 # 2 ^ 28) - 0) /\
  Qabs (fsub (13421773 # 2 ^ 28) 0) <= f32 0.05.
Proof. split; vm_compute; [reflexivity|discriminate]. Qed.

(** The delay section in Normal mode, by cases on the tapped delay and the
    knob. *)
Lemma normal_delay_kept32 (hw : Hw) (g : Globals) :
  pedal_mode g = PEDAL_MODE_NORMAL ->
  0 < TapTempoState.tapped_delay_samples (tap_tempo g) ->
  0 <= TapTempoState.knob_baseline (tap_tempo g) ->
  Qabs (fsub (knob_4_value hw) (TapTempoState.knob_baseline (tap_tempo g))) <= f32 0.05 ->
  delay_time_target (AudioCallback_delay hw g) =
    TapTempoState.tapped_delay_samples (tap_tempo g) * delay_timing_multiplier hw /\
  tap_tempo (AudioCallback_delay hw g) = tap_tempo g /\
  trigger_settings_save (AudioCallback_delay hw g) = trigger_settings_save g /\
  SavedSettings (AudioCallback_delay hw g) = SavedSettings g.
Proof.
  destruct g as [pm ? ? ? ? ? ? ? ? ? ? ? ? ? ? ? ? t ? ? ? ? ? ? ? ? ? ? ? ? ? ? ? ? ? ?].
  destruct t as [ts c ds ms lt fc je kb kc].
  cbn [pedal_mode tap_tempo TapTempoState.tapped_delay_samples TapTempoState.knob_baseline].
  intros -> Hd Hb Hk.
  unfold AudioCallback_delay, delay_timing_multiplier.
  cbn [pedal_mode PedalMode_eqb tap_tempo TapTempoState.tapped_delay_samples
       TapTempoState.knob_baseline fabs].
  rewrite (gtb_true _ _ Hd), (ltb_false _ _ Hb).
  cbn [tap_tempo TapTempoState.knob_baseline]. unfold fabs.
  rewrite (gtb_false _ _ Hk).
  cbn [tap_tempo TapTempoState.tapped_delay_samples].
  rewrite (gtb_true _ _ Hd).
  repeat split; reflexivity.
Qed.

Lemma normal_delay_kept (hw : Hw) (g : Globals) :
  pedal_mode g = PEDAL_MODE_NORMAL ->
  0 < TapTempoState.tapped_delay_samples (tap_tempo g) ->
  0 <= TapTempoState.knob_baseline (tap_tempo g) ->
  Qabs (knob_4_value hw - TapTempoState.knob_baseline (tap_tempo g)) <= 0.05 ->
  delay_time_target (AudioCallback_delay hw g) =
    TapTempoState.tapped_delay_samples (tap_tempo g) * delay_timing_multiplier hw /\
  tap_tempo (AudioCallback_delay hw g) = tap_tempo g /\
  trigger_settings_save (AudioCallback_delay hw g) = trigger_settings_save g /\
  SavedSettings (AudioCallback_delay hw g) = SavedSettings g.
Proof.
  intros Hm Hd Hb Hk. apply normal_delay_kept32; try assumption.
  now apply knob_unmoved.
Qed.

Lemma normal_delay_first (hw : Hw) (g : Globals) :
  pedal_mode g = PEDAL_MODE_NORMAL ->
  0 < TapTempoState.tapped_delay_samples (tap_tempo g) ->
  TapTempoState.knob_baseline (tap_tempo g) < 0 ->
  delay_time_target (AudioCallback_delay hw g) =
    TapTempoState.tapped_delay_samples (tap_tempo g) * delay_timing_multiplier hw /\
  tap_tempo (AudioCallback_delay hw g) =
    TapTempoState.set_knob_baseline (knob_4_value hw) (tap_tempo g) /\
  trigger_settings_save (AudioCallback_delay hw g) = trigger_settings_save g /\
  SavedSettings (AudioCallback_delay hw g) = SavedSettings g.
Proof.
  destruct g as [pm ? ? ? ? ? ? ? ? ? ? ? ? ? ? ? ? t ? ? ? ? ? ? ? ? ? ? ? ? ? ? ? ? ? ?].
  destruct t as [ts c ds ms lt fc je kb kc].
  cbn [pedal_mode tap_tempo TapTempoState.tapped_delay_samples TapTempoState.knob_baseline].
  intros -> Hd Hb.
  assert (Hk : Qabs (fsub (knob_4_value hw) (knob_4_value hw)) <= f32 0.05).
  { apply knob_unmoved.
    setoid_replace (knob_4_value hw - knob_4_value hw) with 0 by ring. discriminate. }
  unfold AudioCallback_delay, delay_timing_multiplier.
  cbn [pedal_mode PedalMode_eqb tap_tempo TapTempoState.tapped_delay_samples
       TapTempoState.knob_baseline].
  rewrite (gtb_true _ _ Hd), (ltb_true _ _ Hb).
  cbn [tap_tempo upd_tap_tempo set_tap_tempo TapTempoState.knob_baseline
       TapTempoState.set_knob_baseline]. unfold fabs.
  rewrite (gtb_false _ _ Hk).
  cbn [tap_tempo upd_tap_tempo set_tap_tempo TapTempoState.tapped_delay_samples
       TapTempoState.set_knob_baseline].
  rewrite (gtb_true _ _ Hd).
  repeat split; reflexivity.
Qed.

Lemma normal_delay_released (hw : Hw) (g : Globals) :
  pedal_mode g = PEDAL_MODE_NORMAL ->
  0 < TapTempoState.tapped_delay_samples (tap_tempo g) ->
  0 <= TapTempoState.knob_baseline (tap_tempo g) ->
  f32 0.05 < Qabs (fsub (knob_4_value hw) (TapTempoState.knob_baseline (tap_tempo g))) ->
  delay_time_target (AudioCallback_delay hw g) =
    p_delay_time hw * delay_timing_multiplier hw /\
  tap_tempo (AudioCallback_delay hw g) =
    TapTempoState.set_knob_baseline (-1)
      (TapTempoState.set_tapped_delay_samples 0 (tap_tempo g)) /\
  trigger_settings_save (AudioCallback_delay hw g) = true /\
  Settings.tapped_delay_samples (local_settings (AudioCallback_delay hw g)) = 0.
Proof.
  destruct g as [pm ? ? ? ? ? ? ? ? ? ? ? ? ? ? ? st t ? ? ? ? ? ? ? ? ? ? ? ? ? ? ? ? ? ?].
  destruct t as [ts c ds ms lt fc je kb kc]. destruct st as [fl s d]. destruct s.
  cbn [pedal_mode tap_tempo TapTempoState.tapped_delay_samples TapTempoState.knob_baseline].
  intros -> Hd Hb Hk.
  unfold AudioCallback_delay, delay_timing_multiplier.
  cbn [pedal_mode PedalMode_eqb tap_tempo TapTempoState.tapped_delay_samples
       TapTempoState.knob_baseline].
  rewrite (gtb_true _ _ Hd), (ltb_false _ _ Hb).
  cbn [tap_tempo TapTempoState.knob_baseline]. unfold fabs.
  rewrite (gtb_true _ _ Hk).
  repeat split; reflexivity.
Qed.

Lemma normal_delay_knob (hw : Hw) (g : Globals) :
  pedal_mode g = PEDAL_MODE_NORMAL ->
  TapTempoState.tapped_delay_samples (tap_tempo g) <= 0 ->
  delay_time_target (AudioCallback_delay hw g) =
    p_delay_time hw * delay_timing_multiplier hw /\
  tap_tempo (AudioCallback_delay hw g) = tap_tempo g /\
  trigger_settings_save (AudioCallback_delay hw g) = trigger_settings_save g /\
  SavedSettings (AudioCallback_delay hw g) = SavedSettings g.
Proof.
  destruct g as [pm ? ? ? ? ? ? ? ? ? ? ? ? ? ? ? ? t ? ? ? ? ? ? ? ? ? ? ? ? ? ? ? ? ? ?].
  destruct t as [ts c ds ms lt fc je kb kc].
  cbn [pedal_mode tap_tempo TapTempoState.tapped_delay_samples TapTempoState.knob_baseline].
  intros -> Hd.
  unfold AudioCallback_delay, delay_timing_multiplier.
  cbn [pedal_mode PedalMode_eqb tap_tempo TapTempoState.tapped_delay_samples].
  rewrite (gtb_false _ _ Hd).
  cbn [tap_tempo TapTempoState.tapped_delay_samples].
  rewrite (gtb_false _ _ Hd).
  repeat split; reflexivity.
Qed.

Lemma AudioCallback_delay_effect (hw : Hw) (g : Globals) :
  DelayEffect.delay_target_ (delay_effect (AudioCallback_delay hw g)) =
    delay_time_target (AudioCallback_delay hw g) /\
  DelayEffect.feedback_ (delay_effect (AudioCallback_delay hw g)) = p_delay_feedback hw /\
  delay_drywet (AudioCallback_delay hw g) = to_int (p_delay_amt hw).
Proof.
  unfold AudioCallback_delay.
  match goal with
  | |- context [let '(b, g0) := ?x in _] => destruct x as [base g1]
  end.
  destruct g1. repeat split; reflexivity.
Qed.

(** A tapped tempo outlives tap-tempo mode.  The program compares the
    magnitude of the single-precision difference of the delay-time knob and
    the recorded baseline, [fsub knob baseline], with [0.05f].  In Normal
    mode, while a tapped delay is stored, the delay time handed to the delay
    effect is the tapped delay times the timing multiplier and the knob is
    ignored, as long as that difference is at most [0.05f] (equality still
    counts as unmoved; the first callback without a baseline records the
    knob as it stands), which it is whenever the knob is within 0.05 of the
    baseline.  The first callback that finds the difference larger clears
    the tapped delay and the baseline, asks for a save of the cleared value
    and takes the delay time from the knob, as every callback does when no
    tapped delay is stored. *)
Theorem tapped_delay_override (hw : Hw) (g : Globals) :
  pedal_mode g = PEDAL_MODE_NORMAL ->
  let tapped := TapTempoState.tapped_delay_samples (tap_tempo g) in
  let baseline := TapTempoState.knob_baseline (tap_tempo g) in
  let g' := AudioCallback_delay hw g in
  (0 < tapped -> 0 <= baseline ->
   Qabs (fsub (knob_4_value hw) baseline) <= f32 0.05 ->
   delay_time_target g' = tapped * delay_timing_multiplier hw /\
   tap_tempo g' = tap_tempo g /\
   trigger_settings_save g' = trigger_settings_save g /\
   SavedSettings g' = SavedSettings g) /\
  (Qabs (knob_4_value hw - baseline) <= 0.05 ->
   Qabs (fsub (knob_4_value hw) baseline) <= f32 0.05) /\
  (0 < tapped -> baseline < 0 ->
   delay_time_target g' = tapped * delay_timing_multiplier hw /\
   tap_tempo g' = TapTempoState.set_knob_baseline (knob_4_value hw) (tap_tempo g) /\
   trigger_settings_save g' = trigger_settings_save g /\
   SavedSettings g' = SavedSettings g) /\
  (0 < tapped -> 0 <= baseline ->
   f32 0.05 < Qabs (fsub (knob_4_value hw) baseline) ->
   delay_time_target g' = p_delay_time hw * delay_timing_multiplier hw /\
   tap_tempo g' =
     TapTempoState.set_knob_baseline (-1)
       (TapTempoState.set_tapped_delay_samples 0 (tap_tempo g)) /\
   trigger_settings_save g' = true /\
   Settings.tapped_delay_samples (local_settings g') = 0) /\
  (tapped <= 0 ->
   delay_time_target g' = p_delay_time hw * delay_timing_multiplier hw /\
   tap_tempo g' = tap_tempo g /\
   trigger_settings_save g' = trigger_settings_save g /\
   SavedSettings g' = SavedSettings g) /\
  DelayEffect.delay_target_ (delay_effect g') = delay_time_target g' /\
  DelayEffect.feedback_ (delay_effect g') = p_delay_feedback hw /\
  delay_drywet g' = to_int (p_delay_amt hw).
Proof.
  intros Hm tapped baseline g'.
  split; [intros; now apply normal_delay_kept32|].
  split; [apply knob_unmoved|].
  split; [intros; now apply normal_delay_first|].
  split; [intros; now apply normal_delay_released|].
  split; [intros; now apply normal_delay_knob|].
  apply AudioCallback_delay_effect.
Qed.

End DelayTimeFacts.

Lemma tapped_delay_override_witness :
  Flick.delay_time_target
    (Flick.AudioCallback_delay Flick.example_hw (Flick.power_on (Some Flick.example_saved))) =
  TapTempoState.tapped_delay_samples
    (Flick.tap_tempo (Flick.power_on (Some Flick.example_saved)))
  * Flick.delay_timing_multiplier Flick.example_hw.
Proof.
  refine (proj1 (proj1 (proj2 (proj2
            (tapped_delay_override Flick.example_hw
               (Flick.power_on (Some Flick.example_saved)) _))) _ _));
    vm_compute; reflexivity.
Defined.

Section TapTempoSessionFacts.

Import Flick.

Lemma tap_callback_mode (hw : Hw) (g : Globals) :
  pedal_mode g = PEDAL_MODE_TAP_TEMPO ->
  pedal_mode (AudioCallback_delay hw g) =
    if (uint32 (now hw - TapTempoState.last_tap_time (tap_tempo g))
        >? TAP_TEMPO_TIMEOUT_MS)%Z
    then PEDAL_MODE_NORMAL else PEDAL_MODE_TAP_TEMPO.
Proof.
  destruct g as [pm ? ? ? ? ? ? ? ? ? ? ? ? ? ? ? ? t ? ? ? ? ? ? ? ? ? ? ? ? ? ? ? ? ? ?].
  destruct t as [ts c ds ms lt fc je kb kc].
  cbn [pedal_mode tap_tempo TapTempoState.last_tap_time]. intros ->.
  unfold AudioCallback_delay.
  cbn [pedal_mode PedalMode_eqb tap_tempo upd_tap_tempo set_tap_tempo
       TapTempoState.last_tap_time TapTempoState.set_delay_knob_capture].
  destruct (uint32 (now hw - lt) >? TAP_TEMPO_TIMEOUT_MS)%Z.
  - unfold exitTapTempo. cbv zeta. case_ifs; reflexivity.
  - reflexivity.
Qed.

Lemma enterTapTempo_timer (hw : Hw) (g : Globals) :
  pedal_mode (enterTapTempo hw g) = PEDAL_MODE_TAP_TEMPO /\
  TapTempoState.last_tap_time (tap_tempo (enterTapTempo hw g)) = now hw.
Proof.
  destruct g as [pm ? ? b ? ? ? ? ? ? ? ? ? ? ? ? ? t ? ? ? ? ? ? ? ? ? ? ? ? ? ? ? ? ? ?].
  destruct t as [ts c ds ms lt fc je kb kc]. destruct b as [? ? [|]];
    split; reflexivity.
Qed.

Lemma registerTap_timer (hw : Hw) (g : Globals) :
  TapTempoState.last_tap_time (tap_tempo (registerTap hw g)) = now hw.
Proof. rewrite registerTap_tap_tempo. reflexivity. Qed.

Lemma elapsed_uint32 (start elapsed : Z) :
  (0 <= elapsed < 2 ^ 32)%Z ->
  uint32 (uint32 (start + elapsed) - start) = elapsed.
Proof.
  intros H. rewrite uint32_sub_r.
  replace (start + elapsed - start)%Z with elapsed by ring.
  now apply uint32_small.
Qed.

(** The automatic exit from tap tempo counts from the latest tap, or from
    the entry when nothing was tapped, on the wrapping 32-bit millisecond
    clock.  The audio callback that runs [elapsed] milliseconds (less than
    2^32) after the pedal entered tap tempo, or after a tap, leaves the
    pedal in tap tempo when [elapsed] is at most 4000 and puts it in Normal
    mode when it is more, also when the clock has wrapped round in
    between. *)
Theorem tap_tempo_timeout (hw later : Hw) (g : Globals) (elapsed : Z) :
  (0 <= elapsed < 2 ^ 32)%Z ->
  now later = uint32 (now hw + elapsed) ->
  let expected :=
    if (elapsed >? 4000)%Z then PEDAL_MODE_NORMAL else PEDAL_MODE_TAP_TEMPO in
  pedal_mode (AudioCallback_delay later (enterTapTempo hw g)) = expected /\
  (pedal_mode g = PEDAL_MODE_TAP_TEMPO ->
   pedal_mode (AudioCallback_delay later (registerTap hw g)) = expected).
Proof.
  intros He Hn expected. split.
  - destruct (enterTapTempo_timer hw g) as [Hm Ht].
    rewrite (tap_callback_mode later _ Hm), Ht, Hn, (elapsed_uint32 _ _ He).
    reflexivity.
  - intros Hm.
    rewrite (tap_callback_mode later (registerTap hw g)).
    + rewrite registerTap_timer, Hn, (elapsed_uint32 _ _ He). reflexivity.
    + rewrite pedal_mode_registerTap. exact Hm.
Qed.

Lemma timing_map_values (i : Z) :
  let d := at_index kDelayTimingMap i 0%Z in
  d = 0%Z \/ d = 1%Z \/ d = 2%Z.
Proof.
  cbv zeta. unfold at_index.
  destruct ((0 <=? i)%Z && (i <? Z.of_nat (length kDelayTimingMap))%Z)%bool;
    [|now left].
  destruct (Z.to_nat i) as [|[|[|n]]]; cbn; auto.
  destruct n; auto.
Qed.

Lemma timing_multiplier_values (i : Z) :
  let m := at_index kDelayTimingMultiplier (at_index kDelayTimingMap i 0%Z) 0 in
  m = 0.75 \/ m = 1 \/ m = 0.6666.
Proof.
  cbv zeta.
  destruct (timing_map_values i) as [ -> | [ -> | -> ] ]; vm_compute; auto.
Qed.

Lemma delay_timing_multiplier_pos (hw : Hw) : 0 < delay_timing_multiplier hw.
Proof.
  unfold delay_timing_multiplier.
  destruct (timing_multiplier_values (toggleswitch_3 hw)) as [ -> | [ -> | -> ] ];
    reflexivity.
Qed.

Lemma delay_timing_multiplier_switch (hw later : Hw) :
  toggleswitch_3 later = toggleswitch_3 hw ->
  delay_timing_multiplier later = delay_timing_multiplier hw.
Proof. unfold delay_timing_multiplier. now intros ->. Qed.

Lemma enterTapTempo_state (hw : Hw) (g : Globals) :
  pedal_mode (enterTapTempo hw g) = PEDAL_MODE_TAP_TEMPO /\
  BypassState.delay (bypass (enterTapTempo hw g)) = false /\
  BypassState.reverb (bypass (enterTapTempo hw g)) = BypassState.reverb (bypass g) /\
  BypassState.tremolo (bypass (enterTapTempo hw g)) = BypassState.tremolo (bypass g) /\
  TapTempoState.tapped_delay_samples (tap_tempo (enterTapTempo hw g)) =
    delay_time_target g / delay_timing_multiplier hw /\
  TapTempoState.delay_knob_capture (tap_tempo (enterTapTempo hw g)) =
    KnobCapture.Capture (TapTempoState.delay_knob_capture (tap_tempo g))
      (p_knob_4 hw) (p_knob_4 hw) /\
  TapTempoState.tap_count (tap_tempo (enterTapTempo hw g)) = 0%Z.
Proof.
  destruct g as [pm ? ? b ? ? ? ? ? ? ? ? ? ? ? ? ? t ? ? ? ? ? ? ? ? ? ? ? ? ? ? ? ? ? ?].
  destruct t as [ts c ds ms lt fc je kb kc]. destruct b as [? ? [|]];
    repeat split; reflexivity.
Qed.

Lemma tap_callback_target (hw : Hw) (g : Globals) :
  pedal_mode g = PEDAL_MODE_TAP_TEMPO ->
  KnobCapture.is_frozen_ (TapTempoState.delay_knob_capture (tap_tempo g)) = true ->
  Qabs (fsub (p_knob_4 hw)
          (KnobCapture.captured_knob_value_ (TapTempoState.delay_knob_capture (tap_tempo g))))
    < KnobCapture.threshold_ (TapTempoState.delay_knob_capture (tap_tempo g)) ->
  0 < TapTempoState.tapped_delay_samples (tap_tempo g) ->
  delay_time_target (AudioCallback_delay hw g) =
    TapTempoState.tapped_delay_samples (tap_tempo g) * delay_timing_multiplier hw /\
  bypass (AudioCallback_delay hw g) = bypass g.
Proof.
  destruct g as [pm ? ? ? ? ? ? ? ? ? ? ? ? ? ? ? ? t ? ? ? ? ? ? ? ? ? ? ? ? ? ? ? ? ? ?].
  destruct t as [ts c ds ms lt fc je kb kc]. destruct kc as [cv fv fr th].
  cbn [pedal_mode tap_tempo TapTempoState.delay_knob_capture
       TapTempoState.tapped_delay_samples KnobCapture.is_frozen_
       KnobCapture.captured_knob_value_ KnobCapture.threshold_].
  intros -> -> Hk Hd.
  unfold AudioCallback_delay, delay_timing_multiplier.
  cbn [pedal_mode PedalMode_eqb tap_tempo upd_tap_tempo set_tap_tempo
       TapTempoState.last_tap_time TapTempoState.set_delay_knob_capture
       TapTempoState.delay_knob_capture].
  unfold KnobCapture.Process.
  cbn [KnobCapture.is_frozen_ KnobCapture.captured_knob_value_ KnobCapture.threshold_
       negb].
  unfold fabs.
  rewrite (proj2 (geb_false_iff _ _) Hk).
  cbn [snd KnobCapture.IsFrozen KnobCapture.is_frozen_ negb tap_tempo
       TapTempoState.set_delay_knob_capture TapTempoState.delay_knob_capture
       TapTempoState.tapped_delay_samples TapTempoState.last_tap_time].
  rewrite (gtb_true _ _ Hd).
  destruct (uint32 (now hw - lt) >? TAP_TEMPO_TIMEOUT_MS)%Z.
  - unfold exitTapTempo. cbv zeta. case_ifs; split; reflexivity.
  - split; reflexivity.
Qed.

(** Entering tap tempo does not make the delay time jump.  When the pedal
    enters tap tempo with a positive delay time, the next audio callback,
    with toggle switch 3 where it was and the delay-time knob less than the
    capture threshold away from where it was (by the single-precision
    difference of the two readings, which is what the capture compares with
    its threshold), sets the delay time it had before (the arithmetic is
    exact here: the division by the timing multiplier and the multiplication
    cancel), whether or not that callback is also the one that times out;
    the delay is switched on and the other two bypass flags are as they
    were. *)
Theorem enter_tap_tempo_keeps_delay_time (hw later : Hw) (g : Globals) :
  toggleswitch_3 later = toggleswitch_3 hw ->
  Qabs (fsub (p_knob_4 later) (p_knob_4 hw))
    < KnobCapture.threshold_ (TapTempoState.delay_knob_capture (tap_tempo g)) ->
  0 < delay_time_target g ->
  let g' := AudioCallback_delay later (enterTapTempo hw g) in
  delay_time_target g' == delay_time_target g /\
  BypassState.delay (bypass g') = false /\
  BypassState.reverb (bypass g') = BypassState.reverb (bypass g) /\
  BypassState.tremolo (bypass g') = BypassState.tremolo (bypass g).
Proof.
  intros Hs Hk Hd g'.
  destruct (enterTapTempo_state hw g) as (Hm & Bd & Br & Bt & Ht & Hc & _).
  pose proof (delay_timing_multiplier_pos hw) as Hp.
  destruct (tap_callback_target later (enterTapTempo hw g)) as [E B].
  - exact Hm.
  - rewrite Hc. reflexivity.
  - rewrite Hc. exact Hk.
  - rewrite Ht. apply Qlt_shift_div_l; [exact Hp|].
    setoid_replace (0 * delay_timing_multiplier hw) with 0 by ring. exact Hd.
  - subst g'. rewrite B, E, Ht, (delay_timing_multiplier_switch _ _ Hs).
    split; [|auto].
    field. intros H0. rewrite H0 in Hp. discriminate.
Qed.

End TapTempoSessionFacts.

Lemma tap_tempo_timeout_witness :
  Flick.pedal_mode
    (Flick.AudioCallback_delay (Flick.set_now 3705 Flick.example_hw)
       (Flick.enterTapTempo (Flick.set_now 4294967000 Flick.example_hw)
          (Flick.power_on None))) = Flick.PEDAL_MODE_NORMAL.
Proof.
  refine (proj1 (tap_tempo_timeout (Flick.set_now 4294967000 Flick.example_hw)
                   (Flick.set_now 3705 Flick.example_hw)
                   (Flick.power_on None) 4001%Z _ _));
    [lia | vm_compute; reflexivity].
Defined.

Lemma enter_tap_tempo_keeps_delay_time_witness :
  Flick.delay_time_target
    (Flick.AudioCallback_delay Flick.example_hw
       (Flick.enterTapTempo Flick.example_hw
          (Flick.AudioCallback_delay Flick.example_hw (Flick.power_on None))))
  == Flick.delay_time_target
       (Flick.AudioCallback_delay Flick.example_hw (Flick.power_on None)).
Proof.
  refine (proj1 (enter_tap_tempo_keeps_delay_time Flick.example_hw Flick.example_hw
                   (Flick.AudioCallback_delay Flick.example_hw (Flick.power_on None))
                   _ _ _));
    vm_compute; reflexivity.
Defined.

(** ** Factory reset *)

Section FactoryResetFacts.

Import Flick.










End FactoryResetFacts.


(** ** Editing the device settings *)

Section DeviceSettingsFacts.

Import Flick.

Lemma device_settings_callback_fields (hw : Hw) (g : Globals) :
  let r1 := SwitchCapture.Process (p_sw1_capture g) (toggleswitch_1 hw) in
  let r2 := SwitchCapture.Process (p_sw2_capture g) (toggleswitch_2 hw) in
  let r3 := SwitchCapture.Process (p_sw3_capture g) (toggleswitch_3 hw) in
  let g' := AudioCallback_device_settings hw g in
  device_modes g' =
    (at_index kReverbKnobMap (fst r1) 0%Z, at_index kPolarityMap (fst r2) 0%Z,
     at_index kMonoStereoMap (fst r3) 0%Z) /\
  p_sw1_capture g' = snd r1 /\ p_sw2_capture g' = snd r2 /\ p_sw3_capture g' = snd r3 /\
  pedal_mode g' = pedal_mode g /\
  local_settings g' = local_settings g /\
  trigger_settings_save g' = trigger_settings_save g /\
  bypass g' = bypass g.
Proof.
  destruct g as [pm ? ? ? r ? ? ? ? ? ? ? ? ? ? ? ? ? ? ? ? ? ? s1 s2 s3 ? ? ? ? ? ? ? ? ? ?].
  destruct r. cbv zeta.
  unfold AudioCallback_device_settings, device_modes, reverb_dry_mode, updateReverbScales.
  cbn -[at_index SwitchCapture.Process kReverbKnobMap kPolarityMap kMonoStereoMap Z.eqb].
  destruct (SwitchCapture.Process s1 (toggleswitch_1 hw)) as [v1 c1].
  cbn -[at_index SwitchCapture.Process kReverbKnobMap kPolarityMap kMonoStereoMap Z.eqb].
  case_ifs;
    cbn -[at_index SwitchCapture.Process kReverbKnobMap kPolarityMap kMonoStereoMap Z.eqb];
    destruct (SwitchCapture.Process s2 (toggleswitch_2 hw)) as [v2 c2];
    cbn -[at_index SwitchCapture.Process kReverbKnobMap kPolarityMap kMonoStereoMap Z.eqb];
    destruct (SwitchCapture.Process s3 (toggleswitch_3 hw)) as [v3 c3];
    cbn -[at_index SwitchCapture.Process kReverbKnobMap kPolarityMap kMonoStereoMap Z.eqb];
    case_ifs; repeat split; reflexivity.
Qed.

Lemma device_settings_entry (hw : Hw) (g : Globals) :
  pedal_mode g = PEDAL_MODE_NORMAL ->
  TapTempoState.just_exited_tap_tempo (tap_tempo g) = false ->
  (footswitch_1_pressed hw && footswitch_2_pressed hw)%bool = false ->
  let g1 := handleLongPress hw FOOTSWITCH_2 g in
  pedal_mode g1 = PEDAL_MODE_EDIT_DEVICE_SETTINGS /\
  device_modes g1 = device_modes g /\
  saved_device_modes g1 = saved_device_modes g /\
  p_sw1_capture g1 =
    SwitchCapture.mk (toggleswitch_1 hw) true
      (switchPosForValue kReverbKnobMap (ReverbOrchestrator.knob_mode (reverb g))) /\
  p_sw2_capture g1 =
    SwitchCapture.mk (toggleswitch_2 hw) true
      (switchPosForValue kPolarityMap (polarity_mode g)) /\
  p_sw3_capture g1 =
    SwitchCapture.mk (toggleswitch_3 hw) true
      (switchPosForValue kMonoStereoMap (mono_stereo_mode g)).
Proof.
  destruct g as [pm ? ? b r ? ? ? ? ? ? ? ? ? ? ? st t ? ? ? ? ? s1 s2 s3 ? ? ? ? ? ? ? ? ? ?].
  destruct t as [ts c ds ms lt fc je kb kc]. destruct st as [fl s d]. destruct s.
  destruct r, b.
  cbn [pedal_mode tap_tempo TapTempoState.just_exited_tap_tempo].
  intros -> -> Hb. cbv zeta. unfold handleLongPress.
  cbn [pedal_mode tap_tempo TapTempoState.just_exited_tap_tempo PedalMode_eqb orb].
  unfold handleNormalPress.
  cbn -[switchPosForValue kReverbKnobMap kPolarityMap kMonoStereoMap].
  rewrite Hb.
  repeat split; reflexivity.
Qed.

Lemma device_settings_exit (hw : Hw) (g : Globals) :
  pedal_mode g = PEDAL_MODE_EDIT_DEVICE_SETTINGS ->
  (pedal_mode (handleNormalPress hw FOOTSWITCH_1 g) = PEDAL_MODE_NORMAL /\
   device_modes (handleNormalPress hw FOOTSWITCH_1 g) = saved_device_modes g /\
   saved_device_modes (handleNormalPress hw FOOTSWITCH_1 g) = saved_device_modes g /\
   trigger_settings_save (handleNormalPress hw FOOTSWITCH_1 g) = trigger_settings_save g) /\
  (pedal_mode (handleNormalPress hw FOOTSWITCH_2 g) = PEDAL_MODE_NORMAL /\
   device_modes (handleNormalPress hw FOOTSWITCH_2 g) = device_modes g /\
   saved_device_modes (handleNormalPress hw FOOTSWITCH_2 g) = device_modes g /\
   trigger_settings_save (handleNormalPress hw FOOTSWITCH_2 g) = true).
Proof.
  destruct g as [pm ? ? b r ? ? ? ? ? ? ? ? ? ? ? st t ? ? ? ? ? s1 s2 s3 ? ? ? ? ? ? ? ? ? ?].
  destruct t as [ts c ds ms lt fc je kb kc]. destruct st as [fl s d]. destruct s.
  destruct r, b.
  cbn [pedal_mode]. intros ->.
  unfold handleNormalPress, restoreDeviceSettings, updateReverbScales.
  cbn -[Z.eqb]. case_ifs; repeat split; reflexivity.
Qed.

Lemma at_index_switchPosForValue (map : list Z) (value d : Z) :
  In value map -> at_index map (switchPosForValue map value) d = value.
Proof.
  intros Hin. unfold switchPosForValue, at_index.
  destruct (switchPosForValue_from_range map 0 value Hin) as [Hr Hv].
  rewrite Z.sub_0_r in Hv.
  destruct (Z.leb_spec 0 (switchPosForValue_from 0 map value)); [|lia].
  destruct (Z.ltb_spec (switchPosForValue_from 0 map value) (Z.of_nat (length map)));
    [|lia].
  cbn [andb]. rewrite <- Hv at 2. apply nth_indep. lia.
Qed.

Lemma SwitchProcess_unmoved (position frozen : Z) :
  SwitchCapture.Process (SwitchCapture.mk position true frozen) position =
  (frozen, SwitchCapture.mk position true frozen).
Proof.
  unfold SwitchCapture.Process. cbn. now rewrite Z.eqb_refl.
Qed.

(** While the edit lasts: the pedal stays in the device-settings mode and
    the working copy of the stored settings is not assigned. *)
Lemma device_settings_callbacks_frame (hws : list Hw) (g : Globals) :
  pedal_mode (device_settings_callbacks hws g) = pedal_mode g /\
  saved_device_modes (device_settings_callbacks hws g) = saved_device_modes g /\
  trigger_settings_save (device_settings_callbacks hws g) = trigger_settings_save g /\
  bypass (device_settings_callbacks hws g) = bypass g.
Proof.
  revert g. induction hws as [|hw hws IH]; intros g; [repeat split; reflexivity|].
  cbn [device_settings_callbacks fold_left].
  destruct (IH (AudioCallback_device_settings hw g)) as (I1 & I2 & I3 & I4).
  destruct (device_settings_callback_fields hw g) as (_ & _ & _ & _ & F1 & F2 & F3 & F4).
  unfold device_settings_callbacks in *. rewrite I1, I2, I3, I4.
  unfold saved_device_modes. rewrite F1, F2, F3, F4. repeat split; reflexivity.
Qed.

Lemma device_settings_callbacks_unmoved (hw : Hw) (km pol ms : Z) (hws : list Hw) :
  In km kReverbKnobMap -> In pol kPolarityMap -> In ms kMonoStereoMap ->
  Forall (fun later => toggleswitches later = toggleswitches hw) hws ->
  forall g : Globals,
    device_modes g = (km, pol, ms) ->
    p_sw1_capture g =
      SwitchCapture.mk (toggleswitch_1 hw) true (switchPosForValue kReverbKnobMap km) ->
    p_sw2_capture g =
      SwitchCapture.mk (toggleswitch_2 hw) true (switchPosForValue kPolarityMap pol) ->
    p_sw3_capture g =
      SwitchCapture.mk (toggleswitch_3 hw) true (switchPosForValue kMonoStereoMap ms) ->
    device_modes (device_settings_callbacks hws g) = (km, pol, ms).
Proof.
  intros Hk Hp Hm HF. induction HF as [|later hws Hl HF IH]; intros g Hd H1 H2 H3.
  - exact Hd.
  - cbn [device_settings_callbacks fold_left].
    destruct (device_settings_callback_fields later g) as (F0 & C1 & C2 & C3 & _).
    unfold toggleswitches in Hl. injection Hl as E1 E2 E3.
    rewrite H1, H2, H3, E1, E2, E3, !SwitchProcess_unmoved in *.
    cbn [fst snd] in *.
    rewrite !at_index_switchPosForValue in F0 by assumption.
    apply IH; assumption.
Qed.

(** A device-settings edit, from the long press of footswitch 2 in Normal
    mode to the press that ends it.  However the switches are moved during
    the edit, the pedal stays in the edit mode and the stored settings are
    not touched; the press of footswitch 1 cancels: it puts the three device
    settings back to what they were before the edit (the stored ones) and
    asks for no save; the press of footswitch 2 keeps the edited settings,
    copies them to the stored settings and asks for a save.  As long as no
    switch has left the position it had at the long press, the edit changes
    none of the three settings (each being one its switch can select). *)
Theorem device_settings_edit_session (hw exit : Hw) (hws : list Hw) (g : Globals) :
  pedal_mode g = PEDAL_MODE_NORMAL ->
  TapTempoState.just_exited_tap_tempo (tap_tempo g) = false ->
  (footswitch_1_pressed hw && footswitch_2_pressed hw)%bool = false ->
  saved_device_modes g = device_modes g ->
  let editing := device_settings_callbacks hws (handleLongPress hw FOOTSWITCH_2 g) in
  let cancelled := handleNormalPress exit FOOTSWITCH_1 editing in
  let saved := handleNormalPress exit FOOTSWITCH_2 editing in
  pedal_mode editing = PEDAL_MODE_EDIT_DEVICE_SETTINGS /\
  saved_device_modes editing = device_modes g /\
  (pedal_mode cancelled = PEDAL_MODE_NORMAL /\
   device_modes cancelled = device_modes g /\
   saved_device_modes cancelled = device_modes g /\
   trigger_settings_save cancelled = trigger_settings_save editing) /\
  (pedal_mode saved = PEDAL_MODE_NORMAL /\
   device_modes saved = device_modes editing /\
   saved_device_modes saved = device_modes editing /\
   trigger_settings_save saved = true) /\
  (In (ReverbOrchestrator.knob_mode (reverb g)) kReverbKnobMap ->
   In (polarity_mode g) kPolarityMap ->
   In (mono_stereo_mode g) kMonoStereoMap ->
   Forall (fun later => toggleswitches later = toggleswitches hw) hws ->
   device_modes editing = device_modes g).
Proof.
  intros Hm Hg Hb Hs editing cancelled saved.
  destruct (device_settings_entry hw g Hm Hg Hb) as (E1 & E2 & E3 & C1 & C2 & C3).
  destruct (device_settings_callbacks_frame hws (handleLongPress hw FOOTSWITCH_2 g))
    as (F1 & F2 & _ & _).
  fold editing in F1, F2.
  assert (Hmode : pedal_mode editing = PEDAL_MODE_EDIT_DEVICE_SETTINGS)
    by (rewrite F1; exact E1).
  assert (Hsaved : saved_device_modes editing = device_modes g)
    by (rewrite F2, E3; exact Hs).
  destruct (device_settings_exit exit editing Hmode) as [(X1 & X2 & X3 & X4) Y].
  split; [exact Hmode|]. split; [exact Hsaved|]. split; [|split].
  - subst cancelled. rewrite X2, X3, Hsaved. repeat split; assumption.
  - exact Y.
  - intros Hk Hp Hms HF.
    apply (device_settings_callbacks_unmoved hw _ _ _ hws Hk Hp Hms HF); assumption.
Qed.

End DeviceSettingsFacts.

Lemma device_settings_edit_session_witness :
  Flick.device_modes
    (Flick.handleNormalPress Flick.example_hw Flick.FOOTSWITCH_1
       (Flick.device_settings_callbacks
          [Flick.example_hw; Flick.mkHw 1010 0 2 0 0.5 false false 0.5 0.5 0.5 0.5 0.5 24000 0.3 50]
          (Flick.handleLongPress Flick.example_hw Flick.FOOTSWITCH_2
             (Flick.power_on None)))) =
  Flick.device_modes (Flick.power_on None).
Proof.
  refine (proj1 (proj2 (proj1 (proj2 (proj2
            (device_settings_edit_session Flick.example_hw Flick.example_hw
               [Flick.example_hw;
                Flick.mkHw 1010 0 2 0 0.5 false false 0.5 0.5 0.5 0.5 0.5 24000 0.3 50]
               (Flick.power_on None) _ _ _ _))))));
    vm_compute; reflexivity.
Defined.

(** ** Editing the plate reverb *)

Section ReverbEditFacts.

Import Flick.

Lemma updatePlateReverbParameters_frame (g : Globals) :
  reverb (updatePlateReverbParameters g) = reverb g /\
  pedal_mode (updatePlateReverbParameters g) = pedal_mode g /\
  local_settings (updatePlateReverbParameters g) = local_settings g /\
  trigger_settings_save (updatePlateReverbParameters g) = trigger_settings_save g /\
  bypass (updatePlateReverbParameters g) = bypass g /\
  p_knob_2_capture (updatePlateReverbParameters g) = p_knob_2_capture g /\
  p_knob_3_capture (updatePlateReverbParameters g) = p_knob_3_capture g /\
  p_knob_4_capture (updatePlateReverbParameters g) = p_knob_4_capture g /\
  p_knob_5_capture (updatePlateReverbParameters g) = p_knob_5_capture g /\
  p_knob_6_capture (updatePlateReverbParameters g) = p_knob_6_capture g /\
  p_sw1_capture (updatePlateReverbParameters g) = p_sw1_capture g /\
  p_sw2_capture (updatePlateReverbParameters g) = p_sw2_capture g /\
  p_sw3_capture (updatePlateReverbParameters g) = p_sw3_capture g.
Proof. destruct g. repeat split; reflexivity. Qed.

Lemma edit_reverb_callback_fields (hw : Hw) (g : Globals) :
  let k2 := KnobCapture.Process (p_knob_2_capture g) (p_knob_2 hw) in
  let k3 := KnobCapture.Process (p_knob_3_capture g) (p_knob_3 hw) in
  let k4 := KnobCapture.Process (p_knob_4_capture g) (p_knob_4 hw) in
  let k5 := KnobCapture.Process (p_knob_5_capture g) (p_knob_5 hw) in
  let k6 := KnobCapture.Process (p_knob_6_capture g) (p_knob_6 hw) in
  let s1 := SwitchCapture.Process (p_sw1_capture g) (toggleswitch_1 hw) in
  let s2 := SwitchCapture.Process (p_sw2_capture g) (toggleswitch_2 hw) in
  let s3 := SwitchCapture.Process (p_sw3_capture g) (toggleswitch_3 hw) in
  let g' := AudioCallback_edit_reverb hw g in
  plate_settings g' =
    (fst k2, fst k3, fst k4, fst k5, fst k6, fst s1, fst s2, fst s3) /\
  (p_knob_2_capture g' = snd k2 /\ p_knob_3_capture g' = snd k3 /\
   p_knob_4_capture g' = snd k4 /\ p_knob_5_capture g' = snd k5 /\
   p_knob_6_capture g' = snd k6 /\ p_sw1_capture g' = snd s1 /\
   p_sw2_capture g' = snd s2 /\ p_sw3_capture g' = snd s3) /\
  pedal_mode g' = pedal_mode g /\
  local_settings g' = local_settings g /\
  trigger_settings_save g' = trigger_settings_save g /\
  bypass g' = bypass g.
Proof.
  cbv zeta. unfold AudioCallback_edit_reverb, plate_settings.
  destruct g as [pm ? ? ? r ? ? ? ? ? ? ? ? ? ? ? ? ? c2 c3 c4 c5 c6 w1 w2 w3 ? ? ? ? ? ? ? ? ? ?].
  destruct r.
  cbn -[KnobCapture.Process SwitchCapture.Process updatePlateReverbParameters].
  destruct (KnobCapture.Process c2 (p_knob_2 hw)) as [v2 d2].
  cbn -[KnobCapture.Process SwitchCapture.Process updatePlateReverbParameters].
  destruct (KnobCapture.Process c3 (p_knob_3 hw)) as [v3 d3].
  cbn -[KnobCapture.Process SwitchCapture.Process updatePlateReverbParameters].
  destruct (KnobCapture.Process c4 (p_knob_4 hw)) as [v4 d4].
  cbn -[KnobCapture.Process SwitchCapture.Process updatePlateReverbParameters].
  destruct (KnobCapture.Process c5 (p_knob_5 hw)) as [v5 d5].
  cbn -[KnobCapture.Process SwitchCapture.Process updatePlateReverbParameters].
  destruct (KnobCapture.Process c6 (p_knob_6 hw)) as [v6 d6].
  cbn -[KnobCapture.Process SwitchCapture.Process updatePlateReverbParameters].
  destruct (SwitchCapture.Process w1 (toggleswitch_1 hw)) as [x1 e1].
  cbn -[KnobCapture.Process SwitchCapture.Process updatePlateReverbParameters].
  destruct (SwitchCapture.Process w2 (toggleswitch_2 hw)) as [x2 e2].
  cbn -[KnobCapture.Process SwitchCapture.Process updatePlateReverbParameters].
  destruct (SwitchCapture.Process w3 (toggleswitch_3 hw)) as [x3 e3].
  cbn -[KnobCapture.Process SwitchCapture.Process updatePlateReverbParameters].
  match goal with
  | |- context [updatePlateReverbParameters ?x] =>
      destruct (updatePlateReverbParameters_frame x)
        as (-> & -> & -> & -> & -> & -> & -> & -> & -> & -> & -> & -> & ->)
  end.
  repeat split; reflexivity.
Qed.

Lemma normal_press_1_frame (hw : Hw) (g : Globals) :
  pedal_mode g = PEDAL_MODE_NORMAL ->
  let g' := handleNormalPress hw FOOTSWITCH_1 g in
  pedal_mode g' = PEDAL_MODE_NORMAL /\
  reverb g' = reverb g /\
  saved_plate_settings g' = saved_plate_settings g /\
  p_knob_2_capture g' = p_knob_2_capture g /\
  p_knob_3_capture g' = p_knob_3_capture g /\
  p_knob_4_capture g' = p_knob_4_capture g /\
  p_knob_5_capture g' = p_knob_5_capture g /\
  p_knob_6_capture g' = p_knob_6_capture g /\
  p_sw1_capture g' = p_sw1_capture g /\
  p_sw2_capture g' = p_sw2_capture g /\
  p_sw3_capture g' = p_sw3_capture g.
Proof.
  destruct g as [pm ? ? b ? ? ? ? ? ? ? ? ? ? ? ? ? t ? ? ? ? ? ? ? ? cr ? ? ? ? ? ? ? ? ?].
  cbn [pedal_mode]. intros ->.
  destruct b as [[|] ? ?]; destruct cr as [[| |]|]; repeat split; reflexivity.
Qed.

Lemma reverb_edit_entry (hw : Hw) (g : Globals) :
  pedal_mode g = PEDAL_MODE_NORMAL ->
  TapTempoState.just_exited_tap_tempo (tap_tempo g) = false ->
  (footswitch_1_pressed hw && footswitch_2_pressed hw)%bool = false ->
  let g1 := handleLongPress hw FOOTSWITCH_1 g in
  let r := reverb g in
  pedal_mode g1 = PEDAL_MODE_EDIT_REVERB /\
  BypassState.reverb (bypass g1) = false /\
  plate_settings g1 = plate_settings g /\
  saved_plate_settings g1 = saved_plate_settings g /\
  p_knob_2_capture g1 =
    KnobCapture.mk (p_knob_2 hw) (ReverbOrchestrator.plate_pre_delay r) true
      (KnobCapture.threshold_ (p_knob_2_capture g)) /\
  p_knob_3_capture g1 =
    KnobCapture.mk (p_knob_3 hw) (ReverbOrchestrator.plate_decay r) true
      (KnobCapture.threshold_ (p_knob_3_capture g)) /\
  p_knob_4_capture g1 =
    KnobCapture.mk (p_knob_4 hw) (ReverbOrchestrator.plate_diffusion r) true
      (KnobCapture.threshold_ (p_knob_4_capture g)) /\
  p_knob_5_capture g1 =
    KnobCapture.mk (p_knob_5 hw) (ReverbOrchestrator.plate_input_damp_high r) true
      (KnobCapture.threshold_ (p_knob_5_capture g)) /\
  p_knob_6_capture g1 =
    KnobCapture.mk (p_knob_6 hw) (ReverbOrchestrator.plate_tank_damp_high r) true
      (KnobCapture.threshold_ (p_knob_6_capture g)) /\
  p_sw1_capture g1 =
    SwitchCapture.mk (toggleswitch_1 hw) true (ReverbOrchestrator.plate_mod_speed_pos r) /\
  p_sw2_capture g1 =
    SwitchCapture.mk (toggleswitch_2 hw) true (ReverbOrchestrator.plate_mod_depth_pos r) /\
  p_sw3_capture g1 =
    SwitchCapture.mk (toggleswitch_3 hw) true (ReverbOrchestrator.plate_mod_shape_pos r).
Proof.
  intros Hm Hg Hb. cbv zeta. unfold handleLongPress.
  rewrite Hg, Hm. cbn [PedalMode_eqb orb]. rewrite Hb. cbn [is_FOOTSWITCH_1].
  destruct (normal_press_1_frame hw g Hm)
    as (N0 & N1 & N2 & K2 & K3 & K4 & K5 & K6 & S1 & S2 & S3).
  unfold plate_settings.
  rewrite <- N1, <- N2, <- K2, <- K3, <- K4, <- K5, <- K6.
  clear N0 N1 N2 K2 K3 K4 K5 K6 S1 S2 S3.
  generalize (handleNormalPress hw FOOTSWITCH_1 g). intros g1.
  destruct g1. repeat split; reflexivity.
Qed.

Lemma reverb_edit_exit (hw : Hw) (g : Globals) :
  pedal_mode g = PEDAL_MODE_EDIT_REVERB ->
  (pedal_mode (handleNormalPress hw FOOTSWITCH_1 g) = PEDAL_MODE_NORMAL /\
   plate_settings (handleNormalPress hw FOOTSWITCH_1 g) = saved_plate_settings g /\
   saved_plate_settings (handleNormalPress hw FOOTSWITCH_1 g) = saved_plate_settings g /\
   trigger_settings_save (handleNormalPress hw FOOTSWITCH_1 g) = trigger_settings_save g /\
   bypass (handleNormalPress hw FOOTSWITCH_1 g) = bypass g) /\
  (pedal_mode (handleNormalPress hw FOOTSWITCH_2 g) = PEDAL_MODE_NORMAL /\
   plate_settings (handleNormalPress hw FOOTSWITCH_2 g) = plate_settings g /\
   saved_plate_settings (handleNormalPress hw FOOTSWITCH_2 g) = plate_settings g /\
   trigger_settings_save (handleNormalPress hw FOOTSWITCH_2 g) = true /\
   bypass (handleNormalPress hw FOOTSWITCH_2 g) = bypass g).
Proof.
  destruct g as [pm ? ? b r ? ? ? ? ? ? ? ? ? ? ? st t c2 c3 c4 c5 c6 w1 w2 w3 cr ? ? ? ? ? ? ? ? ?].
  destruct t as [ts c ds ms lt fc je kb kc]. destruct st as [fl s d]. destruct s.
  destruct r, b.
  cbn [pedal_mode]. intros ->.
  unfold handleNormalPress.
  cbn [pedal_mode PedalMode_eqb upd_tap_tempo set_tap_tempo is_FOOTSWITCH_2].
  split; repeat split; reflexivity.
Qed.

Lemma KnobProcess_held (captured frozen threshold knob : float) :
  Qabs (fsub knob captured) < threshold ->
  KnobCapture.Process (KnobCapture.mk captured frozen true threshold) knob =
  (frozen, KnobCapture.mk captured frozen true threshold).
Proof.
  intros H. unfold KnobCapture.Process.
  cbn [KnobCapture.is_frozen_ KnobCapture.captured_knob_value_ KnobCapture.threshold_
       KnobCapture.frozen_value_ negb].
  unfold fabs. now rewrite (proj2 (geb_false_iff _ _) H).
Qed.

Lemma SwitchProcess_held (position frozen : Z) :
  SwitchCapture.Process (SwitchCapture.mk position true frozen) position =
  (frozen, SwitchCapture.mk position true frozen).
Proof. unfold SwitchCapture.Process. cbn. now rewrite Z.eqb_refl. Qed.

Lemma edit_reverb_callbacks_frame (hws : list Hw) (g : Globals) :
  pedal_mode (edit_reverb_callbacks hws g) = pedal_mode g /\
  saved_plate_settings (edit_reverb_callbacks hws g) = saved_plate_settings g /\
  trigger_settings_save (edit_reverb_callbacks hws g) = trigger_settings_save g /\
  bypass (edit_reverb_callbacks hws g) = bypass g.
Proof.
  revert g. induction hws as [|hw hws IH]; intros g; [repeat split; reflexivity|].
  cbn [edit_reverb_callbacks fold_left].
  destruct (IH (AudioCallback_edit_reverb hw g)) as (I1 & I2 & I3 & I4).
  destruct (edit_reverb_callback_fields hw g) as (_ & _ & F1 & F2 & F3 & F4).
  unfold edit_reverb_callbacks in *. rewrite I1, I2, I3, I4.
  unfold saved_plate_settings. rewrite F1, F2, F3, F4. repeat split; reflexivity.
Qed.

Lemma edit_reverb_callbacks_held (hw : Hw) (hws : list Hw)
  (v2 v3 v4 v5 v6 t2 t3 t4 t5 t6 : float) (x1 x2 x3 : Z) :
  Forall (fun later =>
            toggleswitches later = toggleswitches hw /\
            Qabs (fsub (p_knob_2 later) (p_knob_2 hw)) < t2 /\
            Qabs (fsub (p_knob_3 later) (p_knob_3 hw)) < t3 /\
            Qabs (fsub (p_knob_4 later) (p_knob_4 hw)) < t4 /\
            Qabs (fsub (p_knob_5 later) (p_knob_5 hw)) < t5 /\
            Qabs (fsub (p_knob_6 later) (p_knob_6 hw)) < t6) hws ->
  forall g : Globals,
    plate_settings g = (v2, v3, v4, v5, v6, x1, x2, x3) ->
    p_knob_2_capture g = KnobCapture.mk (p_knob_2 hw) v2 true t2 ->
    p_knob_3_capture g = KnobCapture.mk (p_knob_3 hw) v3 true t3 ->
    p_knob_4_capture g = KnobCapture.mk (p_knob_4 hw) v4 true t4 ->
    p_knob_5_capture g = KnobCapture.mk (p_knob_5 hw) v5 true t5 ->
    p_knob_6_capture g = KnobCapture.mk (p_knob_6 hw) v6 true t6 ->
    p_sw1_capture g = SwitchCapture.mk (toggleswitch_1 hw) true x1 ->
    p_sw2_capture g = SwitchCapture.mk (toggleswitch_2 hw) true x2 ->
    p_sw3_capture g = SwitchCapture.mk (toggleswitch_3 hw) true x3 ->
    plate_settings (edit_reverb_callbacks hws g) = (v2, v3, v4, v5, v6, x1, x2, x3).
Proof.
  intros HF. induction HF as [|later hws Hl HF IH];
    intros g Hd K2 K3 K4 K5 K6 S1 S2 S3.
  - exact Hd.
  - cbn [edit_reverb_callbacks fold_left].
    destruct (edit_reverb_callback_fields later g)
      as (F0 & (C2 & C3 & C4 & C5 & C6 & D1 & D2 & D3) & _).
    destruct Hl as (Hsw & H2 & H3 & H4 & H5 & H6).
    unfold toggleswitches in Hsw. injection Hsw as E1 E2 E3.
    rewrite K2, K3, K4, K5, K6, S1, S2, S3, E1, E2, E3 in *.
    rewrite (KnobProcess_held _ _ _ _ H2), (KnobProcess_held _ _ _ _ H3),
      (KnobProcess_held _ _ _ _ H4), (KnobProcess_held _ _ _ _ H5),
      (KnobProcess_held _ _ _ _ H6), !SwitchProcess_held in *.
    cbn [fst snd] in *.
    apply IH; assumption.
Qed.

(** A reverb edit, from the long press of footswitch 1 in Normal mode to
    the press that ends it.  The long press switches the reverb on; however
    the controls are moved during the edit, the pedal stays in the edit mode
    and the stored settings are not touched.  The press of footswitch 1
    cancels: the eight plate parameters are again what they were before the
    edit (the stored ones) and no save is asked for; the press of footswitch
    2 keeps the edited parameters, copies them to the stored settings and
    asks for a save.  Neither press gives the reverb bypass back its old
    value.  As long as no switch has moved and no knob has moved by its
    capture threshold or more since the long press (the movement of a knob
    being the single-precision difference of its reading and the reading at
    the long press, which is what its capture compares with the threshold),
    the edit changes none of the eight parameters. *)
Theorem reverb_edit_session (hw exit : Hw) (hws : list Hw) (g : Globals) :
  pedal_mode g = PEDAL_MODE_NORMAL ->
  TapTempoState.just_exited_tap_tempo (tap_tempo g) = false ->
  (footswitch_1_pressed hw && footswitch_2_pressed hw)%bool = false ->
  saved_plate_settings g = plate_settings g ->
  let editing := edit_reverb_callbacks hws (handleLongPress hw FOOTSWITCH_1 g) in
  let cancelled := handleNormalPress exit FOOTSWITCH_1 editing in
  let saved := handleNormalPress exit FOOTSWITCH_2 editing in
  pedal_mode editing = PEDAL_MODE_EDIT_REVERB /\
  BypassState.reverb (bypass editing) = false /\
  saved_plate_settings editing = plate_settings g /\
  (pedal_mode cancelled = PEDAL_MODE_NORMAL /\
   plate_settings cancelled = plate_settings g /\
   saved_plate_settings cancelled = plate_settings g /\
   trigger_settings_save cancelled = trigger_settings_save editing /\
   BypassState.reverb (bypass cancelled) = false) /\
  (pedal_mode saved = PEDAL_MODE_NORMAL /\
   plate_settings saved = plate_settings editing /\
   saved_plate_settings saved = plate_settings editing /\
   trigger_settings_save saved = true /\
   BypassState.reverb (bypass saved) = false) /\
  (Forall (controls_held g hw) hws -> plate_settings editing = plate_settings g).
Proof.
  intros Hm Hg Hb Hs editing cancelled saved.
  destruct (reverb_edit_entry hw g Hm Hg Hb)
    as (E1 & E2 & E3 & E4 & K2 & K3 & K4 & K5 & K6 & S1 & S2 & S3).
  destruct (edit_reverb_callbacks_frame hws (handleLongPress hw FOOTSWITCH_1 g))
    as (F1 & F2 & _ & F4).
  fold editing in F1, F2, F4.
  assert (Hmode : pedal_mode editing = PEDAL_MODE_EDIT_REVERB)
    by (rewrite F1; exact E1).
  assert (Hby : BypassState.reverb (bypass editing) = false)
    by (rewrite F4; exact E2).
  assert (Hsaved : saved_plate_settings editing = plate_settings g)
    by (rewrite F2, E4; exact Hs).
  destruct (reverb_edit_exit exit editing Hmode)
    as [(X1 & X2 & X3 & X4 & X5) (Y1 & Y2 & Y3 & Y4 & Y5)].
  split; [exact Hmode|]. split; [exact Hby|]. split; [exact Hsaved|].
  split; [|split].
  - subst cancelled. rewrite X2, X3, X5, Hsaved. repeat split; assumption.
  - subst saved. rewrite Y5. repeat split; assumption.
  - intros HF.
    exact (edit_reverb_callbacks_held hw hws _ _ _ _ _
             (KnobCapture.threshold_ (p_knob_2_capture g))
             (KnobCapture.threshold_ (p_knob_3_capture g))
             (KnobCapture.threshold_ (p_knob_4_capture g))
             (KnobCapture.threshold_ (p_knob_5_capture g))
             (KnobCapture.threshold_ (p_knob_6_capture g)) _ _ _
             HF _ E3 K2 K3 K4 K5 K6 S1 S2 S3).
Qed.

End ReverbEditFacts.

Lemma reverb_edit_session_witness :
  Flick.plate_settings
    (Flick.handleNormalPress Flick.example_hw Flick.FOOTSWITCH_1
       (Flick.edit_reverb_callbacks
          [Flick.example_hw; Flick.mkHw 1010 0 2 0 0.5 false false 0.9 0.1 0.5 0.5 0.5 24000 0.3 50]
          (Flick.handleLongPress Flick.example_hw Flick.FOOTSWITCH_1
             (Flick.power_on None)))) =
  Flick.plate_settings (Flick.power_on None).
Proof.
  refine (proj1 (proj2 (proj1 (proj2 (proj2 (proj2
            (reverb_edit_session Flick.example_hw Flick.example_hw
               [Flick.example_hw;
                Flick.mkHw 1010 0 2 0 0.5 false false 0.9 0.1 0.5 0.5 0.5 24000 0.3 50]
               (Flick.power_on None) _ _ _ _)))))));
    vm_compute; reflexivity.
Defined.

(** ** The filters of flick_filters.hpp *)

Section FilterFacts.

Import RealFilters.
Local Open Scope R_scope.

Lemma pole_range (fc fs : R) :
  0 < fc -> 0 < fs -> 0 < exp (-2 * PI * fc / fs) < 1.
Proof.
  intros Hc Hs. split; [apply exp_pos|].
  rewrite <- exp_0. apply exp_increasing.
  assert (Hp := PI_RGT_0).
  assert (H : 0 < 2 * PI * fc / fs).
  { apply Rdiv_lt_0_compat; [|exact Hs]. nra. }
  replace (-2 * PI * fc / fs) with (- (2 * PI * fc / fs)) by (field; lra). lra.
Qed.

Lemma omega_range (f0 Q fs : R) :
  audible f0 Q fs -> 0 < 2 * PI * f0 / fs < PI.
Proof.
  intros (H0 & H1 & _). assert (Hp := PI_RGT_0). assert (Hs : 0 < fs) by lra.
  split.
  - apply Rdiv_lt_0_compat; [nra|exact Hs].
  - apply Rmult_lt_reg_r with fs; [exact Hs|].
    replace (2 * PI * f0 / fs * fs) with (PI * (2 * f0)) by (field; lra).
    apply Rmult_lt_compat_l; assumption.
Qed.

Lemma alpha_pos (f0 Q fs : R) :
  audible f0 Q fs -> 0 < sin (2 * PI * f0 / fs) / (2 * Q).
Proof.
  intros H. destruct (omega_range _ _ _ H) as [O1 O2]. destruct H as (_ & _ & HQ).
  apply Rdiv_lt_0_compat; [now apply sin_gt_0|lra].
Qed.

Lemma gain_pos (gain_db : R) : 0 < Rpower 10 (gain_db / 40).
Proof. unfold Rpower. apply exp_pos. Qed.

Lemma gain_square (gain_db : R) :
  Rpower 10 (gain_db / 40) * Rpower 10 (gain_db / 40) = Rpower 10 (gain_db / 20).
Proof. rewrite <- Rpower_plus. f_equal. field. Qed.

(** *** The one-pole low-pass *)

Lemma low_pass_step (a p x M : R) :
  0 < a < 1 -> Rabs x <= M -> Rabs p <= M -> Rabs ((1 - a) * x + a * p) <= M.
Proof.
  intros Ha Hx Hp.
  assert (Hx' : - M <= x <= M) by (unfold Rabs in Hx; destruct (Rcase_abs x); lra).
  assert (Hp' : - M <= p <= M) by (unfold Rabs in Hp; destruct (Rcase_abs p); lra).
  apply Rabs_le. split; nra.
Qed.

Lemma low_pass_bounded (a M : R) (xs : list R) :
  0 < a < 1 -> Forall (fun x => Rabs x <= M) xs ->
  forall p : R, Rabs p <= M ->
    Forall (fun y => Rabs y <= M)
      (fst (LowPassFilter.ProcessAll (LowPassFilter.mk a p) xs)) /\
    Rabs (LowPassFilter.prev_y
            (snd (LowPassFilter.ProcessAll (LowPassFilter.mk a p) xs))) <= M.
Proof.
  intros Ha HF. induction HF as [|x xs Hx HF IH]; intros p Hp.
  - cbn. split; [constructor|exact Hp].
  - cbn [LowPassFilter.ProcessAll LowPassFilter.Process LowPassFilter.alpha
         LowPassFilter.prev_y].
    pose proof (low_pass_step a p x M Ha Hx Hp) as Hy.
    destruct (IH _ Hy) as [I1 I2].
    destruct (LowPassFilter.ProcessAll
                (LowPassFilter.mk a ((1 - a) * x + a * p)) xs) as [ys f2].
    cbn [fst snd] in *. split; [constructor; assumption|exact I2].
Qed.

Lemma low_pass_constant (a c : R) (n : nat) :
  forall p : R,
    LowPassFilter.prev_y
      (snd (LowPassFilter.ProcessAll (LowPassFilter.mk a p) (repeat c n))) - c =
    a ^ n * (p - c).
Proof.
  induction n as [|n IH]; intros p.
  - cbn. ring.
  - cbn [repeat LowPassFilter.ProcessAll LowPassFilter.Process LowPassFilter.alpha
         LowPassFilter.prev_y].
    specialize (IH ((1 - a) * c + a * p)).
    destruct (LowPassFilter.ProcessAll
                (LowPassFilter.mk a ((1 - a) * c + a * p)) (repeat c n)) as [ys f2].
    cbn [snd] in *. rewrite IH. cbn [pow]. ring.
Qed.

(** The low-pass filter has its pole strictly between 0 and 1 for a
    positive cut-off and sample rate.  It never produces more than it is
    given: when the inputs and the stored output are at most [M] in size, so
    is every output.  On a constant input it closes in on that constant: the
    distance to it is multiplied by the pole at every sample. *)
Theorem low_pass_settles (f : LowPassFilter.t) (fc fs : R) :
  0 < fc -> 0 < fs ->
  let lp := LowPassFilter.Init f fc fs in
  0 < LowPassFilter.alpha lp < 1 /\
  (forall (M : R) (xs : list R),
     Forall (fun x => Rabs x <= M) xs -> Rabs (LowPassFilter.prev_y f) <= M ->
     Forall (fun y => Rabs y <= M) (fst (LowPassFilter.ProcessAll lp xs))) /\
  (forall (c : R) (n : nat),
     LowPassFilter.prev_y (snd (LowPassFilter.ProcessAll lp (repeat c n))) - c =
     LowPassFilter.alpha lp ^ n * (LowPassFilter.prev_y f - c)).
Proof.
  intros Hc Hs lp. pose proof (pole_range fc fs Hc Hs) as Ha.
  split; [exact Ha|]. split.
  - intros M xs HF Hp. now apply low_pass_bounded.
  - intros c n. apply low_pass_constant.
Qed.

(** *** The one-pole high-pass *)

Lemma high_pass_constant (a c : R) (n : nat) :
  forall y0 : R,
    snd (HighPassFilter.ProcessAll (HighPassFilter.mk a c y0) (repeat c n)) =
      HighPassFilter.mk a c (a ^ n * y0) /\
    forall k : nat, (k < n)%nat ->
      nth k (fst (HighPassFilter.ProcessAll (HighPassFilter.mk a c y0) (repeat c n))) 0
      = a ^ (S k) * y0.
Proof.
  induction n as [|n IH]; intros y0.
  - cbn. split; [f_equal; ring|]. intros k Hk. inversion Hk.
  - cbn [repeat HighPassFilter.ProcessAll HighPassFilter.Process HighPassFilter.alpha
         HighPassFilter.prev_x HighPassFilter.prev_y].
    replace ((1 + a) * 0.5 * (c - c) + a * y0) with (a * y0) by ring.
    destruct (IH (a * y0)) as [I1 I2].
    destruct (HighPassFilter.ProcessAll (HighPassFilter.mk a c (a * y0)) (repeat c n))
      as [ys f2].
    cbn [fst snd] in *. split.
    + rewrite I1. f_equal. cbn [pow]. ring.
    + intros [|k] Hk; cbn [nth].
      * cbn [pow]. ring.
      * rewrite I2 by (apply Nat.succ_lt_mono; exact Hk). cbn [pow]. ring.
Qed.

(** The high-pass filter blocks a constant.  For a positive cut-off and
    sample rate its pole lies strictly between 0 and 1, and once the input
    stays at the value it had at the previous sample, each output is the
    previous output times the pole: after [k + 1] such samples the output is
    [alpha^(k+1)] times the output it started from, whatever the constant. *)
Theorem high_pass_blocks_constant (f : HighPassFilter.t) (fc fs : R) (n : nat) :
  0 < fc -> 0 < fs ->
  let hp := HighPassFilter.Init f fc fs in
  let c := HighPassFilter.prev_x f in
  0 < HighPassFilter.alpha hp < 1 /\
  (forall k : nat, (k < n)%nat ->
     nth k (fst (HighPassFilter.ProcessAll hp (repeat c n))) 0 =
     HighPassFilter.alpha hp ^ (S k) * HighPassFilter.prev_y f) /\
  HighPassFilter.prev_y (snd (HighPassFilter.ProcessAll hp (repeat c n))) =
    HighPassFilter.alpha hp ^ n * HighPassFilter.prev_y f.
Proof.
  intros Hc Hs hp c. pose proof (pole_range fc fs Hc Hs) as Ha.
  split; [exact Ha|].
  destruct (high_pass_constant (exp (-2 * PI * fc / fs)) c n (HighPassFilter.prev_y f))
    as [I1 I2].
  split.
  - exact I2.
  - unfold hp, HighPassFilter.Init. fold c. rewrite I1. reflexivity.
Qed.

(** *** The peaking equaliser *)

Lemma peaking_a0_pos (f0 gain_db Q fs : R) :
  audible f0 Q fs ->
  0 < 1 + sin (2 * PI * f0 / fs) / (2 * Q) / Rpower 10 (gain_db / 40).
Proof.
  intros H. pose proof (alpha_pos _ _ _ H) as Ha. pose proof (gain_pos gain_db) as HA.
  assert (0 < sin (2 * PI * f0 / fs) / (2 * Q) / Rpower 10 (gain_db / 40))
    by (apply Rdiv_lt_0_compat; assumption).
  lra.
Qed.

Lemma peaking_flat_step (f : PeakingEQ.t) (f0 Q fs x : R) :
  audible f0 Q fs ->
  PeakingEQ.x1 f = PeakingEQ.y1 f -> PeakingEQ.x2 f = PeakingEQ.y2 f ->
  PeakingEQ.Process (PeakingEQ.Init f f0 0 Q fs) x =
  (x, PeakingEQ.Init (PeakingEQ.mk 0 0 0 0 0 x (PeakingEQ.x1 f) x (PeakingEQ.y1 f))
        f0 0 Q fs).
Proof.
  intros H E1 E2.
  pose proof (peaking_a0_pos f0 0 Q fs H) as Ha0.
  unfold PeakingEQ.Process, PeakingEQ.Init.
  cbn [PeakingEQ.b0 PeakingEQ.b1 PeakingEQ.b2 PeakingEQ.a1 PeakingEQ.a2
       PeakingEQ.x1 PeakingEQ.x2 PeakingEQ.y1 PeakingEQ.y2].
  revert Ha0.
  replace (Rpower 10 (0 / 40)) with 1
    by (unfold Rdiv; rewrite Rmult_0_l, Rpower_O; [reflexivity|lra]).
  set (al := sin (2 * PI * f0 / fs) / (2 * Q)). set (co := cos (2 * PI * f0 / fs)).
  intros Ha0. rewrite <- E1, <- E2.
  assert (Hy : (1 + al * 1) / (1 + al / 1) * x
               + -2 * co / (1 + al / 1) * PeakingEQ.x1 f
               + (1 - al * 1) / (1 + al / 1) * PeakingEQ.x2 f
               - -2 * co / (1 + al / 1) * PeakingEQ.x1 f
               - (1 - al / 1) / (1 + al / 1) * PeakingEQ.x2 f = x)
    by (field; lra).
  rewrite Hy. reflexivity.
Qed.

Lemma peaking_flat_all (f0 Q fs : R) (xs : list R) :
  audible f0 Q fs ->
  forall f : PeakingEQ.t,
    PeakingEQ.x1 f = PeakingEQ.y1 f -> PeakingEQ.x2 f = PeakingEQ.y2 f ->
    fst (PeakingEQ.ProcessAll (PeakingEQ.Init f f0 0 Q fs) xs) = xs.
Proof.
  intros H. induction xs as [|x xs IH]; intros f E1 E2; [reflexivity|].
  cbn [PeakingEQ.ProcessAll]. rewrite (peaking_flat_step f f0 Q fs x H E1 E2).
  specialize (IH (PeakingEQ.mk 0 0 0 0 0 x (PeakingEQ.x1 f) x (PeakingEQ.y1 f))
                eq_refl E1).
  destruct (PeakingEQ.ProcessAll
              (PeakingEQ.Init (PeakingEQ.mk 0 0 0 0 0 x (PeakingEQ.x1 f) x (PeakingEQ.y1 f))
                 f0 0 Q fs) xs) as [ys f2].
  cbn [fst] in *. now rewrite IH.
Qed.

(** The peaking equaliser leaves the bottom of the spectrum alone and does
    nothing at 0 dB.  For a centre frequency below half the sample rate and
    a positive Q: whatever the gain, a filter at rest on a constant input
    with that same constant as output answers the constant again and stays
    at rest; and with a gain of 0 dB a filter whose stored outputs equal its
    stored inputs (as in the zero state it starts in) returns every input
    sample unchanged. *)
Theorem peaking_eq_unity (f : PeakingEQ.t) (f0 gain_db Q fs : R) :
  audible f0 Q fs ->
  (forall c : R, PeakingEQ.settled f c c ->
     PeakingEQ.Process (PeakingEQ.Init f f0 gain_db Q fs) c =
       (c, PeakingEQ.Init f f0 gain_db Q fs)) /\
  (PeakingEQ.x1 f = PeakingEQ.y1 f -> PeakingEQ.x2 f = PeakingEQ.y2 f ->
   forall xs : list R,
     fst (PeakingEQ.ProcessAll (PeakingEQ.Init f f0 0 Q fs) xs) = xs).
Proof.
  intros H. split.
  - intros c (X1 & X2 & Y1 & Y2).
    pose proof (peaking_a0_pos f0 gain_db Q fs H) as Ha0.
    pose proof (gain_pos gain_db) as HA.
    unfold PeakingEQ.Process, PeakingEQ.Init.
    cbn [PeakingEQ.b0 PeakingEQ.b1 PeakingEQ.b2 PeakingEQ.a1 PeakingEQ.a2
         PeakingEQ.x1 PeakingEQ.x2 PeakingEQ.y1 PeakingEQ.y2].
    rewrite X1, X2, Y1, Y2.
    revert Ha0 HA.
    set (A := Rpower 10 (gain_db / 40)).
    set (al := sin (2 * PI * f0 / fs) / (2 * Q)). set (co := cos (2 * PI * f0 / fs)).
    intros Ha0 HA.
    assert (Hy : (1 + al * A) / (1 + al / A) * c + -2 * co / (1 + al / A) * c
                 + (1 - al * A) / (1 + al / A) * c - -2 * co / (1 + al / A) * c
                 - (1 - al / A) / (1 + al / A) * c = c).
    { field. split; [lra|]. intros E.
      assert (E' : 1 + al / A = (A + al) / A) by (field; lra).
      rewrite E' in Ha0. unfold Rdiv in Ha0. rewrite E in Ha0. lra. }
    rewrite Hy. reflexivity.
  - intros E1 E2 xs. now apply peaking_flat_all.
Qed.

(** *** The low shelf *)

Lemma shelf_a0_pos (A sq al co : R) :
  0 < A -> 0 < sq -> 0 < al -> -1 <= co <= 1 ->
  0 < (A + 1) + (A - 1) * co + 2 * sq * al.
Proof. intros HA Hs Hal Hc. nra. Qed.

(** The low shelf has the gain it is given at the bottom of the spectrum.
    For a corner frequency below half the sample rate and a positive Q, a
    filter at rest on the constant input [c] with the output
    [10^(gain_db/20) * c] answers that output again and stays at rest. *)
Theorem low_shelf_dc_gain (f : LowShelf.t) (f0 gain_db Q fs c : R) :
  audible f0 Q fs ->
  LowShelf.settled f c (Rpower 10 (gain_db / 20) * c) ->
  LowShelf.Process (LowShelf.Init f f0 gain_db Q fs) c =
    (Rpower 10 (gain_db / 20) * c, LowShelf.Init f f0 gain_db Q fs).
Proof.
  intros H (X1 & X2 & Y1 & Y2).
  pose proof (alpha_pos _ _ _ H) as Hal.
  pose proof (gain_pos gain_db) as HA.
  pose proof (COS_bound (2 * PI * f0 / fs)) as Hco.
  pose proof (sqrt_lt_R0 _ HA) as Hsq.
  pose proof (shelf_a0_pos _ _ _ _ HA Hsq Hal Hco) as Ha0.
  unfold LowShelf.Process, LowShelf.Init.
  cbn [LowShelf.b0 LowShelf.b1 LowShelf.b2 LowShelf.a1 LowShelf.a2
       LowShelf.x1 LowShelf.x2 LowShelf.y1 LowShelf.y2].
  rewrite X1, X2, Y1, Y2, <- gain_square.
  revert Ha0 HA Hsq.
  set (A := Rpower 10 (gain_db / 40)). set (sq := sqrt A).
  set (al := sin (2 * PI * f0 / fs) / (2 * Q)). set (co := cos (2 * PI * f0 / fs)).
  intros Ha0 HA Hsq.
  set (a0 := A + 1 + (A - 1) * co + 2 * sq * al) in *.
  assert (Hy : A * (A + 1 - (A - 1) * co + 2 * sq * al) / a0 * c
               + 2 * A * (A - 1 - (A + 1) * co) / a0 * c
               + A * (A + 1 - (A - 1) * co - 2 * sq * al) / a0 * c
               - -2 * (A - 1 + (A + 1) * co) / a0 * (A * A * c)
               - (A + 1 + (A - 1) * co - 2 * sq * al) / a0 * (A * A * c)
               = A * A * c).
  { unfold a0. field. fold a0. lra. }
  rewrite Hy. reflexivity.
Qed.

End FilterFacts.

Lemma low_pass_settles_witness :
  (0 < RealFilters.LowPassFilter.alpha
         (RealFilters.LowPassFilter.Init RealFilters.LowPassFilter.make 100 48000) < 1)%R.
Proof.
  refine (proj1 (low_pass_settles RealFilters.LowPassFilter.make 100 48000 _ _)); lra.
Defined.

Lemma high_pass_blocks_constant_witness :
  (0 < RealFilters.HighPassFilter.alpha
         (RealFilters.HighPassFilter.Init RealFilters.HighPassFilter.make 100 48000) < 1)%R.
Proof.
  refine (proj1 (high_pass_blocks_constant RealFilters.HighPassFilter.make 100 48000 0 _ _));
    lra.
Defined.

Lemma peaking_eq_unity_witness :
  fst (RealFilters.PeakingEQ.ProcessAll
         (RealFilters.PeakingEQ.Init RealFilters.PeakingEQ.make 6020 0 40 48000)
         [1; -1; 0.5]%R) = [1; -1; 0.5]%R.
Proof.
  refine (proj2 (peaking_eq_unity RealFilters.PeakingEQ.make 6020 0 40 48000 _)
            eq_refl eq_refl _).
  unfold RealFilters.audible. lra.
Defined.

Lemma low_shelf_dc_gain_witness :
  RealFilters.LowShelf.Process
    (RealFilters.LowShelf.Init
       (RealFilters.LowShelf.mk 0 0 0 0 0 1 1 (Rpower 10 (6 / 20) * 1) (Rpower 10 (6 / 20) * 1))
       200 6 0.7 48000) 1%R =
  ((Rpower 10 (6 / 20) * 1)%R,
   RealFilters.LowShelf.Init
     (RealFilters.LowShelf.mk 0 0 0 0 0 1 1 (Rpower 10 (6 / 20) * 1) (Rpower 10 (6 / 20) * 1))
     200 6 0.7 48000).
Proof.
  apply low_shelf_dc_gain.
  - unfold RealFilters.audible. lra.
  - unfold RealFilters.LowShelf.settled. cbn. repeat split; reflexivity.
Defined.

(** ** Instances on the example pedal *)

Lemma hall_mod_depth_range_witness :
  HallReverb.mod_depth_ (HallReverb.SetTankModDepth Flick.example_hall 10) = 10 * 0.2.
Proof.
  apply (hall_mod_depth_range Flick.example_hall 10). split; lra.
Defined.

Lemma plate_tank_mod_quantised_witness :
  PlateReverb.position_of (PlateReverb.value_at PlateReverb.PLATE_TANK_MOD_SPEED_VALUES 1) = 1%Z.
Proof.
  destruct (plate_tank_mod_quantised Flick.example_plate 0.2)
    as (_ & _ & _ & _ & _ & _ & _ & H).
  apply (H 1%Z). lia.
Defined.

Lemma reverb_stage_levels_witness :
  fst (Flick.apply_reverb Flick.silent_effects 1 (Flick.power_on None) (0.5, 0.25)) =
  (0.5, 0.25).
Proof.
  destruct (reverb_stage_levels Flick.silent_effects 1 (Flick.power_on None) (0.5, 0.25))
    as (_ & _ & _ & _ & H & _).
  apply H. vm_compute. reflexivity.
Defined.

(** ** Leaving tap tempo *)

Section TapTempoExitFacts.

Import Flick.

Lemma exitTapTempo_common (hw : Hw) (g : Globals) :
  pedal_mode (exitTapTempo hw g) = PEDAL_MODE_NORMAL /\
  trigger_settings_save (exitTapTempo hw g) = true /\
  Settings.tapped_delay_samples (local_settings (exitTapTempo hw g)) =
    TapTempoState.tapped_delay_samples (tap_tempo (exitTapTempo hw g)) /\
  KnobCapture.IsFrozen
    (TapTempoState.delay_knob_capture (tap_tempo (exitTapTempo hw g))) = false /\
  bypass (exitTapTempo hw g) = bypass g.
Proof.
  destruct g as [pm ? ? b ? ? ? ? ? ? ? ? ? ? ? ? st t ? ? ? ? ? ? ? ? ? ? ? ? ? ? ? ? ? ?].
  destruct t as [ts c ds ms lt fc je kb kc]. destruct st as [fl s d]. destruct s.
  destruct kc as [cv fv fr th]. destruct b.
  unfold exitTapTempo. cbv zeta.
  cbn [tap_tempo upd_tap_tempo set_tap_tempo TapTempoState.delay_knob_capture
       TapTempoState.set_delay_knob_capture TapTempoState.tapped_delay_samples
       KnobCapture.IsFrozen KnobCapture.is_frozen_ KnobCapture.Reset].
  destruct (negb fr || eqb ds 0)%bool; repeat split; reflexivity.
Qed.

Lemma exitTapTempo_kept (hw : Hw) (g : Globals) :
  KnobCapture.IsFrozen (TapTempoState.delay_knob_capture (tap_tempo g)) = true ->
  0 < TapTempoState.tapped_delay_samples (tap_tempo g) ->
  TapTempoState.tapped_delay_samples (tap_tempo (exitTapTempo hw g)) =
    TapTempoState.tapped_delay_samples (tap_tempo g) /\
  TapTempoState.knob_baseline (tap_tempo (exitTapTempo hw g)) = knob_4_value hw.
Proof.
  destruct g as [pm ? ? b ? ? ? ? ? ? ? ? ? ? ? ? st t ? ? ? ? ? ? ? ? ? ? ? ? ? ? ? ? ? ?].
  destruct t as [ts c ds ms lt fc je kb kc]. destruct st as [fl s d]. destruct s.
  destruct kc as [cv fv fr th].
  cbn [tap_tempo TapTempoState.delay_knob_capture TapTempoState.tapped_delay_samples
       KnobCapture.IsFrozen KnobCapture.is_frozen_].
  intros -> Hd.
  assert (E : eqb ds 0 = false).
  { unfold eqb. destruct (Qeq_bool ds 0) eqn:Q; [|reflexivity].
    apply Qeq_bool_eq in Q. rewrite Q in Hd. discriminate. }
  unfold exitTapTempo. cbv zeta.
  cbn [tap_tempo upd_tap_tempo set_tap_tempo TapTempoState.delay_knob_capture
       TapTempoState.set_delay_knob_capture TapTempoState.tapped_delay_samples
       KnobCapture.IsFrozen KnobCapture.is_frozen_ KnobCapture.Reset negb orb].
  rewrite E. split; reflexivity.
Qed.

Lemma exitTapTempo_cleared (hw : Hw) (g : Globals) :
  KnobCapture.IsFrozen (TapTempoState.delay_knob_capture (tap_tempo g)) = false \/
  TapTempoState.tapped_delay_samples (tap_tempo g) == 0 ->
  TapTempoState.tapped_delay_samples (tap_tempo (exitTapTempo hw g)) = 0 /\
  TapTempoState.knob_baseline (tap_tempo (exitTapTempo hw g)) = -1.
Proof.
  destruct g as [pm ? ? b ? ? ? ? ? ? ? ? ? ? ? ? st t ? ? ? ? ? ? ? ? ? ? ? ? ? ? ? ? ? ?].
  destruct t as [ts c ds ms lt fc je kb kc]. destruct st as [fl s d]. destruct s.
  destruct kc as [cv fv fr th].
  cbn [tap_tempo TapTempoState.delay_knob_capture TapTempoState.tapped_delay_samples
       KnobCapture.IsFrozen KnobCapture.is_frozen_].
  intros H.
  assert (E : (negb fr || eqb ds 0)%bool = true).
  { destruct H as [-> | H]; [reflexivity|].
    unfold eqb. rewrite (proj2 (Qeq_bool_iff ds 0) H). apply orb_true_r. }
  unfold exitTapTempo. cbv zeta.
  cbn [tap_tempo upd_tap_tempo set_tap_tempo TapTempoState.delay_knob_capture
       TapTempoState.set_delay_knob_capture TapTempoState.tapped_delay_samples
       KnobCapture.IsFrozen KnobCapture.is_frozen_ KnobCapture.Reset].
  rewrite E. split; reflexivity.
Qed.

(** What leaving tap tempo does with the tempo.  [exitTapTempo] puts the
    pedal in Normal mode, releases the knob capture, leaves the bypass flags
    alone and requests a save of the tapped delay it leaves.  When the
    delay-time knob was not moved during tap tempo and a tempo is stored,
    the tempo is kept with the knob's position as baseline, and Normal-mode
    callbacks go on using it while the knob stays within 0.05 of that
    position; when the knob was moved, or no tempo is stored, the tapped
    delay is cleared and the next callback takes the delay time from the
    knob. *)
Theorem exit_tap_tempo_keeps_tempo (hw later : Hw) (g : Globals) :
  let frozen := KnobCapture.IsFrozen (TapTempoState.delay_knob_capture (tap_tempo g)) in
  let tapped := TapTempoState.tapped_delay_samples (tap_tempo g) in
  let g1 := exitTapTempo hw g in
  (pedal_mode g1 = PEDAL_MODE_NORMAL /\
   trigger_settings_save g1 = true /\
   Settings.tapped_delay_samples (local_settings g1) =
     TapTempoState.tapped_delay_samples (tap_tempo g1) /\
   KnobCapture.IsFrozen (TapTempoState.delay_knob_capture (tap_tempo g1)) = false /\
   bypass g1 = bypass g) /\
  (frozen = true -> 0 < tapped ->
   TapTempoState.tapped_delay_samples (tap_tempo g1) = tapped /\
   (0 <= knob_4_value hw ->
    Qabs (knob_4_value later - knob_4_value hw) <= 0.05 ->
    delay_time_target (AudioCallback_delay later g1) =
      tapped * delay_timing_multiplier later /\
    tap_tempo (AudioCallback_delay later g1) = tap_tempo g1)) /\
  (frozen = false \/ tapped == 0 ->
   TapTempoState.tapped_delay_samples (tap_tempo g1) = 0 /\
   delay_time_target (AudioCallback_delay later g1) =
     p_delay_time later * delay_timing_multiplier later).
Proof.
  intros frozen tapped g1.
  pose proof (exitTapTempo_common hw g) as C. fold g1 in C.
  split; [exact C|]. destruct C as (Hm & _). split.
  - intros Hf Hd. destruct (exitTapTempo_kept hw g Hf Hd) as [K1 K2]. fold g1 in K1, K2.
    split; [exact K1|]. intros H0 Hk.
    destruct (normal_delay_kept later g1 Hm) as (T1 & T2 & _).
    + rewrite K1. exact Hd.
    + rewrite K2. exact H0.
    + rewrite K2. exact Hk.
    + rewrite T1, K1. split; [reflexivity|exact T2].
  - intros H. destruct (exitTapTempo_cleared hw g H) as [K1 K2]. fold g1 in K1, K2.
    split; [exact K1|].
    destruct (normal_delay_knob later g1 Hm) as (T1 & _).
    + rewrite K1. discriminate.
    + exact T1.
Qed.

End TapTempoExitFacts.

Lemma exit_tap_tempo_keeps_tempo_witness :
  Flick.delay_time_target
    (Flick.AudioCallback_delay Flick.example_hw
       (Flick.exitTapTempo Flick.example_hw
          (Flick.enterTapTempo Flick.example_hw
             (Flick.AudioCallback_delay Flick.example_hw (Flick.power_on None))))) =
  TapTempoState.tapped_delay_samples
    (Flick.tap_tempo
       (Flick.enterTapTempo Flick.example_hw
          (Flick.AudioCallback_delay Flick.example_hw (Flick.power_on None))))
  * Flick.delay_timing_multiplier Flick.example_hw.
Proof.
  refine (proj1 (proj2 (proj1 (proj2
            (exit_tap_tempo_keeps_tempo Flick.example_hw Flick.example_hw
               (Flick.enterTapTempo Flick.example_hw
                  (Flick.AudioCallback_delay Flick.example_hw (Flick.power_on None)))))
            _ _) _ _));
    vm_compute; try reflexivity; discriminate.
Defined.

(** ** The plate reverb follows the orchestrator *)

Section PlateFollowsFacts.

Import Flick.

Lemma three_positions (i : Z) : (0 <= i <= 2)%Z -> i = 0%Z \/ i = 1%Z \/ i = 2%Z.
Proof. lia. Qed.

Lemma updatePlateReverbParameters_SetParams (g : Globals) :
  mod_positions_valid g ->
  plate_reverb (updatePlateReverbParameters g) =
  PlateReverb.SetParams (plate_reverb g) (orchestrator_params g).
Proof.
  destruct g as [? ? ? ? r ? ? ? ? ? ? ? ? ? ? ? ? ? ? ? ? ? ? ? ? ? ? p ? ? ? ? ? ? ? ?].
  destruct r as [ct km dr wt pd dc df ih th sp dp shp]. destruct p as [v q].
  destruct v, q.
  unfold mod_positions_valid.
  cbn [reverb ReverbOrchestrator.plate_mod_speed_pos ReverbOrchestrator.plate_mod_depth_pos
       ReverbOrchestrator.plate_mod_shape_pos].
  intros (H1 & H2 & H3).
  destruct (three_positions _ H1) as [ -> | [ -> | -> ] ];
    destruct (three_positions _ H2) as [ -> | [ -> | -> ] ];
    destruct (three_positions _ H3) as [ -> | [ -> | -> ] ];
    vm_compute; reflexivity.
Qed.

Lemma SetParams_holds (p : PlateReverb.t) (q : PlateReverb.Params) :
  PlateReverb.GetParams (PlateReverb.SetParams p q) = q /\
  PlateReverb.mirrors (PlateReverb.SetParams p q).
Proof. destruct p as [v r]. destruct v, q. split; reflexivity. Qed.

Lemma updatePlateReverbParameters_follows (g : Globals) :
  mod_positions_valid (updatePlateReverbParameters g) ->
  PlateReverb.GetParams (plate_reverb (updatePlateReverbParameters g)) =
  orchestrator_params (updatePlateReverbParameters g).
Proof.
  destruct (updatePlateReverbParameters_frame g) as (R & _).
  unfold mod_positions_valid, orchestrator_params. rewrite R. intros H.
  rewrite (updatePlateReverbParameters_SetParams g H).
  apply SetParams_holds.
Qed.

(** After [updatePlateReverbParameters] the plate reverb holds the
    orchestrator's plate parameters: for modulation positions 0, 1 or 2 its
    eight setter calls amount to one [SetParams] with the orchestrator's
    values, so that [GetParams] returns them and the tank is set from them;
    nothing else of the globals changes.  The edit-reverb branch of the
    audio callback and the loading and restoring of settings end with this
    call. *)
Theorem plate_follows_orchestrator (hw : Hw) (g : Globals) :
  mod_positions_valid g ->
  let g' := updatePlateReverbParameters g in
  plate_reverb g' = PlateReverb.SetParams (plate_reverb g) (orchestrator_params g) /\
  PlateReverb.GetParams (plate_reverb g') = orchestrator_params g' /\
  PlateReverb.mirrors (plate_reverb g') /\
  g' = set_plate_reverb (plate_reverb g') g /\
  (mod_positions_valid (AudioCallback_edit_reverb hw g) ->
   PlateReverb.GetParams (plate_reverb (AudioCallback_edit_reverb hw g)) =
     orchestrator_params (AudioCallback_edit_reverb hw g)) /\
  (mod_positions_valid (restoreReverbSettings g) ->
   PlateReverb.GetParams (plate_reverb (restoreReverbSettings g)) =
     orchestrator_params (restoreReverbSettings g)).
Proof.
  intros H g'.
  pose proof (updatePlateReverbParameters_SetParams g H) as E. fold g' in E.
  destruct (updatePlateReverbParameters_frame g) as (R & _). fold g' in R.
  split; [exact E|]. split; [|split; [|split; [|split]]].
  - unfold orchestrator_params. rewrite R, E. apply SetParams_holds.
  - rewrite E. apply SetParams_holds.
  - subst g'. destruct g. reflexivity.
  - unfold AudioCallback_edit_reverb.
    repeat match goal with
           | |- context [KnobCapture.Process ?c ?k] => destruct (KnobCapture.Process c k)
           | |- context [SwitchCapture.Process ?c ?k] => destruct (SwitchCapture.Process c k)
           end.
    apply updatePlateReverbParameters_follows.
  - unfold restoreReverbSettings. cbv zeta. apply updatePlateReverbParameters_follows.
Qed.

End PlateFollowsFacts.

Lemma plate_follows_orchestrator_witness :
  PlateReverb.GetParams
    (Flick.plate_reverb (Flick.updatePlateReverbParameters (Flick.power_on None))) =
  Flick.orchestrator_params (Flick.updatePlateReverbParameters (Flick.power_on None)).
Proof.
  refine (proj1 (proj2 (plate_follows_orchestrator Flick.example_hw
                          (Flick.power_on None) _))).
  vm_compute. repeat split; discriminate.
Defined.
